(** * Mr360ai analyzers: a shallow embedding of the scoring batteries and
      of the tone rewriter, with the properties of the specification.

    The JavaScript sources are
      assets/js/seo-checker.js, assets/js/adsense-checker.js,
      assets/js/static-checker.js, assets/js/low-value-analyzer.js and
      assets/js/content-humanizer.js.

    Conventions of the embedding.
    - A JavaScript string is a [string]; one [ascii] stands for one code
      unit in the range 0..255 (Latin-1).  Code units above 255 are out of
      the model.
    - Integers (lengths, counts, scores) are [Z]; the few genuinely
      fractional quantities (ratios, averages) are exact rationals [Q], so
      [Math.round] is [floor (x + 1/2)] on the exact quotient.  The
      program computes them as doubles: where the exact quotient lies
      within a rounding error of a half or of a bound, the number it shows
      or the branch it takes can be the neighbouring one ([23 / 40 * 100]
      is rounded to 57 by the program and to 58 here).  The properties
      below rest on no such case.
    - A function that can raise is a function into [result].
    - The browser services the code calls ([DOMParser], [URL], the [href]
      property of anchors and the namespace of an element, [Math.random])
      are parameters.
    - A selector compares class names as they are written, which is what
      the browser does for a page in no-quirks mode. *)

From Stdlib Require Import List String Ascii Bool ZArith NArith QArith Qround Lia.
From Stdlib Require Import DecimalString.
Import ListNotations.
Open Scope string_scope.
Open Scope Z_scope.

(* ================================================================== *)
(** * The JavaScript platform: strings, numbers, regular expressions  *)
(* ================================================================== *)

Module JS.

(** ** Exceptions *)

Inductive result (A : Type) : Type :=
| Ok (a : A)
| Throw (error : string).
Arguments Ok {A} a.
Arguments Throw {A} error.

Definition bind {A B : Type} (m : result A) (f : A -> result B) : result B :=
  match m with
  | Ok a => f a
  | Throw e => Throw e
  end.

(** ** Characters *)

Definition code (c : ascii) : N := N_of_ascii c.

Definition in_range (lo hi : N) (c : ascii) : bool :=
  ((lo <=? code c) && (code c <=? hi))%N.

Definition is_digit (c : ascii) : bool := in_range 48 57 c.
Definition is_lower (c : ascii) : bool := in_range 97 122 c.
Definition is_upper (c : ascii) : bool := in_range 65 90 c.

(** [\w] *)
Definition is_word (c : ascii) : bool :=
  is_lower c || is_upper c || is_digit c || (code c =? 95)%N.

(** [\s] and the characters removed by [trim]: TAB, LF, VT, FF, CR, SP and
    NBSP are the ones below 256. *)
Definition is_space (c : ascii) : bool :=
  in_range 9 13 c || (code c =? 32)%N || (code c =? 160)%N.

(** LineTerminator, for [^] under the [m] flag. *)
Definition is_line_terminator (c : ascii) : bool :=
  (code c =? 10)%N || (code c =? 13)%N.

(** [toLowerCase] on one code unit: A-Z, and the Latin-1 capitals
    U+00C0..U+00DE except the multiplication sign U+00D7. *)
Definition lower (c : ascii) : ascii :=
  if is_upper c || (in_range 192 222 c && negb (code c =? 215)%N)
  then ascii_of_N (code c + 32)
  else c.

Definition char_eqb (a b : ascii) : bool := Ascii.eqb a b.

(** Equality of code units under the [i] flag, for an ASCII pattern
    character [a]. *)
Definition char_eqb_ci (a b : ascii) : bool :=
  Ascii.eqb a b
  || (is_upper a && Ascii.eqb (lower a) b)
  || (is_lower a && is_upper b && Ascii.eqb a (lower b)).

(** ** Strings *)

Definition str (c : ascii) : string := String c EmptyString.

Definition LF : string := str (ascii_of_N 10).
Definition dquote : string := str (ascii_of_N 34).
Definition copyright_sign : string := str (ascii_of_N 169).

Definition length (s : string) : Z := Z.of_nat (String.length s).

Fixpoint toLowerCase (s : string) : string :=
  match s with
  | EmptyString => EmptyString
  | String c s' => String (lower c) (toLowerCase s')
  end.

(** [s.startsWith(prefix)] *)
Fixpoint startsWith (s prefix : string) : bool :=
  match prefix with
  | EmptyString => true
  | String a prefix' =>
      match s with
      | EmptyString => false
      | String b s' => Ascii.eqb a b && startsWith s' prefix'
      end
  end.

(** [s.includes(search)] *)
Fixpoint includes (s search : string) : bool :=
  startsWith s search
  || match s with
     | EmptyString => false
     | String _ s' => includes s' search
     end.

Fixpoint trimStart (s : string) : string :=
  match s with
  | EmptyString => EmptyString
  | String c s' => if is_space c then trimStart s' else s
  end.

Fixpoint trimEnd (s : string) : string :=
  match s with
  | EmptyString => EmptyString
  | String c s' =>
      match trimEnd s' with
      | EmptyString => if is_space c then EmptyString else str c
      | t => String c t
      end
  end.

Definition trim (s : string) : string := trimEnd (trimStart s).

(** [s.slice(n)] for [0 <= n]. *)
Fixpoint drop (n : nat) (s : string) : string :=
  match n, s with
  | O, _ => s
  | S n', String _ s' => drop n' s'
  | S _, EmptyString => EmptyString
  end.

(** [s.slice(0, n)] for [0 <= n]. *)
Fixpoint take (n : nat) (s : string) : string :=
  match n, s with
  | O, _ => EmptyString
  | S n', String c s' => String c (take n' s')
  | S _, EmptyString => EmptyString
  end.

(** [s.charAt(0)] *)
Definition charAt0 (s : string) : string :=
  match s with
  | EmptyString => EmptyString
  | String c _ => str c
  end.

(** [xs.join(sep)] *)
Definition join (sep : string) (xs : list string) : string := String.concat sep xs.

Definition string_mem (x : string) (xs : list string) : bool :=
  existsb (String.eqb x) xs.

(** Decimal rendering of an integer inside a template literal. *)
Definition of_Z (z : Z) : string := NilZero.string_of_int (Z.to_int z).

(** ** Numbers *)

(** [Math.round]: the integer nearest to [x], ties towards +infinity; of
    the exact number, where the program rounds a double. *)
Definition Math_round (x : Q) : Z := Qfloor (x + (1 # 2)).

Definition Math_floor (x : Q) : Z := Qfloor x.

Definition Math_max (a b : Q) : Q := if Qle_bool a b then b else a.

Definition Math_min (a b : Z) : Z := Z.min a b.

Definition Qlt_bool (a b : Q) : bool := negb (Qle_bool b a).

Definition of_int (z : Z) : Q := inject_Z z.

(** A quotient of a positive number: [Infinity] when the divisor is 0. *)
Inductive number : Type :=
| Finite (q : Q)
| Infinity.

Definition divide (a b : Z) : number :=
  if b =? 0 then Infinity else Finite (of_int a / of_int b).

(** [x > bound] *)
Definition exceeds (x : number) (bound : Q) : bool :=
  match x with
  | Finite q => Qlt_bool bound q
  | Infinity => true
  end.

(** The text of [Math.round(x)] in a template literal. *)
Definition rounded (x : number) : string :=
  match x with
  | Finite q => of_Z (Math_round q)
  | Infinity => "Infinity"
  end.

(** [x.toFixed(1)] for [0 <= x], of the exact number. *)
Definition toFixed1 (x : Q) : string :=
  let n := Math_round (x * 10) in
  of_Z (n / 10) ++ "." ++ of_Z (n mod 10).

(** Truthiness of a string: the empty string is falsy. *)
Definition truthy (s : string) : bool := negb (String.eqb s EmptyString).

(** [xs.push(x)] *)
Definition push {A : Type} (xs : list A) (x : A) : list A := xs ++ [x].

(** [xs.length] *)
Definition count {A : Type} (xs : list A) : Z := Z.of_nat (List.length xs).

(** ** Regular expressions

    The fragment of the RegExp syntax that the sources use: character
    classes, sequence, alternation, greedy repetition, the word boundary
    [\b], the input start [^], the line start [^] of the [m] flag, the
    input end [$] and a one-character look-behind.  The matcher is the backtracking matcher of the language
    definition, in continuation style: alternatives are tried left to
    right and a repetition tries one more iteration before it tries to
    stop, so the first success is the match JavaScript reports.  The state
    is the code unit before the current position (if any) and the rest of
    the input. *)

Inductive regex : Type :=
| Eps
| Chr (p : ascii -> bool)
| Seq (r1 r2 : regex)
| Alt (r1 r2 : regex)
| Star (r : regex)
| WordB
| InputStart
| LineStart
| InputEnd
| Behind (p : ascii -> bool).

Definition cont : Type := option ascii -> string -> option string.

Definition is_word_before (prev : option ascii) : bool :=
  match prev with
  | Some c => is_word c
  | None => false
  end.

Definition is_word_at (s : string) : bool :=
  match s with
  | String c _ => is_word c
  | EmptyString => false
  end.

(** A greedy repetition: at most [n] iterations of [body], one more
    iteration being tried before stopping. *)
Fixpoint iterate (body : cont -> cont) (k : cont) (n : nat) : cont :=
  fun prev s =>
    match n with
    | O => k prev s
    | S n' =>
        match body (iterate body k n') prev s with
        | Some rest => Some rest
        | None => k prev s
        end
    end.

(** Every repetition in the sources has a body that consumes at least one
    code unit, so an iteration count never exceeds the length of the rest
    of the input, which is the bound of the loop. *)
Fixpoint rmatch (r : regex) (k : cont) (prev : option ascii) (s : string)
  {struct r} : option string :=
  match r with
  | Eps => k prev s
  | Chr p =>
      match s with
      | String c s' => if p c then k (Some c) s' else None
      | EmptyString => None
      end
  | Seq r1 r2 => rmatch r1 (rmatch r2 k) prev s
  | Alt r1 r2 =>
      match rmatch r1 k prev s with
      | Some rest => Some rest
      | None => rmatch r2 k prev s
      end
  | Star r' => iterate (rmatch r') k (String.length s) prev s
  | WordB =>
      if xorb (is_word_before prev) (is_word_at s) then k prev s else None
  | InputStart =>
      match prev with
      | None => k prev s
      | Some _ => None
      end
  | LineStart =>
      match prev with
      | None => k prev s
      | Some c => if is_line_terminator c then k prev s else None
      end
  | InputEnd =>
      match s with
      | EmptyString => k prev s
      | String _ _ => None
      end
  | Behind p =>
      match prev with
      | Some c => if p c then k prev s else None
      | None => None
      end
  end.

(** Derived forms. *)
Definition Plus (r : regex) : regex := Seq r (Star r).

(** [r{n,}] *)
Fixpoint AtLeast (n : nat) (r : regex) : regex :=
  match n with
  | O => Star r
  | S n' => Seq r (AtLeast n' r)
  end.

(** [r{n}] *)
Fixpoint Exactly (n : nat) (r : regex) : regex :=
  match n with
  | O => Eps
  | S n' => Seq r (Exactly n' r)
  end.

Definition Char (c : string) : regex :=
  match c with
  | String a _ => Chr (char_eqb a)
  | EmptyString => Eps
  end.

(** The pattern text [w], taken literally; [ci] is the [i] flag. *)
Fixpoint Lit (ci : bool) (w : string) : regex :=
  match w with
  | EmptyString => Eps
  | String a w' => Seq (Chr (if ci then char_eqb_ci a else char_eqb a)) (Lit ci w')
  end.

Definition one_of (cs : string) (c : ascii) : bool := includes cs (str c).

(** [(w1|w2|...)] with literal alternatives *)
Fixpoint AnyOf (ws : list string) : regex :=
  match ws with
  | [] => Chr (fun _ => false)
  | [w] => Lit false w
  | w :: ws' => Alt (Lit false w) (AnyOf ws')
  end.

(** One attempt at the current position: the rest of the input after the
    match, if there is one. *)
Definition exec (re : regex) (prev : option ascii) (s : string) : option string :=
  rmatch re (fun _ rest => Some rest) prev s.

(** [re.test(s)] *)
Fixpoint test_from (re : regex) (prev : option ascii) (s : string) : bool :=
  match exec re prev s with
  | Some _ => true
  | None =>
      match s with
      | EmptyString => false
      | String c s' => test_from re (Some c) s'
      end
  end.

Definition test (re : regex) (s : string) : bool := test_from re None s.

Fixpoint last_of (prev : option ascii) (m : string) : option ascii :=
  match m with
  | EmptyString => prev
  | String c m' => last_of (Some c) m'
  end.

(** The text matched, given the input and what is left after the match. *)
Definition matched (s rest : string) : string :=
  take (String.length s - String.length rest) s.

(** [s.match(re)] for a [g] regex: all matches, left to right (the empty
    list stands for [null]). *)
Fixpoint match_from (re : regex) (fuel : nat) (prev : option ascii) (s : string)
  : list string :=
  match fuel with
  | O => []
  | S fuel' =>
      let advance (_ : unit) :=
        match s with
        | EmptyString => []
        | String c s' => match_from re fuel' (Some c) s'
        end in
      match exec re prev s with
      | Some rest =>
          let m := matched s rest in
          match m with
          | EmptyString => m :: advance tt
          | _ => m :: match_from re fuel' (last_of prev m) rest
          end
      | None => advance tt
      end
  end.

Definition match_all (re : regex) (s : string) : list string :=
  match_from re (S (String.length s)) None s.

(** [s.replace(re, by)] for a [g] regex and a replacement text without
    [$]. *)
Fixpoint replace_from (re : regex) (by_ : string) (fuel : nat)
  (prev : option ascii) (s : string) : string :=
  match fuel with
  | O => s
  | S fuel' =>
      let advance (_ : unit) :=
        match s with
        | EmptyString => EmptyString
        | String c s' => String c (replace_from re by_ fuel' (Some c) s')
        end in
      match exec re prev s with
      | Some rest =>
          match matched s rest with
          | EmptyString => by_ ++ advance tt
          | m => by_ ++ replace_from re by_ fuel' (last_of prev m) rest
          end
      | None => advance tt
      end
  end.

Definition replace (re : regex) (by_ : string) (s : string) : string :=
  replace_from re by_ (S (String.length s)) None s.

(** [s.split(re)] for a regex without capture groups.  [seg] is the piece
    collected since the last separator. *)
Fixpoint split_from (re : regex) (fuel : nat) (seg : string)
  (prev : option ascii) (s : string) : list string :=
  match fuel with
  | O => [seg ++ s]
  | S fuel' =>
      match s with
      | EmptyString => [seg]
      | String c s' =>
          let advance (_ : unit) := split_from re fuel' (seg ++ str c) (Some c) s' in
          match exec re prev s with
          | Some rest =>
              match seg, matched s rest with
              | EmptyString, EmptyString => advance tt
              | _, m => seg :: split_from re fuel' EmptyString (last_of prev m) rest
              end
          | None => advance tt
          end
      end
  end.

Definition split (re : regex) (s : string) : list string :=
  match s with
  | EmptyString =>
      match exec re None s with
      | Some _ => []
      | None => [s]
      end
  | _ => split_from re (2 * String.length s) EmptyString None s
  end.

(** Classes and patterns shared by the sources. *)
Definition whitespace : regex := Plus (Chr is_space).          (* /\s+/ *)

(** [new Set(xs).size] *)
Fixpoint distinct (xs : list string) (seen : list string) : list string :=
  match xs with
  | [] => seen
  | x :: xs' => distinct xs' (if string_mem x seen then seen else seen ++ [x])
  end.

Definition Set_size (xs : list string) : Z := count (distinct xs []).

End JS.

(* ================================================================== *)
(** * The parsed document                                              *)
(* ================================================================== *)

(** The tree that [DOMParser.parseFromString(html, 'text/html')] returns,
    reduced to what the checks query: elements with their attributes, and
    text.  The HTML parser always builds [html], [head] and [body], so a
    document has them by construction; tag and attribute names are in
    lower case, as the parser leaves them. *)

Module Dom.
Import JS.

Definition attribute : Type := string * string.

#[warnings="-register-all"]
Inductive node : Type :=
| Text (data : string)
| Element (tag : string) (attrs : list attribute) (children : list node).

Record Document : Type := mkDocument {
  html_attrs : list attribute;
  head_attrs : list attribute;
  head_children : list node;
  body_attrs : list attribute;
  body_children : list node
}.

(** [doc.body] *)
Definition body (doc : Document) : node :=
  Element "body" (body_attrs doc) (body_children doc).

Definition documentElement (doc : Document) : node :=
  Element "html" (html_attrs doc)
    [Element "head" (head_attrs doc) (head_children doc); body doc].

Fixpoint lookup (name : string) (attrs : list attribute) : option string :=
  match attrs with
  | [] => None
  | (n, v) :: attrs' => if String.eqb n name then Some v else lookup name attrs'
  end.

(** [el.getAttribute(name)]: [None] is [null]. *)
Definition getAttribute (el : node) (name : string) : option string :=
  match el with
  | Element _ attrs _ => lookup name attrs
  | Text _ => None
  end.

(** [node.textContent] *)
Fixpoint textContent (n : node) : string :=
  match n with
  | Text data => data
  | Element _ _ children => String.concat "" (map textContent children)
  end.

(** ** Selectors

    The selectors of the sources are lists of descendant chains of
    compound selectors made of a type, a class, or an attribute test. *)

Inductive simple_selector : Type :=
| Tag (name : string)                 (* nav *)
| Class (name : string)               (* .nav *)
| HasAttr (name : string)             (* [charset] *)
| AttrIs (name value : string)        (* [name="description"] *)
| AttrStarts (name value : string).   (* [href^="mailto:"] *)

Definition compound : Type := list simple_selector.
(** outermost ancestor first, subject last *)
Definition complex : Type := list compound.
Definition selector : Type := list complex.

Definition is_ascii_whitespace (c : ascii) : bool :=
  (code c =? 9)%N || (code c =? 10)%N || (code c =? 12)%N
  || (code c =? 13)%N || (code c =? 32)%N.

Definition class_list (el : node) : list string :=
  match getAttribute el "class" with
  | Some v => split (Plus (Chr is_ascii_whitespace)) v
  | None => []
  end.

(** Attributes whose values selectors compare without regard to case in
    an HTML document; [rel] is the one the sources select on. *)
Definition value_ignores_case (name : string) : bool := String.eqb name "rel".

Definition matches_simple (s : simple_selector) (el : node) : bool :=
  match el with
  | Text _ => false
  | Element tag _ _ =>
      match s with
      | Tag name => String.eqb tag name
      | Class name => string_mem name (class_list el)
      | HasAttr name =>
          match getAttribute el name with Some _ => true | None => false end
      | AttrIs name value =>
          match getAttribute el name with
          | Some v =>
              if value_ignores_case name
              then String.eqb (toLowerCase v) (toLowerCase value)
              else String.eqb v value
          | None => false
          end
      | AttrStarts name value =>
          match getAttribute el name with
          | Some v => negb (String.eqb value "") && startsWith v value
          | None => false
          end
      end
  end.

Definition matches_compound (c : compound) (el : node) : bool :=
  forallb (fun s => matches_simple s el) c.

(** [chain] innermost first; [ancestors] nearest first. *)
Fixpoint ancestors_match (chain : list compound) (ancestors : list node) : bool :=
  match chain with
  | [] => true
  | c :: chain' =>
      (fix find (ancestors : list node) : bool :=
         match ancestors with
         | [] => false
         | a :: ancestors' =>
             if matches_compound c a then ancestors_match chain' ancestors'
             else find ancestors'
         end) ancestors
  end.

Definition matches_complex (c : complex) (ancestors : list node) (el : node) : bool :=
  match rev c with
  | [] => false
  | subject :: chain => matches_compound subject el && ancestors_match chain ancestors
  end.

Definition matches (sel : selector) (ancestors : list node) (el : node) : bool :=
  existsb (fun c => matches_complex c ancestors el) sel.

(** The elements of the subtree [n] that match, in document order. *)
Fixpoint select (sel : selector) (ancestors : list node) (n : node) : list node :=
  match n with
  | Text _ => []
  | Element _ _ children =>
      (if matches sel ancestors n then [n] else [])
      ++ flat_map (select sel (n :: ancestors)) children
  end.

(** [doc.querySelectorAll(sel)] *)
Definition querySelectorAll (doc : Document) (sel : selector) : list node :=
  select sel [] (documentElement doc).

(** [doc.querySelector(sel)]: [None] is [null]. *)
Definition querySelector (doc : Document) (sel : selector) : option node :=
  hd_error (querySelectorAll doc sel).

(** The elements of [select], each with its ancestors, nearest first:
    what a property that depends on the place of an element is read
    from. *)
Fixpoint select_placed (sel : selector) (ancestors : list node) (n : node)
  : list (list node * node) :=
  match n with
  | Text _ => []
  | Element _ _ children =>
      (if matches sel ancestors n then [(ancestors, n)] else [])
      ++ flat_map (select_placed sel (n :: ancestors)) children
  end.

Definition querySelectorAll_placed (doc : Document) (sel : selector)
  : list (list node * node) :=
  select_placed sel [] (documentElement doc).

(** [el.querySelectorAll(sel)]: the descendants of [el] that match. *)
Definition querySelectorAll_in (el : node) (sel : selector) : list node :=
  match el with
  | Text _ => []
  | Element _ _ children => flat_map (select sel [el]) children
  end.

(** [el.querySelectorAll(sel).forEach(e => e.remove())] on a deep clone of
    [el]: the clone without its descendants that match. *)
Fixpoint remove_all (sel : selector) (el : node) : node :=
  match el with
  | Text _ => el
  | Element tag attrs children =>
      Element tag attrs
        (flat_map (fun c => if matches sel [el] c then [] else [remove_all sel c])
           children)
  end.

(** Selector syntax helpers: [tag "a"] is [a], [tag_with "a" "href"] is
    [a[href]], [in_ "header" "nav"] is [header nav]. *)
Definition tag (name : string) : complex := [[Tag name]].
Definition class (name : string) : complex := [[Class name]].
Definition attr_is (name value : string) : complex := [[AttrIs name value]].
Definition tag_attr_is (t name value : string) : complex := [[Tag t; AttrIs name value]].
Definition in_ (c : simple_selector) (d : simple_selector) : complex := [[c]; [d]].

End Dom.

(* ================================================================== *)
(** * Check results                                                    *)
(* ================================================================== *)

Module Check.

Inductive Status : Type := pass | warning | fail.

Record CheckResult : Type := mkCheck {
  name : string;
  status : Status;
  score : Z;
  message : string;
  suggestion : option string
}.

(** [checks.forEach(check => totalScore += check.score)] from [0]. *)
Definition sum_scores (checks : list CheckResult) : Z :=
  fold_left (fun totalScore check => totalScore + score check) checks 0.

Definition is_some {A : Type} (o : option A) : bool :=
  match o with Some _ => true | None => false end.

(** The colour class that a display function adds to the score circle. *)
Inductive Tier : Type := score_green | score_yellow | score_red.

End Check.

Declare Scope js_scope.
Notation "x <- m ;; k" := (JS.bind m (fun x => k))
  (at level 61, m at next level, right associativity) : js_scope.
Open Scope js_scope.

(* ================================================================== *)
(** * assets/js/seo-checker.js                                         *)
(* ================================================================== *)

Module SeoChecker.
Import JS Dom Check.

Record Outcome : Type := mkOutcome {
  final_score : Z;
  url_of : string;
  checks_of : list CheckResult
}.

Section Battery.

(** [new DOMParser().parseFromString(html, 'text/html')] *)
Variable parseFromString : string -> Document.
(** [new URL(url).hostname]; [None] when the constructor throws. *)
Variable URL_hostname : string -> option string.

Definition checkTitle (doc : Document) : CheckResult :=
  let title := querySelector doc [tag "title"] in
  let titleText := match title with Some t => trim (textContent t) | None => "" end in
  let length := JS.length titleText in
  if negb (is_some title) || (length =? 0) then
    mkCheck "Title Tag" fail 0
      "Missing title tag - critical SEO element not found."
      (Some "Add a unique, descriptive title tag (50-60 characters) that includes your primary keyword.")
  else if length <? 30 then
    mkCheck "Title Tag" warning 8
      ("Title too short (" ++ of_Z length ++ " chars). May not fully describe page content.")
      (Some "Expand to 50-60 characters. Include primary keyword near the beginning.")
  else if 70 <? length then
    mkCheck "Title Tag" warning 10
      ("Title too long (" ++ of_Z length ++ " chars). Will be truncated in search results.")
      (Some "Shorten to 50-60 characters for optimal display in SERPs.")
  else
    mkCheck "Title Tag" pass 15
      ("Well-optimized title (" ++ of_Z length ++ " characters).")
      None.

(** [meta.getAttribute('content')?.trim()] is [undefined] for a
    description tag without a [content] attribute, and [content.length]
    then raises. *)
Definition checkMetaDescription (doc : Document) : result CheckResult :=
  let meta := querySelector doc [tag_attr_is "meta" "name" "description"] in
  let content : option string :=
    match meta with
    | Some m => option_map trim (getAttribute m "content")
    | None => Some ""
    end in
  match content with
  | None => Throw "TypeError"
  | Some content =>
      let length := JS.length content in
      if negb (is_some meta) || (length =? 0) then
        Ok (mkCheck "Meta Description" fail 0
              "Missing meta description - important for click-through rates."
              (Some "Add a compelling meta description (150-160 chars) that summarizes page content and includes target keywords."))
      else if length <? 100 then
        Ok (mkCheck "Meta Description" warning 6
              ("Meta description short (" ++ of_Z length ++ " chars). Not using full SERP space.")
              (Some "Expand to 150-160 characters to maximize visibility in search results."))
      else if 170 <? length then
        Ok (mkCheck "Meta Description" warning 9
              ("Meta description long (" ++ of_Z length ++ " chars). Will be truncated.")
              (Some "Trim to 150-160 characters to prevent truncation in search results."))
      else
        Ok (mkCheck "Meta Description" pass 12
              ("Well-optimized meta description (" ++ of_Z length ++ " characters).")
              None)
  end.

Definition checkH1Tags (doc : Document) : CheckResult :=
  let h1Tags := querySelectorAll doc [tag "h1"] in
  let count := JS.count h1Tags in
  match h1Tags with
  | [] =>
      mkCheck "H1 Heading" fail 0
        "No H1 heading found - main topic unclear to search engines."
        (Some "Add exactly one H1 tag that clearly describes your page's main topic.")
  | h1 :: _ =>
      if 1 <? count then
        mkCheck "H1 Heading" warning 8
          ("Multiple H1 tags found (" ++ of_Z count ++ "). Dilutes topic focus.")
          (Some "Use only one H1 per page. Convert others to H2 or H3 tags.")
      else
        let h1Text := trim (textContent h1) in
        if JS.length h1Text <? 10 then
          mkCheck "H1 Heading" warning 8
            "H1 heading appears too short or generic."
            (Some "Make H1 more descriptive with relevant keywords (20-70 characters ideal).")
        else
          mkCheck "H1 Heading" pass 12
            "Single, well-structured H1 heading present."
            None
  end.

Definition checkHeadingHierarchy (doc : Document) : CheckResult :=
  let h1 := JS.count (querySelectorAll doc [tag "h1"]) in
  let h2 := JS.count (querySelectorAll doc [tag "h2"]) in
  let h3 := JS.count (querySelectorAll doc [tag "h3"]) in
  if h1 =? 0 then
    mkCheck "Heading Structure" fail 0
      "No heading hierarchy established."
      (Some "Create proper heading structure: H1 for main topic, H2 for sections, H3 for subsections.")
  else if h2 =? 0 then
    mkCheck "Heading Structure" warning 5
      "No H2 headings found. Content may lack structure."
      (Some "Add H2 headings to break content into logical sections.")
  else if (2 <=? h2) && ((1 <=? h3) || (4 <=? h2)) then
    mkCheck "Heading Structure" pass 10
      ("Good heading hierarchy (" ++ of_Z h1 ++ " H1, " ++ of_Z h2 ++ " H2, " ++ of_Z h3 ++ " H3).")
      None
  else
    mkCheck "Heading Structure" warning 7
      ("Basic heading structure (" ++ of_Z h1 ++ " H1, " ++ of_Z h2 ++ " H2).")
      (Some "Consider adding more H2/H3 headings to improve content organization.").

(** [alt && alt.trim().length > 0] *)
Definition has_alt (img : node) : bool :=
  match getAttribute img "alt" with
  | Some alt => truthy alt && (0 <? JS.length (trim alt))
  | None => false
  end.

Definition checkImageAlts (doc : Document) : CheckResult :=
  let images := querySelectorAll doc [tag "img"] in
  let total := JS.count images in
  if total =? 0 then
    mkCheck "Image Alt Attributes" warning 5
      "No images found. Consider adding relevant visuals."
      (Some "Add images with descriptive alt text to enhance user engagement and SEO.")
  else
    let withAlt := JS.count (filter has_alt images) in
    let percentage := Math_round ((of_int withAlt / of_int total) * 100) in
    if percentage <? 50 then
      mkCheck "Image Alt Attributes" fail 2
        ("Only " ++ of_Z percentage ++ "% of images have alt text (" ++ of_Z withAlt ++ "/" ++ of_Z total ++ ").")
        (Some "Add descriptive alt text to all images for accessibility and SEO.")
    else if percentage <? 90 then
      mkCheck "Image Alt Attributes" warning 6
        (of_Z percentage ++ "% of images have alt text (" ++ of_Z withAlt ++ "/" ++ of_Z total ++ ").")
        (Some "Add alt text to remaining images without descriptions.")
    else
      mkCheck "Image Alt Attributes" pass 10
        ("Excellent! " ++ of_Z percentage ++ "% of images have alt text.")
        None.

(** [baseDomain]: the host name of [url], or the empty string when
    [new URL(url)] throws. *)
Definition baseDomain_of (url : string) : string :=
  match URL_hostname url with
  | Some hostname => hostname
  | None => ""
  end.

Definition is_internal (baseDomain : string) (link : node) : bool :=
  match getAttribute link "href" with
  | Some href =>
      truthy href
      && (startsWith href "/" || startsWith href "#" || startsWith href "./"
          || negb (startsWith href "http")
          || (truthy baseDomain && includes href baseDomain))
  | None => false
  end.

Definition checkInternalLinks (doc : Document) (url : string) : CheckResult :=
  let allLinks := querySelectorAll doc [[[Tag "a"; HasAttr "href"]]] in
  let baseDomain := baseDomain_of url in
  let internal := JS.count (filter (is_internal baseDomain) allLinks) in
  if internal <? 3 then
    mkCheck "Internal Links" fail 2
      ("Very few internal links (" ++ of_Z internal ++ "). Poor site structure signal.")
      (Some "Add more internal links to connect related content and improve crawlability.")
  else if internal <? 10 then
    mkCheck "Internal Links" warning 6
      ("Moderate internal linking (" ++ of_Z internal ++ " links).")
      (Some "Consider adding more contextual internal links to related pages.")
  else
    mkCheck "Internal Links" pass 10
      ("Good internal linking structure (" ++ of_Z internal ++ " links).")
      None.

Definition is_external (baseDomain : string) (link : node) : bool :=
  match getAttribute link "href" with
  | Some href =>
      truthy href && startsWith href "http" && truthy baseDomain
      && negb (includes href baseDomain)
  | None => false
  end.

Definition checkExternalLinks (doc : Document) (url : string) : CheckResult :=
  let allLinks := querySelectorAll doc [[[Tag "a"; HasAttr "href"]]] in
  let baseDomain := baseDomain_of url in
  let external := JS.count (filter (is_external baseDomain) allLinks) in
  if external =? 0 then
    mkCheck "External Links" warning 4
      "No external links found."
      (Some "Consider linking to authoritative external sources to build trust.")
  else if 20 <? external then
    mkCheck "External Links" warning 5
      ("Many external links (" ++ of_Z external ++ "). May dilute page authority.")
      (Some "Review external links and keep only the most valuable ones.")
  else
    mkCheck "External Links" pass 8
      ("Balanced external linking (" ++ of_Z external ++ " links).")
      None.

Definition checkHTTPS (url : string) : CheckResult :=
  if negb (truthy url) then
    mkCheck "HTTPS Security" warning 5
      "Could not verify HTTPS status."
      (Some "Ensure your site uses HTTPS for security and SEO benefits.")
  else if startsWith (toLowerCase url) "https://" then
    mkCheck "HTTPS Security" pass 10
      "Site uses secure HTTPS connection."
      None
  else
    mkCheck "HTTPS Security" fail 0
      "Site not using HTTPS - major security and ranking issue."
      (Some "Migrate to HTTPS immediately. Most hosts offer free SSL certificates.").

Definition checkViewport (doc : Document) : CheckResult :=
  match querySelector doc [tag_attr_is "meta" "name" "viewport"] with
  | None =>
      mkCheck "Mobile Viewport" fail 0
        "Missing viewport meta tag - likely not mobile-friendly."
        (Some ("Add <meta name=" ++ dquote ++ "viewport" ++ dquote ++ " content="
               ++ dquote ++ "width=device-width, initial-scale=1.0" ++ dquote ++ ">"))
  | Some viewport =>
      let content := match getAttribute viewport "content" with
                     | Some c => if truthy c then c else ""
                     | None => ""
                     end in
      if includes content "width=device-width" then
        mkCheck "Mobile Viewport" pass 8
          "Mobile-responsive viewport configured."
          None
      else
        mkCheck "Mobile Viewport" warning 5
          "Viewport present but may not be optimally configured."
          (Some ("Use " ++ dquote ++ "width=device-width, initial-scale=1.0" ++ dquote
                 ++ " for best mobile experience."))
  end.

Definition checkCanonical (doc : Document) : CheckResult :=
  match querySelector doc [tag_attr_is "link" "rel" "canonical"] with
  | None =>
      mkCheck "Canonical Tag" warning 2
        "No canonical tag found."
        (Some "Add a canonical tag to prevent duplicate content issues.")
  | Some canonical =>
      match getAttribute canonical "href" with
      | Some href =>
          if truthy href && (0 <? JS.length href) then
            mkCheck "Canonical Tag" pass 5
              "Canonical tag properly implemented."
              None
          else
            mkCheck "Canonical Tag" warning 2
              "Canonical tag present but empty."
              (Some "Set the canonical URL to the preferred version of this page.")
      | None =>
          mkCheck "Canonical Tag" warning 2
            "Canonical tag present but empty."
            (Some "Set the canonical URL to the preferred version of this page.")
      end
  end.

(** The body of [analyzeSEO] up to the aggregation: the checks in battery
    order, with the weight total the function accumulates beside them. *)
Definition run_checks (html url : string) : result (list CheckResult * Z) :=
  let doc := parseFromString html in
  let checks := [] in
  let maxScore := 0 in
  let checks := push checks (checkTitle doc) in
  let maxScore := maxScore + 15 in
  metaDescription <- checkMetaDescription doc ;;
  let checks := push checks metaDescription in
  let maxScore := maxScore + 12 in
  let checks := push checks (checkH1Tags doc) in
  let maxScore := maxScore + 12 in
  let checks := push checks (checkHeadingHierarchy doc) in
  let maxScore := maxScore + 10 in
  let checks := push checks (checkImageAlts doc) in
  let maxScore := maxScore + 10 in
  let checks := push checks (checkInternalLinks doc url) in
  let maxScore := maxScore + 10 in
  let checks := push checks (checkExternalLinks doc url) in
  let maxScore := maxScore + 8 in
  let checks := push checks (checkHTTPS url) in
  let maxScore := maxScore + 10 in
  let checks := push checks (checkViewport doc) in
  let maxScore := maxScore + 8 in
  let checks := push checks (checkCanonical doc) in
  let maxScore := maxScore + 5 in
  Ok (checks, maxScore).

Definition analyzeSEO (html url : string) : result Outcome :=
  run <- run_checks html url ;;
  let '(checks, maxScore) := run in
  let totalScore := sum_scores checks in
  let finalScore := Math_round ((of_int totalScore / of_int maxScore) * 100) in
  Ok (mkOutcome finalScore url checks).

End Battery.

(** What [displaySEOResults] shows for a score: the colour class of the
    score circle, the status line and the summary. *)
Definition displaySEOResults (score : Z) : Tier * string * string :=
  if 80 <=? score then
    (score_green, "Excellent SEO Health",
     "Your page has strong on-page SEO fundamentals. Review any minor issues below for further optimization.")
  else if 60 <=? score then
    (score_yellow, "Good - Needs Improvement",
     "Solid SEO foundation with room for improvement. Address the issues below to boost rankings.")
  else
    (score_red, "Needs Significant Work",
     "Critical SEO issues detected. Address the problems below before expecting good search rankings.").

End SeoChecker.

(* ================================================================== *)
(** * assets/js/adsense-checker.js                                     *)
(* ================================================================== *)

Module AdsenseChecker.
Import JS Dom Check.

Record Outcome : Type := mkOutcome {
  final_score : Z;
  url_of : string;
  checks_of : list CheckResult
}.

Section Battery.

Variable parseFromString : string -> Document.
Variable URL_hostname : string -> option string.

Definition checkTitleTag (doc : Document) : CheckResult :=
  let title := querySelector doc [tag "title"] in
  let titleText := match title with Some t => trim (textContent t) | None => "" end in
  let titleLength := JS.length titleText in
  if negb (is_some title) || (titleLength =? 0) then
    mkCheck "Title Tag" fail 0
      "No title tag found on your page."
      (Some "Add a descriptive title tag between 50-60 characters that describes your page content.")
  else if titleLength <? 30 then
    mkCheck "Title Tag" warning 5
      ("Title tag found but too short (" ++ of_Z titleLength ++ " characters).")
      (Some "Expand your title to 50-60 characters for optimal SEO. Include your main topic and site name.")
  else if 70 <? titleLength then
    mkCheck "Title Tag" warning 7
      ("Title tag found but too long (" ++ of_Z titleLength ++ " characters).")
      (Some "Shorten your title to 50-60 characters. Search engines may truncate longer titles.")
  else
    mkCheck "Title Tag" pass 10
      ("Title tag is well-optimized (" ++ of_Z titleLength ++ " characters).")
      None.

Definition checkMetaDescription (doc : Document) : result CheckResult :=
  let metaDesc := querySelector doc [tag_attr_is "meta" "name" "description"] in
  let content : option string :=
    match metaDesc with
    | Some m => option_map trim (getAttribute m "content")
    | None => Some ""
    end in
  match content with
  | None => Throw "TypeError"
  | Some content =>
      let length := JS.length content in
      if negb (is_some metaDesc) || (length =? 0) then
        Ok (mkCheck "Meta Description" fail 0
              "No meta description found on your page."
              (Some "Add a meta description tag with 150-160 characters summarizing your page content."))
      else if length <? 100 then
        Ok (mkCheck "Meta Description" warning 5
              ("Meta description found but too short (" ++ of_Z length ++ " characters).")
              (Some "Expand your meta description to 150-160 characters to maximize visibility in search results."))
      else if 170 <? length then
        Ok (mkCheck "Meta Description" warning 7
              ("Meta description found but too long (" ++ of_Z length ++ " characters).")
              (Some "Shorten your meta description to 150-160 characters to prevent truncation in search results."))
      else
        Ok (mkCheck "Meta Description" pass 10
              ("Meta description is well-optimized (" ++ of_Z length ++ " characters).")
              None)
  end.

Definition checkH1Tag (doc : Document) : CheckResult :=
  let h1Tags := querySelectorAll doc [tag "h1"] in
  let count := JS.count h1Tags in
  match h1Tags with
  | [] =>
      mkCheck "H1 Heading" fail 0
        "No H1 heading found on your page."
        (Some "Add exactly one H1 heading that clearly describes your main content topic.")
  | h1 :: _ =>
      if 1 <? count then
        mkCheck "H1 Heading" warning 7
          ("Multiple H1 tags found (" ++ of_Z count ++ "). Best practice is to have exactly one.")
          (Some "Use only one H1 tag per page. Use H2-H6 for subheadings.")
      else
        let h1Content := trim (textContent h1) in
        if JS.length h1Content <? 10 then
          mkCheck "H1 Heading" warning 7
            "H1 heading found but may be too short or generic."
            (Some "Make your H1 more descriptive and relevant to your page content.")
        else
          mkCheck "H1 Heading" pass 10
            "H1 heading is properly implemented."
            None
  end.

Definition checkWordCount (doc : Document) : CheckResult :=
  let clone := remove_all [tag "script"; tag "style"; tag "noscript"] (body doc) in
  let text := textContent clone in
  let words := filter (fun word => 0 <? JS.length word) (split whitespace (trim text)) in
  let wordCount := JS.count words in
  if wordCount <? 300 then
    mkCheck "Content Word Count" fail 0
      ("Very thin content detected (~" ++ of_Z wordCount ++ " words).")
      (Some "Add substantial, valuable content. Aim for at least 500-1000 words of unique, helpful content per page.")
  else if wordCount <? 500 then
    mkCheck "Content Word Count" warning 7
      ("Content may be thin (~" ++ of_Z wordCount ++ " words).")
      (Some "Consider expanding your content to at least 500-1000 words for better AdSense approval chances.")
  else if wordCount <? 800 then
    mkCheck "Content Word Count" warning 12
      ("Moderate content length (~" ++ of_Z wordCount ++ " words).")
      (Some "Good start! For best results, aim for 800+ words of comprehensive content.")
  else
    mkCheck "Content Word Count" pass 15
      ("Good content length (~" ++ of_Z wordCount ++ " words).")
      None.

Definition has_alt (img : node) : bool :=
  match getAttribute img "alt" with
  | Some alt => truthy alt && (0 <? JS.length (trim alt))
  | None => false
  end.

Definition checkImageAlts (doc : Document) : CheckResult :=
  let images := querySelectorAll doc [tag "img"] in
  let totalImages := JS.count images in
  if totalImages =? 0 then
    mkCheck "Image Alt Attributes" warning 5
      "No images found on the page."
      (Some "Consider adding relevant images to enhance user engagement. When you do, include descriptive alt text.")
  else
    let imagesWithAlt := JS.count (filter has_alt images) in
    let percentage := Math_round ((of_int imagesWithAlt / of_int totalImages) * 100) in
    if percentage <? 50 then
      mkCheck "Image Alt Attributes" fail 2
        ("Only " ++ of_Z percentage ++ "% of images have alt attributes ("
           ++ of_Z imagesWithAlt ++ "/" ++ of_Z totalImages ++ ").")
        (Some "Add descriptive alt text to all images for accessibility and SEO. This is important for AdSense approval.")
    else if percentage <? 90 then
      mkCheck "Image Alt Attributes" warning 6
        (of_Z percentage ++ "% of images have alt attributes ("
           ++ of_Z imagesWithAlt ++ "/" ++ of_Z totalImages ++ ").")
        (Some "Add alt text to the remaining images without it.")
    else
      mkCheck "Image Alt Attributes" pass 10
        ("All or most images have alt attributes ("
           ++ of_Z imagesWithAlt ++ "/" ++ of_Z totalImages ++ ").")
        None.

Definition checkHTTPS (url : string) : CheckResult :=
  if negb (truthy url) then
    mkCheck "HTTPS Security" warning 5
      "Could not determine if your site uses HTTPS."
      (Some "Ensure your website uses HTTPS. Most hosting providers offer free SSL certificates.")
  else if startsWith (toLowerCase url) "https://" then
    mkCheck "HTTPS Security" pass 10
      "Your website uses HTTPS (secure connection)."
      None
  else
    mkCheck "HTTPS Security" fail 0
      "Your website does not use HTTPS."
      (Some "Migrate to HTTPS immediately. This is essential for user trust and SEO. Most hosts offer free SSL certificates.").

Definition checkNavigation (doc : Document) : CheckResult :=
  let navElements := querySelectorAll doc [tag "nav"; attr_is "role" "navigation"] in
  let headerNav :=
    querySelector doc
      [in_ (Tag "header") (Tag "nav"); in_ (Tag "header") (Tag "ul");
       class "nav"; class "navbar"; class "menu"] in
  if (JS.count navElements =? 0) && negb (is_some headerNav) then
    mkCheck "Navigation Structure" fail 0
      "No clear navigation structure detected."
      (Some "Add a proper navigation menu using the <nav> element. Include links to your main pages.")
  else
    let navLinks :=
      querySelectorAll doc
        [in_ (Tag "nav") (Tag "a"); in_ (Tag "header") (Tag "a");
         in_ (Class "nav") (Tag "a"); in_ (Class "menu") (Tag "a")] in
    if JS.count navLinks <? 3 then
      mkCheck "Navigation Structure" warning 5
        "Navigation found but appears limited."
        (Some "Add more navigation links to help users find content (Home, About, Contact, Categories, etc.).")
    else
      mkCheck "Navigation Structure" pass 10
        "Good navigation structure detected with multiple links."
        None.

Definition baseDomain_of (url : string) : string :=
  match URL_hostname url with
  | Some hostname => hostname
  | None => ""
  end.

Definition is_internal (baseDomain : string) (link : node) : bool :=
  match getAttribute link "href" with
  | Some href =>
      truthy href
      && (startsWith href "/" || startsWith href "#" || startsWith href "./"
          || negb (startsWith href "http")
          || (truthy baseDomain && includes href baseDomain))
  | None => false
  end.

Definition checkInternalLinks (doc : Document) (url : string) : CheckResult :=
  let allLinks := querySelectorAll doc [[[Tag "a"; HasAttr "href"]]] in
  let baseDomain := baseDomain_of url in
  let internalLinks := JS.count (filter (is_internal baseDomain) allLinks) in
  if internalLinks <? 3 then
    mkCheck "Internal Links" fail 0
      ("Very few internal links detected (" ++ of_Z internalLinks ++ ").")
      (Some "Add more internal links to connect your pages. This helps users and search engines navigate your site.")
  else if internalLinks <? 8 then
    mkCheck "Internal Links" warning 6
      ("Some internal links present (" ++ of_Z internalLinks ++ ").")
      (Some "Consider adding more internal links to related content throughout your pages.")
  else
    mkCheck "Internal Links" pass 10
      ("Good internal linking structure (" ++ of_Z internalLinks ++ " internal links).")
      None.

Definition privacyTerms : list string :=
  ["privacy"; "privacy-policy"; "privacy_policy"; "privacypolicy"].

Definition links_privacy (link : node) : bool :=
  let href := toLowerCase (match getAttribute link "href" with
                           | Some h => h
                           | None => ""
                           end) in
  let text := toLowerCase (textContent link) in
  existsb (fun term => includes href term || includes text "privacy") privacyTerms.

Definition checkPrivacyPolicy (doc : Document) : CheckResult :=
  let allLinks := querySelectorAll doc [tag "a"] in
  let hasPrivacyPolicy := existsb links_privacy allLinks in
  if negb hasPrivacyPolicy then
    mkCheck "Privacy Policy Link" fail 0
      "No Privacy Policy link detected."
      (Some "Add a Privacy Policy page and link to it from your navigation or footer. This is MANDATORY for AdSense approval.")
  else
    mkCheck "Privacy Policy Link" pass 10
      "Privacy Policy link detected."
      None.

Definition checkFooter (doc : Document) : CheckResult :=
  match querySelector doc [tag "footer"; attr_is "role" "contentinfo"; class "footer"] with
  | None =>
      mkCheck "Footer Section" warning 2
        "No footer section detected."
        (Some "Add a footer with copyright, legal links, and navigation. Footers are expected on professional websites.")
  | Some footer =>
      let footerLinks := querySelectorAll_in footer [tag "a"] in
      if JS.count footerLinks <? 2 then
        mkCheck "Footer Section" warning 3
          "Footer found but appears minimal."
          (Some "Enhance your footer with links to important pages (About, Contact, Privacy Policy, Terms).")
      else
        mkCheck "Footer Section" pass 5
          "Proper footer section detected with navigation links."
          None
  end.

(** The body of [analyzeHTML] up to the aggregation. *)
Definition run_checks (html url : string) : result (list CheckResult * Z) :=
  let doc := parseFromString html in
  let checks := [] in
  let maxScore := 0 in
  let checks := push checks (checkTitleTag doc) in
  let maxScore := maxScore + 10 in
  metaDescription <- checkMetaDescription doc ;;
  let checks := push checks metaDescription in
  let maxScore := maxScore + 10 in
  let checks := push checks (checkH1Tag doc) in
  let maxScore := maxScore + 10 in
  let checks := push checks (checkWordCount doc) in
  let maxScore := maxScore + 15 in
  let checks := push checks (checkImageAlts doc) in
  let maxScore := maxScore + 10 in
  let checks := push checks (checkHTTPS url) in
  let maxScore := maxScore + 10 in
  let checks := push checks (checkNavigation doc) in
  let maxScore := maxScore + 10 in
  let checks := push checks (checkInternalLinks doc url) in
  let maxScore := maxScore + 10 in
  let checks := push checks (checkPrivacyPolicy doc) in
  let maxScore := maxScore + 10 in
  let checks := push checks (checkFooter doc) in
  let maxScore := maxScore + 5 in
  Ok (checks, maxScore).

Definition analyzeHTML (html url : string) : result Outcome :=
  run <- run_checks html url ;;
  let '(checks, maxScore) := run in
  let totalScore := sum_scores checks in
  let finalScore := Math_round ((of_int totalScore / of_int maxScore) * 100) in
  Ok (mkOutcome finalScore url checks).

End Battery.

Definition displayResults (score : Z) : Tier * string * string :=
  if 80 <=? score then
    (score_green, "Ready for Application",
     "Your page meets most key AdSense requirements. Review any warnings below and consider applying.")
  else if 50 <=? score then
    (score_yellow, "Needs Improvement",
     "Your page has some issues that should be addressed before applying for AdSense.")
  else
    (score_red, "Not Ready",
     "Significant improvements are needed. Address the issues below before applying.").

End AdsenseChecker.

(* ================================================================== *)
(** * assets/js/static-checker.js                                      *)
(* ================================================================== *)

Module StaticChecker.
Import JS Dom Check.

Record Outcome : Type := mkOutcome {
  final_score : Z;
  url_of : string;
  platform_of : string;
  checks_of : list CheckResult
}.

Definition detectPlatform (url : string) : string :=
  let lowerUrl := toLowerCase url in
  if includes lowerUrl "netlify.app" || includes lowerUrl "netlify.com" then "Netlify"
  else if includes lowerUrl "github.io" || includes lowerUrl "github.com" then "GitHub Pages"
  else if includes lowerUrl "vercel.app" || includes lowerUrl "vercel.com" then "Vercel"
  else if includes lowerUrl "surge.sh" then "Surge"
  else if includes lowerUrl "cloudflare" then "Cloudflare Pages"
  else if includes lowerUrl "render.com" then "Render"
  else "Custom/Unknown".

(** [/\.netlify\.app$/i] and its siblings *)
Definition suffix_pattern (suffix : string) : regex := Seq (Lit true suffix) InputEnd.

Definition subdomainPatterns : list regex :=
  [suffix_pattern ".netlify.app";
   suffix_pattern ".github.io";
   suffix_pattern ".vercel.app";
   suffix_pattern ".surge.sh";
   suffix_pattern ".pages.dev";
   suffix_pattern ".onrender.com"].

Definition checkHTTPS (url : string) : CheckResult :=
  if startsWith (toLowerCase url) "https://" then
    mkCheck "HTTPS Security" pass 12
      "Site uses HTTPS. Secure and trusted."
      None
  else
    mkCheck "HTTPS Security" fail 0
      "Site not using HTTPS."
      (Some "Enable HTTPS immediately. All major static hosts (Netlify, Vercel, GitHub Pages) provide free SSL certificates.").

Definition href_or_empty (link : node) : string :=
  match getAttribute link "href" with
  | Some h => h
  | None => ""
  end.

Definition mentions (word : string) (link : node) : bool :=
  includes (toLowerCase (href_or_empty link)) word
  || includes (toLowerCase (textContent link)) word.

Definition checkEssentialPages (doc : Document) : CheckResult :=
  let allLinks := querySelectorAll doc [[[Tag "a"; HasAttr "href"]]] in
  let hasPrivacy := existsb (mentions "privacy") allLinks in
  let hasAbout := existsb (mentions "about") allLinks in
  let hasContact := existsb (mentions "contact") allLinks in
  let hasTerms :=
    existsb (fun link => mentions "terms" link
                         || includes (toLowerCase (href_or_empty link)) "tos")
      allLinks in
  let pagesFound := JS.count (filter (fun b : bool => b) [hasPrivacy; hasAbout; hasContact; hasTerms]) in
  let missing := [] in
  let missing := if negb hasPrivacy then push missing "Privacy Policy" else missing in
  let missing := if negb hasAbout then push missing "About" else missing in
  let missing := if negb hasContact then push missing "Contact" else missing in
  if pagesFound <=? 1 then
    mkCheck "Essential Pages" fail 3
      ("Missing essential pages: " ++ join ", " missing ++ ".")
      (Some "Add Privacy Policy (mandatory), About, and Contact pages. These are required for AdSense approval.")
  else if pagesFound <? 4 then
    mkCheck "Essential Pages" warning 10
      ("Most essential pages found (" ++ of_Z pagesFound ++ "/4). Missing: " ++ join ", " missing ++ ".")
      (Some (if hasPrivacy then "Consider adding the missing pages."
             else "Add Privacy Policy immediately—it is mandatory for AdSense."))
  else
    mkCheck "Essential Pages" pass 15
      "All essential pages detected (Privacy, About, Contact, Terms)."
      None.

Definition checkNavigation (doc : Document) : CheckResult :=
  let nav :=
    querySelector doc
      [tag "nav"; attr_is "role" "navigation"; class "nav"; class "navbar";
       in_ (Tag "header") (Tag "nav")] in
  let navLinks :=
    querySelectorAll doc
      [in_ (Tag "nav") (Tag "a"); in_ (Tag "header") (Tag "a");
       in_ (Class "nav") (Tag "a"); in_ (Class "menu") (Tag "a")] in
  if negb (is_some nav) && (JS.count navLinks <? 3) then
    mkCheck "Navigation Structure" fail 2
      "No clear navigation found. Poor user experience."
      (Some "Add a navigation menu with links to main sections. Use <nav> tag for semantic markup.")
  else if JS.count navLinks <? 5 then
    mkCheck "Navigation Structure" warning 8
      ("Limited navigation (" ++ of_Z (JS.count navLinks) ++ " links).")
      (Some "Add more navigation links to help users find content easily.")
  else
    mkCheck "Navigation Structure" pass 12
      ("Good navigation structure (" ++ of_Z (JS.count navLinks) ++ " links).")
      None.

Definition checkContentDepth (doc : Document) : CheckResult :=
  let clone :=
    remove_all [tag "script"; tag "style"; tag "noscript"; tag "nav"; tag "header"; tag "footer"]
      (body doc) in
  let text := textContent clone in
  let words := filter (fun w => 0 <? JS.length w) (split whitespace (trim text)) in
  let wordCount := JS.count words in
  let articles := querySelectorAll doc [tag "article"; class "post"; class "blog-post"; class "content"] in
  let h2Count := JS.count (querySelectorAll doc [tag "h2"]) in
  if wordCount <? 300 then
    mkCheck "Content Depth" fail 3
      ("Very little content (~" ++ of_Z wordCount ++ " words). Likely rejection for thin content.")
      (Some "Static sites need substantial content. Aim for 15-20 pages with 500+ words each.")
  else if wordCount <? 600 then
    mkCheck "Content Depth" warning 8
      ("Light content on this page (~" ++ of_Z wordCount ++ " words).")
      (Some "Expand content or ensure other pages have substantial depth. Homepage should be comprehensive.")
  else if wordCount <? 1000 then
    mkCheck "Content Depth" warning 12
      ("Moderate content (~" ++ of_Z wordCount ++ " words).")
      (Some "Good start. Ensure overall site has 15+ content pages.")
  else
    mkCheck "Content Depth" pass 15
      ("Good content depth (~" ++ of_Z wordCount ++ " words on this page).")
      None.

Definition checkMetaTags (doc : Document) : CheckResult :=
  let title := querySelector doc [tag "title"] in
  let description := querySelector doc [tag_attr_is "meta" "name" "description"] in
  let viewport := querySelector doc [tag_attr_is "meta" "name" "viewport"] in
  let charset := querySelector doc [[[Tag "meta"; HasAttr "charset"]]] in
  let found := 0 in
  let found :=
    match title with
    | Some t => if 10 <? JS.length (textContent t) then found + 1 else found
    | None => found
    end in
  let found :=
    match description with
    | Some d =>
        match getAttribute d "content" with
        | Some content => if 50 <? JS.length content then found + 1 else found
        | None => found
        end
    | None => found
    end in
  let found := if is_some viewport then found + 1 else found in
  let found := if is_some charset then found + 1 else found in
  if found <? 2 then
    mkCheck "Meta Tags" fail 2
      "Missing critical meta tags."
      (Some "Add title, meta description, viewport, and charset tags to all pages.")
  else if found <? 4 then
    mkCheck "Meta Tags" warning 6
      ("Some meta tags missing (" ++ of_Z found ++ "/4 basic tags).")
      (Some "Ensure all pages have complete meta tags for SEO and proper rendering.")
  else
    mkCheck "Meta Tags" pass 10
      "Essential meta tags present."
      None.

Definition is_local_link (link : node) : bool :=
  match getAttribute link "href" with
  | Some href => truthy href && negb (startsWith href "#") && negb (startsWith href "http")
  | None => false
  end.

Definition check404Setup (doc : Document) (html : string) : CheckResult :=
  let has404Link :=
    includes (toLowerCase html) "404.html" || includes (toLowerCase html) "page not found" in
  let allLinks := querySelectorAll doc [[[Tag "a"; HasAttr "href"]]] in
  let linkCount := JS.count (filter is_local_link allLinks) in
  if linkCount <? 5 then
    mkCheck "404 & Error Handling" warning 4
      "Cannot verify 404 page setup remotely."
      (Some "Create a 404.html page. Netlify, Vercel, and GitHub Pages use it automatically for missing pages.")
  else
    mkCheck "404 & Error Handling" pass 8
      "Good internal linking suggests proper site structure."
      (Some "Verify you have a 404.html file in your root directory.").

(** [/@[\w.-]+\.[a-z]{2,}/i] *)
Definition email_pattern : regex :=
  Seq (Char "@")
    (Seq (Plus (Chr (fun c => is_word c || one_of ".-" c)))
       (Seq (Char ".") (AtLeast 2 (Chr (fun c => is_lower c || is_upper c))))).

Definition checkFooter (doc : Document) : CheckResult :=
  match querySelector doc [tag "footer"; class "footer"; attr_is "role" "contentinfo"] with
  | None =>
      mkCheck "Footer Section" warning 2
        "No footer element detected."
        (Some "Add a footer with copyright, legal links, and branding. It signals a professional, complete website.")
  | Some footer =>
      let footerLinks := querySelectorAll_in footer [tag "a"] in
      let hasCopyright :=
        includes (textContent footer) copyright_sign
        || includes (toLowerCase (textContent footer)) "copyright" in
      if (JS.count footerLinks <? 2) && negb hasCopyright then
        mkCheck "Footer Section" warning 3
          "Footer exists but appears minimal."
          (Some "Add links to legal pages and copyright notice.")
      else
        mkCheck "Footer Section" pass 5
          "Complete footer with links and/or copyright."
          None
  end.

Section Battery.

Variable parseFromString : string -> Document.
(** [new URL(url).hostname]; [None] when the constructor throws. *)
Variable URL_hostname : string -> option string.
(** The [href] property of an HTML anchor whose [href] attribute is the
    argument: the attribute resolved against the base of the document. *)
Variable resolve : string -> string.
(** Whether an element that the selector [a] matches is an HTML element,
    by the element and its ancestors, nearest first.  The parser makes an
    [a] inside [svg] or [math] an element of another namespace, and its
    [href] property is then not a string. *)
Variable html_anchor : list node -> node -> bool.

Definition checkCustomDomain (url platform : string) : CheckResult :=
  let hostname := match URL_hostname url with Some h => h | None => "" end in
  let isSubdomain := existsb (fun pattern => test pattern hostname) subdomainPatterns in
  if isSubdomain then
    mkCheck "Custom Domain" fail 3
      ("Using " ++ platform ++ " subdomain. Not ideal for AdSense.")
      (Some "Register a custom domain (yoursite.com). Most registrars offer domains for $10-15/year. This significantly improves AdSense approval chances.")
  else
    let parts := split (Char ".") hostname in
    if (2 <=? JS.count parts) && negb (includes hostname "localhost") then
      mkCheck "Custom Domain" pass 15
        "Using a custom domain. Professional appearance."
        None
    else
      mkCheck "Custom Domain" warning 8
        "Could not definitively verify custom domain status."
        (Some "Ensure you are using a custom domain like yoursite.com for AdSense applications.").

(** [a.href]: [None] when it is not a string. *)
Definition href_property (ancestors : list node) (a : node) : option string :=
  if html_anchor ancestors a then
    Some match getAttribute a "href" with
         | Some h => resolve h
         | None => ""
         end
  else None.

(** [links.some(a => a.href.toLowerCase().includes('contact') ||
    a.textContent.toLowerCase().includes('contact'))]: the links are
    visited in order up to the first contact link, and [toLowerCase],
    which an [href] that is not a string does not have, raises. *)
Fixpoint some_contact (links : list (list node * node)) : result bool :=
  match links with
  | [] => Ok false
  | (ancestors, a) :: links' =>
      match href_property ancestors a with
      | None => Throw "TypeError"
      | Some href =>
          if includes (toLowerCase href) "contact"
             || includes (toLowerCase (textContent a)) "contact"
          then Ok true
          else some_contact links'
      end
  end.

Definition checkContactInfo (doc : Document) : result CheckResult :=
  let bodyText := toLowerCase (textContent (body doc)) in
  let hasEmail :=
    test email_pattern bodyText
    || includes bodyText "email"
    || is_some (querySelector doc [[[Tag "a"; AttrStarts "href" "mailto:"]]]) in
  hasContactLink <- some_contact (querySelectorAll_placed doc [tag "a"]) ;;
  if negb hasEmail && negb hasContactLink then
    Ok (mkCheck "Contact Information" fail 2
          "No contact information detected."
          (Some "Add a contact page or visible email address. AdSense wants to see legitimate, contactable businesses."))
  else if hasEmail && hasContactLink then
    Ok (mkCheck "Contact Information" pass 8
          "Contact information and contact page found."
          None)
  else
    Ok (mkCheck "Contact Information" warning 5
          "Some contact information found."
          (Some "Ensure you have a dedicated contact page with clear ways to reach you.")).

(** The body of [analyzeStaticSite] up to the aggregation. *)
Definition run_checks (html url : string) : result (list CheckResult * Z) :=
  let doc := parseFromString html in
  let checks := [] in
  let maxScore := 0 in
  let platform := detectPlatform url in
  let checks := push checks (checkCustomDomain url platform) in
  let maxScore := maxScore + 15 in
  let checks := push checks (checkHTTPS url) in
  let maxScore := maxScore + 12 in
  let checks := push checks (checkEssentialPages doc) in
  let maxScore := maxScore + 15 in
  let checks := push checks (checkNavigation doc) in
  let maxScore := maxScore + 12 in
  let checks := push checks (checkContentDepth doc) in
  let maxScore := maxScore + 15 in
  let checks := push checks (checkMetaTags doc) in
  let maxScore := maxScore + 10 in
  let checks := push checks (check404Setup doc html) in
  let maxScore := maxScore + 8 in
  contactInfo <- checkContactInfo doc ;;
  let checks := push checks contactInfo in
  let maxScore := maxScore + 8 in
  let checks := push checks (checkFooter doc) in
  let maxScore := maxScore + 5 in
  Ok (checks, maxScore).

Definition analyzeStaticSite (html url : string) : result Outcome :=
  run <- run_checks html url ;;
  let '(checks, maxScore) := run in
  let totalScore := sum_scores checks in
  let finalScore := Math_round ((of_int totalScore / of_int maxScore) * 100) in
  Ok (mkOutcome finalScore url (detectPlatform url) checks).

End Battery.

Definition displayResults (score : Z) : Tier * string * string :=
  if 80 <=? score then
    (score_green, "Ready for AdSense",
     "Your static site meets key AdSense requirements. Address any remaining warnings before applying.")
  else if 55 <=? score then
    (score_yellow, "Almost Ready",
     "Your site has a good foundation but needs improvements before AdSense application.")
  else
    (score_red, "Not Ready",
     "Significant issues found. Address these before applying for AdSense.").

End StaticChecker.

(* ================================================================== *)
(** * assets/js/low-value-analyzer.js                                  *)
(* ================================================================== *)

Module LowValueAnalyzer.
Import JS Check.

Record Outcome : Type := mkOutcome {
  final_score : Z;
  wordCount_of : Z;
  checks_of : list CheckResult
}.

Definition checkWordCount (text : string) : CheckResult :=
  let words := filter (fun w => 0 <? JS.length w) (split whitespace text) in
  let count := JS.count words in
  if count <? 300 then
    mkCheck "Content Depth (Word Count)" fail 5
      ("Very thin content (" ++ of_Z count ++ " words). Likely to be flagged as low-value.")
      (Some "Expand to at least 500-800 words with meaningful, helpful information.")
  else if count <? 500 then
    mkCheck "Content Depth (Word Count)" warning 10
      ("Light content (" ++ of_Z count ++ " words). May appear thin to Google.")
      (Some "Consider expanding to 600+ words with additional insights and examples.")
  else if count <? 800 then
    mkCheck "Content Depth (Word Count)" warning 15
      ("Moderate length (" ++ of_Z count ++ " words). Acceptable but not comprehensive.")
      (Some "For competitive topics, aim for 1000+ words of thorough coverage.")
  else
    mkCheck "Content Depth (Word Count)" pass 20
      ("Good content length (" ++ of_Z count ++ " words). Shows topical depth.")
      None.

(** [/[.!?]+/] *)
Definition sentence_end : regex := Plus (Chr (one_of ".!?")).

Definition sum_Q (xs : list Q) : Q := fold_left Qplus xs 0%Q.

(** [stdDev / avgLength < bound], for [0 < avgLength] and [0 <= bound]:
    the square root is monotone, so the test is
    [variance < (bound * avgLength)^2] on exact numbers. *)
Definition cv_below (variance avgLength bound : Q) : bool :=
  Qlt_bool variance ((bound * avgLength) * (bound * avgLength)).

Definition checkSentenceVariety (text : string) : CheckResult :=
  let sentences := filter (fun s => 0 <? JS.length (trim s)) (split sentence_end text) in
  if JS.count sentences <? 5 then
    mkCheck "Sentence Variety" warning 7
      "Too few sentences to analyze variety properly."
      (Some "Add more sentences to create varied, engaging content.")
  else
    let lengths := map (fun s => of_int (JS.count (split whitespace (trim s)))) sentences in
    let avgLength := (sum_Q lengths / of_int (JS.count lengths))%Q in
    let variance :=
      (sum_Q (map (fun len => (len - avgLength) * (len - avgLength)) lengths)
       / of_int (JS.count lengths))%Q in
    if cv_below variance avgLength (2 # 10) then
      mkCheck "Sentence Variety" fail 4
        "Very uniform sentence lengths. Reads robotically."
        (Some "Mix short, punchy sentences with longer, complex ones. Vary your rhythm.")
    else if cv_below variance avgLength (4 # 10) then
      mkCheck "Sentence Variety" warning 10
        "Moderate sentence variety. Could be more dynamic."
        (Some "Add more short sentences for emphasis and longer ones for depth.")
    else
      mkCheck "Sentence Variety" pass 15
        "Good sentence length variety. Natural reading flow."
        None.

(** [/\n\s*\n/] *)
Definition paragraph_break : regex :=
  Seq (Char LF) (Seq (Star (Chr is_space)) (Char LF)).

Definition checkParagraphs (text : string) : CheckResult :=
  let paragraphs := filter (fun p => 0 <? JS.length (trim p)) (split paragraph_break text) in
  let wordCount := JS.count (split whitespace text) in
  if (JS.count paragraphs <=? 1) && (200 <? wordCount) then
    mkCheck "Paragraph Structure" fail 2
      "Content is one giant block of text. Very hard to read."
      (Some "Break content into paragraphs of 3-5 sentences each.")
  else
    let avgParaLength := divide wordCount (JS.count paragraphs) in
    if exceeds avgParaLength 150 then
      mkCheck "Paragraph Structure" warning 6
        ("Paragraphs are too long (~" ++ rounded avgParaLength ++ " words avg).")
        (Some "Break long paragraphs into shorter, scannable chunks.")
    else if (JS.count paragraphs <? 3) && (300 <? wordCount) then
      mkCheck "Paragraph Structure" warning 8
        "Very few paragraph breaks for the content length."
        (Some "Add more paragraph breaks to improve readability.")
    else
      mkCheck "Paragraph Structure" pass 12
        ("Well-structured paragraphs (" ++ of_Z (JS.count paragraphs) ++ " paragraphs).")
        None.

(** [/\b[a-z]+\b/g] *)
Definition alphabetic_word : regex := Seq WordB (Seq (Plus (Chr is_lower)) WordB).

Definition checkVocabulary (text : string) : CheckResult :=
  let words := match_all alphabetic_word (toLowerCase text) in
  let uniqueWords := Set_size words in
  if JS.count words <? 50 then
    mkCheck "Vocabulary Richness" warning 7
      "Not enough text to assess vocabulary properly."
      (Some "Add more content for a meaningful vocabulary analysis.")
  else
    let lexicalDensity := (of_int uniqueWords / of_int (JS.count words))%Q in
    if Qlt_bool lexicalDensity (3 # 10) then
      mkCheck "Vocabulary Richness" fail 4
        "Very repetitive vocabulary. Content feels redundant."
        (Some "Use synonyms and varied phrasing. Expand your word choices.")
    else if Qlt_bool lexicalDensity (45 # 100) then
      mkCheck "Vocabulary Richness" warning 10
        "Moderate vocabulary variety. Some repetition detected."
        (Some "Try using more diverse word choices throughout your content.")
    else
      mkCheck "Vocabulary Richness" pass 15
        "Rich vocabulary with good word variety."
        None.

(** [/\b[a-z]{4,}\b/g] *)
Definition long_word : regex := Seq WordB (Seq (AtLeast 4 (Chr is_lower)) WordB).

(** [wordFreq[word] = (wordFreq[word] || 0) + 1] on an object whose own
    keys keep their insertion order. *)
Fixpoint tally (wordFreq : list (string * Z)) (word : string) : list (string * Z) :=
  match wordFreq with
  | [] => [(word, 1)]
  | (w, n) :: wordFreq' =>
      if String.eqb w word then (w, n + 1) :: wordFreq'
      else (w, n) :: tally wordFreq' word
  end.

(** [wordFreq] starts as [{}], which inherits [constructor] from
    [Object.prototype]: the first [wordFreq['constructor'] || 0] is that
    function, the entry becomes a string, and a string that is not a
    number never compares greater than the threshold. *)
Definition inherited (word : string) : bool := String.eqb word "constructor".

Definition common_words : list string :=
  ["this"; "that"; "with"; "from"; "have"; "been"; "more"; "their"; "when";
   "which"; "about"; "would"; "there"; "some"; "what"; "your"; "other";
   "into"; "also"; "than"; "only"; "these"; "very"; "just"; "over"; "such";
   "most"; "even"; "after"; "make"; "like"; "them"; "each"; "will"; "they";
   "many"; "were"; "being"; "could"; "much"; "does"; "well"; "before";
   "should"].

(** [overused] in [checkRepetition]: the entries above the threshold that
    are not common words. *)
Definition overused_words (text : string) : list (string * Z) :=
  let words := match_all long_word (toLowerCase text) in
  let wordFreq := fold_left tally words [] in
  let threshold := Math_max 3 (of_int (JS.count words) * (3 # 100)) in
  filter (fun entry => negb (string_mem (fst entry) common_words))
    (filter (fun entry => negb (inherited (fst entry))
                          && Qlt_bool threshold (of_int (snd entry)))
       wordFreq).

Definition checkRepetition (text : string) : CheckResult :=
  let overused := overused_words text in
  if 5 <? JS.count overused then
    mkCheck "Keyword/Word Repetition" fail 3
      ("Many overused words detected: " ++ join ", " (map fst (firstn 5 overused)))
      (Some "Reduce repetition by using synonyms and restructuring sentences.")
  else if 2 <? JS.count overused then
    mkCheck "Keyword/Word Repetition" warning 10
      ("Some word repetition: " ++ join ", " (map fst overused))
      (Some "Consider using synonyms for frequently repeated terms.")
  else
    mkCheck "Keyword/Word Repetition" pass 15
      "No excessive word repetition detected."
      None.

Definition fillerWords : list string :=
  ["very"; "really"; "actually"; "basically"; "literally"; "just"; "simply";
   "quite"; "rather"; "somewhat"; "perhaps"; "maybe"; "probably"; "certainly";
   "definitely"; "absolutely"; "extremely"; "incredibly"; "amazingly";
   "essentially"].

(** [/[^a-z]/g] *)
Definition not_a_letter : regex := Chr (fun c => negb (is_lower c)).

Definition checkFillerWords (text : string) : CheckResult :=
  let words := split whitespace (toLowerCase text) in
  let fillerCount :=
    JS.count (filter (fun word => string_mem (replace not_a_letter "" word) fillerWords) words) in
  let fillerRatio := (of_int fillerCount / of_int (JS.count words))%Q in
  if Qlt_bool (5 # 100) fillerRatio then
    mkCheck "Filler Words" fail 2
      ("High filler word usage (" ++ of_Z fillerCount ++ " filler words, "
         ++ toFixed1 (fillerRatio * 100) ++ "%).")
      (Some ("Remove unnecessary filler words like " ++ dquote ++ "very," ++ dquote ++ " "
               ++ dquote ++ "really," ++ dquote ++ " " ++ dquote ++ "actually." ++ dquote))
  else if Qlt_bool (25 # 1000) fillerRatio then
    mkCheck "Filler Words" warning 6
      ("Moderate filler word usage (" ++ of_Z fillerCount ++ " filler words).")
      (Some "Consider reducing filler words for more direct writing.")
  else
    mkCheck "Filler Words" pass 10
      "Low filler word usage. Direct, purposeful writing."
      None.

(** A quoted span: a double quote, one or more other code units, a double
    quote; or the same between single quotes. *)
Definition quoted (q : string) : regex :=
  Seq (Char q) (Seq (Plus (Chr (fun c => negb (one_of q c)))) (Char q)).
Definition quotes_pattern : regex := Alt (quoted dquote) (quoted "'").

(** [/\b\d+\b/] *)
Definition number_pattern : regex := Seq WordB (Seq (Plus (Chr is_digit)) WordB).

(** [/^\s*[-*•]\s|\d+\.\s/m]; the bullet U+2022 lies outside the code
    units of the model. *)
Definition list_pattern : regex :=
  Alt (Seq LineStart (Seq (Star (Chr is_space)) (Seq (Chr (one_of "-*")) (Chr is_space))))
      (Seq (Plus (Chr is_digit)) (Seq (Char ".") (Chr is_space))).

Definition checkEngagement (text : string) : CheckResult :=
  let hasQuestions := test (Char "?") text in
  let hasExclamations := test (Char "!") text in
  let hasQuotes := test quotes_pattern text in
  let hasNumbers := test number_pattern text in
  let hasLists := test list_pattern text in
  let signals := 0 in
  let signals := if hasQuestions then signals + 1 else signals in
  let signals := if hasExclamations then signals + 1 else signals in
  let signals := if hasQuotes then signals + 1 else signals in
  let signals := if hasNumbers then signals + 1 else signals in
  let signals := if hasLists then signals + 1 else signals in
  if signals =? 0 then
    mkCheck "Engagement Elements" fail 1
      "No engagement elements detected. Content may feel flat."
      (Some "Add questions, examples with numbers, quotes, or lists to engage readers.")
  else if signals <? 3 then
    mkCheck "Engagement Elements" warning 5
      "Some engagement elements present but could use more variety."
      (Some "Consider adding rhetorical questions, data points, or expert quotes.")
  else
    mkCheck "Engagement Elements" pass 8
      "Good variety of engagement elements throughout content."
      None.

Definition capitalized : regex := Seq (Chr is_upper) (Plus (Chr is_lower)).

Definition specificPatterns : list regex :=
  [ (* /\b\d+%/g *)
    Seq WordB (Seq (Plus (Chr is_digit)) (Char "%"));
    (* /\b(19|20)\d{2}\b/g *)
    Seq WordB (Seq (Alt (Lit false "19") (Lit false "20"))
                 (Seq (Exactly 2 (Chr is_digit)) WordB));
    (* /\$[\d,]+/g *)
    Seq (Char "$") (Plus (Chr (fun c => is_digit c || one_of "," c)));
    (* /\b[A-Z][a-z]+(?:\s[A-Z][a-z]+)+\b/g *)
    Seq WordB (Seq capitalized (Seq (Plus (Seq (Chr is_space) capitalized)) WordB)) ].

Definition checkSpecificity (text : string) : CheckResult :=
  let specificityScore :=
    fold_left
      (fun specificityScore pattern =>
         match match_all pattern text with
         | [] => specificityScore
         | matches => specificityScore + Math_min (JS.count matches) 3
         end)
      specificPatterns 0 in
  if specificityScore =? 0 then
    mkCheck "Specificity & Details" warning 1
      "No specific data, dates, or names detected."
      (Some "Add statistics, years, names, or other specific details to add credibility.")
  else if specificityScore <? 4 then
    mkCheck "Specificity & Details" warning 3
      "Some specific details present but light on data."
      (Some "Consider adding more concrete examples and statistics.")
  else
    mkCheck "Specificity & Details" pass 5
      "Good use of specific details and data points."
      None.

(** The body of [analyzeContent] up to the aggregation. *)
Definition run_checks (text : string) : list CheckResult * Z :=
  let checks := [] in
  let maxScore := 0 in
  let checks := push checks (checkWordCount text) in
  let maxScore := maxScore + 20 in
  let checks := push checks (checkSentenceVariety text) in
  let maxScore := maxScore + 15 in
  let checks := push checks (checkParagraphs text) in
  let maxScore := maxScore + 12 in
  let checks := push checks (checkVocabulary text) in
  let maxScore := maxScore + 15 in
  let checks := push checks (checkRepetition text) in
  let maxScore := maxScore + 15 in
  let checks := push checks (checkFillerWords text) in
  let maxScore := maxScore + 10 in
  let checks := push checks (checkEngagement text) in
  let maxScore := maxScore + 8 in
  let checks := push checks (checkSpecificity text) in
  let maxScore := maxScore + 5 in
  (checks, maxScore).

Definition analyzeContent (text : string) : Outcome :=
  let '(checks, maxScore) := run_checks text in
  let totalScore := sum_scores checks in
  let finalScore := Math_round ((of_int totalScore / of_int maxScore) * 100) in
  mkOutcome finalScore (JS.count (split whitespace text)) checks.

Definition displayResults (score : Z) : Tier * string * string :=
  if 75 <=? score then
    (score_green, "High-Quality Content",
     "Your content shows strong quality signals. It should be well-received by both readers and search engines.")
  else if 50 <=? score then
    (score_yellow, "Needs Improvement",
     "Your content has potential but may be flagged for quality issues. Address the items below.")
  else
    (score_red, "Low-Value Content Risk",
     "This content shows multiple low-value signals. Major revisions recommended before publishing.").

End LowValueAnalyzer.

(* ================================================================== *)
(** * assets/js/content-humanizer.js                                   *)
(* ================================================================== *)

Module ContentHumanizer.
Import JS.

(** [/(?<=[.!?])\s+/] *)
Definition sentence_gap : regex := Seq (Behind (one_of ".!?")) whitespace.

Definition splitIntoSentences (text : string) : list string :=
  let rawSentences := split sentence_gap text in
  filter (fun s => 0 <? JS.length (trim s)) rawSentences.

(** The entries of a replacement table, in the order of [Object.entries];
    the key [utilize], written twice in [casualReplacements], is one
    entry. *)
Definition casualReplacements : list (string * string) :=
  [("utilize", "use");
   ("implement", "put in place");
   ("demonstrate", "show");
   ("facilitate", "help with");
   ("regarding", "about");
   ("concerning", "about");
   ("commence", "start");
   ("terminate", "end");
   ("endeavor", "try");
   ("sufficient", "enough");
   ("numerous", "lots of");
   ("approximately", "about");
   ("subsequently", "then");
   ("nevertheless", "but still");
   ("furthermore", "also");
   ("therefore", "so");
   ("however", "but");
   ("additionally", "plus");
   ("consequently", "so");
   ("In conclusion", "So basically");
   ("It is important to note that", "Keep in mind that");
   ("It should be noted that", "Just so you know");
   ("In order to", "To");
   ("Due to the fact that", "Because");
   ("For the purpose of", "To");
   ("In the event that", "If");
   ("At this point in time", "Now");
   ("In the near future", "Soon");
   ("In spite of the fact that", "Even though")].

Definition storyReplacements : list (string * string) :=
  [("utilize", "work with");
   ("implement", "bring to life");
   ("demonstrate", "show firsthand");
   ("experience", "journey through");
   ("discover", "stumble upon");
   ("learn", "come to realize");
   ("understand", "grasp");
   ("important", "crucial");
   ("significant", "remarkable");
   ("interesting", "fascinating")].

Definition professionalReplacements : list (string * string) :=
  [("lots of", "numerous");
   ("a lot", "significantly");
   ("really", "substantially");
   ("very", "considerably");
   ("get", "obtain");
   ("got", "obtained");
   ("show", "demonstrate");
   ("use", "utilize");
   ("help", "assist");
   ("need", "require");
   ("want", "desire");
   ("think", "believe");
   ("know", "understand");
   ("good", "beneficial");
   ("bad", "detrimental");
   ("big", "substantial");
   ("small", "minimal")].

(** [new RegExp(key, 'gi')] for a key without pattern characters *)
Definition anywhere (key : string) : regex := Lit true key.

(** [new RegExp(`\\b${key}\\b`, 'gi')] *)
Definition whole_word (key : string) : regex := Seq WordB (Seq (Lit true key) WordB).

(** The [for ... of Object.entries(table)] loop over one sentence. *)
Definition substitute (pattern : string -> regex) (table : list (string * string))
  (sentence : string) : string :=
  fold_left (fun newSentence entry => replace (pattern (fst entry)) (snd entry) newSentence)
    table sentence.

Definition applyCasualTone (sentences : list string) : list string :=
  map (substitute anywhere casualReplacements) sentences.

Definition applyStoryTone (sentences : list string) : list string :=
  map (substitute whole_word storyReplacements) sentences.

Definition applyProfessionalTone (sentences : list string) : list string :=
  map (substitute whole_word professionalReplacements) sentences.

(** [x[index]] inside a string concatenation *)
Definition at_index (xs : list string) (index : Z) : string :=
  if index <? 0 then "undefined" else nth (Z.to_nat index) xs "undefined".

(** [sentence.charAt(0).toLowerCase() + sentence.slice(1)] *)
Definition decapitalize (sentence : string) : string :=
  toLowerCase (charAt0 sentence) ++ drop 1 sentence.

Definition intros : list string :=
  ["Interestingly, ";
   "What's worth noting is that ";
   "Here's the thing: ";
   "The reality is, ";
   "Looking at this closely, "].

(** [/^(Interestingly|What's|Here's|The reality|Looking)/] *)
Definition starts_with_intro : regex :=
  Seq InputStart (AnyOf ["Interestingly"; "What's"; "Here's"; "The reality"; "Looking"]).

(** [/^(Furthermore|Additionally|Moreover|Also|And|Plus|Then|Next)/] *)
Definition starts_with_transition : regex :=
  Seq InputStart
    (AnyOf ["Furthermore"; "Additionally"; "Moreover"; "Also"; "And"; "Plus"; "Then"; "Next"]).

Definition casualTransitions : list string :=
  ["Also, "; "And "; "Plus, "; "So "; "Now, "].
Definition storyTransitions : list string :=
  ["Then, "; "Next, "; "Meanwhile, "; "Eventually, "; "As it turns out, "].
Definition professionalTransitions : list string :=
  ["Furthermore, "; "Additionally, "; "Moreover, "; "Subsequently, "; "Consequently, "].

Definition commonWords : list string :=
  ["the"; "a"; "an"; "and"; "or"; "but"; "in"; "on"; "at"; "to"; "for"].

(** The loop of [removeRepetition]: the words kept, from the last word
    kept so far. *)
Fixpoint keep_words (lastWord : string) (words : list string) : list string :=
  match words with
  | [] => []
  | word :: words' =>
      if String.eqb (toLowerCase word) (toLowerCase lastWord)
         && negb (string_mem (toLowerCase word) commonWords)
      then keep_words lastWord words'
      else word :: keep_words word words'
  end.

Definition removeRepetition (text : string) : string :=
  let words := split whitespace text in
  join " " (keep_words "" words).

(** A [.replace(/\bfrom\b/gi, to)] step, or [/g] alone when [ci] is
    false. *)
Definition word_regex (ci : bool) (from : string) : regex :=
  Seq WordB (Seq (Lit ci from) WordB).

Definition rewrite_all (steps : list (bool * string * string)) (text : string) : string :=
  fold_left (fun result step =>
               match step with
               | (ci, from, to) => replace (word_regex ci from) to result
               end)
    steps text.

Definition contractions : list (bool * string * string) :=
  [(true, "do not", "don't");
   (true, "cannot", "can't");
   (true, "will not", "won't");
   (true, "should not", "shouldn't");
   (true, "would not", "wouldn't");
   (true, "could not", "couldn't");
   (true, "it is", "it's");
   (true, "that is", "that's");
   (true, "what is", "what's");
   (true, "there is", "there's");
   (false, "I am", "I'm");
   (true, "you are", "you're");
   (true, "they are", "they're");
   (true, "we are", "we're")].

Definition expansions : list (bool * string * string) :=
  [(true, "don't", "do not");
   (true, "can't", "cannot");
   (true, "won't", "will not");
   (true, "shouldn't", "should not");
   (true, "wouldn't", "would not");
   (true, "couldn't", "could not");
   (true, "it's", "it is");
   (true, "that's", "that is");
   (false, "I'm", "I am")].

Definition addHumanTouches (text tone : string) : string :=
  let result := text in
  let result :=
    if String.eqb tone "casual" || String.eqb tone "story"
    then rewrite_all contractions result
    else result in
  let result :=
    if String.eqb tone "professional"
    then rewrite_all expansions result
    else result in
  result.

(** ** The randomized stages

    [Math.random()] is a parameter: [random n] is the number that the
    call number [n] of a run returns.  A stage is a function of the
    number of calls made before it, to its result and the number of calls
    made after it. *)

Definition Rand (A : Type) : Type := nat -> A * nat.

Definition ret {A : Type} (a : A) : Rand A := fun n => (a, n).

Definition bind {A B : Type} (m : Rand A) (f : A -> Rand B) : Rand B :=
  fun n => let '(a, n') := m n in f a n'.

(** [xs.map((x, index) => f(x, index))], left to right *)
Fixpoint map_indexed (f : string -> Z -> Rand string) (index : Z) (xs : list string)
  : Rand (list string) :=
  match xs with
  | [] => ret []
  | x :: xs' =>
      bind (f x index) (fun y =>
      bind (map_indexed f (index + 1) xs') (fun ys =>
      ret (y :: ys)))
  end.

Section Randomized.

Variable random : nat -> Q.

Definition Math_random : Rand Q := fun n => (random n, S n).

Definition vary (sentence : string) (index : Z) : Rand string :=
  if negb (index mod 3 =? 0) then ret sentence
  else
    bind Math_random (fun r =>
    if Qlt_bool (7 # 10) r && negb (test starts_with_intro sentence) then
      bind Math_random (fun r' =>
      let intro := at_index intros (Math_floor (r' * of_int (count intros))) in
      ret (intro ++ decapitalize sentence))
    else ret sentence).

Definition varySentenceStructure (sentences : list string) : Rand (list string) :=
  map_indexed vary 0 sentences.

Definition transitions_for (tone : string) : list string :=
  if String.eqb tone "casual" then casualTransitions
  else if String.eqb tone "story" then storyTransitions
  else if String.eqb tone "professional" then professionalTransitions
  else casualTransitions.

Definition add_transition (transitions : list string) (sentence : string) (index : Z)
  : Rand string :=
  if (0 <? index) && (index mod 4 =? 0) then
    bind Math_random (fun r =>
    if Qlt_bool (5 # 10) r then
      bind Math_random (fun r' =>
      let transition := at_index transitions (Math_floor (r' * of_int (count transitions))) in
      if negb (test starts_with_transition sentence)
      then ret (transition ++ decapitalize sentence)
      else ret sentence)
    else ret sentence)
  else ret sentence.

Definition addNaturalTransitions (sentences : list string) (tone : string)
  : Rand (list string) :=
  map_indexed (add_transition (transitions_for tone)) 0 sentences.

Definition humanize (text tone : string) : Rand string :=
  let result := text in
  let sentences := splitIntoSentences result in
  let sentences :=
    if String.eqb tone "casual" then applyCasualTone sentences
    else if String.eqb tone "story" then applyStoryTone sentences
    else if String.eqb tone "professional" then applyProfessionalTone sentences
    else sentences in
  bind (varySentenceStructure sentences) (fun sentences =>
  bind (addNaturalTransitions sentences tone) (fun sentences =>
  let result := removeRepetition (join " " sentences) in
  let result := addHumanTouches result tone in
  ret result)).

(** [humanizeText(text, tone)], in a run whose calls of [Math.random()]
    return [random 0], [random 1], ... *)
Definition humanizeText (text tone : string) : string :=
  fst (humanize text tone 0%nat).

End Randomized.

End ContentHumanizer.

(* ================================================================== *)
(** * Vocabulary of the properties                                     *)
(* ================================================================== *)

Module Spec.
Import JS Dom Check.

(** A check result lies within the weight of its check. *)
Definition within (weight : Z) (check : CheckResult) : Prop :=
  0 <= score check <= weight.

Definition total (weights : list Z) : Z := fold_right Z.add 0 weights.

(** The aggregate of a battery, as the specification states it: the
    rounded percentage of the sum of the check scores in the weight
    total, between 0 and 100, the sum of the scores not above the weight
    total. *)
Definition normalized (finalScore : Z) (checks : list CheckResult) (maxScore : Z) : Prop :=
  finalScore = Math_round (100 * of_int (total (map score checks)) / of_int maxScore)
  /\ 0 <= finalScore <= 100
  /\ total (map score checks) <= maxScore.

(** The weights of the four batteries, in battery order. *)
Definition seo_weights : list Z := [15; 12; 12; 10; 10; 10; 8; 10; 8; 5].
Definition adsense_weights : list Z := [10; 10; 10; 15; 10; 10; 10; 10; 10; 5].
Definition static_weights : list Z := [15; 12; 15; 12; 15; 10; 8; 8; 5].
Definition text_weights : list Z := [20; 15; 12; 15; 15; 10; 8; 5].

(** The tier of a display function. *)
Definition tier (shown : Tier * string * string) : Tier := fst (fst shown).

(** A two-threshold ladder, in the words of the specification. *)
Definition ladder (top middle score : Z) : Tier :=
  if top <=? score then score_green
  else if middle <=? score then score_yellow
  else score_red.

(** The check of a battery run with a given name. *)
Definition check_named (n : string) (checks : list CheckResult) : option CheckResult :=
  find (fun c => String.eqb (name c) n) checks.

(** ** Sample inputs *)

Fixpoint until_delimiter (s : string) : string :=
  match s with
  | EmptyString => EmptyString
  | String c s' => if one_of "/?#:" c then EmptyString else String c (until_delimiter s')
  end.

(** What [new URL(url).hostname] is for an absolute http or https URL
    without credentials: the text between the scheme and the first of
    [/], [?], [#] and [:], in lower case. *)
Definition sample_hostname (url : string) : option string :=
  let l := toLowerCase url in
  if startsWith l "https://" then Some (until_delimiter (drop 8 l))
  else if startsWith l "http://" then Some (until_delimiter (drop 7 l))
  else None.

(** The [href] property of an anchor whose attribute is already an
    absolute URL. *)
Definition sample_resolve (href : string) : string := href.

(** An [a] element is an HTML element unless [svg] or [math] is among
    its ancestors: what the parser does on a page whose [svg] and [math]
    elements hold no HTML content. *)
Definition sample_html_anchor (ancestors : list node) (a : node) : bool :=
  negb (existsb (fun p => match p with
                          | Element t _ _ => String.eqb t "svg" || String.eqb t "math"
                          | Text _ => false
                          end)
          ancestors).

Definition page (head body : list node) : Document := mkDocument [] [] head [] body.

(** The document of an empty source. *)
Definition empty_page : Document := page [] [].

(** A parser for one source. *)
Definition parses_to (doc : Document) : string -> Document := fun _ => doc.

(** [<meta name="description">], without a [content] attribute. *)
Definition description_without_content : Document :=
  page [Element "meta" [("name", "description")] []] [].

(** [<meta name="viewport" content="width=device-width, initial-scale=1.0">]
    and nothing else. *)
Definition viewport_page : Document :=
  page [Element "meta" [("name", "viewport");
                        ("content", "width=device-width, initial-scale=1.0")] []] [].

Definition titled_page (title : string) : Document :=
  page [Element "title" [] [Text title]] [].

Definition title_of_30 : string := "Thirty characters of a title!!".
Definition title_of_70 : string :=
  "Seventy characters make a title that still fits the result page, fine.".

(** ** Texts of one repeated word *)

(** [p] holds of every code unit of [s]. *)
Fixpoint all_chars (p : ascii -> bool) (s : string) : bool :=
  match s with
  | EmptyString => true
  | String c s' => p c && all_chars p s'
  end.

(** [s] is empty or begins with a code unit outside [p]. *)
Definition stops (p : ascii -> bool) (s : string) : bool :=
  match s with
  | EmptyString => true
  | String c _ => negb (p c)
  end.

Definition is_letter (c : ascii) : bool := is_lower c || is_upper c.

(** [n] times a space and [word]. *)
Fixpoint spaced (n : nat) (word : string) : string :=
  match n with
  | O => EmptyString
  | S n' => " " ++ word ++ spaced n' word
  end.

(** [word], [n] times, with single spaces between. *)
Definition repeated (n : nat) (word : string) : string :=
  match n with
  | O => EmptyString
  | S n' => word ++ spaced n' word
  end.

(** ** The claims that fail as stated *)

(** What the specification states of a text of one repeated word: the
    vocabulary check fails, and the repetition check reports the word as
    overused and lists it in its message. *)
Definition repetition_reported (word text : string) : Prop :=
  status (LowValueAnalyzer.checkVocabulary text) = fail
  /\ In word (map fst (LowValueAnalyzer.overused_words text))
  /\ includes (message (LowValueAnalyzer.checkRepetition text)) word = true.

(** The tier ladders with the boundaries the specification lists. *)
Definition tiers_as_stated (score : Z) : Prop :=
  tier (SeoChecker.displaySEOResults score) = ladder 80 60 score
  /\ tier (AdsenseChecker.displayResults score) = ladder 80 60 score
  /\ tier (StaticChecker.displayResults score) = ladder 80 55 score
  /\ tier (LowValueAnalyzer.displayResults score) = ladder 75 50 score.

(** A document without title, meta description, h1, images and links,
    analyzed with an [http://] URL. *)
Definition bare_page (doc : Document) (url : string) : Prop :=
  querySelector doc [tag "title"] = None
  /\ querySelector doc [tag_attr_is "meta" "name" "description"] = None
  /\ querySelectorAll doc [tag "h1"] = []
  /\ querySelectorAll doc [tag "img"] = []
  /\ querySelectorAll doc [[[Tag "a"; HasAttr "href"]]] = []
  /\ startsWith url "http://" = true.

Definition score_named (n : string) (checks : list CheckResult) : option Z :=
  option_map score (check_named n checks).

(** What the specification states of the SEO battery on a bare page. *)
Definition bare_page_scores_as_stated
    (parseFromString : string -> Document) (URL_hostname : string -> option string)
    (html url : string) : Prop :=
  bare_page (parseFromString html) url ->
  exists r,
    SeoChecker.analyzeSEO parseFromString URL_hostname html url = Ok r
    /\ score_named "Title Tag" (SeoChecker.checks_of r) = Some 0
    /\ score_named "Meta Description" (SeoChecker.checks_of r) = Some 0
    /\ score_named "H1 Heading" (SeoChecker.checks_of r) = Some 0
    /\ score_named "HTTPS Security" (SeoChecker.checks_of r) = Some 0
    /\ (exists s, score_named "Image Alt Attributes" (SeoChecker.checks_of r) = Some s /\ s <> 0)
    /\ (exists s, score_named "Internal Links" (SeoChecker.checks_of r) = Some s /\ s <> 0)
    /\ SeoChecker.final_score r < 20.

(** ** Patterns of the proofs *)


Definition keys (table : list (string * string)) : list string := map fst table.

(** [/\b[a-z]{m,}\b/] *)
Definition lower_run (m : nat) : regex := Seq WordB (Seq (AtLeast m (Chr is_lower)) WordB).

(** ** The claim on contractions, as stated *)

(** The contracted forms that the rewriter itself writes, in its casual
    tone. *)
Definition contracted_forms : list string :=
  map snd ContentHumanizer.contractions.

(** [word] occurs in [text] as a whole word, in any letter case. *)
Definition occurs (word text : string) : bool :=
  test (ContentHumanizer.word_regex true word) text.

(** What the specification states of the professional tone: no
    contraction of the input is left in the output. *)
Definition expands_every_contraction (random : nat -> Q) (text : string) : Prop :=
  forall c,
    In c contracted_forms ->
    occurs c text = true ->
    occurs c (ContentHumanizer.humanizeText random text "professional") = false.

End Spec.

(* ================================================================== *)
(** * Texts as words and separators                                    *)
(* ================================================================== *)

Module Words.
Import JS Spec.

(** A maximal run of word characters, or one other code unit. *)
Inductive token : Type :=
| Word (w : string)
| Sep (c : ascii).

Fixpoint flatten (ts : list token) : string :=
  match ts with
  | [] => EmptyString
  | Word w :: ts' => w ++ flatten ts'
  | Sep c :: ts' => String c (flatten ts')
  end.

Fixpoint tokenize (s : string) : list token :=
  match s with
  | EmptyString => []
  | String c s' =>
      if is_word c then
        match tokenize s' with
        | Word w :: ts => Word (String c w) :: ts
        | ts => Word (str c) :: ts
        end
      else Sep c :: tokenize s'
  end.

Definition starts_with_word (ts : list token) : bool :=
  match ts with
  | Word _ :: _ => true
  | _ => false
  end.

Definition nonempty (s : string) : bool :=
  match s with
  | EmptyString => false
  | String _ _ => true
  end.

(** Words are non-empty runs of word characters, no two of them adjacent,
    and separators are not word characters. *)
Fixpoint well_formed (ts : list token) : bool :=
  match ts with
  | [] => true
  | Word w :: ts' =>
      nonempty w && all_chars is_word w && negb (starts_with_word ts') && well_formed ts'
  | Sep c :: ts' => negb (is_word c) && well_formed ts'
  end.

(** The test of one pattern character, as [Lit] builds it. *)
Definition eqc (ci : bool) (a : ascii) : ascii -> bool :=
  if ci then char_eqb_ci a else char_eqb a.

(** [s] is the pattern text [pat], up to letter case under [ci]. *)
Fixpoint lit_eq (ci : bool) (pat s : string) : bool :=
  match pat, s with
  | EmptyString, EmptyString => true
  | String a pat', String c s' => eqc ci a c && lit_eq ci pat' s'
  | _, _ => false
  end.

(** What is left of [s] after a copy of [pat] at its head, with the last
    code unit passed. *)
Fixpoint strip (ci : bool) (pat : string) (prev : option ascii) (s : string)
  : option (option ascii * string) :=
  match pat with
  | EmptyString => Some (prev, s)
  | String a pat' =>
      match s with
      | EmptyString => None
      | String c s' => if eqc ci a c then strip ci pat' (Some c) s' else None
      end
  end.

Definition apostrophe (c : ascii) : bool := Ascii.eqb c "'".

(** Some word, an apostrophe and the next word are a hit of [h]. *)
Fixpoint has_hit (h : string -> string -> bool) (ts : list token) : bool :=
  match ts with
  | [] => false
  | Word a :: ts' =>
      match ts' with
      | Sep c :: Word b :: _ => apostrophe c && h a b
      | _ => false
      end
      || has_hit h ts'
  | Sep _ :: ts' => has_hit h ts'
  end.

(** Every hit of [h], left to right, replaced by the tokens [out]. *)
Fixpoint replace_hits (h : string -> string -> bool) (out : list token)
  (ts : list token) : list token :=
  match ts with
  | [] => []
  | Word a :: ts' =>
      match ts' with
      | Sep c :: Word b :: rest =>
          if apostrophe c && h a b then out ++ replace_hits h out rest
          else Word a :: replace_hits h out ts'
      | _ => Word a :: replace_hits h out ts'
      end
  | Sep c :: ts' => Sep c :: replace_hits h out ts'
  end.

(** A contraction [pre'x] and its expansion of one or two words. *)
Record contraction : Type := mkContraction {
  ignore_case : bool;
  pre : string;
  post : string;
  first_word : string;
  second_word : option string
}.

Definition source (k : contraction) : string := pre k ++ "'" ++ post k.

Definition expansion_tokens (k : contraction) : list token :=
  match second_word k with
  | Some l => [Word (first_word k); Sep " "; Word l]
  | None => [Word (first_word k)]
  end.

Definition last_word (k : contraction) : string :=
  match second_word k with
  | Some l => l
  | None => first_word k
  end.

Definition hit (k : contraction) (a b : string) : bool :=
  lit_eq (ignore_case k) (pre k) a && lit_eq (ignore_case k) (post k) b.

(** The steps of [expansions], taken apart. *)
Definition expansion_parts : list contraction :=
  [mkContraction true "don" "t" "do" (Some "not");
   mkContraction true "can" "t" "cannot" None;
   mkContraction true "won" "t" "will" (Some "not");
   mkContraction true "shouldn" "t" "should" (Some "not");
   mkContraction true "wouldn" "t" "would" (Some "not");
   mkContraction true "couldn" "t" "could" (Some "not");
   mkContraction true "it" "s" "it" (Some "is");
   mkContraction true "that" "s" "that" (Some "is");
   mkContraction false "I" "m" "I" (Some "am")].

Definition step_of (k : contraction) : bool * string * string :=
  (ignore_case k, source k, flatten (expansion_tokens k)).

(** The separator and the word that follow the first token, if they do. *)
Definition peek (ts : list token) : option (ascii * string) :=
  match ts with
  | Sep c :: Word b :: _ => Some (c, b)
  | _ => None
  end.

Definition hit_after (h : string -> string -> bool) (a : string) (ts : list token) : bool :=
  match peek ts with
  | Some (c, b) => apostrophe c && h a b
  | None => false
  end.

(** The outcome of one attempt, by the text stripped. *)
Definition bounded_strip (ci : bool) (pat : string) (prev : option ascii) (s : string)
  : option string :=
  match strip ci pat prev s with
  | Some (p, rest) =>
      if xorb (is_word_before p) (is_word_at rest) then Some rest else None
  | None => None
  end.

(** The conditions on a contraction: its two parts and the words of its
    expansion are non-empty runs of word characters. *)
Definition is_a_word (w : string) : bool := nonempty w && all_chars is_word w.

Definition valid (k : contraction) : bool :=
  is_a_word (pre k) && is_a_word (post k) && is_a_word (first_word k)
  && match second_word k with
     | Some l => is_a_word l
     | None => true
     end.

Definition regex_of (k : contraction) : regex :=
  ContentHumanizer.word_regex (ignore_case k) (source k).

(** The expansion of [j] creates no hit of [k]: the last word of the
    expansion is not the first part of [k], and its first word is not the
    second part of [k]. *)
Definition compatible (j k : contraction) : bool :=
  negb (lit_eq (ignore_case k) (pre k) (last_word j))
  && negb (lit_eq (ignore_case k) (post k) (first_word j)).

(** The chain of replacements on tokens: for each contraction of [ks] in
    turn, every hit replaced by the words of its expansion, and every
    other token copied. *)
Definition expand_tokens (ks : list contraction) (ts : list token) : list token :=
  fold_left (fun ts k => replace_hits (hit k) (expansion_tokens k) ts) ks ts.

End Words.

(* ================================================================== *)
(** * The handlers of the text tools                                   *)
(* ================================================================== *)

(** The part of an event handler that decides what the page shows: the
    message handed to [showError], or the results handed to the display
    function.  The changes of the buttons and the delay of [setTimeout]
    are left out. *)

Module Handlers.
Import JS Check.

Inductive shown (A : Type) : Type :=
| error (message : string)
| displayed (results : A).
Arguments error {A} message.
Arguments displayed {A} results.

(** ** assets/js/low-value-analyzer.js *)

(** The number that the [input] listener writes into [#word-count]. *)
Definition wordCounter (value : string) : Z :=
  let words := filter (fun w => 0 <? JS.length w) (split whitespace (trim value)) in
  JS.count words.

(** What [handleAnalysis] shows: the results handed to [displayResults],
    or an error.  The elements of the page are there, so that nothing is
    raised inside the [try] block. *)
Definition handleAnalysis (value : string) : shown LowValueAnalyzer.Outcome :=
  let inputText := trim value in
  if negb (truthy inputText) then
    error "Please enter some content to analyze."
  else if JS.count (split whitespace inputText) <? 100 then
    error "Please enter at least 100 words for meaningful analysis."
  else
    let results := LowValueAnalyzer.analyzeContent inputText in
    displayed results.

(** ** assets/js/content-humanizer.js *)

Record Stats : Type := mkStats {
  originalWords : Z;
  humanizedWords : Z;
  changePercent : Z
}.

(** The three numbers that [updateStats] writes into [#stats-container]. *)
Definition updateStats (original humanized : string) : Stats :=
  let originalWords := JS.count (split whitespace original) in
  let humanizedWords := JS.count (split whitespace humanized) in
  let changePercent :=
    Math_round ((of_int (Z.abs (humanizedWords - originalWords)) / of_int originalWords) * 100) in
  mkStats originalWords humanizedWords changePercent.

(** What [handleHumanize] shows: the output text and the numbers of
    [updateStats], or an error.  [Math.random()] is the parameter
    [random] of [humanizeText]; the elements of the page are there, so
    that nothing is raised inside the [try] block. *)
Definition handleHumanize (random : nat -> Q) (value toneSelect : string)
  : shown (string * Stats) :=
  let inputText := trim value in
  if negb (truthy inputText) then
    error "Please enter some text to humanize."
  else if JS.length inputText <? 50 then
    error "Please enter at least 50 characters for meaningful humanization."
  else
    let humanizedText := ContentHumanizer.humanizeText random inputText toneSelect in
    displayed (humanizedText, updateStats inputText humanizedText).

End Handlers.

(* ================================================================== *)
(** * Vocabulary of the further properties                             *)
(* ================================================================== *)

Module Shapes.
Import JS Dom Check.

(** ** What a split returns *)

(** Only white space, if anything. *)
Definition blank (s : string) : bool := Spec.all_chars is_space s.

(** No code unit of [w] is white space. *)
Definition clean (w : string) : bool := Spec.all_chars (fun c => negb (is_space c)) w.

(** A word: not empty, and without white space. *)
Definition solid (w : string) : bool := truthy w && clean w.

(** The pieces between the runs of white space of [s]; [gap] tells that
    the code unit before [s] is white space. *)
Fixpoint pieces (gap : bool) (s : string) : list string :=
  match s with
  | EmptyString => [EmptyString]
  | String c s' =>
      if is_space c then
        if gap then pieces true s' else EmptyString :: pieces true s'
      else
        match pieces false s' with
        | x :: xs => String c x :: xs
        | [] => [str c]
        end
  end.

(** [seg], put before the first piece. *)
Definition graft (seg : string) (l : list string) : list string :=
  match l with
  | x :: xs => (seg ++ x) :: xs
  | [] => [seg]
  end.

(** Words, the last of which may be empty. *)
Fixpoint loose (ws : list string) : bool :=
  match ws with
  | [] => true
  | [w] => clean w
  | w :: ws' => solid w && loose ws'
  end.

(** No words, or words that begin with a real one and the last of which
    may be empty. *)
Definition tidy (ws : list string) : bool :=
  match ws with
  | [] => true
  | w :: ws' => solid w && loose ws'
  end.

(** The code units of [s] that satisfy [p], in order. *)
Fixpoint keep (p : ascii -> bool) (s : string) : string :=
  match s with
  | EmptyString => EmptyString
  | String c s' => if p c then String c (keep p s') else keep p s'
  end.

(** Every code unit that [r] can consume satisfies [q]. *)
Fixpoint only (q : ascii -> bool) (r : regex) : Prop :=
  match r with
  | Chr p => forall c, p c = true -> q c = true
  | Seq r1 r2 | Alt r1 r2 => only q r1 /\ only q r2
  | Star r' => only q r'
  | Eps | WordB | InputStart | LineStart | InputEnd | Behind _ => True
  end.

(** Every match of [r] consumes a code unit that satisfies [q]. *)
Fixpoint needs (q : ascii -> bool) (r : regex) : Prop :=
  match r with
  | Chr p => forall c, p c = true -> q c = true
  | Seq r1 r2 => needs q r1 \/ needs q r2
  | Alt r1 r2 => needs q r1 /\ needs q r2
  | Eps | Star _ | WordB | InputStart | LineStart | InputEnd | Behind _ => False
  end.

(** Lower-case letters, white space, full stops and commas. *)
Definition plain (c : ascii) : bool :=
  is_lower c || is_space c || one_of ".," c.

(** Two words next to each other in [ws] satisfy [r]. *)
Fixpoint neighbours (r : string -> string -> Prop) (ws : list string) : Prop :=
  match ws with
  | w :: ((w' :: _) as ws') => r w w' /\ neighbours r ws'
  | _ => True
  end.

(** The word [w'] may follow the word [w]: they differ, also when letter
    case is ignored, or [w'] is a common word. *)
Definition may_follow (w w' : string) : Prop :=
  String.eqb (toLowerCase w') (toLowerCase w) = true ->
  string_mem (toLowerCase w') ContentHumanizer.commonWords = true.

(** [s'] is [s], or [s] without its capital after one of [prefixes];
    the latter only at an index where [changes] holds. *)
Definition prefixed (changes : Z -> bool) (prefixes : list string) (index : Z)
    (s s' : string) : Prop :=
  s' = s
  \/ (changes index = true
      /\ exists prefix, In prefix prefixes /\ s' = prefix ++ ContentHumanizer.decapitalize s).

(** The sentences [ys] are the sentences [xs], in the same places, each
    one [prefixed]; [index] is the place of the first. *)
Fixpoint placed (changes : Z -> bool) (prefixes : list string) (index : Z)
    (xs ys : list string) : Prop :=
  match xs, ys with
  | [], [] => True
  | x :: xs', y :: ys' =>
      prefixed changes prefixes index x y /\ placed changes prefixes (index + 1) xs' ys'
  | _, _ => False
  end.

(** [s] ends with a full stop, an exclamation mark or a question mark. *)
Definition ends_sentence (s : string) : bool :=
  match last_of None s with
  | Some c => one_of ".!?" c
  | None => false
  end.

(** ** Documents *)

(** The first description tag of the document has no [content]
    attribute. *)
Definition bare_description (doc : Document) : Prop :=
  exists meta,
    querySelector doc [tag_attr_is "meta" "name" "description"] = Some meta
    /\ getAttribute meta "content" = None.

(** The test of the contact check on an HTML anchor. *)
Definition contact_link (resolve : string -> string) (a : node) : bool :=
  includes (toLowerCase match getAttribute a "href" with
                        | Some h => resolve h
                        | None => ""
                        end) "contact"
  || includes (toLowerCase (textContent a)) "contact".

(** Among the [links], an element that is not an HTML anchor comes
    before every contact link. *)
Definition foreign_anchor_first (resolve : string -> string)
    (html_anchor : list node -> node -> bool) (links : list (list node * node)) : Prop :=
  exists before ancestors a after,
    links = (before ++ (ancestors, a) :: after)%list
    /\ html_anchor ancestors a = false
    /\ forall place,
         In place before ->
         html_anchor (fst place) (snd place) = true
         /\ contact_link resolve (snd place) = false.

(** ** Host names *)

(** The endings of [subdomainPatterns]. *)
Definition hosting_suffixes : list string :=
  [".netlify.app"; ".github.io"; ".vercel.app"; ".surge.sh"; ".pages.dev"; ".onrender.com"].

(** [hostname] ends with [suffix], letter case apart. *)
Definition ends_with (suffix hostname : string) : Prop :=
  exists name ending,
    hostname = name ++ ending /\ Words.lit_eq true suffix ending = true.

Definition on_hosting_suffix (hostname : string) : Prop :=
  exists suffix, In suffix hosting_suffixes /\ ends_with suffix hostname.

(** ** Frequencies *)

(** The number of times that [w] is in [words]. *)
Fixpoint occurrences (w : string) (words : list string) : Z :=
  match words with
  | [] => 0
  | x :: words' => (if String.eqb x w then 1 else 0) + occurrences w words'
  end.

(** [wordFreq[w]], 0 standing for a missing key. *)
Fixpoint frequency (w : string) (wordFreq : list (string * Z)) : Z :=
  match wordFreq with
  | [] => 0
  | (x, n) :: wordFreq' => if String.eqb x w then n else frequency w wordFreq'
  end.

(** ** Ranges of scores *)

(** The score of a check lies in its range, and is at the top of it
    exactly when the check passes. *)
Definition graded (range : Z * Z) (check : CheckResult) : Prop :=
  fst range <= score check <= snd range
  /\ (status check = pass <-> score check = snd range).

(** The lowest and the highest score of each check, in battery order. *)
Definition seo_ranges : list (Z * Z) :=
  [(0, 15); (0, 12); (0, 12); (0, 10); (2, 10); (2, 10); (4, 8); (0, 10); (0, 8); (2, 5)].
Definition adsense_ranges : list (Z * Z) :=
  [(0, 10); (0, 10); (0, 10); (0, 15); (2, 10); (0, 10); (0, 10); (0, 10); (0, 10); (2, 5)].
Definition static_ranges : list (Z * Z) :=
  [(3, 15); (0, 12); (3, 15); (2, 12); (3, 15); (2, 10); (4, 8); (2, 8); (2, 5)].
Definition text_ranges : list (Z * Z) :=
  [(5, 20); (4, 15); (2, 12); (4, 15); (3, 15); (2, 10); (1, 8); (1, 5)].

Definition all_pass (checks : list CheckResult) : Prop :=
  Forall (fun check => status check = pass) checks.

(** ** Sample inputs *)

(** One image without an [alt] attribute, and nothing else. *)
Definition image_page : Document := Spec.page [] [Element "img" [("src", "a.png")] []].

(** [<svg><a href="/contact">Contact</a></svg>], and nothing else. *)
Definition svg_link_page : Document :=
  Spec.page [] [Element "svg" [] [Element "a" [("href", "/contact")] [Text "Contact"]]].

Definition sentence_of_42 : string :=
  String.concat " " (repeat "really alpha bravo charlie delta hotel kilo" 6).

(** Five equal sentences of 42 words: seven words, thirty times each. *)
Definition poor_text : string :=
  String.concat " " (repeat (sentence_of_42 ++ ".") 5).

End Shapes.

(* ================================================================== *)
(** * Phrases and their contractions, on tokens                        *)
(* ================================================================== *)

Module Phrases.
Import JS Spec Words.

(** A phrase of one word, or of two words with a space between them, and
    what replaces it: a word, and the separators and words after it. *)
Record phrase : Type := mkPhrase {
  any_case : bool;
  head_word : string;
  next_word : option string;
  first_out : string;
  more_out : list (ascii * string)
}.

Definition wording (p : phrase) : string :=
  match next_word p with
  | Some b => head_word p ++ " " ++ b
  | None => head_word p
  end.

Fixpoint tokens_after (more : list (ascii * string)) : list token :=
  match more with
  | [] => []
  | (c, x) :: more' => Sep c :: Word x :: tokens_after more'
  end.

Definition replacement (p : phrase) : list token :=
  Word (first_out p) :: tokens_after (more_out p).

(** The steps of [contractions], taken apart. *)
Definition contraction_parts : list phrase :=
  [mkPhrase true "do" (Some "not") "don" [("'"%char, "t")];
   mkPhrase true "cannot" None "can" [("'"%char, "t")];
   mkPhrase true "will" (Some "not") "won" [("'"%char, "t")];
   mkPhrase true "should" (Some "not") "shouldn" [("'"%char, "t")];
   mkPhrase true "would" (Some "not") "wouldn" [("'"%char, "t")];
   mkPhrase true "could" (Some "not") "couldn" [("'"%char, "t")];
   mkPhrase true "it" (Some "is") "it" [("'"%char, "s")];
   mkPhrase true "that" (Some "is") "that" [("'"%char, "s")];
   mkPhrase true "what" (Some "is") "what" [("'"%char, "s")];
   mkPhrase true "there" (Some "is") "there" [("'"%char, "s")];
   mkPhrase false "I" (Some "am") "I" [("'"%char, "m")];
   mkPhrase true "you" (Some "are") "you" [("'"%char, "re")];
   mkPhrase true "they" (Some "are") "they" [("'"%char, "re")];
   mkPhrase true "we" (Some "are") "we" [("'"%char, "re")]].

(** The entries of [storyReplacements], taken apart. *)
Definition story_parts : list phrase :=
  [mkPhrase true "utilize" None "work" [(" "%char, "with")];
   mkPhrase true "implement" None "bring" [(" "%char, "to"); (" "%char, "life")];
   mkPhrase true "demonstrate" None "show" [(" "%char, "firsthand")];
   mkPhrase true "experience" None "journey" [(" "%char, "through")];
   mkPhrase true "discover" None "stumble" [(" "%char, "upon")];
   mkPhrase true "learn" None "come" [(" "%char, "to"); (" "%char, "realize")];
   mkPhrase true "understand" None "grasp" [];
   mkPhrase true "important" None "crucial" [];
   mkPhrase true "significant" None "remarkable" [];
   mkPhrase true "interesting" None "fascinating" []].

(** The entries of [professionalReplacements], taken apart. *)
Definition professional_parts : list phrase :=
  [mkPhrase true "lots" (Some "of") "numerous" [];
   mkPhrase true "a" (Some "lot") "significantly" [];
   mkPhrase true "really" None "substantially" [];
   mkPhrase true "very" None "considerably" [];
   mkPhrase true "get" None "obtain" [];
   mkPhrase true "got" None "obtained" [];
   mkPhrase true "show" None "demonstrate" [];
   mkPhrase true "use" None "utilize" [];
   mkPhrase true "help" None "assist" [];
   mkPhrase true "need" None "require" [];
   mkPhrase true "want" None "desire" [];
   mkPhrase true "think" None "believe" [];
   mkPhrase true "know" None "understand" [];
   mkPhrase true "good" None "beneficial" [];
   mkPhrase true "bad" None "detrimental" [];
   mkPhrase true "big" None "substantial" [];
   mkPhrase true "small" None "minimal" []].

Definition phrase_step (p : phrase) : bool * string * string :=
  (any_case p, wording p, flatten (replacement p)).

Definition phrase_entry (p : phrase) : string * string :=
  (wording p, flatten (replacement p)).

Definition phrase_regex (p : phrase) : regex :=
  ContentHumanizer.word_regex (any_case p) (wording p).

Definition space (c : ascii) : bool := Ascii.eqb c " ".

(** The phrase is at the word [a], followed by the tokens [ts]. *)
Definition begins (p : phrase) (a : string) (ts : list token) : bool :=
  lit_eq (any_case p) (head_word p) a
  && match next_word p with
     | Some b =>
         match peek ts with
         | Some (c, b') => space c && lit_eq (any_case p) b b'
         | None => false
         end
     | None => true
     end.

(** The tokens after the phrase, of those after its first word. *)
Definition beyond (p : phrase) (ts : list token) : list token :=
  match next_word p with
  | Some _ => skipn 2 ts
  | None => ts
  end.

(** [h] holds at some word of [ts]. *)
Fixpoint holds (h : string -> list token -> bool) (ts : list token) : bool :=
  match ts with
  | [] => false
  | Word a :: ts' => h a ts' || holds h ts'
  | Sep _ :: ts' => holds h ts'
  end.

(** Every occurrence of the phrase, left to right, replaced. *)
Fixpoint rephrase (p : phrase) (ts : list token) : list token :=
  match ts with
  | [] => []
  | Word a :: ts' =>
      match next_word p with
      | Some _ =>
          match ts' with
          | Sep _ :: Word _ :: rest =>
              if begins p a ts' then replacement p ++ rephrase p rest
              else Word a :: rephrase p ts'
          | _ => Word a :: rephrase p ts'
          end
      | None =>
          if begins p a ts' then replacement p ++ rephrase p ts'
          else Word a :: rephrase p ts'
      end
  | Sep c :: ts' => Sep c :: rephrase p ts'
  end.

Definition rephrase_all (ps : list phrase) (ts : list token) : list token :=
  fold_left (fun ts p => rephrase p ts) ps ts.

(** The words of the phrase and of its replacement are non-empty runs of
    word characters, and the separators of the replacement are not word
    characters. *)
Definition proper (p : phrase) : bool :=
  is_a_word (head_word p)
  && match next_word p with
     | Some b => is_a_word b
     | None => true
     end
  && is_a_word (first_out p)
  && forallb (fun more => negb (is_word (fst more)) && is_a_word (snd more)) (more_out p).

(** The phrase [k] may begin at the word [a] of a replacement, [more]
    being what the replacement holds after it. *)
Definition reach (k : phrase) (a : string) (more : list (ascii * string)) : bool :=
  lit_eq (any_case k) (head_word k) a
  && match next_word k, more with
     | Some b, (c, x) :: _ => space c && lit_eq (any_case k) b x
     | _, _ => true
     end.

Fixpoint brings (k : phrase) (a : string) (more : list (ascii * string)) : bool :=
  reach k a more
  || match more with
     | [] => false
     | (_, x) :: more' => brings k x more'
     end.

(** The replacement of [j] brings no occurrence of [k]: the phrase [k]
    begins at no word of it, and does not end with its first word. *)
Definition apart (j k : phrase) : bool :=
  negb (brings k (first_out j) (more_out j))
  && match next_word k with
     | Some b => negb (lit_eq (any_case k) b (first_out j))
     | None => true
     end.

Definition all_apart (ps : list phrase) : bool :=
  forallb (fun j => forallb (apart j) ps) ps.

End Phrases.

(* ================================================================== *)
(** * Properties                                                       *)
(* ================================================================== *)

Import JS Dom Check Spec.

(** ** Rounding a percentage of 100 *)

Lemma Math_round_wd (x y : Q) : (x == y)%Q -> Math_round x = Math_round y.
Proof.
  intros H. unfold Math_round. apply Qfloor_comp. rewrite H. reflexivity.
Qed.

Lemma round_of_hundredths (t : Z) :
  Math_round ((of_int t / of_int 100) * 100) = t.
Proof.
  unfold Math_round, of_int, Qdiv, Qmult, Qplus, Qinv, Qfloor, inject_Z. simpl.
  symmetry. apply Z.div_unique with (r := 100); lia.
Qed.

Lemma percentage_forms (t : Z) :
  Math_round ((of_int t / of_int 100) * 100)
  = Math_round (100 * of_int t / of_int 100).
Proof.
  apply Math_round_wd. unfold of_int. field.
Qed.

(** ** Sums of scores *)

Lemma fold_scores_shift (checks : list CheckResult) (a : Z) :
  fold_left (fun totalScore check => totalScore + score check) checks a
  = a + sum_scores checks.
Proof.
  unfold sum_scores. revert a.
  induction checks as [|c checks IH]; intros a; simpl.
  - lia.
  - rewrite (IH (a + score c)), (IH (score c)). lia.
Qed.

Lemma sum_scores_cons (c : CheckResult) (checks : list CheckResult) :
  sum_scores (c :: checks) = score c + sum_scores checks.
Proof.
  unfold sum_scores at 1. simpl. rewrite fold_scores_shift. lia.
Qed.

(** The accumulator of the batteries computes the sum of the scores. *)
Lemma sum_scores_total (checks : list CheckResult) :
  sum_scores checks = total (map score checks).
Proof.
  induction checks as [|c checks IH]; [reflexivity|].
  rewrite sum_scores_cons, IH. reflexivity.
Qed.

Lemma sum_scores_within (weights : list Z) (checks : list CheckResult) :
  Forall2 within weights checks ->
  0 <= sum_scores checks <= total weights.
Proof.
  induction 1 as [|w c weights checks Hwc _ IH].
  - unfold sum_scores. simpl. lia.
  - rewrite sum_scores_cons. unfold within in Hwc. simpl. lia.
Qed.

(** The aggregate of any run whose weight total is 100 and whose checks
    stay within their weights. *)
Lemma normalized_of_within (weights : list Z) (checks : list CheckResult) :
  total weights = 100 ->
  Forall2 within weights checks ->
  normalized (Math_round ((of_int (sum_scores checks) / of_int 100) * 100)) checks 100
  /\ Math_round ((of_int (sum_scores checks) / of_int 100) * 100) = sum_scores checks.
Proof.
  intros Htotal Hwithin.
  pose proof (sum_scores_within _ _ Hwithin) as Hsum. rewrite Htotal in Hsum.
  split.
  - unfold normalized. rewrite <- sum_scores_total. split; [apply percentage_forms|].
    rewrite round_of_hundredths. lia.
  - apply round_of_hundredths.
Qed.

(** ** Every check stays within its weight *)

Ltac ladder :=
  cbv zeta;
  repeat match goal with
         | |- context [if ?b then _ else _] => destruct b
         | |- context [match ?x with _ => _ end] => destruct x
         end;
  unfold within; simpl; lia.

Ltac ladder_in H :=
  cbv zeta in H;
  repeat match type of H with
         | context [if ?b then _ else _] => destruct b
         | context [match ?x with _ => _ end] => destruct x
         end;
  inversion H; unfold within; simpl; lia.

Section SeoBounds.
Import SeoChecker.
Variable URL_hostname : string -> option string.

Lemma seo_checkTitle_within doc : within 15 (checkTitle doc).
Proof. unfold checkTitle. ladder. Qed.

Lemma seo_checkMetaDescription_within doc c :
  checkMetaDescription doc = Ok c -> within 12 c.
Proof. unfold checkMetaDescription. intros H. ladder_in H. Qed.

Lemma seo_checkH1Tags_within doc : within 12 (checkH1Tags doc).
Proof. unfold checkH1Tags. ladder. Qed.

Lemma seo_checkHeadingHierarchy_within doc : within 10 (checkHeadingHierarchy doc).
Proof. unfold checkHeadingHierarchy. ladder. Qed.

Lemma seo_checkImageAlts_within doc : within 10 (checkImageAlts doc).
Proof. unfold checkImageAlts. ladder. Qed.

Lemma seo_checkInternalLinks_within doc url :
  within 10 (checkInternalLinks URL_hostname doc url).
Proof. unfold checkInternalLinks. ladder. Qed.

Lemma seo_checkExternalLinks_within doc url :
  within 8 (checkExternalLinks URL_hostname doc url).
Proof. unfold checkExternalLinks. ladder. Qed.

Lemma seo_checkHTTPS_within url : within 10 (checkHTTPS url).
Proof. unfold checkHTTPS. ladder. Qed.

Lemma seo_checkViewport_within doc : within 8 (checkViewport doc).
Proof. unfold checkViewport. ladder. Qed.

Lemma seo_checkCanonical_within doc : within 5 (checkCanonical doc).
Proof. unfold checkCanonical. ladder. Qed.

End SeoBounds.

Section AdsenseBounds.
Import AdsenseChecker.
Variable URL_hostname : string -> option string.

Lemma adsense_checkTitleTag_within doc : within 10 (checkTitleTag doc).
Proof. unfold checkTitleTag. ladder. Qed.

Lemma adsense_checkMetaDescription_within doc c :
  checkMetaDescription doc = Ok c -> within 10 c.
Proof. unfold checkMetaDescription. intros H. ladder_in H. Qed.

Lemma adsense_checkH1Tag_within doc : within 10 (checkH1Tag doc).
Proof. unfold checkH1Tag. ladder. Qed.

Lemma adsense_checkWordCount_within doc : within 15 (checkWordCount doc).
Proof. unfold checkWordCount. ladder. Qed.

Lemma adsense_checkImageAlts_within doc : within 10 (checkImageAlts doc).
Proof. unfold checkImageAlts. ladder. Qed.

Lemma adsense_checkHTTPS_within url : within 10 (checkHTTPS url).
Proof. unfold checkHTTPS. ladder. Qed.

Lemma adsense_checkNavigation_within doc : within 10 (checkNavigation doc).
Proof. unfold checkNavigation. ladder. Qed.

Lemma adsense_checkInternalLinks_within doc url :
  within 10 (checkInternalLinks URL_hostname doc url).
Proof. unfold checkInternalLinks. ladder. Qed.

Lemma adsense_checkPrivacyPolicy_within doc : within 10 (checkPrivacyPolicy doc).
Proof. unfold checkPrivacyPolicy. ladder. Qed.

Lemma adsense_checkFooter_within doc : within 5 (checkFooter doc).
Proof. unfold checkFooter. ladder. Qed.

End AdsenseBounds.

Section StaticBounds.
Import StaticChecker.
Variable URL_hostname : string -> option string.
Variable resolve : string -> string.
Variable html_anchor : list node -> node -> bool.

Lemma static_checkCustomDomain_within url platform :
  within 15 (checkCustomDomain URL_hostname url platform).
Proof. unfold checkCustomDomain. ladder. Qed.

Lemma static_checkHTTPS_within url : within 12 (checkHTTPS url).
Proof. unfold checkHTTPS. ladder. Qed.

Lemma static_checkEssentialPages_within doc : within 15 (checkEssentialPages doc).
Proof.
  unfold checkEssentialPages. cbv zeta.
  repeat match goal with
         | |- context [if ?b <=? ?c then _ else _] => destruct (b <=? c)
         | |- context [if ?b <? ?c then _ else _] => destruct (b <? c)
         end;
  unfold within; simpl; lia.
Qed.

Lemma static_checkNavigation_within doc : within 12 (checkNavigation doc).
Proof. unfold checkNavigation. ladder. Qed.

Lemma static_checkContentDepth_within doc : within 15 (checkContentDepth doc).
Proof. unfold checkContentDepth. ladder. Qed.

Lemma static_checkMetaTags_within doc : within 10 (checkMetaTags doc).
Proof.
  unfold checkMetaTags. cbv zeta.
  repeat match goal with
         | |- context [if ?b <? ?c then mkCheck _ _ _ _ _ else _] => destruct (b <? c)
         end;
  unfold within; simpl; lia.
Qed.

Lemma static_check404Setup_within doc html : within 8 (check404Setup doc html).
Proof. unfold check404Setup. ladder. Qed.

Lemma static_checkContactInfo_within doc c :
  checkContactInfo resolve html_anchor doc = Ok c -> within 8 c.
Proof. unfold checkContactInfo, bind. intros H. ladder_in H. Qed.

Lemma static_checkFooter_within doc : within 5 (checkFooter doc).
Proof. unfold checkFooter. ladder. Qed.

End StaticBounds.

Section TextBounds.
Import LowValueAnalyzer.

Lemma text_checkWordCount_within text : within 20 (checkWordCount text).
Proof. unfold checkWordCount. ladder. Qed.

Lemma text_checkSentenceVariety_within text : within 15 (checkSentenceVariety text).
Proof. unfold checkSentenceVariety. ladder. Qed.

Lemma text_checkParagraphs_within text : within 12 (checkParagraphs text).
Proof. unfold checkParagraphs. ladder. Qed.

Lemma text_checkVocabulary_within text : within 15 (checkVocabulary text).
Proof. unfold checkVocabulary. ladder. Qed.

Lemma text_checkRepetition_within text : within 15 (checkRepetition text).
Proof. unfold checkRepetition. ladder. Qed.

Lemma text_checkFillerWords_within text : within 10 (checkFillerWords text).
Proof. unfold checkFillerWords. ladder. Qed.

Lemma text_checkEngagement_within text : within 8 (checkEngagement text).
Proof.
  unfold checkEngagement. cbv zeta.
  repeat match goal with
         | |- context [if ?b =? ?c then mkCheck _ _ _ _ _ else _] => destruct (b =? c)
         | |- context [if ?b <? ?c then mkCheck _ _ _ _ _ else _] => destruct (b <? c)
         end;
  unfold within; simpl; lia.
Qed.

Lemma text_checkSpecificity_within text : within 5 (checkSpecificity text).
Proof. unfold checkSpecificity. ladder. Qed.

End TextBounds.

(** ** The runs of the four batteries *)

Section Runs.
Variable parseFromString : string -> Document.
Variable URL_hostname : string -> option string.
Variable resolve : string -> string.
Variable html_anchor : list node -> node -> bool.

Lemma seo_run (html url : string) (checks : list CheckResult) (maxScore : Z) :
  SeoChecker.run_checks parseFromString URL_hostname html url = Ok (checks, maxScore) ->
  maxScore = 100 /\ Forall2 within seo_weights checks.
Proof.
  unfold SeoChecker.run_checks. cbv zeta.
  destruct (SeoChecker.checkMetaDescription (parseFromString html)) as [c|e] eqn:Hmeta;
    simpl; intros Hrun; inversion Hrun; subst.
  split; [reflexivity|].
  unfold push, seo_weights; simpl.
  repeat (apply Forall2_cons;
          [solve [eauto using seo_checkTitle_within, seo_checkMetaDescription_within,
                    seo_checkH1Tags_within, seo_checkHeadingHierarchy_within,
                    seo_checkImageAlts_within, seo_checkInternalLinks_within,
                    seo_checkExternalLinks_within, seo_checkHTTPS_within,
                    seo_checkViewport_within, seo_checkCanonical_within]|]).
  apply Forall2_nil.
Qed.

Lemma seo_analyze_of_run (html url : string) :
  SeoChecker.analyzeSEO parseFromString URL_hostname html url
  = match SeoChecker.run_checks parseFromString URL_hostname html url with
    | Ok (checks, maxScore) =>
        Ok (SeoChecker.mkOutcome
              (Math_round ((of_int (sum_scores checks) / of_int maxScore) * 100))
              url checks)
    | Throw e => Throw e
    end.
Proof.
  unfold SeoChecker.analyzeSEO, bind.
  destruct (SeoChecker.run_checks parseFromString URL_hostname html url) as [[checks maxScore]|e];
    reflexivity.
Qed.

Lemma adsense_run (html url : string) (checks : list CheckResult) (maxScore : Z) :
  AdsenseChecker.run_checks parseFromString URL_hostname html url = Ok (checks, maxScore) ->
  maxScore = 100 /\ Forall2 within adsense_weights checks.
Proof.
  unfold AdsenseChecker.run_checks. cbv zeta.
  destruct (AdsenseChecker.checkMetaDescription (parseFromString html)) as [c|e] eqn:Hmeta;
    simpl; intros Hrun; inversion Hrun; subst.
  split; [reflexivity|].
  unfold push, adsense_weights; simpl.
  repeat (apply Forall2_cons;
          [solve [eauto using adsense_checkTitleTag_within, adsense_checkMetaDescription_within,
                    adsense_checkH1Tag_within, adsense_checkWordCount_within,
                    adsense_checkImageAlts_within, adsense_checkHTTPS_within,
                    adsense_checkNavigation_within, adsense_checkInternalLinks_within,
                    adsense_checkPrivacyPolicy_within, adsense_checkFooter_within]|]).
  apply Forall2_nil.
Qed.

Lemma adsense_analyze_of_run (html url : string) :
  AdsenseChecker.analyzeHTML parseFromString URL_hostname html url
  = match AdsenseChecker.run_checks parseFromString URL_hostname html url with
    | Ok (checks, maxScore) =>
        Ok (AdsenseChecker.mkOutcome
              (Math_round ((of_int (sum_scores checks) / of_int maxScore) * 100))
              url checks)
    | Throw e => Throw e
    end.
Proof.
  unfold AdsenseChecker.analyzeHTML, bind.
  destruct (AdsenseChecker.run_checks parseFromString URL_hostname html url) as [[checks maxScore]|e];
    reflexivity.
Qed.

Lemma static_run (html url : string) (checks : list CheckResult) (maxScore : Z) :
  StaticChecker.run_checks parseFromString URL_hostname resolve html_anchor html url
  = Ok (checks, maxScore) ->
  maxScore = 100 /\ Forall2 within static_weights checks.
Proof.
  unfold StaticChecker.run_checks. cbv zeta.
  destruct (StaticChecker.checkContactInfo resolve html_anchor (parseFromString html))
    as [c|e] eqn:Hcontact;
    simpl; intros Hrun; inversion Hrun; subst.
  split; [reflexivity|].
  unfold push, static_weights; simpl.
  repeat (apply Forall2_cons;
          [solve [eauto using static_checkCustomDomain_within, static_checkHTTPS_within,
                    static_checkEssentialPages_within, static_checkNavigation_within,
                    static_checkContentDepth_within, static_checkMetaTags_within,
                    static_check404Setup_within, static_checkContactInfo_within,
                    static_checkFooter_within]|]).
  apply Forall2_nil.
Qed.

Lemma static_analyze_of_run (html url : string) :
  StaticChecker.analyzeStaticSite parseFromString URL_hostname resolve html_anchor html url
  = match StaticChecker.run_checks parseFromString URL_hostname resolve html_anchor
            html url with
    | Ok (checks, maxScore) =>
        Ok (StaticChecker.mkOutcome
              (Math_round ((of_int (sum_scores checks) / of_int maxScore) * 100))
              url (StaticChecker.detectPlatform url) checks)
    | Throw e => Throw e
    end.
Proof.
  unfold StaticChecker.analyzeStaticSite, bind.
  destruct (StaticChecker.run_checks parseFromString URL_hostname resolve html_anchor
              html url) as [[checks maxScore]|e];
    reflexivity.
Qed.

Lemma text_run (text : string) :
  snd (LowValueAnalyzer.run_checks text) = 100
  /\ Forall2 within text_weights (fst (LowValueAnalyzer.run_checks text)).
Proof.
  unfold LowValueAnalyzer.run_checks. cbv zeta. simpl.
  split; [reflexivity|].
  unfold push, text_weights; simpl.
  repeat (apply Forall2_cons;
          [solve [auto using text_checkWordCount_within, text_checkSentenceVariety_within,
                    text_checkParagraphs_within, text_checkVocabulary_within,
                    text_checkRepetition_within, text_checkFillerWords_within,
                    text_checkEngagement_within, text_checkSpecificity_within]|]).
  apply Forall2_nil.
Qed.

Lemma text_analyze_of_run (text : string) :
  let run := LowValueAnalyzer.run_checks text in
  LowValueAnalyzer.analyzeContent text
  = LowValueAnalyzer.mkOutcome
      (Math_round ((of_int (sum_scores (fst run)) / of_int (snd run)) * 100))
      (JS.count (split whitespace text)) (fst run).
Proof. reflexivity. Qed.

(** The SEO and the ad-readiness batteries return a result exactly when
    their meta description check does. *)
Lemma seo_run_returns (html url : string) (c : CheckResult) :
  SeoChecker.checkMetaDescription (parseFromString html) = Ok c ->
  exists checks, SeoChecker.run_checks parseFromString URL_hostname html url = Ok (checks, 100).
Proof.
  intros Hmeta. unfold SeoChecker.run_checks. cbv zeta. rewrite Hmeta. simpl.
  eexists. reflexivity.
Qed.

Lemma adsense_run_returns (html url : string) (c : CheckResult) :
  AdsenseChecker.checkMetaDescription (parseFromString html) = Ok c ->
  exists checks, AdsenseChecker.run_checks parseFromString URL_hostname html url = Ok (checks, 100).
Proof.
  intros Hmeta. unfold AdsenseChecker.run_checks. cbv zeta. rewrite Hmeta. simpl.
  eexists. reflexivity.
Qed.

(** The static-site battery returns a result exactly when its contact
    check does. *)
Lemma static_run_returns (html url : string) (c : CheckResult) :
  StaticChecker.checkContactInfo resolve html_anchor (parseFromString html) = Ok c ->
  exists checks,
    StaticChecker.run_checks parseFromString URL_hostname resolve html_anchor html url
    = Ok (checks, 100).
Proof.
  intros Hcontact. unfold StaticChecker.run_checks. cbv zeta. rewrite Hcontact. simpl.
  eexists. reflexivity.
Qed.

End Runs.

(** ** The aggregate score (claims C1 and C9) *)

(** C1.  In each of the four batteries the score returned is
    [round(100 * sum of the check scores / sum of the weights)], the
    weights being the ones the battery accumulates; it lies between 0 and
    100, and the sum of the check scores does not exceed the sum of the
    weights, the sum being taken by itself and not by the accumulator of
    the battery.  The text battery returns for every input; the SEO and
    the ad-readiness battery raise when their meta description check
    does, and the static-site battery when its contact check does. *)
Theorem aggregate_score_normalized
    (parseFromString : string -> Document) (URL_hostname : string -> option string)
    (resolve : string -> string) (html_anchor : list node -> node -> bool)
    (html url text : string) :
  (forall r,
      SeoChecker.analyzeSEO parseFromString URL_hostname html url = Ok r ->
      exists maxScore,
        SeoChecker.run_checks parseFromString URL_hostname html url
        = Ok (SeoChecker.checks_of r, maxScore)
        /\ maxScore = total seo_weights
        /\ normalized (SeoChecker.final_score r) (SeoChecker.checks_of r) maxScore)
  /\ (forall r,
      AdsenseChecker.analyzeHTML parseFromString URL_hostname html url = Ok r ->
      exists maxScore,
        AdsenseChecker.run_checks parseFromString URL_hostname html url
        = Ok (AdsenseChecker.checks_of r, maxScore)
        /\ maxScore = total adsense_weights
        /\ normalized (AdsenseChecker.final_score r) (AdsenseChecker.checks_of r) maxScore)
  /\ (forall r,
      StaticChecker.analyzeStaticSite parseFromString URL_hostname resolve html_anchor
        html url = Ok r ->
      exists maxScore,
        StaticChecker.run_checks parseFromString URL_hostname resolve html_anchor html url
        = Ok (StaticChecker.checks_of r, maxScore)
        /\ maxScore = total static_weights
        /\ normalized (StaticChecker.final_score r) (StaticChecker.checks_of r) maxScore)
  /\ (let run := LowValueAnalyzer.run_checks text in
      let r := LowValueAnalyzer.analyzeContent text in
      LowValueAnalyzer.checks_of r = fst run
      /\ snd run = total text_weights
      /\ normalized (LowValueAnalyzer.final_score r) (LowValueAnalyzer.checks_of r) (snd run)).
Proof.
  split; [|split; [|split]].
  - intros r Hr. rewrite seo_analyze_of_run in Hr.
    destruct (SeoChecker.run_checks parseFromString URL_hostname html url)
      as [[checks maxScore]|e] eqn:Hrun; inversion Hr; subst; clear Hr.
    destruct (seo_run _ _ _ _ _ _ Hrun) as [-> Hwithin].
    exists 100. simpl. split; [reflexivity|]. split; [reflexivity|].
    apply (normalized_of_within seo_weights); auto.
  - intros r Hr. rewrite adsense_analyze_of_run in Hr.
    destruct (AdsenseChecker.run_checks parseFromString URL_hostname html url)
      as [[checks maxScore]|e] eqn:Hrun; inversion Hr; subst; clear Hr.
    destruct (adsense_run _ _ _ _ _ _ Hrun) as [-> Hwithin].
    exists 100. simpl. split; [reflexivity|]. split; [reflexivity|].
    apply (normalized_of_within adsense_weights); auto.
  - intros r Hr. rewrite static_analyze_of_run in Hr.
    destruct (StaticChecker.run_checks parseFromString URL_hostname resolve html_anchor
                html url)
      as [[checks maxScore]|e] eqn:Hrun; inversion Hr; subst; clear Hr.
    destruct (static_run _ _ _ _ _ _ _ _ Hrun) as [-> Hwithin].
    exists 100. simpl. split; [reflexivity|]. split; [reflexivity|].
    apply (normalized_of_within static_weights); auto.
  - cbv zeta. rewrite text_analyze_of_run. cbv zeta.
    destruct (text_run text) as [Hmax Hwithin].
    rewrite Hmax. simpl. split; [reflexivity|]. split; [reflexivity|].
    apply (normalized_of_within text_weights); auto.
Qed.

Lemma aggregate_score_normalized_witness :
  exists r,
    SeoChecker.analyzeSEO (parses_to empty_page) sample_hostname
      "<html></html>" "http://example.com" = Ok r
    /\ SeoChecker.final_score r = 13
    /\ normalized (SeoChecker.final_score r) (SeoChecker.checks_of r) 100.
Proof.
  destruct (aggregate_score_normalized (parses_to empty_page) sample_hostname
              sample_resolve sample_html_anchor "<html></html>" "http://example.com" "")
    as [Hseo _].
  eexists. split; [vm_compute; reflexivity|]. split; [reflexivity|].
  destruct (Hseo _ eq_refl) as [maxScore [_ [Hmax Hnormalized]]].
  rewrite Hmax in Hnormalized. exact Hnormalized.
Defined.

(** C9.  In all four batteries the weight total accumulated beside the
    checks is exactly 100, so the score returned is the plain sum of the
    check scores, the sum being taken by itself and not by the
    accumulator of the battery. *)
Theorem weight_totals_are_100
    (parseFromString : string -> Document) (URL_hostname : string -> option string)
    (resolve : string -> string) (html_anchor : list node -> node -> bool)
    (html url text : string) :
  (forall checks maxScore,
      SeoChecker.run_checks parseFromString URL_hostname html url = Ok (checks, maxScore) ->
      maxScore = 100
      /\ SeoChecker.analyzeSEO parseFromString URL_hostname html url
         = Ok (SeoChecker.mkOutcome (total (map score checks)) url checks))
  /\ (forall checks maxScore,
      AdsenseChecker.run_checks parseFromString URL_hostname html url = Ok (checks, maxScore) ->
      maxScore = 100
      /\ AdsenseChecker.analyzeHTML parseFromString URL_hostname html url
         = Ok (AdsenseChecker.mkOutcome (total (map score checks)) url checks))
  /\ (forall checks maxScore,
      StaticChecker.run_checks parseFromString URL_hostname resolve html_anchor html url
      = Ok (checks, maxScore) ->
      maxScore = 100
      /\ StaticChecker.analyzeStaticSite parseFromString URL_hostname resolve html_anchor
           html url
         = Ok (StaticChecker.mkOutcome (total (map score checks)) url
                 (StaticChecker.detectPlatform url) checks))
  /\ (let run := LowValueAnalyzer.run_checks text in
      let r := LowValueAnalyzer.analyzeContent text in
      snd run = 100
      /\ LowValueAnalyzer.checks_of r = fst run
      /\ LowValueAnalyzer.final_score r = total (map score (LowValueAnalyzer.checks_of r))).
Proof.
  split; [|split; [|split]].
  - intros checks maxScore Hrun.
    destruct (seo_run _ _ _ _ _ _ Hrun) as [-> Hwithin].
    split; [reflexivity|].
    rewrite seo_analyze_of_run, Hrun, round_of_hundredths, sum_scores_total. reflexivity.
  - intros checks maxScore Hrun.
    destruct (adsense_run _ _ _ _ _ _ Hrun) as [-> Hwithin].
    split; [reflexivity|].
    rewrite adsense_analyze_of_run, Hrun, round_of_hundredths, sum_scores_total.
    reflexivity.
  - intros checks maxScore Hrun.
    destruct (static_run _ _ _ _ _ _ _ _ Hrun) as [-> Hwithin].
    split; [reflexivity|].
    rewrite static_analyze_of_run, Hrun, round_of_hundredths, sum_scores_total.
    reflexivity.
  - cbv zeta. rewrite text_analyze_of_run. cbv zeta.
    destruct (text_run text) as [Hmax _].
    rewrite Hmax. split; [reflexivity|]. split; [reflexivity|]. simpl.
    rewrite round_of_hundredths. apply sum_scores_total.
Qed.

Lemma weight_totals_are_100_witness :
  exists checks,
    SeoChecker.run_checks (parses_to empty_page) sample_hostname
      "<html></html>" "http://example.com" = Ok (checks, 100)
    /\ SeoChecker.analyzeSEO (parses_to empty_page) sample_hostname
         "<html></html>" "http://example.com"
       = Ok (SeoChecker.mkOutcome (total (map score checks)) "http://example.com" checks).
Proof.
  destruct (weight_totals_are_100 (parses_to empty_page) sample_hostname
              sample_resolve sample_html_anchor "<html></html>" "http://example.com" "")
    as [Hseo _].
  eexists. split; [vm_compute; reflexivity|].
  apply (Hseo _ 100). vm_compute. reflexivity.
Defined.

(** ** Checks that raise (claim C2) *)

Lemma seo_checkMetaDescription_raises (doc : Document) (meta : node) :
  querySelector doc [tag_attr_is "meta" "name" "description"] = Some meta ->
  getAttribute meta "content" = None ->
  SeoChecker.checkMetaDescription doc = Throw "TypeError".
Proof.
  intros Hmeta Hcontent. unfold SeoChecker.checkMetaDescription.
  rewrite Hmeta, Hcontent. reflexivity.
Qed.

Lemma adsense_checkMetaDescription_raises (doc : Document) (meta : node) :
  querySelector doc [tag_attr_is "meta" "name" "description"] = Some meta ->
  getAttribute meta "content" = None ->
  AdsenseChecker.checkMetaDescription doc = Throw "TypeError".
Proof.
  intros Hmeta Hcontent. unfold AdsenseChecker.checkMetaDescription.
  rewrite Hmeta, Hcontent. reflexivity.
Qed.

(** C2, at the failing input.  On a document whose only element is a
    description tag without a [content] attribute, the meta description
    check of the SEO battery and the one of the ad-readiness battery raise
    a [TypeError], and so do [analyzeSEO] and [analyzeHTML]; the meta tag
    check of the static-site battery returns its lowest verdict on the same
    document. *)
Theorem description_without_content_raises :
  SeoChecker.checkMetaDescription description_without_content = Throw "TypeError"
  /\ AdsenseChecker.checkMetaDescription description_without_content = Throw "TypeError"
  /\ (forall URL_hostname html url,
         SeoChecker.analyzeSEO (parses_to description_without_content) URL_hostname html url
         = Throw "TypeError")
  /\ (forall URL_hostname html url,
         AdsenseChecker.analyzeHTML (parses_to description_without_content) URL_hostname html url
         = Throw "TypeError")
  /\ status (StaticChecker.checkMetaTags description_without_content) = fail.
Proof.
  split; [reflexivity|]. split; [reflexivity|].
  split; [|split].
  - intros. rewrite seo_analyze_of_run. reflexivity.
  - intros. rewrite adsense_analyze_of_run. reflexivity.
  - reflexivity.
Qed.

(** ** Tiers (claim C3) *)

(** C3 as stated fails: the ad-readiness display puts 55 in its middle
    tier, below the stated boundary of 60. *)
Lemma tiers_as_stated_fail_at_55 : ~ tiers_as_stated 55.
Proof.
  unfold tiers_as_stated. intros [_ [Hadsense _]]. vm_compute in Hadsense. discriminate.
Qed.

(** C3, amended.  Each display function maps the score to one of three
    tiers by a two-threshold ladder: at least 80 and at least 60 for the
    SEO battery, at least 80 and at least 50 for the ad-readiness battery,
    at least 80 and at least 55 for the static-site battery, at least 75
    and at least 50 for the text battery. *)
Theorem tier_ladders (score : Z) :
  tier (SeoChecker.displaySEOResults score) = ladder 80 60 score
  /\ tier (AdsenseChecker.displayResults score) = ladder 80 50 score
  /\ tier (StaticChecker.displayResults score) = ladder 80 55 score
  /\ tier (LowValueAnalyzer.displayResults score) = ladder 75 50 score.
Proof.
  unfold SeoChecker.displaySEOResults, AdsenseChecker.displayResults,
    StaticChecker.displayResults, LowValueAnalyzer.displayResults, ladder, tier.
  repeat split;
    repeat match goal with
           | |- context [if ?b then _ else _] => destruct b
           end; reflexivity.
Qed.

(** ** The bare page (claim C5) *)

Lemma http_url_is_not_https (url : string) :
  startsWith url "http://" = true ->
  truthy url = true /\ startsWith (toLowerCase url) "https://" = false.
Proof.
  intros H.
  repeat (destruct url as [|? url]; cbn [startsWith] in H;
          [discriminate
          |apply andb_true_iff in H; destruct H as [Hc H];
           apply Ascii.eqb_eq in Hc; subst]).
  split; reflexivity.
Qed.

Section BarePage.
Variable URL_hostname : string -> option string.
Variable doc : Document.
Variable url : string.
Hypothesis Hbare : bare_page doc url.

Lemma bare_checkTitle :
  SeoChecker.checkTitle doc
  = mkCheck "Title Tag" fail 0
      "Missing title tag - critical SEO element not found."
      (Some "Add a unique, descriptive title tag (50-60 characters) that includes your primary keyword.").
Proof.
  destruct Hbare as [Htitle _]. unfold SeoChecker.checkTitle. rewrite Htitle. reflexivity.
Qed.

Lemma bare_checkMetaDescription :
  SeoChecker.checkMetaDescription doc
  = Ok (mkCheck "Meta Description" fail 0
          "Missing meta description - important for click-through rates."
          (Some "Add a compelling meta description (150-160 chars) that summarizes page content and includes target keywords.")).
Proof.
  destruct Hbare as [_ [Hmeta _]]. unfold SeoChecker.checkMetaDescription.
  rewrite Hmeta. reflexivity.
Qed.

Lemma bare_checkH1Tags :
  SeoChecker.checkH1Tags doc
  = mkCheck "H1 Heading" fail 0
      "No H1 heading found - main topic unclear to search engines."
      (Some "Add exactly one H1 tag that clearly describes your page's main topic.").
Proof.
  destruct Hbare as [_ [_ [Hh1 _]]]. unfold SeoChecker.checkH1Tags. rewrite Hh1. reflexivity.
Qed.

Lemma bare_checkHeadingHierarchy :
  SeoChecker.checkHeadingHierarchy doc
  = mkCheck "Heading Structure" fail 0
      "No heading hierarchy established."
      (Some "Create proper heading structure: H1 for main topic, H2 for sections, H3 for subsections.").
Proof.
  destruct Hbare as [_ [_ [Hh1 _]]]. unfold SeoChecker.checkHeadingHierarchy.
  rewrite Hh1. reflexivity.
Qed.

Lemma bare_checkImageAlts :
  SeoChecker.checkImageAlts doc
  = mkCheck "Image Alt Attributes" warning 5
      "No images found. Consider adding relevant visuals."
      (Some "Add images with descriptive alt text to enhance user engagement and SEO.").
Proof.
  destruct Hbare as [_ [_ [_ [Himg _]]]]. unfold SeoChecker.checkImageAlts.
  rewrite Himg. reflexivity.
Qed.

Lemma bare_checkInternalLinks :
  SeoChecker.checkInternalLinks URL_hostname doc url
  = mkCheck "Internal Links" fail 2
      "Very few internal links (0). Poor site structure signal."
      (Some "Add more internal links to connect related content and improve crawlability.").
Proof.
  destruct Hbare as [_ [_ [_ [_ [Hlinks _]]]]]. unfold SeoChecker.checkInternalLinks.
  rewrite Hlinks. reflexivity.
Qed.

Lemma bare_checkExternalLinks :
  SeoChecker.checkExternalLinks URL_hostname doc url
  = mkCheck "External Links" warning 4
      "No external links found."
      (Some "Consider linking to authoritative external sources to build trust.").
Proof.
  destruct Hbare as [_ [_ [_ [_ [Hlinks _]]]]]. unfold SeoChecker.checkExternalLinks.
  rewrite Hlinks. reflexivity.
Qed.

Lemma bare_checkHTTPS :
  SeoChecker.checkHTTPS url
  = mkCheck "HTTPS Security" fail 0
      "Site not using HTTPS - major security and ranking issue."
      (Some "Migrate to HTTPS immediately. Most hosts offer free SSL certificates.").
Proof.
  destruct Hbare as [_ [_ [_ [_ [_ Hurl]]]]].
  destruct (http_url_is_not_https url Hurl) as [Htruthy Hhttps].
  unfold SeoChecker.checkHTTPS. rewrite Htruthy, Hhttps. reflexivity.
Qed.

End BarePage.

Lemma seo_checkViewport_scores (doc : Document) :
  (querySelector doc [tag_attr_is "meta" "name" "viewport"] = None
   /\ score (SeoChecker.checkViewport doc) = 0)
  \/ score (SeoChecker.checkViewport doc) = 5
  \/ score (SeoChecker.checkViewport doc) = 8.
Proof.
  unfold SeoChecker.checkViewport.
  destruct (querySelector doc [tag_attr_is "meta" "name" "viewport"]) as [viewport|].
  - right. destruct (includes _ _); simpl; auto.
  - left. split; reflexivity.
Qed.

Lemma seo_checkViewport_absent (doc : Document) :
  querySelector doc [tag_attr_is "meta" "name" "viewport"] = None ->
  score (SeoChecker.checkViewport doc) = 0.
Proof.
  intros H. unfold SeoChecker.checkViewport. rewrite H. reflexivity.
Qed.

Lemma seo_checkCanonical_scores (doc : Document) :
  score (SeoChecker.checkCanonical doc) = 2 \/ score (SeoChecker.checkCanonical doc) = 5.
Proof.
  unfold SeoChecker.checkCanonical.
  destruct (querySelector doc [tag_attr_is "link" "rel" "canonical"]) as [canonical|];
    [|left; reflexivity].
  destruct (getAttribute canonical "href") as [href|]; [|left; reflexivity].
  destruct (truthy href && (0 <? JS.length href)); simpl; auto.
Qed.

(** C5 as stated fails: a page with a viewport tag and nothing else is a
    bare page, and its SEO score is 21. *)
Lemma bare_page_scores_as_stated_fail :
  ~ bare_page_scores_as_stated (parses_to viewport_page) sample_hostname
      "<meta name=viewport content='width=device-width, initial-scale=1.0'>"
      "http://example.com".
Proof.
  unfold bare_page_scores_as_stated. intros H.
  destruct H as [r [Hr [_ [_ [_ [_ [_ [_ Hbelow]]]]]]]].
  - repeat split; reflexivity.
  - vm_compute in Hr. inversion Hr; subst; clear Hr.
    vm_compute in Hbelow. discriminate.
Qed.

(** C5, amended.  On a bare page analyzed with an [http://] URL the SEO
    battery returns; the Title, Meta Description, H1 and HTTPS checks score
    0, the Image Alt check scores 5 (no images) and the Internal Links
    check scores 2 (very few links); the score is 11 plus the scores of the
    Viewport and the Canonical checks, so between 13 and 24, and it is below
    20 when the page has no viewport tag. *)
Theorem bare_page_scores
    (parseFromString : string -> Document) (URL_hostname : string -> option string)
    (html url : string) :
  bare_page (parseFromString html) url ->
  exists r,
    SeoChecker.analyzeSEO parseFromString URL_hostname html url = Ok r
    /\ score_named "Title Tag" (SeoChecker.checks_of r) = Some 0
    /\ score_named "Meta Description" (SeoChecker.checks_of r) = Some 0
    /\ score_named "H1 Heading" (SeoChecker.checks_of r) = Some 0
    /\ score_named "HTTPS Security" (SeoChecker.checks_of r) = Some 0
    /\ check_named "Image Alt Attributes" (SeoChecker.checks_of r)
       = Some (mkCheck "Image Alt Attributes" warning 5
                 "No images found. Consider adding relevant visuals."
                 (Some "Add images with descriptive alt text to enhance user engagement and SEO."))
    /\ check_named "Internal Links" (SeoChecker.checks_of r)
       = Some (mkCheck "Internal Links" fail 2
                 "Very few internal links (0). Poor site structure signal."
                 (Some "Add more internal links to connect related content and improve crawlability."))
    /\ SeoChecker.final_score r
       = 11 + score (SeoChecker.checkViewport (parseFromString html))
         + score (SeoChecker.checkCanonical (parseFromString html))
    /\ 13 <= SeoChecker.final_score r <= 24
    /\ (querySelector (parseFromString html) [tag_attr_is "meta" "name" "viewport"] = None ->
        SeoChecker.final_score r < 20).
Proof.
  intros Hbare. set (doc := parseFromString html) in *.
  assert (Hrun : SeoChecker.run_checks parseFromString URL_hostname html url
                 = Ok ([SeoChecker.checkTitle doc;
                        mkCheck "Meta Description" fail 0
                          "Missing meta description - important for click-through rates."
                          (Some "Add a compelling meta description (150-160 chars) that summarizes page content and includes target keywords.");
                        SeoChecker.checkH1Tags doc;
                        SeoChecker.checkHeadingHierarchy doc;
                        SeoChecker.checkImageAlts doc;
                        SeoChecker.checkInternalLinks URL_hostname doc url;
                        SeoChecker.checkExternalLinks URL_hostname doc url;
                        SeoChecker.checkHTTPS url;
                        SeoChecker.checkViewport doc;
                        SeoChecker.checkCanonical doc], 100)).
  { unfold SeoChecker.run_checks. cbv zeta. fold doc.
    rewrite (bare_checkMetaDescription doc url Hbare). reflexivity. }
  assert (Hanalyze := seo_analyze_of_run parseFromString URL_hostname html url).
  rewrite Hrun, round_of_hundredths in Hanalyze.
  eexists. split; [exact Hanalyze|].
  unfold score_named, check_named. cbn [SeoChecker.checks_of SeoChecker.final_score].
  rewrite (bare_checkTitle doc url Hbare), (bare_checkH1Tags doc url Hbare),
    (bare_checkHeadingHierarchy doc url Hbare), (bare_checkImageAlts doc url Hbare),
    (bare_checkInternalLinks URL_hostname doc url Hbare),
    (bare_checkExternalLinks URL_hostname doc url Hbare),
    (bare_checkHTTPS doc url Hbare).
  repeat (split; [reflexivity|]).
  assert (Hsum : forall a b : CheckResult,
             sum_scores
               [mkCheck "Title Tag" fail 0
                  "Missing title tag - critical SEO element not found."
                  (Some "Add a unique, descriptive title tag (50-60 characters) that includes your primary keyword.");
                mkCheck "Meta Description" fail 0
                  "Missing meta description - important for click-through rates."
                  (Some "Add a compelling meta description (150-160 chars) that summarizes page content and includes target keywords.");
                mkCheck "H1 Heading" fail 0
                  "No H1 heading found - main topic unclear to search engines."
                  (Some "Add exactly one H1 tag that clearly describes your page's main topic.");
                mkCheck "Heading Structure" fail 0
                  "No heading hierarchy established."
                  (Some "Create proper heading structure: H1 for main topic, H2 for sections, H3 for subsections.");
                mkCheck "Image Alt Attributes" warning 5
                  "No images found. Consider adding relevant visuals."
                  (Some "Add images with descriptive alt text to enhance user engagement and SEO.");
                mkCheck "Internal Links" fail 2
                  "Very few internal links (0). Poor site structure signal."
                  (Some "Add more internal links to connect related content and improve crawlability.");
                mkCheck "External Links" warning 4
                  "No external links found."
                  (Some "Consider linking to authoritative external sources to build trust.");
                mkCheck "HTTPS Security" fail 0
                  "Site not using HTTPS - major security and ranking issue."
                  (Some "Migrate to HTTPS immediately. Most hosts offer free SSL certificates.");
                a; b] = 11 + score a + score b).
  { intros a b. unfold sum_scores. simpl. lia. }
  rewrite Hsum.
  pose proof (seo_checkViewport_scores doc) as Hviewport.
  pose proof (seo_checkCanonical_scores doc) as Hcanonical.
  split; [lia|].
  intros Habsent. rewrite (seo_checkViewport_absent doc Habsent). lia.
Qed.

Lemma bare_page_scores_witness :
  bare_page empty_page "http://example.com"
  /\ exists r,
       SeoChecker.analyzeSEO (parses_to empty_page) sample_hostname
         "<html></html>" "http://example.com" = Ok r
       /\ SeoChecker.final_score r = 13.
Proof.
  assert (Hbare : bare_page (parses_to empty_page "<html></html>") "http://example.com")
    by (repeat split; reflexivity).
  split; [exact Hbare|].
  destruct (bare_page_scores (parses_to empty_page) sample_hostname
              "<html></html>" "http://example.com" Hbare)
    as [r [Hr [_ [_ [_ [_ [_ [_ [Hfinal _]]]]]]]]].
  exists r. split; [exact Hr|]. rewrite Hfinal. reflexivity.
Defined.

(** ** The custom domain check (claim C6) *)

(** C6.  For [https://myproject.netlify.app] the platform detected is
    Netlify and the Custom Domain check fails with score 3, naming that
    platform; for [https://example.com] the check passes with score 15.
    The host names are the ones the URL parser gives for these two URLs;
    the label and the first check of the battery are those of a run that
    returns. *)
Theorem custom_domain_examples
    (parseFromString : string -> Document) (URL_hostname : string -> option string)
    (resolve : string -> string) (html_anchor : list node -> node -> bool)
    (html : string) :
  URL_hostname "https://myproject.netlify.app" = Some "myproject.netlify.app" ->
  URL_hostname "https://example.com" = Some "example.com" ->
  StaticChecker.detectPlatform "https://myproject.netlify.app" = "Netlify"
  /\ (forall on_netlify,
        StaticChecker.analyzeStaticSite parseFromString URL_hostname resolve html_anchor
          html "https://myproject.netlify.app" = Ok on_netlify ->
        StaticChecker.platform_of on_netlify = "Netlify"
        /\ hd_error (StaticChecker.checks_of on_netlify)
           = Some (StaticChecker.checkCustomDomain URL_hostname
                     "https://myproject.netlify.app" "Netlify"))
  /\ StaticChecker.checkCustomDomain URL_hostname "https://myproject.netlify.app" "Netlify"
     = mkCheck "Custom Domain" fail 3
         "Using Netlify subdomain. Not ideal for AdSense."
         (Some "Register a custom domain (yoursite.com). Most registrars offer domains for $10-15/year. This significantly improves AdSense approval chances.")
  /\ (forall on_domain,
        StaticChecker.analyzeStaticSite parseFromString URL_hostname resolve html_anchor
          html "https://example.com" = Ok on_domain ->
        hd_error (StaticChecker.checks_of on_domain)
        = Some (StaticChecker.checkCustomDomain URL_hostname
                  "https://example.com" "Custom/Unknown"))
  /\ StaticChecker.checkCustomDomain URL_hostname "https://example.com" "Custom/Unknown"
     = mkCheck "Custom Domain" pass 15
         "Using a custom domain. Professional appearance."
         None.
Proof.
  intros Hnetlify Hdomain.
  assert (Hrun : forall url r,
             StaticChecker.analyzeStaticSite parseFromString URL_hostname resolve
               html_anchor html url = Ok r ->
             StaticChecker.platform_of r = StaticChecker.detectPlatform url
             /\ hd_error (StaticChecker.checks_of r)
                = Some (StaticChecker.checkCustomDomain URL_hostname url
                          (StaticChecker.detectPlatform url))).
  { intros url r Hr.
    unfold StaticChecker.analyzeStaticSite, StaticChecker.run_checks, bind in Hr.
    cbv zeta in Hr.
    destruct (StaticChecker.checkContactInfo resolve html_anchor (parseFromString html));
      inversion Hr; subst. split; reflexivity. }
  split; [reflexivity|]. split; [|split; [|split]].
  - intros on_netlify Hr. exact (Hrun _ _ Hr).
  - unfold StaticChecker.checkCustomDomain. rewrite Hnetlify. reflexivity.
  - intros on_domain Hr. exact (proj2 (Hrun _ _ Hr)).
  - unfold StaticChecker.checkCustomDomain. rewrite Hdomain. reflexivity.
Qed.

Lemma custom_domain_examples_witness :
  sample_hostname "https://myproject.netlify.app" = Some "myproject.netlify.app"
  /\ sample_hostname "https://example.com" = Some "example.com"
  /\ score (StaticChecker.checkCustomDomain sample_hostname
              "https://myproject.netlify.app" "Netlify") = 3
  /\ score (StaticChecker.checkCustomDomain sample_hostname
              "https://example.com" "Custom/Unknown") = 15
  /\ exists on_netlify,
       StaticChecker.analyzeStaticSite (parses_to empty_page) sample_hostname
         sample_resolve sample_html_anchor "<html></html>"
         "https://myproject.netlify.app" = Ok on_netlify
       /\ StaticChecker.platform_of on_netlify = "Netlify".
Proof.
  split; [reflexivity|]. split; [reflexivity|].
  destruct (custom_domain_examples (parses_to empty_page) sample_hostname sample_resolve
              sample_html_anchor "<html></html>" eq_refl eq_refl)
    as [_ [Hbattery [Hnetlify [_ Hdomain]]]].
  rewrite Hnetlify, Hdomain. split; [reflexivity|]. split; [reflexivity|].
  eexists. split; [vm_compute; reflexivity|].
  apply (Hbattery _ eq_refl).
Defined.

(** ** The boundaries of the title check (claim C8) *)

(** C8.  A title of exactly 30 characters is not too short and a title of
    exactly 70 characters is not too long: in the SEO battery and in the
    ad-readiness battery both take the pass branch, with the full score of
    the check. *)
Theorem title_length_boundaries (doc : Document) (title : node) :
  querySelector doc [tag "title"] = Some title ->
  JS.length (trim (textContent title)) = 30 \/ JS.length (trim (textContent title)) = 70 ->
  status (SeoChecker.checkTitle doc) = pass
  /\ score (SeoChecker.checkTitle doc) = 15
  /\ status (AdsenseChecker.checkTitleTag doc) = pass
  /\ score (AdsenseChecker.checkTitleTag doc) = 10.
Proof.
  intros Htitle Hlength.
  unfold SeoChecker.checkTitle, AdsenseChecker.checkTitleTag. rewrite Htitle. cbv zeta.
  destruct Hlength as [-> | ->]; repeat split; reflexivity.
Qed.

Lemma title_length_boundaries_witness :
  (JS.length (trim title_of_30) = 30
   /\ SeoChecker.checkTitle (titled_page title_of_30)
      = mkCheck "Title Tag" pass 15 "Well-optimized title (30 characters)." None)
  /\ (JS.length (trim title_of_70) = 70
      /\ score (AdsenseChecker.checkTitleTag (titled_page title_of_70)) = 10).
Proof.
  split.
  - split; [reflexivity|].
    destruct (title_length_boundaries (titled_page title_of_30)
                (Element "title" [] [Text title_of_30]) eq_refl (or_introl eq_refl))
      as [_ [_ _]].
    reflexivity.
  - split; [reflexivity|].
    apply (title_length_boundaries (titled_page title_of_70)
             (Element "title" [] [Text title_of_70]) eq_refl (or_intror eq_refl)).
Defined.

(** ** Literal patterns *)

Lemma code_of_N (n : N) : (n < 256)%N -> code (ascii_of_N n) = n.
Proof. apply N_ascii_embedding. Qed.

Lemma code_below_256 (c : ascii) : (code c < 256)%N.
Proof. apply N_ascii_bounded. Qed.

Ltac ranges :=
  unfold is_word, is_lower, is_upper, is_digit, in_range in *;
  repeat match goal with
         | H : _ && _ = true |- _ => apply andb_true_iff in H; destruct H
         | H : _ || _ = true |- _ => apply orb_true_iff in H; destruct H
         | H : (_ <=? _)%N = true |- _ => apply N.leb_le in H
         | H : (_ =? _)%N = true |- _ => apply N.eqb_eq in H
         end.

Lemma lower_of_upper_is_lower (a : ascii) :
  is_upper a = true -> is_lower (lower a) = true.
Proof.
  intros Hupper. unfold lower. rewrite Hupper. simpl.
  pose proof (code_below_256 a) as Hbound.
  unfold is_lower, in_range. ranges.
  rewrite code_of_N by lia.
  apply andb_true_iff. split; apply N.leb_le; lia.
Qed.

(** Under the [i] flag a word character only matches word characters. *)
Lemma char_eqb_ci_word (a b : ascii) :
  char_eqb_ci a b = true -> is_word a = true -> is_word b = true.
Proof.
  unfold char_eqb_ci. intros Heq Hword.
  apply orb_true_iff in Heq. destruct Heq as [Heq|Heq].
  - apply orb_true_iff in Heq. destruct Heq as [Heq|Heq].
    + apply Ascii.eqb_eq in Heq. subst. exact Hword.
    + apply andb_true_iff in Heq. destruct Heq as [Hupper Heq].
      apply Ascii.eqb_eq in Heq. subst b.
      unfold is_word. rewrite (lower_of_upper_is_lower a Hupper). reflexivity.
  - apply andb_true_iff in Heq. destruct Heq as [Heq _].
    apply andb_true_iff in Heq. destruct Heq as [_ Hupper].
    unfold is_word. rewrite Hupper. rewrite orb_true_r. reflexivity.
Qed.





(** A pattern between word boundaries does not match right after a word
    character. *)
Lemma whole_word_not_after_word (ci : bool) (w s : string) (prev : option ascii) :
  is_word_at w = true ->
  is_word_before prev = true ->
  exec (Seq WordB (Seq (Lit ci w) WordB)) prev s = None.
Proof.
  intros Hfirst Hprev. unfold exec. simpl. rewrite Hprev.
  destruct (is_word_at s) eqn:Hat; [reflexivity|]. simpl.
  destruct w as [|a w]; [discriminate|]. simpl in Hfirst. simpl.
  destruct s as [|c s]; [reflexivity|]. simpl in Hat.
  destruct ci.
  - destruct (char_eqb_ci a c) eqn:Heq; [|reflexivity].
    rewrite (char_eqb_ci_word a c Heq Hfirst) in Hat. discriminate.
  - unfold char_eqb. destruct (Ascii.eqb_spec a c); [|reflexivity].
    subst. rewrite Hfirst in Hat. discriminate.
Qed.


(** ** Tone dictionaries (claim C10) *)




(** ** Runs of a character class *)

Lemma length_append (a b : string) :
  String.length (a ++ b) = (String.length a + String.length b)%nat.
Proof. induction a as [|c a IH]; simpl; [reflexivity|]. rewrite IH. reflexivity. Qed.

Lemma take_append (a b : string) : take (String.length a) (a ++ b) = a.
Proof. induction a as [|c a IH]; simpl; [destruct b|rewrite IH]; reflexivity. Qed.

Lemma matched_append (a b : string) : matched (a ++ b) b = a.
Proof.
  unfold matched. rewrite length_append.
  replace (String.length a + String.length b - String.length b)%nat
    with (String.length a) by lia.
  apply take_append.
Qed.

Lemma toLowerCase_append (a b : string) :
  toLowerCase (a ++ b) = toLowerCase a ++ toLowerCase b.
Proof. induction a as [|c a IH]; simpl; [reflexivity|]. rewrite IH. reflexivity. Qed.

Lemma toLowerCase_length (a : string) : String.length (toLowerCase a) = String.length a.
Proof. induction a as [|c a IH]; simpl; [reflexivity|]. rewrite IH. reflexivity. Qed.

Lemma lower_of_lower (c : ascii) : is_lower c = true -> lower c = c.
Proof.
  intros Hlower. unfold lower.
  unfold is_lower, in_range in Hlower.
  apply andb_true_iff in Hlower. destruct Hlower as [Hlo Hhi].
  apply N.leb_le in Hlo, Hhi.
  assert (Hupper : is_upper c = false).
  { unfold is_upper, in_range. apply andb_false_iff. right. apply N.leb_gt. lia. }
  assert (Hlatin : in_range 192 222 c = false).
  { unfold in_range. apply andb_false_iff. left. apply N.leb_gt. lia. }
  rewrite Hupper, Hlatin. reflexivity.
Qed.

Lemma lower_of_letter (c : ascii) : is_letter c = true -> is_lower (lower c) = true.
Proof.
  unfold is_letter. intros Hletter. apply orb_true_iff in Hletter.
  destruct Hletter as [Hlower|Hupper].
  - rewrite (lower_of_lower c Hlower). exact Hlower.
  - apply lower_of_upper_is_lower. exact Hupper.
Qed.

Lemma toLowerCase_letters (w : string) :
  all_chars is_letter w = true -> all_chars is_lower (toLowerCase w) = true.
Proof.
  induction w as [|c w IH]; simpl; [reflexivity|]. intros H.
  apply andb_true_iff in H. destruct H as [Hc Hw].
  rewrite (lower_of_letter c Hc), (IH Hw). reflexivity.
Qed.

Lemma is_lower_word (c : ascii) : is_lower c = true -> is_word c = true.
Proof. intros H. unfold is_word. rewrite H. reflexivity. Qed.

Lemma rmatch_Chr (p : ascii -> bool) (k : cont) (prev : option ascii)
    (c : ascii) (s : string) :
  rmatch (Chr p) k prev (String c s) = if p c then k (Some c) s else None.
Proof. reflexivity. Qed.

Lemma rmatch_Chr_empty (p : ascii -> bool) (k : cont) (prev : option ascii) :
  rmatch (Chr p) k prev EmptyString = None.
Proof. reflexivity. Qed.

Lemma iterate_S (body : cont -> cont) (k : cont) (n : nat)
    (prev : option ascii) (s : string) :
  iterate body k (S n) prev s
  = match body (iterate body k n) prev s with
    | Some rest => Some rest
    | None => k prev s
    end.
Proof. reflexivity. Qed.

Lemma rmatch_Seq (r1 r2 : regex) (k : cont) (prev : option ascii) (s : string) :
  rmatch (Seq r1 r2) k prev s = rmatch r1 (rmatch r2 k) prev s.
Proof. reflexivity. Qed.

Lemma rmatch_Star (r : regex) (k : cont) (prev : option ascii) (s : string) :
  rmatch (Star r) k prev s = iterate (rmatch r) k (String.length s) prev s.
Proof. reflexivity. Qed.

Lemma rmatch_WordB (k : cont) (prev : option ascii) (s : string) :
  rmatch WordB k prev s
  = if xorb (is_word_before prev) (is_word_at s) then k prev s else None.
Proof. reflexivity. Qed.

(** A greedy repetition of a class runs to the end of a run of the class,
    when the rest of the pattern matches there. *)
Lemma iterate_greedy (p : ascii -> bool) (k : cont) (x r : string) :
  stops p r = true ->
  forall (w : string) (n : nat) (prev : option ascii),
    (String.length w <= n)%nat ->
    all_chars p w = true ->
    k (last_of prev w) r = Some x ->
    iterate (rmatch (Chr p)) k n prev (w ++ r) = Some x.
Proof.
  intros Hstops. induction w as [|a w IH]; intros n prev Hn Hall Hk.
  - cbn [append last_of] in *. destruct n as [|n]; [exact Hk|].
    rewrite iterate_S.
    destruct r as [|c r]; [rewrite rmatch_Chr_empty; exact Hk|].
    rewrite rmatch_Chr.
    cbn [stops] in Hstops. destruct (p c); [discriminate|exact Hk].
  - cbn [all_chars] in Hall. apply andb_true_iff in Hall. destruct Hall as [Ha Hall].
    destruct n as [|n]; [cbn [String.length] in Hn; lia|].
    change (String a w ++ r) with (String a (w ++ r)).
    rewrite iterate_S, rmatch_Chr, Ha.
    rewrite (IH n (Some a)); [reflexivity| cbn [String.length] in Hn; lia | exact Hall | exact Hk].
Qed.

Lemma rmatch_AtLeast_run (p : ascii -> bool) (k : cont) (x r : string) :
  stops p r = true ->
  forall (m : nat) (w : string) (prev : option ascii),
    (m <= String.length w)%nat ->
    all_chars p w = true ->
    k (last_of prev w) r = Some x ->
    rmatch (AtLeast m (Chr p)) k prev (w ++ r) = Some x.
Proof.
  intros Hstops. induction m as [|m IH]; intros w prev Hm Hall Hk.
  - cbn [AtLeast]. rewrite rmatch_Star.
    apply iterate_greedy; auto. rewrite length_append. lia.
  - destruct w as [|a w]; [cbn [String.length] in Hm; lia|].
    cbn [all_chars] in Hall. apply andb_true_iff in Hall. destruct Hall as [Ha Hall].
    cbn [AtLeast]. change (String a w ++ r) with (String a (w ++ r)).
    rewrite rmatch_Seq, rmatch_Chr, Ha.
    apply IH; [cbn [String.length] in Hm; lia | exact Hall | exact Hk].
Qed.

Lemma rmatch_AtLeast_stops (p : ascii -> bool) (k : cont) (m : nat)
    (prev : option ascii) (r : string) :
  stops p r = true ->
  rmatch (AtLeast (S m) (Chr p)) k prev r = None.
Proof.
  intros Hstops. cbn [AtLeast]. rewrite rmatch_Seq.
  destruct r as [|c r]; [reflexivity|].
  rewrite rmatch_Chr. cbn [stops] in Hstops. destruct (p c); [discriminate|reflexivity].
Qed.


Lemma not_word_stops_lower (r : string) : is_word_at r = false -> stops is_lower r = true.
Proof.
  destruct r as [|c r]; [reflexivity|]. simpl. intros H.
  destruct (is_lower c) eqn:Hc; [|reflexivity].
  rewrite (is_lower_word c Hc) in H. discriminate.
Qed.

Lemma last_of_lower_run (prev : option ascii) (w : string) :
  w <> EmptyString -> all_chars is_lower w = true ->
  is_word_before (last_of prev w) = true.
Proof.
  revert prev. induction w as [|a w IH]; intros prev Hne Hall; [congruence|].
  simpl in Hall. apply andb_true_iff in Hall. destruct Hall as [Ha Hall].
  simpl. destruct w as [|b w].
  - simpl. apply is_lower_word. exact Ha.
  - apply IH; [discriminate|exact Hall].
Qed.

(** At the start of a run of lower-case letters that is a whole word, the
    pattern matches the run. *)
Lemma exec_lower_run (m : nat) (w r : string) (prev : option ascii) :
  (m <= String.length w)%nat ->
  w <> EmptyString ->
  all_chars is_lower w = true ->
  is_word_before prev = false ->
  is_word_at r = false ->
  exec (lower_run m) prev (w ++ r) = Some r.
Proof.
  intros Hm Hne Hall Hprev Hr. unfold exec, lower_run.
  rewrite rmatch_Seq, rmatch_WordB, Hprev.
  assert (Hat : is_word_at (w ++ r) = true).
  { destruct w as [|a w]; [congruence|]. cbn [all_chars] in Hall.
    apply andb_true_iff in Hall. apply is_lower_word. apply Hall. }
  rewrite Hat. cbn [xorb]. rewrite rmatch_Seq.
  apply rmatch_AtLeast_run; auto using not_word_stops_lower.
  rewrite rmatch_WordB, (last_of_lower_run prev w Hne Hall), Hr. reflexivity.
Qed.

(** Between two words the pattern does not match. *)
Lemma exec_lower_run_stops (m : nat) (r : string) (prev : option ascii) :
  is_word_at r = false ->
  exec (lower_run (S m)) prev r = None.
Proof.
  intros Hr. unfold exec, lower_run. rewrite rmatch_Seq, rmatch_WordB.
  destruct (xorb (is_word_before prev) (is_word_at r)); [|reflexivity].
  rewrite rmatch_Seq.
  apply rmatch_AtLeast_stops. apply not_word_stops_lower. exact Hr.
Qed.

Lemma spaced_not_word (n : nat) (w : string) : is_word_at (spaced n w) = false.
Proof. destruct n; reflexivity. Qed.

(** The words of a text of one repeated word. *)
Lemma match_from_repeated (m : nat) (w : string) :
  (S m <= String.length w)%nat ->
  all_chars is_lower w = true ->
  forall (n fuel : nat) (prev : option ascii),
    (2 * n + 2 <= fuel)%nat ->
    is_word_before prev = false ->
    match_from (lower_run (S m)) fuel prev (w ++ spaced n w) = repeat w (S n).
Proof.
  intros Hm Hall.
  assert (Hne : w <> EmptyString) by (destruct w; [simpl in Hm; lia|discriminate]).
  induction n as [|n IH]; intros fuel prev Hfuel Hprev.
  - destruct fuel as [|[|fuel]]; try lia.
    cbn [match_from].
    rewrite (exec_lower_run (S m) w (spaced 0 w) prev Hm Hne Hall Hprev eq_refl).
    rewrite matched_append. destruct w as [|a w]; [congruence|].
    rewrite exec_lower_run_stops by apply spaced_not_word.
    reflexivity.
  - destruct fuel as [|[|fuel]]; try lia.
    cbn [match_from].
    rewrite (exec_lower_run (S m) w (spaced (S n) w) prev Hm Hne Hall Hprev eq_refl).
    rewrite matched_append. destruct w as [|a w]; [congruence|].
    rewrite exec_lower_run_stops by apply spaced_not_word.
    cbn [spaced]. change (" " ++ String a w ++ spaced n (String a w))
      with (String " " (String a w ++ spaced n (String a w))).
    cbv iota beta.
    rewrite IH; [reflexivity | lia | reflexivity].
Qed.

Lemma spaced_length (n : nat) (w : string) :
  String.length (spaced n w) = (n * S (String.length w))%nat.
Proof.
  induction n as [|n IH]; [reflexivity|].
  cbn [spaced]. change (" " ++ w ++ spaced n w) with (String " " (w ++ spaced n w)).
  cbn [String.length]. rewrite length_append, IH. lia.
Qed.

Lemma match_all_repeated (m n : nat) (w : string) :
  (S m <= String.length w)%nat ->
  all_chars is_lower w = true ->
  match_all (lower_run (S m)) (repeated (S n) w) = repeat w (S n).
Proof.
  intros Hm Hall. unfold match_all, repeated.
  apply match_from_repeated; auto.
  rewrite length_append, spaced_length. nia.
Qed.

Lemma toLowerCase_spaced (n : nat) (w : string) :
  toLowerCase (spaced n w) = spaced n (toLowerCase w).
Proof.
  induction n as [|n IH]; [reflexivity|].
  cbn [spaced]. rewrite !toLowerCase_append, IH. reflexivity.
Qed.

Lemma toLowerCase_repeated (n : nat) (w : string) :
  toLowerCase (repeated n w) = repeated n (toLowerCase w).
Proof.
  destruct n as [|n]; [reflexivity|].
  unfold repeated. rewrite toLowerCase_append, toLowerCase_spaced. reflexivity.
Qed.

(** ** A text of one repeated word (claim C4) *)

Lemma distinct_repeat (w : string) (n : nat) : distinct (repeat w n) [w] = [w].
Proof.
  induction n as [|n IH]; [reflexivity|].
  cbn [repeat distinct string_mem existsb]. rewrite String.eqb_refl. exact IH.
Qed.

Lemma Set_size_repeat (w : string) (n : nat) : Set_size (repeat w (S n)) = 1.
Proof.
  unfold Set_size. cbn [repeat distinct string_mem existsb app].
  rewrite distinct_repeat. reflexivity.
Qed.

Lemma tally_repeat (w : string) (n : nat) (k : Z) :
  fold_left LowValueAnalyzer.tally (repeat w n) [(w, k)] = [(w, k + Z.of_nat n)].
Proof.
  revert k. induction n as [|n IH]; intros k.
  - cbn [repeat fold_left]. f_equal. f_equal. lia.
  - cbn [repeat fold_left LowValueAnalyzer.tally]. rewrite String.eqb_refl, IH.
    f_equal. f_equal. lia.
Qed.

Lemma count_repeat (w : string) (n : nat) : JS.count (repeat w n) = Z.of_nat n.
Proof. unfold JS.count. rewrite repeat_length. reflexivity. Qed.

(** C4 as stated fails: for the word [hello] the repetition check passes
    and its message does not list the word. *)
Lemma repetition_reported_fails :
  ~ repetition_reported "hello" (repeated 3000 "hello").
Proof.
  unfold repetition_reported. intros [_ [_ Hlisted]].
  assert (Hmessage :
            includes (message (LowValueAnalyzer.checkRepetition (repeated 3000 "hello")))
              "hello" = false)
    by (vm_compute; reflexivity).
  pose proof (eq_trans (eq_sym Hmessage) Hlisted) as Hfalse. discriminate Hfalse.
Qed.

(** C4, amended.  For a text of 3,000 instances of one word of five
    letters, the vocabulary check fails with score 4; the word, in lower
    case, is the only overused word that the repetition check finds (it
    finds none when the word is one of the common words it leaves out);
    as fewer than three words are overused, the repetition check passes
    with score 15 and its message lists no word. *)
Theorem one_word_text (word : string) :
  String.length word = 5%nat ->
  all_chars is_letter word = true ->
  LowValueAnalyzer.checkVocabulary (repeated 3000 word)
  = mkCheck "Vocabulary Richness" fail 4
      "Very repetitive vocabulary. Content feels redundant."
      (Some "Use synonyms and varied phrasing. Expand your word choices.")
  /\ LowValueAnalyzer.overused_words (repeated 3000 word)
     = (if string_mem (toLowerCase word) LowValueAnalyzer.common_words
        then []
        else [(toLowerCase word, 3000)])
  /\ LowValueAnalyzer.checkRepetition (repeated 3000 word)
     = mkCheck "Keyword/Word Repetition" pass 15
         "No excessive word repetition detected."
         None.
Proof.
  intros Hlength Hletters.
  pose proof (toLowerCase_letters word Hletters) as Hlower.
  pose proof (toLowerCase_length word) as Hlen. rewrite Hlength in Hlen.
  set (w := toLowerCase word) in *.
  assert (Hwords : forall m, (m < 5)%nat ->
             match_all (lower_run (S m)) (toLowerCase (repeated 3000 word)) = repeat w 3000).
  { intros m Hm. rewrite toLowerCase_repeated. apply match_all_repeated; [lia|exact Hlower]. }
  assert (Hoverused :
            LowValueAnalyzer.overused_words (repeated 3000 word)
            = (if string_mem w LowValueAnalyzer.common_words then [] else [(w, 3000)])).
  { unfold LowValueAnalyzer.overused_words.
    change LowValueAnalyzer.long_word with (lower_run 4).
    rewrite (Hwords 3%nat) by lia. cbv zeta.
    rewrite count_repeat.
    change (repeat w 3000) with (w :: repeat w 2999).
    cbn [fold_left LowValueAnalyzer.tally]. rewrite tally_repeat.
    assert (Hinherited : LowValueAnalyzer.inherited w = false).
    { unfold LowValueAnalyzer.inherited. apply String.eqb_neq.
      intros Heq. rewrite Heq in Hlen. discriminate. }
    cbn [filter fst snd]. rewrite Hinherited.
    replace (negb false && Qlt_bool (Math_max 3 (of_int (Z.of_nat 3000) * (3 # 100)))
                             (of_int (1 + Z.of_nat 2999))) with true
      by (vm_compute; reflexivity).
    cbn [filter fst]. destruct (string_mem w LowValueAnalyzer.common_words); reflexivity. }
  split; [|split].
  - unfold LowValueAnalyzer.checkVocabulary.
    change LowValueAnalyzer.alphabetic_word with (lower_run 1).
    rewrite (Hwords 0%nat) by lia. cbv zeta.
    rewrite count_repeat, Set_size_repeat. reflexivity.
  - exact Hoverused.
  - unfold LowValueAnalyzer.checkRepetition. cbv zeta. rewrite Hoverused.
    destruct (string_mem w LowValueAnalyzer.common_words); reflexivity.
Qed.

Lemma one_word_text_witness :
  String.length "hello" = 5%nat
  /\ all_chars is_letter "hello" = true
  /\ LowValueAnalyzer.overused_words (repeated 3000 "hello") = [("hello", 3000)]
  /\ status (LowValueAnalyzer.checkRepetition (repeated 3000 "hello")) = pass.
Proof.
  split; [reflexivity|]. split; [reflexivity|].
  destruct (one_word_text "hello" eq_refl eq_refl) as [_ [Hoverused Hrepetition]].
  rewrite Hoverused, Hrepetition. split; reflexivity.
Defined.

(* ================================================================== *)
(** * The professional tone: texts as tokens                           *)
(* ================================================================== *)

Import Words.



Lemma expansion_parts_are_the_steps :
  map step_of expansion_parts = ContentHumanizer.expansions.
Proof. reflexivity. Qed.

(** ** Tokens of a text *)

Lemma flatten_app (ts us : list token) : flatten (ts ++ us) = flatten ts ++ flatten us.
Proof.
  induction ts as [|[w|c] ts IH]; simpl; [reflexivity| |]; rewrite IH.
  - (* Word *) induction w as [|a w IHw]; simpl; [reflexivity|]. rewrite IHw. reflexivity.
  - reflexivity.
Qed.

Lemma flatten_tokenize (s : string) : flatten (tokenize s) = s.
Proof.
  induction s as [|c s IH]; [reflexivity|].
  cbn [tokenize]. destruct (is_word c).
  - destruct (tokenize s) as [|[w|d] ts]; cbn [flatten] in *; rewrite <- IH; reflexivity.
  - cbn [flatten]. rewrite IH. reflexivity.
Qed.

Lemma starts_with_word_tokenize (s : string) :
  starts_with_word (tokenize s) = is_word_at s.
Proof.
  destruct s as [|c s]; [reflexivity|]. cbn [tokenize is_word_at].
  destruct (is_word c); [|reflexivity].
  destruct (tokenize s) as [|[w|d] ts]; reflexivity.
Qed.

Lemma well_formed_tokenize (s : string) : well_formed (tokenize s) = true.
Proof.
  induction s as [|c s IH]; [reflexivity|].
  cbn [tokenize]. destruct (is_word c) eqn:Hc.
  - unfold str. destruct (tokenize s) as [|[w|d] ts]; cbn [well_formed] in *.
    + cbn. rewrite Hc. reflexivity.
    + cbn [nonempty all_chars]. rewrite Hc.
      apply andb_true_iff in IH. destruct IH as [IH Hts].
      apply andb_true_iff in IH. destruct IH as [IH Hsw].
      apply andb_true_iff in IH. destruct IH as [_ Hw].
      rewrite Hw, Hsw, Hts. reflexivity.
    + cbn [nonempty all_chars starts_with_word]. rewrite Hc, IH. reflexivity.
  - cbn [well_formed]. rewrite Hc, IH. reflexivity.
Qed.

Lemma is_word_at_flatten (ts : list token) :
  well_formed ts = true -> is_word_at (flatten ts) = starts_with_word ts.
Proof.
  destruct ts as [|[w|c] ts]; [reflexivity| |].
  - cbn [well_formed flatten starts_with_word]. intros H.
    apply andb_true_iff in H. destruct H as [H _].
    apply andb_true_iff in H. destruct H as [H _].
    apply andb_true_iff in H. destruct H as [Hne Hw].
    destruct w as [|a w]; [discriminate|]. cbn in *.
    apply andb_true_iff in Hw. apply Hw.
  - cbn [well_formed flatten starts_with_word is_word_at]. intros H.
    apply andb_true_iff in H. destruct H as [H _].
    apply negb_true_iff in H. exact H.
Qed.

Lemma tokenize_word_app (w r : string) :
  nonempty w = true -> all_chars is_word w = true -> is_word_at r = false ->
  tokenize (w ++ r) = Word w :: tokenize r.
Proof.
  intros Hne Hw Hr. induction w as [|a w IH]; [discriminate|].
  cbn [all_chars] in Hw. apply andb_true_iff in Hw. destruct Hw as [Ha Hw].
  change (String a w ++ r) with (String a (w ++ r)). cbn [tokenize]. rewrite Ha.
  destruct w as [|b w].
  - cbn [append]. unfold str.
    pose proof (starts_with_word_tokenize r) as Hsw. rewrite Hr in Hsw.
    destruct (tokenize r) as [|[w'|d] ts]; [reflexivity|discriminate|reflexivity].
  - rewrite IH; [reflexivity|reflexivity|exact Hw].
Qed.

Lemma tokenize_flatten (ts : list token) :
  well_formed ts = true -> tokenize (flatten ts) = ts.
Proof.
  induction ts as [|[w|c] ts IH]; [reflexivity| |]; cbn [well_formed flatten]; intros H.
  - apply andb_true_iff in H. destruct H as [H Hts].
    apply andb_true_iff in H. destruct H as [H Hsw].
    apply andb_true_iff in H. destruct H as [Hne Hw].
    rewrite tokenize_word_app; auto.
    + rewrite (IH Hts). reflexivity.
    + rewrite (is_word_at_flatten ts Hts). apply negb_true_iff. exact Hsw.
  - apply andb_true_iff in H. destruct H as [Hc Hts].
    cbn [tokenize]. apply negb_true_iff in Hc. rewrite Hc, (IH Hts). reflexivity.
Qed.

(** ** Replacing hits among tokens *)



Lemma has_hit_word (h : string -> string -> bool) (a : string) (ts : list token) :
  has_hit h (Word a :: ts) = hit_after h a ts || has_hit h ts.
Proof. destruct ts as [|[w|c] [|[b|d] ts]]; reflexivity. Qed.

Lemma replace_hits_word (h : string -> string -> bool) (out : list token)
    (a : string) (ts : list token) :
  replace_hits h out (Word a :: ts)
  = if hit_after h a ts then (out ++ replace_hits h out (skipn 2 ts))%list
    else Word a :: replace_hits h out ts.
Proof.
  destruct ts as [|[w|c] [|[b|d] ts]]; reflexivity.
Qed.

Lemma has_hit_skipn (h : string -> string -> bool) (ts : list token) :
  has_hit h ts = false -> has_hit h (skipn 2 ts) = false.
Proof.
  destruct ts as [|t [|u ts]]; try (intros; reflexivity).
  cbn [skipn]. intros H.
  assert (Htail : forall v vs, has_hit h (v :: vs) = false -> has_hit h vs = false).
  { intros [a|c] vs Hv; [rewrite has_hit_word in Hv; apply orb_false_iff in Hv; apply Hv
                        |exact Hv]. }
  apply (Htail u). apply (Htail t). exact H.
Qed.

Section ReplaceHits.
Variables hj hk : string -> string -> bool.
Variable out : list token.
Variables f l : string.
Hypothesis out_head : exists out', out = Word f :: out'.
Hypothesis out_last : forall ts, has_hit hk (out ++ ts)%list = has_hit hk (Word l :: ts).
Hypothesis last_is_no_prefix : forall b, hk l b = false.
Hypothesis first_is_no_suffix : forall a, hk a f = false.

Lemma replace_hits_first (b : string) (ts : list token) :
  exists us,
    replace_hits hj out (Word b :: ts) = Word b :: us
    \/ replace_hits hj out (Word b :: ts) = Word f :: us.
Proof.
  rewrite replace_hits_word. destruct out_head as [out' Hout].
  destruct (hit_after hj b ts); [|eexists; left; reflexivity].
  rewrite Hout. eexists. right. reflexivity.
Qed.

Lemma peek_replace_hits (ts : list token) (c : ascii) (b' : string) :
  peek (replace_hits hj out ts) = Some (c, b') ->
  exists b, peek ts = Some (c, b) /\ (b' = b \/ b' = f).
Proof.
  destruct ts as [|[w|d] ts].
  - discriminate.
  - destruct (replace_hits_first w ts) as [us [H|H]]; rewrite H; discriminate.
  - cbn [replace_hits]. destruct ts as [|[b|e] ts].
    + discriminate.
    + destruct (replace_hits_first b ts) as [us [H|H]]; rewrite H; cbn [peek];
        intros Hpeek; injection Hpeek as Hc Hb; exists b; rewrite Hc; auto.
    + discriminate.
Qed.

(** After the hits of [hj] are replaced, the hits of [hk] that are left
    are hits that were there and were not hits of [hj]. *)
Lemma has_hit_replace_hits (n : nat) :
  forall ts,
    (List.length ts <= n)%nat ->
    has_hit (fun a b => hk a b && negb (hj a b)) ts = false ->
    has_hit hk (replace_hits hj out ts) = false.
Proof.
  induction n as [|n IH]; intros ts Hn Hclean.
  - destruct ts; [reflexivity|simpl in Hn; lia].
  - destruct ts as [|[a|c] ts]; [reflexivity| |].
    + rewrite replace_hits_word.
      pose proof Hclean as Hall.
      rewrite has_hit_word in Hclean. apply orb_false_iff in Hclean.
      destruct Hclean as [Hhere Hclean].
      destruct (hit_after hj a ts) eqn:Hhit.
      * rewrite out_last, has_hit_word. apply orb_false_iff. split.
        -- unfold hit_after.
           destruct (peek (replace_hits hj out (skipn 2 ts))) as [[c' b']|]; [|reflexivity].
           rewrite last_is_no_prefix. apply andb_false_r.
        -- apply IH.
           ++ simpl in Hn. rewrite length_skipn. lia.
           ++ apply has_hit_skipn. exact Hclean.
      * rewrite has_hit_word. apply orb_false_iff. split.
        -- unfold hit_after in *.
           destruct (peek (replace_hits hj out ts)) as [[c b']|] eqn:Hpeek; [|reflexivity].
           destruct (peek_replace_hits ts c b' Hpeek) as [b [Hts [->| ->]]].
           ++ rewrite Hts in Hhere, Hhit.
              destruct (apostrophe c); [|reflexivity]. cbn [andb] in *.
              rewrite Hhit in Hhere. cbn [negb] in Hhere.
              rewrite andb_true_r in Hhere. exact Hhere.
           ++ rewrite first_is_no_suffix. apply andb_false_r.
        -- apply IH; [simpl in Hn; lia|exact Hclean].
    + cbn [replace_hits has_hit] in *. apply IH; [simpl in Hn; lia|exact Hclean].
Qed.

End ReplaceHits.

(** ** A literal pattern between word boundaries, on tokens *)

Lemma eqc_word (ci : bool) (a c : ascii) :
  eqc ci a c = true -> is_word a = true -> is_word c = true.
Proof.
  unfold eqc. destruct ci.
  - apply char_eqb_ci_word.
  - unfold char_eqb. intros Heq Ha. apply Ascii.eqb_eq in Heq. subst. exact Ha.
Qed.

Lemma eqc_word_only (ci : bool) (a c : ascii) :
  is_word a = true -> is_word c = false -> eqc ci a c = false.
Proof.
  intros Ha Hc. destruct (eqc ci a c) eqn:Heq; [|reflexivity].
  rewrite (eqc_word ci a c Heq Ha) in Hc. discriminate.
Qed.

Lemma eqc_apostrophe (ci : bool) (c : ascii) : eqc ci "'" c = apostrophe c.
Proof.
  unfold eqc, apostrophe, char_eqb_ci, char_eqb. rewrite (Ascii.eqb_sym c).
  destruct ci; [|reflexivity].
  change (is_upper "'") with false. change (is_lower "'") with false.
  cbn [andb orb]. rewrite !orb_false_r. reflexivity.
Qed.

Lemma apostrophe_not_word (c : ascii) : apostrophe c = true -> is_word c = false.
Proof. unfold apostrophe. intros H. apply Ascii.eqb_eq in H. subst. reflexivity. Qed.

Lemma rmatch_Lit (ci : bool) (pat : string) (k : cont) (prev : option ascii) (s : string) :
  rmatch (Lit ci pat) k prev s
  = match strip ci pat prev s with
    | Some (p, rest) => k p rest
    | None => None
    end.
Proof.
  revert prev s. induction pat as [|a pat IH]; intros prev s; [reflexivity|].
  cbn [Lit strip]. rewrite rmatch_Seq.
  destruct s as [|c s]; [reflexivity|]. rewrite rmatch_Chr.
  unfold eqc. destruct ci; (destruct (_ a c); [apply IH|reflexivity]).
Qed.


Lemma exec_word_regex (ci : bool) (from : string) (prev : option ascii) (s : string) :
  exec (ContentHumanizer.word_regex ci from) prev s
  = if xorb (is_word_before prev) (is_word_at s)
    then bounded_strip ci from prev s
    else None.
Proof.
  unfold exec, ContentHumanizer.word_regex, bounded_strip.
  rewrite rmatch_Seq, rmatch_WordB.
  destruct (xorb (is_word_before prev) (is_word_at s)); [|reflexivity].
  rewrite rmatch_Seq, rmatch_Lit.
  destruct (strip ci from prev s) as [[p rest]|]; [|reflexivity].
  rewrite rmatch_WordB. reflexivity.
Qed.

Lemma strip_app (ci : bool) (p q : string) (prev : option ascii) (s : string) :
  strip ci (p ++ q) prev s
  = match strip ci p prev s with
    | Some (prev', rest) => strip ci q prev' rest
    | None => None
    end.
Proof.
  revert prev s. induction p as [|a p IH]; intros prev s; [reflexivity|].
  cbn [append strip]. destruct s as [|c s]; [reflexivity|].
  destruct (eqc ci a c); [apply IH|reflexivity].
Qed.

(** A word of the pattern against a word of the text, an apostrophe
    following in the pattern. *)
Lemma strip_pre (ci : bool) (q r : string) :
  stops is_word r = true ->
  forall (p w : string) (prev : option ascii),
    all_chars is_word p = true ->
    all_chars is_word w = true ->
    strip ci (p ++ String "'" q) prev (w ++ r)
    = if lit_eq ci p w then strip ci (String "'" q) (last_of prev w) r else None.
Proof.
  intros Hr. induction p as [|a p IH]; intros w prev Hpre Hw.
  - destruct w as [|c w]; [reflexivity|].
    cbn [all_chars] in Hw. apply andb_true_iff in Hw. destruct Hw as [Hc _].
    cbn [append strip lit_eq]. rewrite eqc_apostrophe.
    destruct (apostrophe c) eqn:Hap; [|reflexivity].
    rewrite (apostrophe_not_word c Hap) in Hc. discriminate.
  - cbn [all_chars] in Hpre. apply andb_true_iff in Hpre. destruct Hpre as [Ha Hpre].
    destruct w as [|c w].
    + cbn [append strip lit_eq]. destruct r as [|d r]; [reflexivity|].
      cbn [stops] in Hr. apply negb_true_iff in Hr.
      rewrite (eqc_word_only ci a d Ha Hr). reflexivity.
    + cbn [all_chars] in Hw. apply andb_true_iff in Hw. destruct Hw as [Hc Hw].
      cbn [append strip lit_eq last_of].
      destruct (eqc ci a c); [|reflexivity].
      cbn [andb]. apply IH; assumption.
Qed.

(** A word of the pattern against a word of the text, at the end of the
    pattern. *)
Lemma bounded_strip_post (ci : bool) (r : string) :
  stops is_word r = true ->
  forall (q w : string) (prev : option ascii),
    all_chars is_word q = true ->
    all_chars is_word w = true ->
    (q = EmptyString -> is_word_before prev = true) ->
    bounded_strip ci q prev (w ++ r) = if lit_eq ci q w then Some r else None.
Proof.
  intros Hr. unfold bounded_strip.
  induction q as [|a q IH]; intros w prev Hpost Hw Hprev.
  - cbn [strip]. rewrite (Hprev eq_refl).
    destruct w as [|c w].
    + cbn [append lit_eq]. destruct r as [|d r]; [reflexivity|].
      cbn [stops] in Hr. apply negb_true_iff in Hr.
      cbn [is_word_at]. rewrite Hr. reflexivity.
    + cbn [all_chars] in Hw. apply andb_true_iff in Hw. destruct Hw as [Hc _].
      cbn [append is_word_at lit_eq]. rewrite Hc. reflexivity.
  - cbn [all_chars] in Hpost. apply andb_true_iff in Hpost. destruct Hpost as [Ha Hpost].
    destruct w as [|c w].
    + cbn [append strip lit_eq]. destruct r as [|d r]; [reflexivity|].
      cbn [stops] in Hr. apply negb_true_iff in Hr.
      rewrite (eqc_word_only ci a d Ha Hr). reflexivity.
    + cbn [all_chars] in Hw. apply andb_true_iff in Hw. destruct Hw as [Hc Hw].
      cbn [append strip lit_eq].
      destruct (eqc ci a c) eqn:Heq; [|reflexivity].
      cbn [andb]. apply IH; [assumption|assumption|].
      intros _. cbn [is_word_before]. exact (eqc_word ci a c Heq Ha).
Qed.



Lemma stops_flatten (ts : list token) :
  well_formed ts = true -> starts_with_word ts = false ->
  stops is_word (flatten ts) = true.
Proof.
  intros Hwf Hsw. pose proof (is_word_at_flatten ts Hwf) as Hat. rewrite Hsw in Hat.
  destruct (flatten ts) as [|c s]; [reflexivity|]. cbn in *. rewrite Hat. reflexivity.
Qed.

Lemma well_formed_word (w : string) (ts : list token) :
  well_formed (Word w :: ts) = true ->
  nonempty w = true /\ all_chars is_word w = true
  /\ starts_with_word ts = false /\ well_formed ts = true.
Proof.
  cbn [well_formed]. intros H.
  apply andb_true_iff in H. destruct H as [H Hts].
  apply andb_true_iff in H. destruct H as [H Hsw].
  apply andb_true_iff in H. destruct H as [Hne Hw].
  apply negb_true_iff in Hsw. auto.
Qed.

Lemma well_formed_sep (c : ascii) (ts : list token) :
  well_formed (Sep c :: ts) = true -> is_word c = false /\ well_formed ts = true.
Proof.
  cbn [well_formed]. intros H.
  apply andb_true_iff in H. destruct H as [Hc Hts].
  apply negb_true_iff in Hc. auto.
Qed.

Section OneContraction.
Variable k : contraction.
Hypothesis Hvalid : valid k = true.

Lemma valid_parts :
  (nonempty (pre k) = true /\ all_chars is_word (pre k) = true)
  /\ (nonempty (post k) = true /\ all_chars is_word (post k) = true).
Proof.
  unfold valid, is_a_word in Hvalid.
  repeat (apply andb_true_iff in Hvalid; destruct Hvalid as [Hvalid ?]).
  repeat match goal with
         | H : _ && _ = true |- _ => apply andb_true_iff in H; destruct H
         end.
  auto.
Qed.

Lemma source_starts_with_word : is_word_at (source k) = true.
Proof.
  destruct valid_parts as [[Hne Hw] _]. unfold source.
  destruct (pre k) as [|a p]; [discriminate|].
  cbn in *. apply andb_true_iff in Hw. apply Hw.
Qed.

(** At a separator or at the end of the text the pattern does not match. *)
Lemma exec_at_separator (prev : option ascii) (s : string) :
  is_word_at s = false -> exec (regex_of k) prev s = None.
Proof.
  intros Hs. unfold regex_of. rewrite exec_word_regex, Hs.
  destruct (xorb (is_word_before prev) false); [|reflexivity].
  unfold bounded_strip.
  pose proof source_starts_with_word as Hsource.
  destruct (source k) as [|a from]; [discriminate|]. cbn [is_word_at] in Hsource.
  cbn [strip]. destruct s as [|c s]; [reflexivity|]. cbn [is_word_at] in Hs.
  rewrite (eqc_word_only _ a c Hsource Hs). reflexivity.
Qed.

(** Inside a word it does not match. *)
Lemma exec_inside_word (prev : option ascii) (s : string) :
  is_word_before prev = true -> exec (regex_of k) prev s = None.
Proof.
  intros Hprev. apply whole_word_not_after_word; [|exact Hprev].
  apply source_starts_with_word.
Qed.

(** At the start of a word it matches when the word, an apostrophe and
    the next word are a hit. *)
Lemma exec_at_word (w : string) (ts : list token) (prev : option ascii) :
  well_formed (Word w :: ts) = true ->
  is_word_before prev = false ->
  exec (regex_of k) prev (flatten (Word w :: ts))
  = if hit_after (hit k) w ts then Some (flatten (skipn 2 ts)) else None.
Proof.
  intros Hwf Hprev.
  destruct (well_formed_word w ts Hwf) as [Hne [Hw [Hsw Hts]]].
  destruct valid_parts as [[Hpre_ne Hpre] [Hpost_ne Hpost]].
  unfold regex_of. rewrite exec_word_regex, Hprev, (is_word_at_flatten _ Hwf).
  cbn [starts_with_word xorb flatten].
  unfold bounded_strip, source.
  change (pre k ++ "'" ++ post k) with (pre k ++ String "'" (post k)).
  rewrite (strip_pre _ _ _ (stops_flatten ts Hts Hsw) _ _ _ Hpre Hw).
  unfold hit_after, hit.
  destruct ts as [|[b|c] ts]; [| discriminate |].
  - cbn [flatten peek]. destruct (lit_eq _ _ w); reflexivity.
  - destruct (well_formed_sep c ts Hts) as [Hc Hts'].
    cbn [flatten strip]. rewrite eqc_apostrophe.
    destruct (lit_eq (ignore_case k) (pre k) w).
    2:{ destruct (peek (Sep c :: ts)) as [[? ?]|]; [|reflexivity].
        cbn [andb]. rewrite andb_false_r. reflexivity. }
    cbn [andb].
    destruct (apostrophe c) eqn:Hap.
    2:{ destruct (peek (Sep c :: ts)) as [[c' b']|] eqn:Hpeek; [|reflexivity].
        destruct ts as [|[b|d] ts]; try discriminate.
        cbn [peek] in Hpeek. injection Hpeek as <- <-. rewrite Hap. reflexivity. }
    assert (Hbounded := fun w' r Hr Hw' =>
              bounded_strip_post (ignore_case k) r Hr (post k) w' (Some c) Hpost Hw').
    unfold bounded_strip in Hbounded.
    destruct ts as [|[b|d] ts].
    + change (flatten []) with ("" ++ ""). cbn [peek skipn].
      rewrite (Hbounded EmptyString EmptyString eq_refl eq_refl).
      * destruct (post k); [discriminate|reflexivity].
      * intros Hempty. rewrite Hempty in Hpost_ne. discriminate.
    + destruct (well_formed_word b ts Hts') as [Hb_ne [Hb [Hsw' Hts'']]].
      cbn [flatten peek skipn]. rewrite Hap. cbn [andb].
      rewrite (Hbounded b (flatten ts) (stops_flatten ts Hts'' Hsw') Hb).
      * reflexivity.
      * intros Hempty. rewrite Hempty in Hpost_ne. discriminate.
    + destruct (well_formed_sep d ts Hts') as [Hd _].
      change (flatten (Sep d :: ts)) with ("" ++ String d (flatten ts)).
      cbn [peek skipn].
      rewrite (Hbounded EmptyString (String d (flatten ts))).
      * destruct (post k); [discriminate|reflexivity].
      * cbn [stops]. rewrite Hd. reflexivity.
      * reflexivity.
      * intros Hempty. rewrite Hempty in Hpost_ne. discriminate.
Qed.

End OneContraction.

(** ** Replacing and testing along the tokens *)

Lemma replace_from_S (re : regex) (by_ : string) (fuel : nat)
    (prev : option ascii) (s : string) :
  replace_from re by_ (S fuel) prev s
  = match exec re prev s with
    | Some rest =>
        match matched s rest with
        | EmptyString =>
            by_ ++ match s with
                   | EmptyString => EmptyString
                   | String c s' => String c (replace_from re by_ fuel (Some c) s')
                   end
        | m => by_ ++ replace_from re by_ fuel (last_of prev m) rest
        end
    | None =>
        match s with
        | EmptyString => EmptyString
        | String c s' => String c (replace_from re by_ fuel (Some c) s')
        end
    end.
Proof. reflexivity. Qed.

Lemma test_from_unfold (re : regex) (prev : option ascii) (s : string) :
  test_from re prev s
  = match exec re prev s with
    | Some _ => true
    | None =>
        match s with
        | EmptyString => false
        | String c s' => test_from re (Some c) s'
        end
    end.
Proof. destruct s; reflexivity. Qed.

Lemma last_of_word (w : string) (prev : option ascii) :
  all_chars is_word w = true -> is_word_before prev = true ->
  is_word_before (last_of prev w) = true.
Proof.
  revert prev. induction w as [|a w IH]; intros prev Hw Hprev; [exact Hprev|].
  cbn [all_chars] in Hw. apply andb_true_iff in Hw. destruct Hw as [Ha Hw].
  cbn [last_of]. apply IH; [exact Hw|exact Ha].
Qed.

Lemma append_assoc (a b c : string) : (a ++ b) ++ c = a ++ (b ++ c).
Proof. induction a as [|x a IH]; simpl; [reflexivity|]. rewrite IH. reflexivity. Qed.

Lemma well_formed_skipn (ts : list token) :
  well_formed ts = true -> well_formed (skipn 2 ts) = true.
Proof.
  intros H. destruct ts as [|t [|u ts]]; try reflexivity.
  cbn [skipn].
  assert (Htail : forall v vs, well_formed (v :: vs) = true -> well_formed vs = true).
  { intros [a|c] vs Hv;
      [apply (well_formed_word a vs Hv)|apply (well_formed_sep c vs Hv)]. }
  apply (Htail u). apply (Htail t). exact H.
Qed.

Section AlongTokens.
Variable k : contraction.
Hypothesis Hvalid : valid k = true.

Let re : regex := regex_of k.
Let out : list token := expansion_tokens k.
Let by_ : string := flatten out.

(** Inside a word the text is copied. *)
Lemma replace_from_inside_word (r : string) :
  forall (w : string) (prev : option ascii) (fuel : nat),
    all_chars is_word w = true ->
    is_word_before prev = true ->
    (String.length (w ++ r) < fuel)%nat ->
    exists fuel',
      (String.length r < fuel')%nat
      /\ replace_from re by_ fuel prev (w ++ r)
         = w ++ replace_from re by_ fuel' (last_of prev w) r.
Proof.
  induction w as [|a w IH]; intros prev fuel Hw Hprev Hfuel.
  - exists fuel. split; [exact Hfuel|reflexivity].
  - cbn [all_chars] in Hw. apply andb_true_iff in Hw. destruct Hw as [Ha Hw].
    destruct fuel as [|fuel]; [lia|].
    change (String a w ++ r) with (String a (w ++ r)) in *.
    rewrite replace_from_S. unfold re at 1.
    rewrite (exec_inside_word k Hvalid prev _ Hprev).
    cbn [String.length] in Hfuel.
    destruct (IH (Some a) fuel Hw Ha) as [fuel' [Hfuel' Heq]]; [lia|].
    exists fuel'. split; [exact Hfuel'|]. rewrite Heq. reflexivity.
Qed.

Lemma test_from_inside_word (r : string) :
  forall (w : string) (prev : option ascii),
    all_chars is_word w = true ->
    is_word_before prev = true ->
    test_from re prev (w ++ r) = test_from re (last_of prev w) r.
Proof.
  induction w as [|a w IH]; intros prev Hw Hprev; [reflexivity|].
  cbn [all_chars] in Hw. apply andb_true_iff in Hw. destruct Hw as [Ha Hw].
  change (String a w ++ r) with (String a (w ++ r)).
  rewrite test_from_unfold. unfold re at 1.
  rewrite (exec_inside_word k Hvalid prev _ Hprev).
  apply IH; assumption.
Qed.

Lemma hit_after_shape (w : string) (ts : list token) :
  hit_after (hit k) w ts = true ->
  exists c b rest, ts = Sep c :: Word b :: rest.
Proof.
  unfold hit_after. destruct ts as [|[a|c] [|[b|d] rest]]; try discriminate.
  intros _. eauto.
Qed.

(** The replacement goes along the tokens. *)
Lemma replace_from_tokens (n : nat) :
  forall (ts : list token) (prev : option ascii) (fuel : nat),
    (List.length ts <= n)%nat ->
    well_formed ts = true ->
    is_word_before prev = false \/ starts_with_word ts = false ->
    (String.length (flatten ts) < fuel)%nat ->
    replace_from re by_ fuel prev (flatten ts)
    = flatten (replace_hits (hit k) out ts).
Proof.
  induction n as [|n IH]; intros ts prev fuel Hn Hwf Hstart Hfuel.
  - destruct ts; [|simpl in Hn; lia].
    destruct fuel as [|fuel]; [lia|].
    cbn [flatten replace_hits]. rewrite replace_from_S. unfold re.
    rewrite (exec_at_separator k Hvalid prev EmptyString eq_refl). reflexivity.
  - destruct fuel as [|fuel]; [lia|].
    destruct ts as [|[w|c] ts].
    + cbn [flatten replace_hits]. rewrite replace_from_S. unfold re.
      rewrite (exec_at_separator k Hvalid prev EmptyString eq_refl). reflexivity.
    + destruct Hstart as [Hprev|Hstart]; [|discriminate].
      destruct (well_formed_word w ts Hwf) as [Hne [Hw [Hsw Hts]]].
      rewrite replace_from_S, replace_hits_word. unfold re at 1.
      rewrite (exec_at_word k Hvalid w ts prev Hwf Hprev).
      destruct (hit_after (hit k) w ts) eqn:Hhit.
      * destruct (hit_after_shape w ts Hhit) as [c [b [rest ->]]].
        cbn [skipn flatten].
        replace (w ++ String c (b ++ flatten rest))
          with ((w ++ String c b) ++ flatten rest)
          by (rewrite append_assoc; reflexivity).
        rewrite matched_append.
        destruct w as [|a w]; [discriminate|].
        cbn [append]. rewrite flatten_app. fold by_. f_equal.
        apply well_formed_skipn in Hts. cbn [skipn] in Hts.
        apply IH.
        -- cbn [List.length] in Hn. lia.
        -- exact Hts.
        -- right. destruct (well_formed_sep c _ (proj2 (proj2 (proj2 (well_formed_word _ _ Hwf)))))
             as [_ Hb].
           apply (well_formed_word b rest Hb).
        -- cbn [flatten String.length] in Hfuel.
           rewrite !length_append in Hfuel. cbn [String.length] in Hfuel.
           rewrite length_append in Hfuel. lia.
      * destruct w as [|a w]; [discriminate|].
        cbn [flatten]. change (String a w ++ flatten ts) with (String a (w ++ flatten ts)).
        cbn [all_chars] in Hw. apply andb_true_iff in Hw. destruct Hw as [Ha Hw].
        cbn [flatten String.length] in Hfuel.
        destruct (replace_from_inside_word (flatten ts) w (Some a) fuel Hw Ha)
          as [fuel' [Hfuel' Heq]].
        { change (String a w ++ flatten ts) with (String a (w ++ flatten ts)) in Hfuel.
          cbn [String.length] in Hfuel. lia. }
        rewrite Heq. cbn [append]. f_equal. f_equal.
        apply IH.
        -- cbn [List.length] in Hn. lia.
        -- exact Hts.
        -- right. exact Hsw.
        -- exact Hfuel'.
    + destruct (well_formed_sep c ts Hwf) as [Hc Hts].
      cbn [flatten replace_hits]. rewrite replace_from_S. unfold re at 1.
      rewrite (exec_at_separator k Hvalid prev (String c (flatten ts)) Hc).
      f_equal. apply IH.
      * cbn [List.length] in Hn. lia.
      * exact Hts.
      * left. exact Hc.
      * cbn [flatten String.length] in Hfuel. lia.
Qed.

(** The test goes along the tokens. *)
Lemma test_from_tokens :
  forall (ts : list token) (prev : option ascii),
    well_formed ts = true ->
    is_word_before prev = false \/ starts_with_word ts = false ->
    test_from re prev (flatten ts) = has_hit (hit k) ts.
Proof.
  induction ts as [|[w|c] ts IH]; intros prev Hwf Hstart.
  - cbn [flatten has_hit]. rewrite test_from_unfold. unfold re.
    rewrite (exec_at_separator k Hvalid prev EmptyString eq_refl). reflexivity.
  - destruct Hstart as [Hprev|Hstart]; [|discriminate].
    destruct (well_formed_word w ts Hwf) as [Hne [Hw [Hsw Hts]]].
    rewrite test_from_unfold, has_hit_word. unfold re at 1.
    rewrite (exec_at_word k Hvalid w ts prev Hwf Hprev).
    destruct (hit_after (hit k) w ts); [reflexivity|].
    destruct w as [|a w]; [discriminate|].
    cbn [flatten]. change (String a w ++ flatten ts) with (String a (w ++ flatten ts)).
    cbn [all_chars] in Hw. apply andb_true_iff in Hw. destruct Hw as [Ha Hw].
    cbv iota. rewrite (test_from_inside_word (flatten ts) w (Some a) Hw Ha).
    cbn [orb]. apply IH; [exact Hts|right; exact Hsw].
  - destruct (well_formed_sep c ts Hwf) as [Hc Hts].
    cbn [flatten has_hit]. rewrite test_from_unfold. unfold re at 1.
    rewrite (exec_at_separator k Hvalid prev (String c (flatten ts)) Hc).
    apply IH; [exact Hts|left; exact Hc].
Qed.

End AlongTokens.

(** ** The chain of expansions *)

Lemma starts_with_word_replace_hits (h : string -> string -> bool) (out ts : list token) :
  starts_with_word ts = false -> starts_with_word (replace_hits h out ts) = false.
Proof. destruct ts as [|[w|c] ts]; [reflexivity|discriminate|reflexivity]. Qed.

Lemma has_hit_weaken (h h' : string -> string -> bool) (ts : list token) :
  (forall a b, h' a b = true -> h a b = true) ->
  has_hit h ts = false -> has_hit h' ts = false.
Proof.
  intros Hle. induction ts as [|[a|c] ts IH]; [reflexivity| |exact IH].
  rewrite !has_hit_word. intros H. apply orb_false_iff in H. destruct H as [Hhere Hts].
  apply orb_false_iff. split; [|exact (IH Hts)].
  unfold hit_after in *. destruct (peek ts) as [[c b]|]; [|reflexivity].
  destruct (apostrophe c); [|reflexivity]. cbn [andb] in *.
  destruct (h' a b) eqn:Hab; [|reflexivity].
  rewrite (Hle a b Hab) in Hhere. discriminate.
Qed.

Lemma has_hit_never (h : string -> string -> bool) (ts : list token) :
  (forall a b, h a b = false) -> has_hit h ts = false.
Proof.
  intros Hnever. induction ts as [|[a|c] ts IH]; [reflexivity| |exact IH].
  rewrite has_hit_word, IH. unfold hit_after.
  destruct (peek ts) as [[c b]|]; [|reflexivity].
  rewrite Hnever. rewrite andb_false_r. reflexivity.
Qed.

(** Where there is no hit nothing is replaced. *)
Lemma replace_hits_none (h : string -> string -> bool) (out ts : list token) :
  has_hit h ts = false -> replace_hits h out ts = ts.
Proof.
  induction ts as [|[a|c] ts IH]; [reflexivity| |].
  - rewrite has_hit_word, replace_hits_word. intros H.
    apply orb_false_iff in H. destruct H as [Hhere Hts].
    rewrite Hhere, (IH Hts). reflexivity.
  - cbn [has_hit replace_hits]. intros H. rewrite (IH H). reflexivity.
Qed.


Lemma valid_words (k : contraction) :
  valid k = true ->
  is_a_word (first_word k) = true
  /\ match second_word k with
     | Some l => is_a_word l = true
     | None => True
     end.
Proof.
  unfold valid. intros H.
  apply andb_true_iff in H. destruct H as [H Hsecond].
  apply andb_true_iff in H. destruct H as [_ Hfirst].
  split; [exact Hfirst|]. destruct (second_word k); [exact Hsecond|exact I].
Qed.

Lemma well_formed_expansion (k : contraction) (ts : list token) :
  valid k = true ->
  well_formed ts = true -> starts_with_word ts = false ->
  well_formed (expansion_tokens k ++ ts)%list = true.
Proof.
  intros Hvalid Hwf Hsw. destruct (valid_words k Hvalid) as [Hfirst Hsecond].
  unfold expansion_tokens, is_a_word in *.
  destruct (second_word k) as [l|]; cbn [app well_formed starts_with_word negb].
  - rewrite Hfirst, Hsecond, Hsw, Hwf. reflexivity.
  - rewrite Hfirst, Hsw, Hwf. reflexivity.
Qed.

Lemma well_formed_replace_hits (k : contraction) (n : nat) :
  valid k = true ->
  forall ts,
    (List.length ts <= n)%nat ->
    well_formed ts = true ->
    well_formed (replace_hits (hit k) (expansion_tokens k) ts) = true.
Proof.
  intros Hvalid. induction n as [|n IH]; intros ts Hn Hwf.
  - destruct ts; [reflexivity|simpl in Hn; lia].
  - destruct ts as [|[w|c] ts]; [reflexivity| |].
    + destruct (well_formed_word w ts Hwf) as [Hne [Hw [Hsw Hts]]].
      rewrite replace_hits_word.
      destruct (hit_after (hit k) w ts) eqn:Hhit.
      * destruct (hit_after_shape k w ts Hhit) as [c [b [rest ->]]].
        cbn [skipn].
        destruct (well_formed_sep c _ Hts) as [_ Hb].
        destruct (well_formed_word b rest Hb) as [_ [_ [Hsw' Hrest]]].
        apply well_formed_expansion; [exact Hvalid| |].
        -- apply IH; [cbn [List.length] in Hn; lia|exact Hrest].
        -- apply starts_with_word_replace_hits. exact Hsw'.
      * cbn [well_formed]. rewrite Hne, Hw.
        rewrite (starts_with_word_replace_hits _ _ ts Hsw).
        rewrite IH; [reflexivity|cbn [List.length] in Hn; lia|exact Hts].
    + destruct (well_formed_sep c ts Hwf) as [Hc Hts].
      cbn [replace_hits well_formed]. rewrite Hc.
      rewrite IH; [reflexivity|cbn [List.length] in Hn; lia|exact Hts].
Qed.

Lemma well_formed_expand_tokens (ks : list contraction) :
  forallb valid ks = true ->
  forall ts, well_formed ts = true -> well_formed (expand_tokens ks ts) = true.
Proof.
  induction ks as [|k ks IH]; intros Hvalid ts Hwf; [exact Hwf|].
  cbn [forallb] in Hvalid. apply andb_true_iff in Hvalid. destruct Hvalid as [Hk Hks].
  cbn [expand_tokens fold_left]. apply (IH Hks).
  apply (well_formed_replace_hits k (List.length ts) Hk ts (le_n _) Hwf).
Qed.

(** One [replace] step of the chain is a replacement of hits. *)
Lemma replace_by_tokens (k : contraction) (s : string) :
  valid k = true ->
  replace (regex_of k) (flatten (expansion_tokens k)) s
  = flatten (replace_hits (hit k) (expansion_tokens k) (tokenize s)).
Proof.
  intros Hvalid. unfold replace.
  pose proof (replace_from_tokens k Hvalid (List.length (tokenize s)) (tokenize s) None
                (S (String.length s)) (le_n _) (well_formed_tokenize s)
                (or_introl eq_refl)) as H.
  rewrite flatten_tokenize in H. apply H. lia.
Qed.

Lemma test_by_tokens (k : contraction) (ts : list token) :
  valid k = true -> well_formed ts = true ->
  test (regex_of k) (flatten ts) = has_hit (hit k) ts.
Proof.
  intros Hvalid Hwf. unfold test.
  apply (test_from_tokens k Hvalid ts None Hwf). left. reflexivity.
Qed.

Lemma rewrite_all_cons (ci : bool) (from to : string)
    (steps : list (bool * string * string)) (text : string) :
  ContentHumanizer.rewrite_all ((ci, from, to) :: steps) text
  = ContentHumanizer.rewrite_all steps
      (replace (ContentHumanizer.word_regex ci from) to text).
Proof. reflexivity. Qed.

Lemma rewrite_all_by_tokens (ks : list contraction) :
  forallb valid ks = true ->
  forall ts,
    well_formed ts = true ->
    ContentHumanizer.rewrite_all (map step_of ks) (flatten ts)
    = flatten (expand_tokens ks ts).
Proof.
  induction ks as [|k ks IH]; intros Hvalid ts Hwf; [reflexivity|].
  cbn [forallb] in Hvalid. apply andb_true_iff in Hvalid. destruct Hvalid as [Hk Hks].
  change (map step_of (k :: ks))
    with ((ignore_case k, source k, flatten (expansion_tokens k)) :: map step_of ks).
  rewrite rewrite_all_cons. cbn [expand_tokens fold_left].
  change (ContentHumanizer.word_regex (ignore_case k) (source k)) with (regex_of k).
  rewrite (replace_by_tokens k (flatten ts) Hk).
  rewrite (tokenize_flatten ts Hwf).
  apply (IH Hks).
  apply (well_formed_replace_hits k (List.length ts) Hk ts (le_n _) Hwf).
Qed.

Lemma has_hit_after_step (j k : contraction) (ts : list token) :
  compatible j k = true ->
  has_hit (fun a b => hit k a b && negb (hit j a b)) ts = false ->
  has_hit (hit k) (replace_hits (hit j) (expansion_tokens j) ts) = false.
Proof.
  unfold compatible. intros Hcompatible Hclean.
  apply andb_true_iff in Hcompatible. destruct Hcompatible as [Hlast Hfirst].
  apply negb_true_iff in Hlast, Hfirst.
  apply (has_hit_replace_hits (hit j) (hit k) (expansion_tokens j)
           (first_word j) (last_word j)) with (n := List.length ts).
  - unfold expansion_tokens. destruct (second_word j); eexists; reflexivity.
  - intros us. unfold expansion_tokens, last_word.
    destruct (second_word j) as [l|]; [|reflexivity].
    cbn [app]. rewrite (has_hit_word _ (first_word j)). reflexivity.
  - intros b. unfold hit. rewrite Hlast. reflexivity.
  - intros a. unfold hit. rewrite Hfirst. apply andb_false_r.
  - apply le_n.
  - exact Hclean.
Qed.

(** After the chain no hit of a contraction of the chain is left. *)
Lemma expand_tokens_clean (ks : list contraction) :
  forall (done : list contraction) (ts : list token),
    (forall j k, In j ks -> In k (done ++ ks) -> compatible j k = true) ->
    (forall k, In k done -> has_hit (hit k) ts = false) ->
    forall k, In k (done ++ ks) -> has_hit (hit k) (expand_tokens ks ts) = false.
Proof.
  induction ks as [|j ks IH]; intros done ts Hcompatible Hdone k Hk.
  - rewrite app_nil_r in Hk. apply Hdone. exact Hk.
  - cbn [expand_tokens fold_left].
    apply (IH (done ++ [j])%list).
    + intros j' k' Hj' Hk'. apply Hcompatible; [right; exact Hj'|].
      rewrite <- app_assoc in Hk'. exact Hk'.
    + intros k' Hk'. apply in_app_or in Hk'. destruct Hk' as [Hk'|[<-|[]]].
      * apply has_hit_after_step.
        -- apply Hcompatible; [left; reflexivity|]. apply in_or_app. left. exact Hk'.
        -- apply (has_hit_weaken (hit k')); [|apply Hdone; exact Hk'].
           intros a b Hab. apply andb_true_iff in Hab. apply Hab.
      * apply has_hit_after_step.
        -- apply Hcompatible; [left; reflexivity|]. apply in_or_app. right. left. reflexivity.
        -- apply has_hit_never. intros a b. destruct (hit j a b); reflexivity.
    + rewrite <- app_assoc. exact Hk.
Qed.

Lemma expansion_parts_valid : forallb valid expansion_parts = true.
Proof. vm_compute. reflexivity. Qed.

Lemma expansion_parts_compatible :
  forallb (fun j => forallb (compatible j) expansion_parts) expansion_parts = true.
Proof. vm_compute. reflexivity. Qed.

(** The last stage of the professional rewriter leaves no contraction of
    its list. *)
Lemma expansions_leave_none (text : string) (k : contraction) :
  In k expansion_parts ->
  test (regex_of k) (ContentHumanizer.rewrite_all ContentHumanizer.expansions text) = false.
Proof.
  intros Hk. rewrite <- expansion_parts_are_the_steps.
  rewrite <- (flatten_tokenize text) at 1.
  rewrite (rewrite_all_by_tokens _ expansion_parts_valid _ (well_formed_tokenize text)).
  assert (Hvalid : valid k = true).
  { pose proof expansion_parts_valid as Hall. rewrite forallb_forall in Hall. auto. }
  rewrite (test_by_tokens k _ Hvalid
             (well_formed_expand_tokens _ expansion_parts_valid _ (well_formed_tokenize text))).
  apply (expand_tokens_clean expansion_parts []).
  - intros j k' Hj Hk'. pose proof expansion_parts_compatible as Hall.
    rewrite forallb_forall in Hall. specialize (Hall j Hj).
    rewrite forallb_forall in Hall. apply Hall. exact Hk'.
  - intros k' [].
  - exact Hk.
Qed.

(** A text without a contraction of the list passes the last stage
    unchanged. *)
Lemma expand_tokens_none (ks : list contraction) (ts : list token) :
  (forall k, In k ks -> has_hit (hit k) ts = false) ->
  expand_tokens ks ts = ts.
Proof.
  induction ks as [|k ks IH]; intros Hnone; [reflexivity|].
  cbn [expand_tokens fold_left].
  rewrite (replace_hits_none (hit k) _ ts (Hnone k (or_introl eq_refl))).
  apply IH. intros k' Hk'. apply Hnone. right. exact Hk'.
Qed.

Lemma expansions_keep_the_rest (text : string) :
  (forall k, In k expansion_parts -> test (regex_of k) text = false) ->
  ContentHumanizer.rewrite_all ContentHumanizer.expansions text = text.
Proof.
  intros Hnone. rewrite <- expansion_parts_are_the_steps.
  rewrite <- (flatten_tokenize text) at 1.
  rewrite (rewrite_all_by_tokens _ expansion_parts_valid _ (well_formed_tokenize text)).
  rewrite expand_tokens_none; [apply flatten_tokenize|].
  intros k Hk.
  assert (Hvalid : valid k = true).
  { pose proof expansion_parts_valid as Hall. rewrite forallb_forall in Hall. auto. }
  rewrite <- (test_by_tokens k _ Hvalid (well_formed_tokenize text)).
  rewrite flatten_tokenize. apply Hnone. exact Hk.
Qed.

(** ** The professional tone (claim C7) *)

Lemma humanizeText_professional (random : nat -> Q) (text : string) :
  exists rest,
    ContentHumanizer.humanizeText random text "professional"
    = ContentHumanizer.rewrite_all ContentHumanizer.expansions rest.
Proof.
  unfold ContentHumanizer.humanizeText, ContentHumanizer.humanize,
    ContentHumanizer.bind, ContentHumanizer.ret.
  cbv zeta.
  destruct (ContentHumanizer.varySentenceStructure random _ 0%nat) as [sentences n].
  destruct (ContentHumanizer.addNaturalTransitions random sentences "professional" n)
    as [sentences' n'].
  eexists. reflexivity.
Qed.

(** C7 as stated fails: [what's] is left in the output. *)
Lemma what_s_is_not_expanded :
  ~ expands_every_contraction (fun _ => 0%Q) "I know what's needed.".
Proof.
  unfold expands_every_contraction. intros Hclaim.
  assert (Hleft :
            occurs "what's"
              (ContentHumanizer.humanizeText (fun _ => 0%Q) "I know what's needed."
                 "professional") = true)
    by (vm_compute; reflexivity).
  assert (Hin : In "what's" contracted_forms) by (vm_compute; tauto).
  assert (Hoccurs : occurs "what's" "I know what's needed." = true)
    by (vm_compute; reflexivity).
  pose proof (eq_trans (eq_sym (Hclaim "what's" Hin Hoccurs)) Hleft) as Hfalse.
  discriminate Hfalse.
Qed.

(** C7, amended.  Whatever the input text and the random choices of the
    rewriter, the output of the professional tone holds no whole-word
    occurrence of a contraction of its expansion list: [don't], [can't],
    [won't], [shouldn't], [wouldn't], [couldn't], [it's], [that's] in any
    letter case, and [I'm] as written.  The last stage, which gives the
    output, replaces each by its full form and leaves the rest of the
    text, other contractions included, as it is: on the words and
    separators of any text it is [expand_tokens], which puts the words of
    the replacement text of the list in the place of each listed
    contraction and copies every other token. *)
Theorem professional_expands_listed_contractions (random : nat -> Q) (text : string) :
  (forall ci from to,
      In (ci, from, to) ContentHumanizer.expansions ->
      test (ContentHumanizer.word_regex ci from)
        (ContentHumanizer.humanizeText random text "professional") = false)
  /\ ((forall ci from to,
          In (ci, from, to) ContentHumanizer.expansions ->
          test (ContentHumanizer.word_regex ci from) text = false) ->
      ContentHumanizer.addHumanTouches text "professional" = text)
  /\ map step_of expansion_parts = ContentHumanizer.expansions
  /\ (forall input,
        ContentHumanizer.addHumanTouches input "professional"
        = flatten (expand_tokens expansion_parts (tokenize input)))
  /\ (exists before,
        ContentHumanizer.humanizeText random text "professional"
        = ContentHumanizer.addHumanTouches before "professional")
  /\ ContentHumanizer.addHumanTouches "I don't know what's up, it's late" "professional"
     = "I do not know what's up, it is late".
Proof.
  split; [|split; [|split; [|split; [|split]]]].
  - intros ci from to Hstep.
    destruct (humanizeText_professional random text) as [rest ->].
    rewrite <- expansion_parts_are_the_steps in Hstep.
    apply in_map_iff in Hstep. destruct Hstep as [k [Hk Hin]].
    unfold step_of in Hk. injection Hk as <- <- _.
    apply (expansions_leave_none rest k Hin).
  - intros Hnone.
    change (ContentHumanizer.addHumanTouches text "professional")
      with (ContentHumanizer.rewrite_all ContentHumanizer.expansions text).
    apply expansions_keep_the_rest. intros k Hk.
    apply (Hnone (ignore_case k) (source k) (flatten (expansion_tokens k))).
    rewrite <- expansion_parts_are_the_steps.
    apply in_map_iff. exists k. split; [reflexivity|exact Hk].
  - apply expansion_parts_are_the_steps.
  - intros input.
    change (ContentHumanizer.addHumanTouches input "professional")
      with (ContentHumanizer.rewrite_all ContentHumanizer.expansions input).
    rewrite <- expansion_parts_are_the_steps.
    rewrite <- (flatten_tokenize input) at 1.
    apply (rewrite_all_by_tokens _ expansion_parts_valid _ (well_formed_tokenize input)).
  - destruct (humanizeText_professional random text) as [rest Hrest].
    exists rest. exact Hrest.
  - vm_compute. reflexivity.
Qed.

Lemma professional_expands_listed_contractions_witness :
  In (true, "don't", "do not") ContentHumanizer.expansions
  /\ test (ContentHumanizer.word_regex true "don't")
       (ContentHumanizer.humanizeText (fun _ => (9 # 10)%Q)
          "We don't know. It's fine, isn't it? They can't. You won't. I'm sure."
          "professional") = false.
Proof.
  assert (Hin : In (true, "don't", "do not") ContentHumanizer.expansions)
    by (left; reflexivity).
  split; [exact Hin|].
  apply (proj1 (professional_expands_listed_contractions (fun _ => (9 # 10)%Q)
                  "We don't know. It's fine, isn't it? They can't. You won't. I'm sure.")
           true "don't" "do not" Hin).
Defined.

(* ================================================================== *)
(** * Further properties                                               *)
(* ================================================================== *)

Import Shapes.


(** ** Splitting at white space *)

Lemma append_empty (s : string) : s ++ "" = s.
Proof. induction s as [|c s IH]; simpl; [reflexivity|]. rewrite IH. reflexivity. Qed.

Lemma all_chars_append (p : ascii -> bool) (a b : string) :
  all_chars p (a ++ b) = all_chars p a && all_chars p b.
Proof.
  induction a as [|c a IH]; simpl; [reflexivity|]. rewrite IH. apply andb_assoc.
Qed.

(** A string is a run of a class and a rest at which the class stops. *)
Lemma run_and_rest (p : ascii -> bool) (s : string) :
  exists w r, s = w ++ r /\ all_chars p w = true /\ stops p r = true.
Proof.
  induction s as [|c s [w [r [Hs [Hw Hr]]]]].
  - exists "", "". repeat split.
  - destruct (p c) eqn:Hc.
    + exists (String c w), r. simpl. rewrite Hs, Hc, Hw. repeat split. exact Hr.
    + exists "", (String c s). simpl. rewrite Hc. repeat split.
Qed.

(** [/\s+/] at a white space consumes the whole run of white space. *)
Lemma exec_whitespace_run (c : ascii) (w r : string) (prev : option ascii) :
  is_space c = true -> all_chars is_space w = true -> stops is_space r = true ->
  exec whitespace prev (String c (w ++ r)) = Some r.
Proof.
  intros Hc Hw Hr. unfold exec, whitespace, Plus.
  rewrite rmatch_Seq, rmatch_Chr, Hc, rmatch_Star.
  apply iterate_greedy; auto. rewrite length_append. lia.
Qed.

(** Elsewhere it does not match. *)
Lemma exec_whitespace_stops (r : string) (prev : option ascii) :
  stops is_space r = true -> exec whitespace prev r = None.
Proof.
  intros Hr. unfold exec, whitespace, Plus. rewrite rmatch_Seq.
  destruct r as [|c r]; [reflexivity|].
  rewrite rmatch_Chr. cbn [stops] in Hr. destruct (is_space c); [discriminate|reflexivity].
Qed.

Lemma pieces_not_nil (gap : bool) (s : string) : pieces gap s <> [].
Proof.
  revert gap. induction s as [|c s IH]; intros gap; simpl; [discriminate|].
  destruct (is_space c).
  - destruct gap; [apply IH|discriminate].
  - destruct (pieces false s); discriminate.
Qed.

(** After a run of white space the pieces are those of the rest. *)
Lemma pieces_after_gap (w r : string) :
  all_chars is_space w = true -> stops is_space r = true ->
  pieces true (w ++ r) = pieces false r.
Proof.
  intros Hw Hr. induction w as [|c w IH]; simpl.
  - destruct r as [|d r]; [reflexivity|]. simpl in *.
    destruct (is_space d); [discriminate|reflexivity].
  - simpl in Hw. apply andb_true_iff in Hw. destruct Hw as [Hc Hw].
    rewrite Hc. apply IH. exact Hw.
Qed.

Lemma split_from_whitespace (fuel : nat) :
  forall (s seg : string) (prev : option ascii),
    (String.length s <= fuel)%nat ->
    split_from whitespace fuel seg prev s = graft seg (pieces false s).
Proof.
  induction fuel as [|fuel IH]; intros s seg prev Hfuel.
  - destruct s; [|simpl in Hfuel; lia]. simpl. reflexivity.
  - destruct s as [|c s]; [simpl; rewrite append_empty; reflexivity|].
    cbn [split_from]. simpl in Hfuel.
    destruct (is_space c) eqn:Hc.
    + destruct (run_and_rest is_space s) as [w [r [Hs [Hw Hr]]]]. subst s.
      rewrite (exec_whitespace_run c w r prev Hc Hw Hr).
      replace (matched (String c (w ++ r)) r) with (String c w)
        by (symmetry; apply (matched_append (String c w) r)).
      cbn [pieces]. rewrite Hc, (pieces_after_gap w r Hw Hr).
      assert (Hstep : split_from whitespace fuel "" (last_of prev (String c w)) r
                      = pieces false r).
      { rewrite IH by (rewrite length_append in Hfuel; lia).
        destruct (pieces false r) eqn:Hp; [destruct (pieces_not_nil _ _ Hp)|reflexivity]. }
      destruct seg; cbn [graft]; rewrite Hstep; rewrite ?append_empty; reflexivity.
    + rewrite exec_whitespace_stops by (simpl; rewrite Hc; reflexivity).
      rewrite IH by lia. cbn [pieces]. rewrite Hc.
      destruct (pieces false s) as [|x xs] eqn:Hp; [destruct (pieces_not_nil _ _ Hp)|].
      cbn [graft]. unfold str. rewrite append_assoc. reflexivity.
Qed.

(** [text.split(/\s+/)] is the list of the pieces of [text]. *)
Lemma split_whitespace (s : string) : split whitespace s = pieces false s.
Proof.
  unfold split. destruct s as [|c s]; [reflexivity|].
  rewrite split_from_whitespace by lia.
  destruct (pieces false (String c s)) eqn:Hp; [destruct (pieces_not_nil _ _ Hp)|reflexivity].
Qed.

(** Only the first and the last piece can be empty, and no piece holds
    white space. *)
Lemma pieces_shape (s : string) :
  loose (pieces true s) = true
  /\ match pieces false s with
     | x :: xs => clean x && loose xs = true
     | [] => False
     end.
Proof.
  induction s as [|c s [IHtrue IHfalse]]; [split; reflexivity|].
  cbn [pieces]. destruct (is_space c) eqn:Hc.
  - split; [exact IHtrue|]. exact IHtrue.
  - destruct (pieces false s) as [|x xs]; [destruct IHfalse|].
    apply andb_true_iff in IHfalse. destruct IHfalse as [Hx Hxs].
    assert (Hcx : clean (String c x) = true).
    { unfold clean in *. cbn [all_chars]. rewrite Hc, Hx. reflexivity. }
    split.
    + cbn [loose]. destruct xs as [|y ys]; [exact Hcx|].
      unfold solid. rewrite Hcx, Hxs. reflexivity.
    + rewrite Hcx, Hxs. reflexivity.
Qed.

Lemma truthy_length (w : string) : truthy w = (0 <? JS.length w).
Proof.
  destruct w; [reflexivity|]. unfold truthy, JS.length.
  cbn [String.eqb negb String.length]. symmetry. apply Z.ltb_lt. lia.
Qed.

Lemma count_cons {A : Type} (x : A) (xs : list A) : JS.count (x :: xs) = 1 + JS.count xs.
Proof. unfold JS.count. cbn [List.length]. lia. Qed.

Lemma count_nonnegative {A : Type} (xs : list A) : 0 <= JS.count xs.
Proof. unfold JS.count. lia. Qed.

Lemma count_filter_le {A : Type} (f : A -> bool) (xs : list A) :
  JS.count (filter f xs) <= JS.count xs.
Proof.
  induction xs as [|x xs IH]; [reflexivity|].
  cbn [filter]. destruct (f x); rewrite ?count_cons; lia.
Qed.

(** Among words the last of which may be empty, at most one is. *)
Lemma loose_count (ws : list string) :
  loose ws = true ->
  JS.count ws - 1 <= JS.count (filter (fun w => 0 <? JS.length w) ws).
Proof.
  induction ws as [|w ws IH]; intros Hloose; [unfold JS.count; simpl; lia|].
  destruct ws as [|w' ws].
  - cbn [filter]. destruct (0 <? JS.length w); rewrite ?count_cons; unfold JS.count; simpl; lia.
  - cbn [loose] in Hloose. apply andb_true_iff in Hloose. destruct Hloose as [Hw Hws].
    unfold solid in Hw. apply andb_true_iff in Hw. destruct Hw as [Hw _].
    rewrite truthy_length in Hw.
    cbn [filter]. rewrite Hw. cbn [filter] in IH. rewrite !count_cons in *.
    specialize (IH Hws). lia.
Qed.

(** The last piece of a text that does not end with white space is not
    empty. *)
Lemma trimEnd_cons (c : ascii) (s : string) :
  trimEnd (String c s) = String c s ->
  (s = "" /\ is_space c = false) \/ (s <> "" /\ trimEnd s = s).
Proof.
  cbn [trimEnd]. destruct (trimEnd s) as [|d t] eqn:Ht.
  - destruct (is_space c); [discriminate|]. intros H. inversion H. left. split; reflexivity.
  - intros H. inversion H. right. split; [discriminate|reflexivity].
Qed.

Lemma trimEnd_idempotent (s : string) : trimEnd (trimEnd s) = trimEnd s.
Proof.
  induction s as [|c s IH]; [reflexivity|].
  cbn [trimEnd]. destruct (trimEnd s) as [|d t] eqn:Ht.
  - destruct (is_space c) eqn:Hc; [reflexivity|]. unfold str. cbn [trimEnd]. rewrite Hc. reflexivity.
  - cbn [trimEnd] in *. rewrite IH. reflexivity.
Qed.

Lemma trimStart_stops (s : string) : stops is_space (trimStart s) = true.
Proof.
  induction s as [|c s IH]; [reflexivity|].
  cbn [trimStart]. destruct (is_space c) eqn:Hc; [exact IH|]. simpl. rewrite Hc. reflexivity.
Qed.

Lemma trimEnd_head (c : ascii) (s : string) :
  is_space c = false -> trimEnd (String c s) = String c (trimEnd s).
Proof.
  intros Hc. cbn [trimEnd]. destruct (trimEnd s); [rewrite Hc|]; reflexivity.
Qed.

(** A trimmed text is empty, or begins and ends with a code unit that
    is not white space. *)
Lemma trim_shape (s : string) :
  trim s = "" \/ exists c r, trim s = String c r /\ is_space c = false.
Proof.
  unfold trim. pose proof (trimStart_stops s) as Hstops.
  destruct (trimStart s) as [|c r]; [left; reflexivity|].
  simpl in Hstops. destruct (is_space c) eqn:Hc; [discriminate|].
  right. exists c, (trimEnd r). split; [apply trimEnd_head; exact Hc|exact Hc].
Qed.

Lemma trim_trimEnd (s : string) : trimEnd (trim s) = trim s.
Proof. unfold trim. apply trimEnd_idempotent. Qed.

Lemma last_piece (s : string) (gap : bool) :
  s <> "" -> trimEnd s = s -> last (pieces gap s) "" <> "".
Proof.
  revert gap. induction s as [|c s IH]; intros gap Hne Htrim; [congruence|].
  destruct (trimEnd_cons c s Htrim) as [[Hs Hc]|[Hs Hrest]].
  - subst s. cbn [pieces]. rewrite Hc. simpl. discriminate.
  - cbn [pieces]. destruct (is_space c).
    + destruct gap; [apply IH; assumption|].
      pose proof (IH true Hs Hrest) as Hlast.
      destruct (pieces true s) as [|x xs] eqn:Hp; [destruct (pieces_not_nil _ _ Hp)|].
      exact Hlast.
    + pose proof (IH false Hs Hrest) as Hlast.
      destruct (pieces false s) as [|x xs] eqn:Hp; [destruct (pieces_not_nil _ _ Hp)|].
      destruct xs as [|y ys]; [simpl; discriminate|]. exact Hlast.
Qed.

Lemma loose_all_solid (ws : list string) :
  loose ws = true -> last ws "x" <> "" -> forallb solid ws = true.
Proof.
  induction ws as [|w ws IH]; intros Hloose Hlast; [reflexivity|].
  destruct ws as [|w' ws].
  - cbn [loose] in Hloose. cbn [last] in Hlast. cbn [forallb].
    unfold solid. rewrite Hloose. destruct w; [congruence|reflexivity].
  - cbn [loose] in Hloose. apply andb_true_iff in Hloose. destruct Hloose as [Hw Hws].
    cbn [forallb] in *. rewrite Hw. apply IH; [exact Hws|exact Hlast].
Qed.

Lemma last_default (ws : list string) (d d' : string) :
  ws <> [] -> last ws d = last ws d'.
Proof.
  induction ws as [|w ws IH]; intros Hne; [congruence|].
  destruct ws as [|w' ws]; [reflexivity|]. cbn [last] in *. apply IH. discriminate.
Qed.

(** The pieces of a trimmed text that is not empty are all words. *)
Lemma pieces_trimmed (s : string) :
  trim s <> "" -> forallb solid (pieces false (trim s)) = true.
Proof.
  intros Hne.
  destruct (trim_shape s) as [Hempty|[c [r [Hs Hc]]]]; [congruence|].
  pose proof (last_piece (trim s) false Hne (trim_trimEnd s)) as Hlast.
  destruct (pieces_shape (trim s)) as [_ Hshape].
  rewrite Hs in *. cbn [pieces] in *. rewrite Hc in *.
  destruct (pieces false r) as [|x xs] eqn:Hp; [destruct (pieces_not_nil _ _ Hp)|].
  apply andb_true_iff in Hshape. destruct Hshape as [Hx Hxs].
  cbn [forallb]. unfold solid at 1. rewrite Hx. cbn [truthy String.eqb negb andb].
  destruct xs as [|y ys]; [reflexivity|].
  apply loose_all_solid; [exact Hxs|].
  rewrite (last_default (y :: ys) "x" "") by discriminate. exact Hlast.
Qed.

Lemma filter_all {A : Type} (f : A -> bool) (xs : list A) :
  forallb f xs = true -> filter f xs = xs.
Proof.
  induction xs as [|x xs IH]; [reflexivity|]. cbn [forallb filter]. intros H.
  apply andb_true_iff in H. destruct H as [Hx Hxs]. rewrite Hx, (IH Hxs). reflexivity.
Qed.

Lemma forallb_weaken {A : Type} (f g : A -> bool) (xs : list A) :
  (forall x, f x = true -> g x = true) -> forallb f xs = true -> forallb g xs = true.
Proof.
  intros Hfg. induction xs as [|x xs IH]; [reflexivity|]. cbn [forallb]. intros H.
  apply andb_true_iff in H. destruct H as [Hx Hxs]. rewrite (Hfg x Hx), (IH Hxs). reflexivity.
Qed.

Lemma solid_counts (w : string) : solid w = true -> (0 <? JS.length w) = true.
Proof.
  unfold solid. intros H. apply andb_true_iff in H. rewrite <- truthy_length. apply H.
Qed.

(** The pieces of a blank text. *)
Lemma pieces_blank (s : string) :
  blank s = true -> pieces false s = match s with "" => [""] | _ => [""; ""] end.
Proof.
  destruct s as [|c s]; [reflexivity|]. unfold blank. cbn [all_chars pieces].
  intros H. apply andb_true_iff in H. destruct H as [Hc Hs]. rewrite Hc.
  rewrite <- (append_empty s). rewrite (pieces_after_gap s "" Hs eq_refl). reflexivity.
Qed.

(** ** The word count of the text battery *)

(** X10.  The [wordCount] that [analyzeContent] returns counts the pieces of
    [text.split(/\s+/)], the empty ones too, which [checkWordCount] leaves
    out: it is at least 1, also for the empty text, and exceeds the number
    of words that [checkWordCount] counts by at most 2. *)
Theorem reported_word_count (text : string) :
  let counted := JS.count (filter (fun w => 0 <? JS.length w) (split whitespace text)) in
  let results := LowValueAnalyzer.analyzeContent text in
  1 <= LowValueAnalyzer.wordCount_of results
  /\ counted <= LowValueAnalyzer.wordCount_of results <= counted + 2.
Proof.
  cbv zeta. rewrite text_analyze_of_run. cbv zeta.
  cbn [LowValueAnalyzer.wordCount_of]. rewrite split_whitespace.
  destruct (pieces_shape text) as [_ Hshape].
  destruct (pieces false text) as [|x xs]; [destruct Hshape|].
  apply andb_true_iff in Hshape. destruct Hshape as [_ Hxs].
  pose proof (loose_count xs Hxs) as Hcount.
  pose proof (count_filter_le (fun w => 0 <? JS.length w) xs) as Hle.
  pose proof (count_nonnegative xs) as Hxs0.
  cbn [filter]. destruct (0 <? JS.length x); rewrite ?count_cons; lia.
Qed.

(** X11.  [handleAnalysis] shows results exactly when the word counter of the
    page, which counts the words of the trimmed input, is at 100 or more;
    the text analyzed is the trimmed input, and the word count of the
    results is the number the counter shows. *)
Theorem analysis_gate (value : string) :
  match Handlers.handleAnalysis value with
  | Handlers.displayed results =>
      100 <= Handlers.wordCounter value
      /\ results = LowValueAnalyzer.analyzeContent (trim value)
      /\ LowValueAnalyzer.wordCount_of results = Handlers.wordCounter value
  | Handlers.error _ => Handlers.wordCounter value < 100
  end.
Proof.
  unfold Handlers.handleAnalysis, Handlers.wordCounter. cbv zeta.
  destruct (truthy (trim value)) eqn:Htruthy; cbn [negb].
  - assert (Hne : trim value <> "").
    { intros Hempty. rewrite Hempty in Htruthy. discriminate. }
    pose proof (pieces_trimmed value Hne) as Hsolid.
    rewrite split_whitespace.
    rewrite (filter_all (fun w => 0 <? JS.length w) (pieces false (trim value)))
      by (apply (forallb_weaken solid); [apply solid_counts|exact Hsolid]).
    destruct (JS.count (pieces false (trim value)) <? 100) eqn:Hgate.
    + apply Z.ltb_lt in Hgate. exact Hgate.
    + apply Z.ltb_ge in Hgate. split; [exact Hgate|]. split; [reflexivity|].
      rewrite text_analyze_of_run. cbv zeta. cbn [LowValueAnalyzer.wordCount_of].
      rewrite split_whitespace. reflexivity.
  - destruct (trim value) as [|c r]; [|discriminate].
    vm_compute. reflexivity.
Qed.

(** ** What a match consumes *)

Lemma last_of_append (prev : option ascii) (a b : string) :
  last_of prev (a ++ b) = last_of (last_of prev a) b.
Proof. revert prev. induction a as [|c a IH]; intros prev; simpl; [reflexivity|apply IH]. Qed.

(** A match calls its continuation after a prefix of the input, made of
    code units that the pattern can consume. *)
Lemma rmatch_consumes (q : ascii -> bool) (r : regex) :
  only q r ->
  forall (k : cont) (prev : option ascii) (s rest : string),
    rmatch r k prev s = Some rest ->
    exists m s', s = m ++ s' /\ all_chars q m = true /\ k (last_of prev m) s' = Some rest.
Proof.
  induction r as [|p|r1 IH1 r2 IH2|r1 IH1 r2 IH2|r IH| | | | |p];
    intros Honly k prev s rest Hmatch; cbn [only rmatch] in *.
  - exists "", s. auto.
  - destruct s as [|c s]; [discriminate|]. destruct (p c) eqn:Hc; [|discriminate].
    exists (str c), s. cbn [str append all_chars last_of]. rewrite (Honly c Hc). auto.
  - destruct Honly as [H1 H2].
    destruct (IH1 H1 _ _ _ _ Hmatch) as [m1 [s1 [Hs1 [Hm1 Hk1]]]].
    destruct (IH2 H2 _ _ _ _ Hk1) as [m2 [s2 [Hs2 [Hm2 Hk2]]]].
    exists (m1 ++ m2), s2. subst. rewrite append_assoc, all_chars_append, Hm1, Hm2, last_of_append.
    auto.
  - destruct Honly as [H1 H2].
    destruct (rmatch r1 k prev s) as [x|] eqn:Hfirst.
    + inversion Hmatch; subst. apply (IH1 H1 _ _ _ _ Hfirst).
    + apply (IH2 H2 _ _ _ _ Hmatch).
  - remember (String.length s) as n eqn:Hn. clear Hn.
    revert prev s rest Hmatch. induction n as [|n IHn]; intros prev s rest Hmatch.
    + exists "", s. auto.
    + rewrite iterate_S in Hmatch.
      destruct (rmatch r (iterate (rmatch r) k n) prev s) as [x|] eqn:Hbody.
      * inversion Hmatch; subst.
        destruct (IH Honly _ _ _ _ Hbody) as [m1 [s1 [Hs1 [Hm1 Hk1]]]].
        destruct (IHn _ _ _ Hk1) as [m2 [s2 [Hs2 [Hm2 Hk2]]]].
        exists (m1 ++ m2), s2. subst.
        rewrite append_assoc, all_chars_append, Hm1, Hm2, last_of_append. auto.
      * exists "", s. auto.
  - destruct (xorb (is_word_before prev) (is_word_at s)); [|discriminate]. exists "", s. auto.
  - destruct prev; [discriminate|]. exists "", s. auto.
  - exists "", s. destruct prev as [c|]; [destruct (is_line_terminator c); [|discriminate]|]; auto.
  - destruct s; [|discriminate]. exists "", "". auto.
  - destruct prev as [c|]; [|discriminate]. destruct (p c); [|discriminate]. exists "", s. auto.
Qed.

Lemma exec_consumes (q : ascii -> bool) (re : regex) (prev : option ascii) (s rest : string) :
  only q re -> exec re prev s = Some rest ->
  exists m, s = m ++ rest /\ all_chars q m = true.
Proof.
  intros Honly Hexec. unfold exec in Hexec.
  destruct (rmatch_consumes q re Honly _ _ _ _ Hexec) as [m [s' [Hs [Hm Hk]]]].
  inversion Hk; subst. exists m. auto.
Qed.

Lemma only_anything (r : regex) : only (fun _ => true) r.
Proof. induction r; cbn [only]; auto. Qed.

(** What is left after a match is a suffix of the input. *)
Lemma exec_suffix (re : regex) (prev : option ascii) (s rest : string) :
  exec re prev s = Some rest -> exists m, s = m ++ rest.
Proof.
  intros Hexec.
  destruct (exec_consumes _ re prev s rest (only_anything re) Hexec) as [m [Hs _]].
  exists m. exact Hs.
Qed.

(** ** The pieces of a split, for any pattern *)

Lemma concat_cons (x : string) (xs : list string) :
  String.concat "" (x :: xs) = x ++ String.concat "" xs.
Proof. destruct xs; simpl; [rewrite append_empty|]; reflexivity. Qed.

Lemma keep_append (p : ascii -> bool) (a b : string) :
  keep p (a ++ b) = keep p a ++ keep p b.
Proof.
  induction a as [|c a IH]; simpl; [reflexivity|]. rewrite IH.
  destruct (p c); reflexivity.
Qed.

Lemma keep_none (q : ascii -> bool) (m : string) :
  all_chars q m = true -> keep (fun c => negb (q c)) m = "".
Proof.
  induction m as [|c m IH]; simpl; [reflexivity|]. intros H.
  apply andb_true_iff in H. destruct H as [Hc Hm]. rewrite Hc. simpl. apply IH. exact Hm.
Qed.

Lemma keep_nothing (q : ascii -> bool) (s : string) :
  keep (fun c => negb (q c)) s = "" -> all_chars q s = true.
Proof.
  induction s as [|c s IH]; simpl; [reflexivity|].
  destruct (q c); simpl; [exact IH|discriminate].
Qed.

(** A split loses only code units that its pattern can consume. *)
Lemma split_from_keeps (q : ascii -> bool) (re : regex) :
  only q re ->
  forall (fuel : nat) (seg : string) (prev : option ascii) (s : string),
    keep (fun c => negb (q c)) (String.concat "" (split_from re fuel seg prev s))
    = keep (fun c => negb (q c)) (seg ++ s).
Proof.
  intros Honly. induction fuel as [|fuel IH]; intros seg prev s; [reflexivity|].
  cbn [split_from]. destruct s as [|c s]; [simpl; rewrite append_empty; reflexivity|].
  assert (Hadvance :
    keep (fun c => negb (q c))
      (String.concat "" (split_from re fuel (seg ++ str c) (Some c) s))
    = keep (fun c => negb (q c)) (seg ++ String c s)).
  { rewrite IH. unfold str. rewrite append_assoc. reflexivity. }
  destruct (exec re prev (String c s)) as [rest|] eqn:Hexec; [|exact Hadvance].
  destruct (exec_consumes q re prev _ rest Honly Hexec) as [m [Hs Hm]].
  assert (Hcut :
    keep (fun c => negb (q c))
      (String.concat ""
         (seg :: split_from re fuel "" (last_of prev (matched (String c s) rest)) rest))
    = keep (fun c => negb (q c)) (seg ++ String c s)).
  { rewrite concat_cons, keep_append, IH. cbn [append].
    rewrite Hs, !keep_append, (keep_none q m Hm). reflexivity. }
  destruct seg; destruct (matched (String c s) rest); auto.
Qed.

Lemma split_keeps (q : ascii -> bool) (re : regex) (s : string) :
  only q re ->
  keep (fun c => negb (q c)) (String.concat "" (split re s))
  = keep (fun c => negb (q c)) s.
Proof.
  intros Honly. unfold split. destruct s as [|c s].
  - destruct (exec re None ""); reflexivity.
  - apply (split_from_keeps q re Honly).
Qed.

(** The pieces are made of code units of the input. *)
Lemma split_from_all (p : ascii -> bool) (re : regex) :
  forall (fuel : nat) (seg : string) (prev : option ascii) (s : string),
    all_chars p seg = true -> all_chars p s = true ->
    forallb (all_chars p) (split_from re fuel seg prev s) = true.
Proof.
  induction fuel as [|fuel IH]; intros seg prev s Hseg Hs.
  - cbn [split_from forallb]. rewrite all_chars_append, Hseg, Hs. reflexivity.
  - cbn [split_from]. destruct s as [|c s]; [cbn [forallb]; rewrite Hseg; reflexivity|].
    assert (Hcs := Hs). cbn [all_chars] in Hs. apply andb_true_iff in Hs.
    destruct Hs as [Hc Hs].
    assert (Hadvance :
      forallb (all_chars p) (split_from re fuel (seg ++ str c) (Some c) s) = true).
    { apply IH; [|exact Hs]. rewrite all_chars_append, Hseg. cbn [str all_chars].
      rewrite Hc. reflexivity. }
    destruct (exec re prev (String c s)) as [rest|] eqn:Hexec; [|exact Hadvance].
    destruct (exec_suffix re prev _ rest Hexec) as [m Hm].
    assert (Hrest : all_chars p rest = true).
    { rewrite Hm, all_chars_append in Hcs. apply andb_true_iff in Hcs. apply Hcs. }
    assert (Hcut :
      forallb (all_chars p)
        (seg :: split_from re fuel "" (last_of prev (matched (String c s) rest)) rest) = true).
    { cbn [forallb]. rewrite Hseg. apply IH; [reflexivity|exact Hrest]. }
    destruct seg; destruct (matched (String c s) rest); auto.
Qed.

Lemma split_all (p : ascii -> bool) (re : regex) (s : string) :
  all_chars p s = true -> forallb (all_chars p) (split re s) = true.
Proof.
  intros Hs. unfold split. destruct s as [|c s].
  - destruct (exec re None ""); reflexivity.
  - apply split_from_all; [reflexivity|exact Hs].
Qed.

(** ** Blank texts *)

Lemma trimStart_blank (s : string) : blank s = true -> trimStart s = "".
Proof.
  unfold blank. induction s as [|c s IH]; [reflexivity|]. cbn [all_chars trimStart].
  intros H. apply andb_true_iff in H. destruct H as [Hc Hs]. rewrite Hc. apply IH. exact Hs.
Qed.

Lemma trim_blank (s : string) : blank s = true -> trim s = "".
Proof. intros H. unfold trim. rewrite (trimStart_blank s H). reflexivity. Qed.

Lemma trim_not_blank (s : string) : blank s = false -> trim s <> "".
Proof.
  unfold blank, trim. induction s as [|c s IH]; [discriminate|].
  cbn [all_chars trimStart]. destruct (is_space c) eqn:Hc; [exact IH|].
  intros _. rewrite (trimEnd_head c s Hc). discriminate.
Qed.

Lemma blank_concat (l : list string) :
  forallb blank l = true -> blank (String.concat "" l) = true.
Proof.
  induction l as [|x l IH]; [reflexivity|]. cbn [forallb]. intros H.
  apply andb_true_iff in H. destruct H as [Hx Hl].
  rewrite concat_cons. unfold blank in *. rewrite all_chars_append, Hx, (IH Hl). reflexivity.
Qed.

(** The pieces of a text that is not blank are not all blank, when the
    pattern consumes white space only. *)
Lemma split_not_blank (re : regex) (s : string) :
  only is_space re -> blank s = false ->
  existsb (fun piece => 0 <? JS.length (trim piece)) (split re s) = true.
Proof.
  intros Honly Hs.
  destruct (existsb (fun piece => 0 <? JS.length (trim piece)) (split re s)) eqn:Hex;
    [reflexivity|].
  assert (Hall : forallb blank (split re s) = true).
  { apply forallb_forall. intros piece Hin.
    destruct (blank piece) eqn:Hb; [reflexivity|].
    assert (Hfound : existsb (fun piece => 0 <? JS.length (trim piece)) (split re s) = true).
    { apply existsb_exists. exists piece. split; [exact Hin|].
      rewrite <- truthy_length. pose proof (trim_not_blank piece Hb) as Hne.
      destruct (trim piece); [congruence|reflexivity]. }
    congruence. }
  pose proof (blank_concat _ Hall) as Hblank.
  pose proof (split_keeps is_space re s Honly) as Hkeep.
  unfold blank in Hblank. rewrite (keep_none is_space _ Hblank) in Hkeep.
  symmetry in Hkeep. apply keep_nothing in Hkeep. unfold blank in Hs. congruence.
Qed.

Lemma count_filter_positive {A : Type} (f : A -> bool) (xs : list A) :
  existsb f xs = true -> 1 <= JS.count (filter f xs).
Proof.
  induction xs as [|x xs IH]; [discriminate|]. cbn [existsb filter].
  destruct (f x); [intros _; rewrite count_cons; pose proof (count_nonnegative (filter f xs)); lia|].
  exact IH.
Qed.

Lemma filter_none {A : Type} (f : A -> bool) (xs : list A) :
  forallb (fun x => negb (f x)) xs = true -> filter f xs = [].
Proof.
  induction xs as [|x xs IH]; [reflexivity|]. cbn [forallb filter]. intros H.
  apply andb_true_iff in H. destruct H as [Hx Hxs].
  destruct (f x); [discriminate|]. apply IH. exact Hxs.
Qed.

(** No piece of a blank text passes a filter on trimmed lengths. *)
Lemma split_blank (re : regex) (s : string) :
  blank s = true ->
  filter (fun piece => 0 <? JS.length (trim piece)) (split re s) = [].
Proof.
  intros Hs. apply filter_none.
  apply (forallb_weaken blank); [|apply split_all; exact Hs].
  intros piece Hb. rewrite (trim_blank piece Hb). reflexivity.
Qed.

(** ** The paragraph check on a blank text *)

Lemma only_paragraph_break : only is_space LowValueAnalyzer.paragraph_break.
Proof.
  unfold LowValueAnalyzer.paragraph_break. cbn [only Char LF str].
  assert (Hlf : forall c, char_eqb (ascii_of_N 10) c = true -> is_space c = true).
  { intros c Hc. unfold char_eqb in Hc. apply Ascii.eqb_eq in Hc. subst. reflexivity. }
  repeat split; auto.
Qed.

(** The decimal text of an integer does not begin with a letter. *)
Lemma of_Z_head (z : Z) (r : string) : of_Z z <> String "I" r.
Proof.
  unfold of_Z, NilZero.string_of_int, NilZero.string_of_uint.
  destruct (Z.to_int z) as [d|d]; destruct d; cbn [NilEmpty.string_of_uint]; discriminate.
Qed.

(** X12.  [checkParagraphs] reports an average of [Infinity] words exactly on
    the blank texts, the empty text among them: they have no paragraph,
    and the division by the number of paragraphs is not protected.  The
    verdict is then a warning with score 6. *)
Theorem paragraph_average_of_blank_text (text : string) :
  LowValueAnalyzer.checkParagraphs text
  = mkCheck "Paragraph Structure" warning 6
      "Paragraphs are too long (~Infinity words avg)."
      (Some "Break long paragraphs into shorter, scannable chunks.")
  <-> blank text = true.
Proof.
  unfold LowValueAnalyzer.checkParagraphs. cbv zeta. split.
  - intros Hcheck. destruct (blank text) eqn:Hblank; [reflexivity|]. exfalso.
    pose proof (count_filter_positive _ _
                  (split_not_blank _ text only_paragraph_break Hblank)) as Hparagraphs.
    revert Hcheck.
    set (paragraphs := JS.count (filter (fun p => 0 <? JS.length (trim p))
                                  (split LowValueAnalyzer.paragraph_break text))) in *.
    set (wordCount := JS.count (split whitespace text)).
    destruct ((paragraphs <=? 1) && (200 <? wordCount)); [discriminate|].
    unfold divide. destruct (paragraphs =? 0) eqn:Hzero; [apply Z.eqb_eq in Hzero; lia|].
    cbn [exceeds rounded].
    destruct (Qlt_bool 150 (of_int wordCount / of_int paragraphs)).
    + intros Hcheck. inversion Hcheck as [Hmessage].
      destruct (of_Z (Math_round (of_int wordCount / of_int paragraphs))) as [|a r] eqn:Hz;
        [discriminate|].
      cbn [append] in Hmessage. inversion Hmessage; subst a.
      apply (of_Z_head _ _ Hz).
    + destruct ((paragraphs <? 3) && (300 <? wordCount)); discriminate.
  - intros Hblank.
    rewrite (split_blank _ text Hblank), split_whitespace, (pieces_blank text Hblank).
    destruct text; reflexivity.
Qed.

(** ** Replacing where nothing matches *)

(** A replacement leaves a text in which its pattern does not match as it
    is. *)
Lemma replace_from_no_match (re : regex) (by_ : string) :
  forall (s : string) (fuel : nat) (prev : option ascii),
    test_from re prev s = false -> replace_from re by_ fuel prev s = s.
Proof.
  induction s as [|c s IH]; intros fuel prev Htest;
    rewrite test_from_unfold in Htest;
    destruct (exec re prev _) eqn:Hexec; try discriminate;
    destruct fuel as [|fuel]; try reflexivity;
    rewrite replace_from_S, Hexec; [reflexivity|].
  rewrite (IH fuel (Some c) Htest). reflexivity.
Qed.

Lemma replace_no_match (re : regex) (by_ s : string) :
  test re s = false -> replace re by_ s = s.
Proof. apply replace_from_no_match. Qed.

Lemma substitute_no_match (pattern : string -> regex) (table : list (string * string))
    (sentence : string) :
  (forall key, In key (keys table) -> test (pattern key) sentence = false) ->
  ContentHumanizer.substitute pattern table sentence = sentence.
Proof.
  unfold ContentHumanizer.substitute, keys.
  induction table as [|[key value] table IH]; intros Hnone; [reflexivity|].
  cbn [fold_left fst snd].
  rewrite (replace_no_match _ _ _ (Hnone key (or_introl eq_refl))).
  apply IH. intros key' Hin. apply Hnone. right. exact Hin.
Qed.

Lemma map_unchanged {A : Type} (f : A -> A) (xs : list A) :
  (forall x, In x xs -> f x = x) -> map f xs = xs.
Proof.
  induction xs as [|x xs IH]; intros H; [reflexivity|].
  cbn [map]. rewrite (H x (or_introl eq_refl)), IH; [reflexivity|].
  intros y Hy. apply H. right. exact Hy.
Qed.

(** X16.  A tone step leaves the sentences in which no key of its dictionary
    matches as they are: anywhere for the casual tone, as a whole word
    for the story and the professional tone. *)
Theorem tone_leaves_other_sentences (sentences : list string) :
  ((forall s key, In s sentences -> In key (keys ContentHumanizer.casualReplacements) ->
      test (ContentHumanizer.anywhere key) s = false) ->
   ContentHumanizer.applyCasualTone sentences = sentences)
  /\ ((forall s key, In s sentences -> In key (keys ContentHumanizer.storyReplacements) ->
         test (ContentHumanizer.whole_word key) s = false) ->
      ContentHumanizer.applyStoryTone sentences = sentences)
  /\ ((forall s key, In s sentences ->
         In key (keys ContentHumanizer.professionalReplacements) ->
         test (ContentHumanizer.whole_word key) s = false) ->
      ContentHumanizer.applyProfessionalTone sentences = sentences).
Proof.
  unfold ContentHumanizer.applyCasualTone, ContentHumanizer.applyStoryTone,
    ContentHumanizer.applyProfessionalTone.
  repeat split; intros Hnone; apply map_unchanged; intros s Hs;
    apply substitute_no_match; intros key Hkey; apply (Hnone s key Hs Hkey).
Qed.

Lemma tone_leaves_other_sentences_witness :
  ContentHumanizer.applyCasualTone ["The cat sat on the mat."; "It purred."]
  = ["The cat sat on the mat."; "It purred."]
  /\ ContentHumanizer.applyProfessionalTone ["The cat sat on the mat."; "It purred."]
     = ["The cat sat on the mat."; "It purred."].
Proof.
  destruct (tone_leaves_other_sentences ["The cat sat on the mat."; "It purred."])
    as [Hcasual [_ Hprofessional]].
  split.
  - apply Hcasual. intros s key Hs Hkey.
    assert (Hall : forallb (fun s => forallb (fun key => negb (test (ContentHumanizer.anywhere key) s))
                                       (keys ContentHumanizer.casualReplacements))
                     ["The cat sat on the mat."; "It purred."] = true)
      by (vm_compute; reflexivity).
    rewrite forallb_forall in Hall. specialize (Hall s Hs).
    rewrite forallb_forall in Hall. specialize (Hall key Hkey).
    apply negb_true_iff. exact Hall.
  - apply Hprofessional. intros s key Hs Hkey.
    assert (Hall : forallb (fun s => forallb (fun key => negb (test (ContentHumanizer.whole_word key) s))
                                       (keys ContentHumanizer.professionalReplacements))
                     ["The cat sat on the mat."; "It purred."] = true)
      by (vm_compute; reflexivity).
    rewrite forallb_forall in Hall. specialize (Hall s Hs).
    rewrite forallb_forall in Hall. specialize (Hall key Hkey).
    apply negb_true_iff. exact Hall.
Defined.

(** ** The rewriter on blank and on other texts *)

Lemma blank_append (a b : string) : blank (a ++ b) = blank a && blank b.
Proof. apply all_chars_append. Qed.

Lemma not_blank_prefix (a b : string) : blank a = false -> blank (a ++ b) = false.
Proof. intros H. rewrite blank_append, H. reflexivity. Qed.

Lemma not_blank_suffix (a b : string) : blank b = false -> blank (a ++ b) = false.
Proof. intros H. rewrite blank_append, H. apply andb_false_r. Qed.

(** A replacement by a text that is not blank leaves no text blank that
    was not. *)
Lemma replace_from_not_blank (re : regex) (by_ : string) :
  blank by_ = false ->
  forall (fuel : nat) (prev : option ascii) (s : string),
    blank s = false -> blank (replace_from re by_ fuel prev s) = false.
Proof.
  intros Hby. induction fuel as [|fuel IH]; intros prev s Hs; [exact Hs|].
  rewrite replace_from_S.
  assert (Hadvance :
    blank match s with
          | "" => ""
          | String c s' => String c (replace_from re by_ fuel (Some c) s')
          end = false).
  { destruct s as [|c s]; [discriminate|]. unfold blank in *. cbn [all_chars] in *.
    destruct (is_space c); [|reflexivity]. cbn [andb] in *. apply IH. exact Hs. }
  destruct (exec re prev s) as [rest|]; [|exact Hadvance].
  destruct (matched s rest); apply not_blank_prefix; exact Hby.
Qed.

Lemma replace_not_blank (re : regex) (by_ s : string) :
  blank by_ = false -> blank s = false -> blank (replace re by_ s) = false.
Proof. intros Hby Hs. apply replace_from_not_blank; assumption. Qed.

Lemma substitute_not_blank (pattern : string -> regex) (table : list (string * string))
    (sentence : string) :
  forallb (fun entry => negb (blank (snd entry))) table = true ->
  blank sentence = false ->
  blank (ContentHumanizer.substitute pattern table sentence) = false.
Proof.
  unfold ContentHumanizer.substitute. revert sentence.
  induction table as [|[key value] table IH]; intros sentence Htable Hs; [exact Hs|].
  cbn [forallb fst snd] in Htable. apply andb_true_iff in Htable.
  destruct Htable as [Hvalue Htable]. apply negb_true_iff in Hvalue.
  cbn [fold_left fst snd]. apply IH; [exact Htable|].
  apply replace_not_blank; assumption.
Qed.

Lemma rewrite_all_not_blank (steps : list (bool * string * string)) (text : string) :
  forallb (fun step => negb (blank (snd step))) steps = true ->
  blank text = false ->
  blank (ContentHumanizer.rewrite_all steps text) = false.
Proof.
  unfold ContentHumanizer.rewrite_all. revert text.
  induction steps as [|[[ci from] to] steps IH]; intros text Hsteps Ht; [exact Ht|].
  cbn [forallb snd] in Hsteps. apply andb_true_iff in Hsteps.
  destruct Hsteps as [Hto Hsteps]. apply negb_true_iff in Hto.
  cbn [fold_left]. apply IH; [exact Hsteps|].
  apply replace_not_blank; assumption.
Qed.

Lemma addHumanTouches_not_blank (text tone : string) :
  blank text = false -> blank (ContentHumanizer.addHumanTouches text tone) = false.
Proof.
  intros Ht. unfold ContentHumanizer.addHumanTouches. cbv zeta.
  assert (Hcontracted : blank (ContentHumanizer.rewrite_all ContentHumanizer.contractions text)
                        = false)
    by (apply rewrite_all_not_blank; [reflexivity|exact Ht]).
  destruct (String.eqb tone "casual" || String.eqb tone "story");
    destruct (String.eqb tone "professional");
    try assumption; apply rewrite_all_not_blank; try reflexivity; assumption.
Qed.

Lemma addHumanTouches_empty (tone : string) : ContentHumanizer.addHumanTouches "" tone = "".
Proof.
  unfold ContentHumanizer.addHumanTouches. cbv zeta.
  destruct (String.eqb tone "casual" || String.eqb tone "story");
    destruct (String.eqb tone "professional"); vm_compute; reflexivity.
Qed.

(** The stages that put a phrase before a sentence. *)
Lemma map_indexed_not_blank (f : string -> Z -> ContentHumanizer.Rand string) :
  (forall s index n, blank s = false -> blank (fst (f s index n)) = false) ->
  forall (xs : list string) (index : Z) (n : nat),
    forallb (fun s => negb (blank s)) xs = true ->
    forallb (fun s => negb (blank s)) (fst (ContentHumanizer.map_indexed f index xs n)) = true.
Proof.
  intros Hf. induction xs as [|x xs IH]; intros index n Hxs; [reflexivity|].
  cbn [forallb] in Hxs. apply andb_true_iff in Hxs. destruct Hxs as [Hx Hxs].
  apply negb_true_iff in Hx.
  cbn [ContentHumanizer.map_indexed]. unfold ContentHumanizer.bind, ContentHumanizer.ret.
  pose proof (Hf x index n Hx) as Hy.
  destruct (f x index n) as [y n'].
  pose proof (IH (index + 1) n' Hxs) as Hys.
  destruct (ContentHumanizer.map_indexed f (index + 1) xs n') as [ys n''].
  cbn [fst forallb] in *. rewrite Hy, Hys. reflexivity.
Qed.

Lemma map_indexed_length (f : string -> Z -> ContentHumanizer.Rand string) :
  forall (xs : list string) (index : Z) (n : nat),
    List.length (fst (ContentHumanizer.map_indexed f index xs n)) = List.length xs.
Proof.
  induction xs as [|x xs IH]; intros index n; [reflexivity|].
  cbn [ContentHumanizer.map_indexed]. unfold ContentHumanizer.bind, ContentHumanizer.ret.
  destruct (f x index n) as [y n'].
  pose proof (IH (index + 1) n') as Hys.
  destruct (ContentHumanizer.map_indexed f (index + 1) xs n') as [ys n''].
  cbn [fst List.length] in *. rewrite Hys. reflexivity.
Qed.

Lemma at_index_not_blank (xs : list string) (index : Z) :
  forallb (fun s => negb (blank s)) xs = true ->
  blank (ContentHumanizer.at_index xs index) = false.
Proof.
  intros Hxs. unfold ContentHumanizer.at_index.
  destruct (index <? 0); [reflexivity|].
  generalize (Z.to_nat index). intros n. revert n.
  induction xs as [|x xs IH]; intros n; [destruct n; reflexivity|].
  cbn [forallb] in Hxs. apply andb_true_iff in Hxs. destruct Hxs as [Hx Hxs].
  destruct n as [|n]; [apply negb_true_iff; exact Hx|]. apply (IH Hxs).
Qed.

Lemma transitions_not_blank (tone : string) :
  forallb (fun s => negb (blank s)) (ContentHumanizer.transitions_for tone) = true.
Proof.
  unfold ContentHumanizer.transitions_for.
  destruct (String.eqb tone "casual"); [reflexivity|].
  destruct (String.eqb tone "story"); [reflexivity|].
  destruct (String.eqb tone "professional"); reflexivity.
Qed.

Section NotBlank.
Variable random : nat -> Q.

Lemma vary_not_blank (s : string) (index : Z) (n : nat) :
  blank s = false -> blank (fst (ContentHumanizer.vary random s index n)) = false.
Proof.
  intros Hs. unfold ContentHumanizer.vary, ContentHumanizer.bind, ContentHumanizer.ret,
    ContentHumanizer.Math_random.
  destruct (negb (index mod 3 =? 0)); [exact Hs|].
  destruct (Qlt_bool (7 # 10) (random n) && negb (test ContentHumanizer.starts_with_intro s));
    [|exact Hs].
  cbn [fst]. apply not_blank_prefix. apply at_index_not_blank. reflexivity.
Qed.

Lemma add_transition_not_blank (tone s : string) (index : Z) (n : nat) :
  blank s = false ->
  blank (fst (ContentHumanizer.add_transition random
                (ContentHumanizer.transitions_for tone) s index n)) = false.
Proof.
  intros Hs. unfold ContentHumanizer.add_transition, ContentHumanizer.bind,
    ContentHumanizer.ret, ContentHumanizer.Math_random.
  destruct ((0 <? index) && (index mod 4 =? 0)); [|exact Hs].
  destruct (Qlt_bool (5 # 10) (random n)); [|exact Hs].
  destruct (negb (test ContentHumanizer.starts_with_transition s)); [|exact Hs].
  cbn [fst]. apply not_blank_prefix. apply at_index_not_blank. apply transitions_not_blank.
Qed.

End NotBlank.

(** The sentences of a text: none is blank, and a text that is not blank
    has one. *)
Lemma only_sentence_gap : only is_space ContentHumanizer.sentence_gap.
Proof.
  unfold ContentHumanizer.sentence_gap, whitespace, Plus. cbn [only]. auto.
Qed.

Lemma sentences_not_blank (text : string) :
  forallb (fun s => negb (blank s)) (ContentHumanizer.splitIntoSentences text) = true.
Proof.
  unfold ContentHumanizer.splitIntoSentences. cbv zeta.
  apply forallb_forall. intros s Hs. apply filter_In in Hs. destruct Hs as [_ Hs].
  destruct (blank s) eqn:Hb; [|reflexivity].
  rewrite (trim_blank s Hb) in Hs. discriminate.
Qed.

Lemma sentences_of_text (text : string) :
  blank text = false -> ContentHumanizer.splitIntoSentences text <> [].
Proof.
  intros Ht. unfold ContentHumanizer.splitIntoSentences. cbv zeta.
  pose proof (count_filter_positive _ _
                (split_not_blank _ text only_sentence_gap Ht)) as Hcount.
  intros Hnil. rewrite Hnil in Hcount. unfold JS.count in Hcount. simpl in Hcount. lia.
Qed.

Lemma join_not_blank (xs : list string) :
  xs <> [] -> forallb (fun s => negb (blank s)) xs = true -> blank (join " " xs) = false.
Proof.
  destruct xs as [|x xs]; [congruence|]. intros _ H.
  cbn [forallb] in H. apply andb_true_iff in H. destruct H as [Hx _].
  apply negb_true_iff in Hx. unfold join. cbn [String.concat].
  destruct xs; [exact Hx|]. apply not_blank_prefix. exact Hx.
Qed.

(** The words kept by [removeRepetition] begin with the first word of
    the text. *)
Lemma keep_words_first (ws : list string) :
  forallb clean ws = true -> existsb truthy ws = true ->
  blank (join " " (ContentHumanizer.keep_words "" ws)) = false.
Proof.
  induction ws as [|w ws IH]; intros Hclean Hsome; [discriminate|].
  cbn [forallb existsb] in *. apply andb_true_iff in Hclean. destruct Hclean as [Hw Hws].
  destruct w as [|c w].
  - cbn [ContentHumanizer.keep_words toLowerCase String.eqb]. cbn. apply IH; assumption.
  - cbn [ContentHumanizer.keep_words toLowerCase String.eqb andb].
    unfold clean in Hw. cbn [all_chars] in Hw. apply andb_true_iff in Hw.
    destruct Hw as [Hc _]. apply negb_true_iff in Hc.
    unfold join. cbn [String.concat].
    assert (Hcw : blank (String c w) = false) by (unfold blank; cbn [all_chars]; rewrite Hc; reflexivity).
    destruct (ContentHumanizer.keep_words (String c w) ws); [exact Hcw|].
    apply not_blank_prefix. exact Hcw.
Qed.

Lemma loose_clean (ws : list string) : loose ws = true -> forallb clean ws = true.
Proof.
  induction ws as [|w ws IH]; [reflexivity|]. intros H.
  destruct ws as [|w' ws]; [cbn [loose forallb] in *; rewrite H; reflexivity|].
  cbn [loose] in H. apply andb_true_iff in H. destruct H as [Hw Hws].
  unfold solid in Hw. apply andb_true_iff in Hw. destruct Hw as [_ Hw].
  cbn [forallb] in *. rewrite Hw. apply IH. exact Hws.
Qed.

Lemma pieces_clean (s : string) : forallb clean (pieces false s) = true.
Proof.
  destruct (pieces_shape s) as [_ Hshape].
  destruct (pieces false s) as [|x xs]; [destruct Hshape|].
  apply andb_true_iff in Hshape. destruct Hshape as [Hx Hxs].
  cbn [forallb]. rewrite Hx. apply loose_clean. exact Hxs.
Qed.

Lemma only_whitespace : only is_space whitespace.
Proof. unfold whitespace, Plus. cbn [only]. auto. Qed.

Lemma removeRepetition_not_blank (text : string) :
  blank text = false -> blank (ContentHumanizer.removeRepetition text) = false.
Proof.
  intros Ht. unfold ContentHumanizer.removeRepetition. cbv zeta.
  apply keep_words_first.
  - rewrite split_whitespace. apply pieces_clean.
  - pose proof (split_not_blank _ text only_whitespace Ht) as Hsome.
    apply existsb_exists in Hsome. destruct Hsome as [piece [Hin Hpiece]].
    apply existsb_exists. exists piece. split; [exact Hin|].
    destruct piece; [discriminate|reflexivity].
Qed.

(** A text that is not blank comes out of the rewriter as a text that is
    not blank. *)
Lemma humanizeText_not_blank (random : nat -> Q) (text tone : string) :
  blank text = false ->
  blank (ContentHumanizer.humanizeText random text tone) = false.
Proof.
  intros Ht.
  unfold ContentHumanizer.humanizeText, ContentHumanizer.humanize,
    ContentHumanizer.varySentenceStructure, ContentHumanizer.addNaturalTransitions.
  cbv zeta.
  pose proof (sentences_of_text text Ht) as Hsome.
  pose proof (sentences_not_blank text) as Hsentences.
  set (sentences := ContentHumanizer.splitIntoSentences text) in *.
  set (toned :=
         if String.eqb tone "casual" then ContentHumanizer.applyCasualTone sentences
         else if String.eqb tone "story" then ContentHumanizer.applyStoryTone sentences
         else if String.eqb tone "professional"
              then ContentHumanizer.applyProfessionalTone sentences
              else sentences) in *.
  assert (Hmap : forall pattern table,
             forallb (fun entry => negb (blank (snd entry))) table = true ->
             forallb (fun s => negb (blank s))
               (map (ContentHumanizer.substitute pattern table) sentences) = true).
  { intros pattern table Htable. apply forallb_forall. intros s Hs.
    apply in_map_iff in Hs. destruct Hs as [s0 [<- Hs0]].
    rewrite forallb_forall in Hsentences. specialize (Hsentences s0 Hs0).
    apply negb_true_iff in Hsentences. apply negb_true_iff.
    apply substitute_not_blank; assumption. }
  assert (Htoned : forallb (fun s => negb (blank s)) toned = true
                   /\ List.length toned = List.length sentences).
  { unfold toned, ContentHumanizer.applyCasualTone, ContentHumanizer.applyStoryTone,
      ContentHumanizer.applyProfessionalTone.
    destruct (String.eqb tone "casual"); [split; [apply Hmap; reflexivity|apply length_map]|].
    destruct (String.eqb tone "story"); [split; [apply Hmap; reflexivity|apply length_map]|].
    destruct (String.eqb tone "professional");
      [split; [apply Hmap; reflexivity|apply length_map]|].
    split; [exact Hsentences|reflexivity]. }
  destruct Htoned as [Htoned Hlength].
  unfold ContentHumanizer.bind, ContentHumanizer.ret.
  pose proof (map_indexed_not_blank (ContentHumanizer.vary random)
                (vary_not_blank random) toned 0 0%nat Htoned) as Hvaried.
  pose proof (map_indexed_length (ContentHumanizer.vary random) toned 0 0%nat) as Hvl.
  destruct (ContentHumanizer.map_indexed (ContentHumanizer.vary random) 0 toned 0%nat)
    as [varied n].
  cbn [fst] in Hvaried, Hvl.
  pose proof (map_indexed_not_blank
                (ContentHumanizer.add_transition random (ContentHumanizer.transitions_for tone))
                (add_transition_not_blank random tone) varied 0 n Hvaried) as Hlinked.
  pose proof (map_indexed_length
                (ContentHumanizer.add_transition random (ContentHumanizer.transitions_for tone))
                varied 0 n) as Hll.
  destruct (ContentHumanizer.map_indexed
              (ContentHumanizer.add_transition random (ContentHumanizer.transitions_for tone))
              0 varied n) as [linked n'].
  cbn [fst] in *.
  assert (Hne : linked <> []).
  { intros Hnil. rewrite Hnil in Hll. cbn [List.length] in Hll.
    destruct sentences; [congruence|]. cbn [List.length] in *. lia. }
  apply addHumanTouches_not_blank, removeRepetition_not_blank, join_not_blank;
    assumption.
Qed.

(** X15.  [humanizeText] returns the empty text for the blank texts and for no
    other, whatever the tone and the random numbers. *)
Theorem humanized_text_is_empty_for_blank_text
    (random : nat -> Q) (text tone : string) :
  ContentHumanizer.humanizeText random text tone = "" <-> blank text = true.
Proof.
  split.
  - intros Hempty. destruct (blank text) eqn:Ht; [reflexivity|]. exfalso.
    pose proof (humanizeText_not_blank random text tone Ht) as Hout.
    rewrite Hempty in Hout. discriminate.
  - intros Ht.
    unfold ContentHumanizer.humanizeText, ContentHumanizer.humanize,
      ContentHumanizer.varySentenceStructure, ContentHumanizer.addNaturalTransitions.
    cbv zeta.
    assert (Hnone : ContentHumanizer.splitIntoSentences text = []).
    { unfold ContentHumanizer.splitIntoSentences. cbv zeta. apply split_blank. exact Ht. }
    rewrite Hnone.
    destruct (String.eqb tone "casual"); [apply addHumanTouches_empty|].
    destruct (String.eqb tone "story"); [apply addHumanTouches_empty|].
    destruct (String.eqb tone "professional"); apply addHumanTouches_empty.
Qed.

(** ** Words joined and split again *)

Lemma pieces_word (w r : string) :
  clean w = true -> pieces false (w ++ r) = graft w (pieces false r).
Proof.
  unfold clean. induction w as [|c w IH]; intros Hw.
  - cbn [append graft].
    destruct (pieces false r) eqn:Hp; [destruct (pieces_not_nil _ _ Hp)|reflexivity].
  - cbn [all_chars] in Hw. apply andb_true_iff in Hw. destruct Hw as [Hc Hw].
    apply negb_true_iff in Hc. cbn [append pieces]. rewrite Hc, (IH Hw).
    destruct (pieces false r) eqn:Hp; [destruct (pieces_not_nil _ _ Hp)|reflexivity].
Qed.

Lemma clean_stops (w r : string) :
  clean w = true -> stops is_space r = true -> stops is_space (w ++ r) = true.
Proof.
  unfold clean. destruct w as [|c w]; [auto|]. cbn [all_chars append stops].
  intros H _. apply andb_true_iff in H. apply H.
Qed.

Lemma solid_stops (w r : string) :
  solid w = true -> stops is_space (w ++ r) = true.
Proof.
  unfold solid, clean. destruct w as [|c w]; [discriminate|].
  cbn [all_chars append stops truthy String.eqb negb andb].
  intros H. apply andb_true_iff in H. apply H.
Qed.

Lemma solid_loose (w : string) (ws : list string) :
  solid w = true -> loose ws = true -> loose (w :: ws) = true.
Proof.
  intros Hw Hws. cbn [loose]. destruct ws; [|rewrite Hw, Hws; reflexivity].
  unfold solid in Hw. apply andb_true_iff in Hw. apply Hw.
Qed.

Lemma loose_tail (w : string) (ws : list string) :
  loose (w :: ws) = true -> loose ws = true.
Proof.
  destruct ws; [reflexivity|]. cbn [loose]. intros H. apply andb_true_iff in H. apply H.
Qed.

Lemma loose_head (w : string) (ws : list string) :
  loose (w :: ws) = true -> clean w = true.
Proof.
  destruct ws; [auto|]. cbn [loose]. unfold solid. intros H.
  apply andb_true_iff in H. destruct H as [H _]. apply andb_true_iff in H. apply H.
Qed.

(** Words without white space, joined by single spaces and split again,
    are the same words. *)
Lemma pieces_join (ws : list string) :
  loose ws = true -> ws <> [] ->
  stops is_space (join " " ws) = true /\ pieces false (join " " ws) = ws.
Proof.
  unfold join. induction ws as [|w ws IH]; intros Hloose Hne; [congruence|].
  destruct ws as [|w' ws].
  - cbn [loose String.concat] in *. split.
    + rewrite <- (append_empty w). apply clean_stops; [exact Hloose|reflexivity].
    + rewrite <- (append_empty w) at 1. rewrite (pieces_word w "" Hloose).
      cbn [pieces graft]. rewrite append_empty. reflexivity.
  - assert (Hw : clean w = true) by (apply (loose_head _ _ Hloose)).
    destruct (IH (loose_tail _ _ Hloose)) as [Hstops Hpieces]; [discriminate|].
    change (String.concat " " (w :: w' :: ws))
      with (w ++ String " " (String.concat " " (w' :: ws))).
    split.
    { apply solid_stops. cbn [loose] in Hloose. apply andb_true_iff in Hloose. apply Hloose. }
    rewrite (pieces_word _ _ Hw). cbn [pieces].
    change (is_space " ") with true. cbv iota.
    rewrite <- (pieces_after_gap "" _ eq_refl Hstops) in Hpieces. cbn [append] in Hpieces.
    rewrite Hpieces. cbn [graft]. rewrite append_empty. reflexivity.
Qed.

(** ** The words that [removeRepetition] keeps *)

Lemma toLowerCase_empty (w : string) : toLowerCase w = "" -> w = "".
Proof. destruct w; [reflexivity|discriminate]. Qed.

Lemma keep_words_loose (ws : list string) :
  loose ws = true -> forall lastWord, loose (ContentHumanizer.keep_words lastWord ws) = true.
Proof.
  induction ws as [|w ws IH]; intros Hloose lastWord; [reflexivity|].
  cbn [ContentHumanizer.keep_words].
  destruct (String.eqb (toLowerCase w) (toLowerCase lastWord)
            && negb (string_mem (toLowerCase w) ContentHumanizer.commonWords)).
  - apply IH. apply (loose_tail _ _ Hloose).
  - pose proof (IH (loose_tail _ _ Hloose) w) as Hkept.
    destruct ws as [|w' ws]; [exact Hloose|].
    cbn [loose] in Hloose. apply andb_true_iff in Hloose.
    apply solid_loose; [apply Hloose|exact Hkept].
Qed.

Lemma keep_words_empty (ws : list string) :
  ContentHumanizer.keep_words "" ("" :: ws) = ContentHumanizer.keep_words "" ws.
Proof. reflexivity. Qed.

Lemma keep_words_start (c : ascii) (w : string) (ws : list string) :
  ContentHumanizer.keep_words "" (String c w :: ws)
  = String c w :: ContentHumanizer.keep_words (String c w) ws.
Proof. reflexivity. Qed.

Lemma keep_words_tidy (x : string) (xs : list string) :
  clean x = true -> loose xs = true ->
  tidy (ContentHumanizer.keep_words "" (x :: xs)) = true.
Proof.
  intros Hx Hxs. revert x Hx. induction xs as [|y ys IH]; intros x Hx.
  - destruct x as [|c x]; [reflexivity|].
    rewrite keep_words_start. cbn [ContentHumanizer.keep_words tidy loose].
    unfold solid. rewrite Hx. reflexivity.
  - destruct x as [|c x].
    + rewrite keep_words_empty.
      apply IH; [apply (loose_tail _ _ Hxs)|apply (loose_head _ _ Hxs)].
    + rewrite keep_words_start. cbn [tidy].
      unfold solid at 1. rewrite Hx. cbn [truthy String.eqb negb andb].
      apply keep_words_loose. exact Hxs.
Qed.

Lemma tidy_loose (ws : list string) : tidy ws = true -> loose ws = true.
Proof.
  destruct ws as [|w ws]; [reflexivity|]. cbn [tidy]. intros H.
  apply andb_true_iff in H. destruct H as [Hw Hws]. apply solid_loose; assumption.
Qed.

(** The words of the text that [removeRepetition] returns are the words
    it kept. *)
Lemma removeRepetition_words (text : string) :
  ContentHumanizer.keep_words "" (split whitespace text) <> [] ->
  split whitespace (ContentHumanizer.removeRepetition text)
  = ContentHumanizer.keep_words "" (split whitespace text).
Proof.
  intros Hne. unfold ContentHumanizer.removeRepetition. cbv zeta.
  rewrite (split_whitespace (join _ _)).
  apply pieces_join; [|exact Hne].
  apply tidy_loose. rewrite split_whitespace.
  destruct (pieces_shape text) as [_ Hshape].
  destruct (pieces false text) as [|x xs]; [destruct Hshape|].
  apply andb_true_iff in Hshape. destruct Hshape as [Hx Hxs].
  apply keep_words_tidy; assumption.
Qed.

Lemma keep_words_idempotent (ws : list string) :
  forall lastWord,
    ContentHumanizer.keep_words lastWord (ContentHumanizer.keep_words lastWord ws)
    = ContentHumanizer.keep_words lastWord ws.
Proof.
  induction ws as [|w ws IH]; intros lastWord; [reflexivity|].
  cbn [ContentHumanizer.keep_words].
  destruct (String.eqb (toLowerCase w) (toLowerCase lastWord)
            && negb (string_mem (toLowerCase w) ContentHumanizer.commonWords)) eqn:Htest.
  - apply IH.
  - cbn [ContentHumanizer.keep_words]. rewrite Htest, IH. reflexivity.
Qed.

(** X20.  [removeRepetition] is idempotent: applied to its own result, it
    changes nothing. *)
Theorem removeRepetition_idempotent (text : string) :
  ContentHumanizer.removeRepetition (ContentHumanizer.removeRepetition text)
  = ContentHumanizer.removeRepetition text.
Proof.
  destruct (ContentHumanizer.keep_words "" (split whitespace text)) as [|w ws] eqn:Hkept.
  - assert (Hout : ContentHumanizer.removeRepetition text = "").
    { unfold ContentHumanizer.removeRepetition. cbv zeta. rewrite Hkept. reflexivity. }
    rewrite !Hout. reflexivity.
  - unfold ContentHumanizer.removeRepetition at 1. cbv zeta.
    rewrite removeRepetition_words by (rewrite Hkept; discriminate).
    rewrite keep_words_idempotent. reflexivity.
Qed.

Lemma keep_words_neighbours (ws : list string) :
  forall lastWord,
    neighbours may_follow (lastWord :: ContentHumanizer.keep_words lastWord ws).
Proof.
  induction ws as [|w ws IH]; intros lastWord; [exact I|].
  cbn [ContentHumanizer.keep_words].
  destruct (String.eqb (toLowerCase w) (toLowerCase lastWord)
            && negb (string_mem (toLowerCase w) ContentHumanizer.commonWords)) eqn:Htest.
  - apply IH.
  - cbn [neighbours]. split; [|apply IH].
    unfold may_follow. intros Heq. rewrite Heq in Htest. cbn [andb] in Htest.
    apply negb_false_iff. exact Htest.
Qed.

Lemma neighbours_tail (r : string -> string -> Prop) (w : string) (ws : list string) :
  neighbours r (w :: ws) -> neighbours r ws.
Proof. destruct ws; [auto|]. cbn [neighbours]. intros [_ H]. exact H. Qed.

(** X18.  In the text that [removeRepetition] returns no word follows a word
    equal to it up to letter case, the eleven common words apart. *)
Theorem removeRepetition_leaves_no_repeat (text : string) :
  neighbours may_follow (split whitespace (ContentHumanizer.removeRepetition text)).
Proof.
  destruct (ContentHumanizer.keep_words "" (split whitespace text)) as [|w ws] eqn:Hkept.
  - assert (Hout : ContentHumanizer.removeRepetition text = "").
    { unfold ContentHumanizer.removeRepetition. cbv zeta. rewrite Hkept. reflexivity. }
    rewrite Hout. exact I.
  - rewrite removeRepetition_words by (rewrite Hkept; discriminate).
    apply (neighbours_tail may_follow "").
    apply keep_words_neighbours.
Qed.

(** X19.  The text that [removeRepetition] returns does not begin with white
    space and holds no white space but single spaces, each one after a
    word (one may be left at the end): split at white space and joined by
    single spaces, it is itself.  Line breaks and runs of spaces of the
    input are lost. *)
Theorem removeRepetition_normalizes_white_space (text : string) :
  let result := ContentHumanizer.removeRepetition text in
  stops is_space result = true
  /\ join " " (split whitespace result) = result.
Proof.
  cbv zeta.
  destruct (ContentHumanizer.keep_words "" (split whitespace text)) as [|w ws] eqn:Hkept.
  - assert (Hout : ContentHumanizer.removeRepetition text = "").
    { unfold ContentHumanizer.removeRepetition. cbv zeta. rewrite Hkept. reflexivity. }
    rewrite Hout. split; reflexivity.
  - rewrite removeRepetition_words by (rewrite Hkept; discriminate).
    split; [|reflexivity].
    unfold ContentHumanizer.removeRepetition. cbv zeta.
    apply pieces_join; [|rewrite Hkept; discriminate].
    apply tidy_loose. rewrite split_whitespace.
    destruct (pieces_shape text) as [_ Hshape].
    destruct (pieces false text) as [|x xs]; [destruct Hshape|].
    apply andb_true_iff in Hshape. destruct Hshape as [Hx Hxs].
    apply keep_words_tidy; assumption.
Qed.

(** ** The random stages *)

Lemma floor_of_share (r : Q) (n : Z) :
  (0 <= r)%Q -> (r < 1)%Q -> 0 < n -> 0 <= Math_floor (r * of_int n) < n.
Proof.
  intros Hlo Hhi Hn. unfold Math_floor, of_int.
  assert (Hn' : (0 < inject_Z n)%Q).
  { change (inject_Z 0 < inject_Z n)%Q. rewrite <- Zlt_Qlt. exact Hn. }
  split.
  - change 0 with (Qfloor 0). apply Qfloor_resp_le.
    apply Qmult_le_0_compat; [exact Hlo|apply Qlt_le_weak; exact Hn'].
  - rewrite Zlt_Qlt. apply Qle_lt_trans with (r * inject_Z n)%Q; [apply Qfloor_le|].
    rewrite <- (Qmult_1_l (inject_Z n)) at 2.
    apply Qmult_lt_compat_r; assumption.
Qed.

(** An index drawn as [Math.floor(Math.random() * xs.length)] is inside
    the array. *)
Lemma at_index_inside (xs : list string) (r : Q) :
  xs <> [] -> (0 <= r)%Q -> (r < 1)%Q ->
  In (ContentHumanizer.at_index xs (Math_floor (r * of_int (JS.count xs)))) xs.
Proof.
  intros Hne Hlo Hhi.
  assert (Hcount : 0 < JS.count xs).
  { unfold JS.count. destruct xs; [congruence|]. cbn [List.length]. lia. }
  pose proof (floor_of_share r (JS.count xs) Hlo Hhi Hcount) as [Hge Hlt].
  unfold ContentHumanizer.at_index.
  set (index := Math_floor (r * of_int (JS.count xs))) in *.
  destruct (index <? 0) eqn:Hneg; [apply Z.ltb_lt in Hneg; lia|].
  apply nth_In. unfold JS.count in Hlt. lia.
Qed.

Lemma transitions_not_nil (tone : string) : ContentHumanizer.transitions_for tone <> [].
Proof.
  unfold ContentHumanizer.transitions_for.
  destruct (String.eqb tone "casual"); [discriminate|].
  destruct (String.eqb tone "story"); [discriminate|].
  destruct (String.eqb tone "professional"); discriminate.
Qed.

Lemma map_indexed_placed (changes : Z -> bool) (prefixes : list string)
    (f : string -> Z -> ContentHumanizer.Rand string) :
  (forall s index n, prefixed changes prefixes index s (fst (f s index n))) ->
  forall (xs : list string) (index : Z) (n : nat),
    placed changes prefixes index xs (fst (ContentHumanizer.map_indexed f index xs n)).
Proof.
  intros Hf. induction xs as [|x xs IH]; intros index n; [exact I|].
  cbn [ContentHumanizer.map_indexed]. unfold ContentHumanizer.bind, ContentHumanizer.ret.
  pose proof (Hf x index n) as Hy.
  destruct (f x index n) as [y n'].
  pose proof (IH (index + 1) n') as Hys.
  destruct (ContentHumanizer.map_indexed f (index + 1) xs n') as [ys n''].
  cbn [fst placed] in *. split; assumption.
Qed.

Section Placed.
Variable random : nat -> Q.
Hypothesis random_range : forall n, (0 <= random n)%Q /\ (random n < 1)%Q.

Lemma vary_prefixed (s : string) (index : Z) (n : nat) :
  prefixed (fun index => index mod 3 =? 0) ContentHumanizer.intros index s
    (fst (ContentHumanizer.vary random s index n)).
Proof.
  unfold ContentHumanizer.vary, ContentHumanizer.bind, ContentHumanizer.ret,
    ContentHumanizer.Math_random, prefixed.
  destruct (index mod 3 =? 0) eqn:Hindex; cbn [negb]; [|left; reflexivity].
  destruct (Qlt_bool (7 # 10) (random n) && negb (test ContentHumanizer.starts_with_intro s));
    [|left; reflexivity].
  right. split; [reflexivity|]. cbn [fst]. eexists. split; [|reflexivity].
  destruct (random_range (S n)) as [Hlo Hhi].
  apply at_index_inside; [discriminate|exact Hlo|exact Hhi].
Qed.

Lemma add_transition_prefixed (tone s : string) (index : Z) (n : nat) :
  prefixed (fun index => (0 <? index) && (index mod 4 =? 0))
    (ContentHumanizer.transitions_for tone) index s
    (fst (ContentHumanizer.add_transition random
            (ContentHumanizer.transitions_for tone) s index n)).
Proof.
  unfold ContentHumanizer.add_transition, ContentHumanizer.bind, ContentHumanizer.ret,
    ContentHumanizer.Math_random, prefixed.
  destruct ((0 <? index) && (index mod 4 =? 0)) eqn:Hindex; [|left; reflexivity].
  destruct (Qlt_bool (5 # 10) (random n)); [|left; reflexivity].
  destruct (negb (test ContentHumanizer.starts_with_transition s)); [|left; reflexivity].
  right. split; [reflexivity|]. cbn [fst]. eexists. split; [|reflexivity].
  destruct (random_range (S n)) as [Hlo Hhi].
  apply at_index_inside; [apply transitions_not_nil|exact Hlo|exact Hhi].
Qed.

End Placed.

(** X17.  With [Math.random()] in the range from 0 (inclusive) to 1
    (exclusive), [varySentenceStructure] and [addNaturalTransitions]
    return the sentences they are given, as many and in the same places;
    a sentence is changed only at an index that is a multiple of 3, or a
    positive multiple of 4, and then it is the sentence without its
    capital after one of the five phrases of the stage: the index drawn
    for the phrase is never outside the array. *)
Theorem random_stages_keep_the_sentences
    (random : nat -> Q) (sentences : list string) (tone : string) (calls : nat) :
  (forall n, (0 <= random n)%Q /\ (random n < 1)%Q) ->
  placed (fun index => index mod 3 =? 0) ContentHumanizer.intros 0 sentences
    (fst (ContentHumanizer.varySentenceStructure random sentences calls))
  /\ placed (fun index => (0 <? index) && (index mod 4 =? 0))
       (ContentHumanizer.transitions_for tone) 0 sentences
       (fst (ContentHumanizer.addNaturalTransitions random sentences tone calls)).
Proof.
  intros Hrange. split.
  - apply map_indexed_placed. apply vary_prefixed. exact Hrange.
  - apply map_indexed_placed. intros s index n. apply add_transition_prefixed. exact Hrange.
Qed.

Lemma random_stages_keep_the_sentences_witness :
  fst (ContentHumanizer.varySentenceStructure (fun _ => 9 # 10)
         ["Cats purr."; "Dogs bark."] 0%nat)
  = ["Looking at this closely, cats purr."; "Dogs bark."]
  /\ placed (fun index => index mod 3 =? 0) ContentHumanizer.intros 0
       ["Cats purr."; "Dogs bark."]
       (fst (ContentHumanizer.varySentenceStructure (fun _ => 9 # 10)
               ["Cats purr."; "Dogs bark."] 0%nat)).
Proof.
  split; [vm_compute; reflexivity|].
  apply (random_stages_keep_the_sentences (fun _ => 9 # 10)
           ["Cats purr."; "Dogs bark."] "casual" 0%nat).
  intros n. split; [discriminate|reflexivity].
Defined.

(** ** Rounded percentages *)

(** [Math.round(a / b * 100)] in integers. *)
Lemma round_percent (a b : Z) :
  0 < b -> Math_round ((of_int a / of_int b) * 100) = (200 * a + b) / (2 * b).
Proof.
  intros Hb. destruct b as [|p|p]; try lia.
  unfold Math_round, of_int, Qdiv, Qmult, Qplus, Qinv, Qfloor, inject_Z.
  cbn [Qnum Qden].
  f_equal; lia.
Qed.

Lemma split_count_positive (text : string) : 1 <= JS.count (split whitespace text).
Proof.
  rewrite split_whitespace.
  destruct (pieces false text) eqn:Hp; [destruct (pieces_not_nil _ _ Hp)|].
  rewrite count_cons. pose proof (count_nonnegative l). lia.
Qed.

(** X21.  [updateStats] never divides by zero: [text.split(/\s+/)] has at
    least one piece, so both word counts are at least 1, the empty text
    counting as one word.  The change shown is a whole percentage, not
    negative; it is 0 exactly when the difference of the word counts is
    less than half a percent of the original count. *)
Theorem change_percent_is_defined (original humanized : string) :
  let stats := Handlers.updateStats original humanized in
  1 <= Handlers.originalWords stats
  /\ 1 <= Handlers.humanizedWords stats
  /\ 0 <= Handlers.changePercent stats
  /\ (Handlers.changePercent stats = 0
      <-> 200 * Z.abs (Handlers.humanizedWords stats - Handlers.originalWords stats)
          < Handlers.originalWords stats).
Proof.
  cbv zeta. unfold Handlers.updateStats. cbv zeta.
  cbn [Handlers.originalWords Handlers.humanizedWords Handlers.changePercent].
  pose proof (split_count_positive original) as Ho.
  pose proof (split_count_positive humanized) as Hh.
  set (o := JS.count (split whitespace original)) in *.
  set (h := JS.count (split whitespace humanized)) in *.
  rewrite round_percent by lia.
  split; [exact Ho|]. split; [exact Hh|].
  split; [apply Z.div_pos; lia|].
  split.
  - intros Hzero. apply Z.div_small_iff in Hzero; lia.
  - intros Hsmall. apply Z.div_small. lia.
Qed.

(** ** The frequency table of the repetition check *)

Lemma tally_frequency (wordFreq : list (string * Z)) (x w : string) :
  frequency w (LowValueAnalyzer.tally wordFreq x)
  = frequency w wordFreq + (if String.eqb x w then 1 else 0).
Proof.
  induction wordFreq as [|[y n] wordFreq IH]; cbn [LowValueAnalyzer.tally frequency].
  - destruct (String.eqb x w); reflexivity.
  - destruct (String.eqb_spec y x) as [->|Hyx]; cbn [frequency].
    + destruct (String.eqb x w); lia.
    + destruct (String.eqb_spec y w) as [->|Hyw].
      * destruct (String.eqb_spec x w); [congruence|lia].
      * exact IH.
Qed.

Lemma tally_keys (wordFreq : list (string * Z)) (x w : string) :
  In w (map fst (LowValueAnalyzer.tally wordFreq x)) <-> w = x \/ In w (map fst wordFreq).
Proof.
  induction wordFreq as [|[y n] wordFreq IH]; cbn [LowValueAnalyzer.tally map fst In].
  - intuition.
  - destruct (String.eqb_spec y x) as [->|Hyx]; cbn [map fst In]; [intuition|].
    rewrite IH. intuition.
Qed.

Lemma tally_NoDup (wordFreq : list (string * Z)) (x : string) :
  NoDup (map fst wordFreq) -> NoDup (map fst (LowValueAnalyzer.tally wordFreq x)).
Proof.
  induction wordFreq as [|[y n] wordFreq IH]; cbn [LowValueAnalyzer.tally map fst]; intros Hnd.
  - constructor; [intros []|constructor].
  - inversion Hnd as [|? ? Hy Hrest]; subst.
    destruct (String.eqb_spec y x) as [->|Hyx]; cbn [map fst]; [exact Hnd|].
    constructor; [|apply IH; exact Hrest].
    rewrite tally_keys. intros [->|Hin]; [congruence|contradiction].
Qed.

(** A table with distinct keys holds the pair of a key and its
    frequency, for the keys it has. *)
Lemma frequency_In (wordFreq : list (string * Z)) (w : string) (n : Z) :
  NoDup (map fst wordFreq) ->
  (In (w, n) wordFreq <-> In w (map fst wordFreq) /\ frequency w wordFreq = n).
Proof.
  induction wordFreq as [|[y m] wordFreq IH]; cbn [map fst In frequency]; intros Hnd.
  - intuition.
  - inversion Hnd as [|? ? Hy Hrest]; subst. specialize (IH Hrest).
    destruct (String.eqb_spec y w) as [->|Hyw].
    + split.
      * intros [Heq|Hin]; [inversion Heq; auto|].
        exfalso. apply Hy. apply in_map_iff. exists (w, n). auto.
      * intros [_ ->]. left. reflexivity.
    + split.
      * intros [Heq|Hin]; [inversion Heq; congruence|].
        apply IH in Hin. destruct Hin as [Hin Hn]. auto.
      * intros [[Heq|Hin] Hn]; [congruence|]. right. apply IH. auto.
Qed.

Lemma fold_tally (words : list string) :
  forall wordFreq w,
    frequency w (fold_left LowValueAnalyzer.tally words wordFreq)
    = frequency w wordFreq + occurrences w words.
Proof.
  induction words as [|x words IH]; intros wordFreq w; cbn [fold_left occurrences]; [lia|].
  rewrite IH, tally_frequency. lia.
Qed.

Lemma fold_tally_keys (words : list string) :
  forall wordFreq w,
    In w (map fst (fold_left LowValueAnalyzer.tally words wordFreq))
    <-> In w words \/ In w (map fst wordFreq).
Proof.
  induction words as [|x words IH]; intros wordFreq w; cbn [fold_left In]; [intuition|].
  rewrite IH, tally_keys. intuition.
Qed.

Lemma fold_tally_NoDup (words : list string) :
  forall wordFreq,
    NoDup (map fst wordFreq) ->
    NoDup (map fst (fold_left LowValueAnalyzer.tally words wordFreq)).
Proof.
  induction words as [|x words IH]; intros wordFreq Hnd; cbn [fold_left]; [exact Hnd|].
  apply IH. apply tally_NoDup. exact Hnd.
Qed.

Lemma occurrences_In (w : string) (words : list string) :
  0 <= occurrences w words /\ (In w words <-> 0 < occurrences w words).
Proof.
  induction words as [|x words [IHge IH]]; cbn [occurrences In]; [split; [lia|]; intuition lia|].
  destruct (String.eqb_spec x w) as [->|Hxw]; split; try lia.
  - intuition lia.
  - rewrite IH. intuition.
Qed.

(** The table holds, for each word of the list, the number of times it
    is there. *)
Lemma frequency_table (words : list string) (w : string) (n : Z) :
  In (w, n) (fold_left LowValueAnalyzer.tally words [])
  <-> n = occurrences w words /\ 0 < n.
Proof.
  rewrite (frequency_In _ w n (fold_tally_NoDup words [] (NoDup_nil _))).
  rewrite fold_tally_keys, fold_tally. cbn [frequency map In].
  destruct (occurrences_In w words) as [_ Hin]. rewrite Hin.
  split.
  - intros [[Hpos|[]] Hn]. split; lia.
  - intros [-> Hpos]. split; [left; exact Hpos|lia].
Qed.

Lemma NoDup_map_filter {A B : Type} (f : A -> B) (p : A -> bool) (xs : list A) :
  NoDup (map f xs) -> NoDup (map f (filter p xs)).
Proof.
  induction xs as [|x xs IH]; cbn [map filter]; intros Hnd; [constructor|].
  inversion Hnd as [|? ? Hx Hrest]; subst.
  destruct (p x); cbn [map]; [|apply IH; exact Hrest].
  constructor; [|apply IH; exact Hrest].
  intros Hin. apply Hx. apply in_map_iff in Hin. destruct Hin as [y [Hy Hin]].
  apply filter_In in Hin. apply in_map_iff. exists y. intuition.
Qed.

(** [count > Math.max(3, words.length * 0.03)] in integers. *)
Lemma above_threshold (c n : Z) :
  Qlt_bool (Math_max 3 (of_int c * (3 # 100))) (of_int n) = true
  <-> 3 < n /\ 3 * c < 100 * n.
Proof.
  unfold Qlt_bool, Math_max, of_int. rewrite negb_true_iff.
  destruct (Qle_bool 3 (inject_Z c * (3 # 100))) eqn:Hmax.
  - apply Qle_bool_iff in Hmax. rewrite <- not_true_iff_false, Qle_bool_iff.
    unfold Qle, Qmult, inject_Z in *. cbn [Qnum Qden] in *. lia.
  - apply not_true_iff_false in Hmax. rewrite Qle_bool_iff in Hmax.
    rewrite <- not_true_iff_false, Qle_bool_iff.
    unfold Qle, Qmult, inject_Z in *. cbn [Qnum Qden] in *. lia.
Qed.

(** X13.  [checkRepetition] counts as overused the words of four letters or
    more, in lower case, that the text holds more than 3 times and more
    often than 3 in 100 of such words, the 44 common words and the word
    [constructor] apart; each one once, with the number of times it is
    there. *)
Theorem overused_words_are_the_frequent_ones (text : string) :
  let words := match_all LowValueAnalyzer.long_word (toLowerCase text) in
  NoDup (map fst (LowValueAnalyzer.overused_words text))
  /\ forall w n,
       In (w, n) (LowValueAnalyzer.overused_words text)
       <-> n = occurrences w words
           /\ 3 < n /\ 3 * JS.count words < 100 * n
           /\ w <> "constructor"
           /\ string_mem w LowValueAnalyzer.common_words = false.
Proof.
  cbv zeta. unfold LowValueAnalyzer.overused_words. cbv zeta.
  set (words := match_all LowValueAnalyzer.long_word (toLowerCase text)).
  split.
  - apply NoDup_map_filter, NoDup_map_filter.
    apply fold_tally_NoDup. constructor.
  - intros w n. rewrite !filter_In, frequency_table. cbn [fst snd].
    rewrite andb_true_iff, !negb_true_iff, above_threshold.
    unfold LowValueAnalyzer.inherited.
    destruct (String.eqb_spec w "constructor") as [->|Hw]; split; intuition (try lia; try congruence).
Qed.

(** ** The verdicts of the custom domain check *)

(** A test succeeds exactly when an attempt succeeds somewhere. *)
Lemma test_from_somewhere (re : regex) (s : string) :
  forall prev,
    test_from re prev s = true
    <-> exists a b, s = a ++ b /\ exec re (last_of prev a) b <> None.
Proof.
  induction s as [|c s IH]; intros prev; rewrite test_from_unfold.
  - destruct (exec re prev "") eqn:Hexec.
    + split; [|reflexivity]. intros _. exists "", "". cbn [append last_of]. rewrite Hexec.
      split; [reflexivity|discriminate].
    + split; [discriminate|]. intros [a [b [Hab Hex]]].
      destruct a; [|discriminate]. cbn [append last_of] in *. subst. congruence.
  - destruct (exec re prev (String c s)) eqn:Hexec.
    + split; [|reflexivity]. intros _. exists "", (String c s). cbn [append last_of].
      rewrite Hexec. split; [reflexivity|discriminate].
    + rewrite IH. split.
      * intros [a [b [Hab Hex]]]. exists (String c a), b. cbn [append last_of].
        rewrite Hab. split; [reflexivity|exact Hex].
      * intros [a [b [Hab Hex]]]. destruct a as [|c' a].
        -- cbn [append last_of] in *. subst. congruence.
        -- cbn [append last_of] in *. inversion Hab; subst. exists a, b. auto.
Qed.

Lemma strip_all (ci : bool) (pat : string) :
  forall prev s,
    (exists p, strip ci pat prev s = Some (p, "")) <-> lit_eq ci pat s = true.
Proof.
  induction pat as [|a pat IH]; intros prev s; cbn [strip lit_eq].
  - destruct s; split; try discriminate; auto.
    + intros _. exists prev. reflexivity.
    + intros [p Hp]. inversion Hp.
  - destruct s as [|c s]; [split; [intros [p Hp]|]; discriminate|].
    destruct (eqc ci a c); cbn [andb]; [apply IH|].
    split; [intros [p Hp]|]; discriminate.
Qed.

(** [/suffix$/i] matches at the last occurrence of the suffix only. *)
Lemma exec_suffix_pattern (suffix : string) (prev : option ascii) (s : string) :
  exec (StaticChecker.suffix_pattern suffix) prev s <> None
  <-> lit_eq true suffix s = true.
Proof.
  unfold exec, StaticChecker.suffix_pattern. rewrite rmatch_Seq, rmatch_Lit.
  rewrite <- (strip_all true suffix prev s).
  destruct (strip true suffix prev s) as [[p rest]|].
  - cbn [rmatch]. destruct rest.
    + split; [intros _; exists p; reflexivity|discriminate].
    + split; [congruence|]. intros [p' Hp]. inversion Hp.
  - split; [congruence|]. intros [p' Hp]. discriminate.
Qed.

Lemma test_suffix_pattern (suffix hostname : string) :
  test (StaticChecker.suffix_pattern suffix) hostname = true <-> ends_with suffix hostname.
Proof.
  unfold test, ends_with. rewrite test_from_somewhere.
  split; intros [a [b [Hab H]]]; exists a, b; (split; [exact Hab|]).
  - apply (proj1 (exec_suffix_pattern suffix _ b) H).
  - apply (proj2 (exec_suffix_pattern suffix _ b) H).
Qed.

Lemma subdomain_test (hostname : string) :
  existsb (fun pattern => test pattern hostname) StaticChecker.subdomainPatterns = true
  <-> on_hosting_suffix hostname.
Proof.
  change StaticChecker.subdomainPatterns
    with (map StaticChecker.suffix_pattern hosting_suffixes).
  unfold on_hosting_suffix. rewrite existsb_exists. split.
  - intros [pattern [Hin Htest]]. apply in_map_iff in Hin.
    destruct Hin as [suffix [<- Hin]]. exists suffix. split; [exact Hin|].
    apply test_suffix_pattern. exact Htest.
  - intros [suffix [Hin Hends]]. exists (StaticChecker.suffix_pattern suffix).
    split; [apply in_map; exact Hin|]. apply test_suffix_pattern. exact Hends.
Qed.

Lemma split_from_not_nil (re : regex) (fuel : nat) (seg : string) (prev : option ascii)
    (s : string) :
  split_from re fuel seg prev s <> [].
Proof.
  revert seg prev s. induction fuel as [|fuel IH]; intros seg prev s; [discriminate|].
  cbn [split_from]. destruct s as [|c s]; [discriminate|].
  destruct (exec re prev (String c s)); [|apply IH].
  destruct seg; destruct (matched (String c s) s0); try discriminate; apply IH.
Qed.

Lemma startsWith_empty (s : string) : startsWith s "" = true.
Proof. destruct s; reflexivity. Qed.

Lemma exec_dot (prev : option ascii) (c : ascii) (s : string) :
  exec (Char ".") prev (String c s) = if Ascii.eqb "." c then Some s else None.
Proof. reflexivity. Qed.

(** [hostname.split('.')] has two parts or more exactly when the host
    name holds a dot. *)
Lemma split_at_dots (fuel : nat) :
  forall (s seg : string) (prev : option ascii),
    (String.length s <= fuel)%nat ->
    (2 <= JS.count (split_from (Char ".") fuel seg prev s) <-> includes s "." = true).
Proof.
  induction fuel as [|fuel IH]; intros s seg prev Hfuel.
  - destruct s; [|simpl in Hfuel; lia]. unfold JS.count. simpl. intuition (try lia; discriminate).
  - destruct s as [|c s]; [unfold JS.count; simpl; intuition (try lia; discriminate)|].
    cbn [split_from]. rewrite exec_dot. cbn [includes startsWith].
    rewrite startsWith_empty. simpl in Hfuel.
    destruct (Ascii.eqb "." c) eqn:Hc.
    + cbn [andb orb].
      assert (Hmatched : matched (String c s) s = str c)
        by (apply (matched_append (str c) s)).
      rewrite Hmatched.
      assert (Htwo : forall l : list string, l <> [] -> 2 <= JS.count (seg :: l)).
      { intros l Hl. rewrite count_cons. destruct l; [congruence|]. rewrite count_cons.
        pose proof (count_nonnegative l). lia. }
      split; [reflexivity|]. intros _.
      destruct seg; apply Htwo; apply split_from_not_nil.
    + cbn [andb orb]. apply IH. lia.
Qed.

Lemma split_at_dot (hostname : string) :
  2 <= JS.count (split (Char ".") hostname) <-> includes hostname "." = true.
Proof.
  unfold split. destruct hostname as [|c s].
  - vm_compute. intuition (try lia; discriminate).
  - apply split_at_dots. lia.
Qed.

(** X9.  The custom domain check fails exactly for the host names that end
    with one of the six endings of the hosting platforms, letter case
    apart; it passes exactly for the other host names that hold a dot
    and do not hold [localhost]; a URL that cannot be parsed counts as
    the empty host name, and gets the warning. *)
Theorem custom_domain_verdicts
    (URL_hostname : string -> option string) (url platform : string) :
  let hostname := match URL_hostname url with Some h => h | None => "" end in
  let check := StaticChecker.checkCustomDomain URL_hostname url platform in
  (status check = fail <-> on_hosting_suffix hostname)
  /\ (status check = pass
      <-> ~ on_hosting_suffix hostname
          /\ includes hostname "." = true
          /\ includes hostname "localhost" = false)
  /\ (URL_hostname url = None -> status check = warning /\ score check = 8).
Proof.
  cbv zeta. unfold StaticChecker.checkCustomDomain. cbv zeta.
  set (hostname := match URL_hostname url with Some h => h | None => "" end).
  pose proof (subdomain_test hostname) as Hsub.
  pose proof (split_at_dot hostname) as Hdot.
  destruct (existsb (fun pattern => test pattern hostname) StaticChecker.subdomainPatterns).
  - cbn [status]. split; [|split].
    + intuition.
    + split; [discriminate|]. intros [Hnot _]. destruct Hnot. apply Hsub. reflexivity.
    + intros Hnone. exfalso. unfold hostname in Hsub. rewrite Hnone in Hsub.
      destruct (proj1 Hsub eq_refl) as [suffix [Hin [name [ending [Hname Hlit]]]]].
      destruct name; [|discriminate]. cbn [append] in Hname. subst ending.
      destruct suffix; [|discriminate].
      repeat (destruct Hin as [Hin|Hin]; [discriminate|]). destruct Hin.
  - assert (Hnot : ~ on_hosting_suffix hostname).
    { intros H. apply Hsub in H. discriminate. }
    destruct (2 <=? JS.count (split (Char ".") hostname)) eqn:Hparts.
    + apply Z.leb_le in Hparts. apply Hdot in Hparts.
      destruct (includes hostname "localhost") eqn:Hlocal; cbn [negb andb status score].
      * split; [|split].
        -- split; [discriminate|contradiction].
        -- split; [discriminate|]. intros [_ [_ H]]. discriminate.
        -- auto.
      * split; [|split].
        -- split; [discriminate|contradiction].
        -- split; [auto|reflexivity].
        -- unfold hostname in Hparts. intros Hnone. rewrite Hnone in Hparts. discriminate.
    + apply Z.leb_gt in Hparts. cbn [andb status score].
      split; [|split].
      * split; [discriminate|contradiction].
      * split; [discriminate|]. intros [_ [H _]]. apply Hdot in H. lia.
      * auto.
Qed.

Lemma custom_domain_verdicts_witness :
  status (StaticChecker.checkCustomDomain (fun _ => None) "not a url" "Custom/Unknown")
  = warning.
Proof.
  destruct (custom_domain_verdicts (fun _ => None) "not a url" "Custom/Unknown")
    as [_ [_ Hwarning]].
  apply Hwarning. reflexivity.
Defined.

(** ** The range of every check *)

Ltac graded_now :=
  unfold graded; cbn [fst snd score status];
  split; [lia|split; intros Hgraded; (reflexivity || discriminate Hgraded || lia)].

Ltac grade :=
  cbv zeta;
  repeat match goal with
         | |- context [if ?b then _ else _] => destruct b
         | |- context [match ?x with _ => _ end] => destruct x
         end;
  graded_now.

Ltac grade_in H :=
  cbv zeta in H;
  repeat match type of H with
         | context [if ?b then _ else _] => destruct b
         | context [match ?x with _ => _ end] => destruct x
         end;
  inversion H; graded_now.

Ltac grade_ladder :=
  cbv zeta;
  repeat match goal with
         | |- context [if ?b <=? ?c then mkCheck _ _ _ _ _ else _] => destruct (b <=? c)
         | |- context [if ?b <? ?c then mkCheck _ _ _ _ _ else _] => destruct (b <? c)
         | |- context [if ?b =? ?c then mkCheck _ _ _ _ _ else _] => destruct (b =? c)
         end;
  graded_now.

Section SeoGrades.
Import SeoChecker.
Variable URL_hostname : string -> option string.

Lemma seo_checkTitle_graded doc : graded (0, 15) (checkTitle doc).
Proof. unfold checkTitle. grade. Qed.

Lemma seo_checkMetaDescription_graded doc c :
  checkMetaDescription doc = Ok c -> graded (0, 12) c.
Proof. unfold checkMetaDescription. intros H. grade_in H. Qed.

Lemma seo_checkH1Tags_graded doc : graded (0, 12) (checkH1Tags doc).
Proof. unfold checkH1Tags. grade. Qed.

Lemma seo_checkHeadingHierarchy_graded doc : graded (0, 10) (checkHeadingHierarchy doc).
Proof. unfold checkHeadingHierarchy. grade. Qed.

Lemma seo_checkImageAlts_graded doc : graded (2, 10) (checkImageAlts doc).
Proof. unfold checkImageAlts. grade. Qed.

Lemma seo_checkInternalLinks_graded doc url :
  graded (2, 10) (checkInternalLinks URL_hostname doc url).
Proof. unfold checkInternalLinks. grade. Qed.

Lemma seo_checkExternalLinks_graded doc url :
  graded (4, 8) (checkExternalLinks URL_hostname doc url).
Proof. unfold checkExternalLinks. grade. Qed.

Lemma seo_checkHTTPS_graded url : graded (0, 10) (checkHTTPS url).
Proof. unfold checkHTTPS. grade. Qed.

Lemma seo_checkViewport_graded doc : graded (0, 8) (checkViewport doc).
Proof. unfold checkViewport. grade. Qed.

Lemma seo_checkCanonical_graded doc : graded (2, 5) (checkCanonical doc).
Proof. unfold checkCanonical. grade. Qed.

End SeoGrades.

Section AdsenseGrades.
Import AdsenseChecker.
Variable URL_hostname : string -> option string.

Lemma adsense_checkTitleTag_graded doc : graded (0, 10) (checkTitleTag doc).
Proof. unfold checkTitleTag. grade. Qed.

Lemma adsense_checkMetaDescription_graded doc c :
  checkMetaDescription doc = Ok c -> graded (0, 10) c.
Proof. unfold checkMetaDescription. intros H. grade_in H. Qed.

Lemma adsense_checkH1Tag_graded doc : graded (0, 10) (checkH1Tag doc).
Proof. unfold checkH1Tag. grade. Qed.

Lemma adsense_checkWordCount_graded doc : graded (0, 15) (checkWordCount doc).
Proof. unfold checkWordCount. grade. Qed.

Lemma adsense_checkImageAlts_graded doc : graded (2, 10) (checkImageAlts doc).
Proof. unfold checkImageAlts. grade. Qed.

Lemma adsense_checkHTTPS_graded url : graded (0, 10) (checkHTTPS url).
Proof. unfold checkHTTPS. grade. Qed.

Lemma adsense_checkNavigation_graded doc : graded (0, 10) (checkNavigation doc).
Proof. unfold checkNavigation. grade. Qed.

Lemma adsense_checkInternalLinks_graded doc url :
  graded (0, 10) (checkInternalLinks URL_hostname doc url).
Proof. unfold checkInternalLinks. grade. Qed.

Lemma adsense_checkPrivacyPolicy_graded doc : graded (0, 10) (checkPrivacyPolicy doc).
Proof. unfold checkPrivacyPolicy. grade. Qed.

Lemma adsense_checkFooter_graded doc : graded (2, 5) (checkFooter doc).
Proof. unfold checkFooter. grade. Qed.

End AdsenseGrades.

Section StaticGrades.
Import StaticChecker.
Variable URL_hostname : string -> option string.
Variable resolve : string -> string.
Variable html_anchor : list node -> node -> bool.

Lemma static_checkCustomDomain_graded url platform :
  graded (3, 15) (checkCustomDomain URL_hostname url platform).
Proof. unfold checkCustomDomain. grade. Qed.

Lemma static_checkHTTPS_graded url : graded (0, 12) (checkHTTPS url).
Proof. unfold checkHTTPS. grade. Qed.

Lemma static_checkEssentialPages_graded doc : graded (3, 15) (checkEssentialPages doc).
Proof. unfold checkEssentialPages. grade_ladder. Qed.

Lemma static_checkNavigation_graded doc : graded (2, 12) (checkNavigation doc).
Proof. unfold checkNavigation. grade. Qed.

Lemma static_checkContentDepth_graded doc : graded (3, 15) (checkContentDepth doc).
Proof. unfold checkContentDepth. grade. Qed.

Lemma static_checkMetaTags_graded doc : graded (2, 10) (checkMetaTags doc).
Proof. unfold checkMetaTags. grade_ladder. Qed.

Lemma static_check404Setup_graded doc html : graded (4, 8) (check404Setup doc html).
Proof. unfold check404Setup. grade. Qed.

Lemma static_checkContactInfo_graded doc c :
  checkContactInfo resolve html_anchor doc = Ok c -> graded (2, 8) c.
Proof. unfold checkContactInfo, bind. intros H. grade_in H. Qed.

Lemma static_checkFooter_graded doc : graded (2, 5) (checkFooter doc).
Proof. unfold checkFooter. grade. Qed.

End StaticGrades.

Section TextGrades.
Import LowValueAnalyzer.

Lemma text_checkWordCount_graded text : graded (5, 20) (checkWordCount text).
Proof. unfold checkWordCount. grade. Qed.

Lemma text_checkSentenceVariety_graded text : graded (4, 15) (checkSentenceVariety text).
Proof. unfold checkSentenceVariety. grade. Qed.

Lemma text_checkParagraphs_graded text : graded (2, 12) (checkParagraphs text).
Proof. unfold checkParagraphs. grade. Qed.

Lemma text_checkVocabulary_graded text : graded (4, 15) (checkVocabulary text).
Proof. unfold checkVocabulary. grade. Qed.

Lemma text_checkRepetition_graded text : graded (3, 15) (checkRepetition text).
Proof. unfold checkRepetition. grade. Qed.

Lemma text_checkFillerWords_graded text : graded (2, 10) (checkFillerWords text).
Proof. unfold checkFillerWords. grade. Qed.

Lemma text_checkEngagement_graded text : graded (1, 8) (checkEngagement text).
Proof. unfold checkEngagement. grade_ladder. Qed.

Lemma text_checkSpecificity_graded text : graded (1, 5) (checkSpecificity text).
Proof. unfold checkSpecificity. grade. Qed.

End TextGrades.

(** ** The range of a battery *)

(** The sum of graded checks lies between the sums of the ends of their
    ranges, and is at the top exactly when every check passes. *)
Lemma graded_sum (ranges : list (Z * Z)) (checks : list CheckResult) :
  Forall2 graded ranges checks ->
  total (map fst ranges) <= sum_scores checks <= total (map snd ranges)
  /\ (sum_scores checks = total (map snd ranges) <-> all_pass checks).
Proof.
  unfold all_pass. induction 1 as [|range c ranges checks Hc _ [IHsum IHpass]].
  - unfold sum_scores. simpl. split; [lia|]. split; [constructor|reflexivity].
  - rewrite sum_scores_cons. cbn [map total fold_right].
    change (fold_right Z.add 0 (map fst ranges)) with (total (map fst ranges)).
    change (fold_right Z.add 0 (map snd ranges)) with (total (map snd ranges)).
    destruct Hc as [Hrange Hpass]. split; [lia|]. split.
    + intros Hsum. constructor; [apply Hpass; lia|apply IHpass; lia].
    + intros Hall. inversion Hall as [|? ? Hc Hrest]; subst.
      apply Hpass in Hc. apply IHpass in Hrest. lia.
Qed.

Section GradedRuns.
Variable parseFromString : string -> Document.
Variable URL_hostname : string -> option string.
Variable resolve : string -> string.
Variable html_anchor : list node -> node -> bool.

Lemma seo_run_graded (html url : string) (checks : list CheckResult) (maxScore : Z) :
  SeoChecker.run_checks parseFromString URL_hostname html url = Ok (checks, maxScore) ->
  Forall2 graded seo_ranges checks.
Proof.
  unfold SeoChecker.run_checks. cbv zeta.
  destruct (SeoChecker.checkMetaDescription (parseFromString html)) as [c|e] eqn:Hmeta;
    simpl; intros Hrun; inversion Hrun; subst.
  unfold push, seo_ranges; simpl.
  repeat (apply Forall2_cons;
          [solve [eauto using seo_checkTitle_graded, seo_checkMetaDescription_graded,
                    seo_checkH1Tags_graded, seo_checkHeadingHierarchy_graded,
                    seo_checkImageAlts_graded, seo_checkInternalLinks_graded,
                    seo_checkExternalLinks_graded, seo_checkHTTPS_graded,
                    seo_checkViewport_graded, seo_checkCanonical_graded]|]).
  apply Forall2_nil.
Qed.

Lemma adsense_run_graded (html url : string) (checks : list CheckResult) (maxScore : Z) :
  AdsenseChecker.run_checks parseFromString URL_hostname html url = Ok (checks, maxScore) ->
  Forall2 graded adsense_ranges checks.
Proof.
  unfold AdsenseChecker.run_checks. cbv zeta.
  destruct (AdsenseChecker.checkMetaDescription (parseFromString html)) as [c|e] eqn:Hmeta;
    simpl; intros Hrun; inversion Hrun; subst.
  unfold push, adsense_ranges; simpl.
  repeat (apply Forall2_cons;
          [solve [eauto using adsense_checkTitleTag_graded, adsense_checkMetaDescription_graded,
                    adsense_checkH1Tag_graded, adsense_checkWordCount_graded,
                    adsense_checkImageAlts_graded, adsense_checkHTTPS_graded,
                    adsense_checkNavigation_graded, adsense_checkInternalLinks_graded,
                    adsense_checkPrivacyPolicy_graded, adsense_checkFooter_graded]|]).
  apply Forall2_nil.
Qed.

Lemma static_run_graded (html url : string) (checks : list CheckResult) (maxScore : Z) :
  StaticChecker.run_checks parseFromString URL_hostname resolve html_anchor html url
  = Ok (checks, maxScore) ->
  Forall2 graded static_ranges checks.
Proof.
  unfold StaticChecker.run_checks. cbv zeta.
  destruct (StaticChecker.checkContactInfo resolve html_anchor (parseFromString html))
    as [c|e] eqn:Hcontact;
    simpl; intros Hrun; inversion Hrun; subst.
  unfold push, static_ranges; simpl.
  repeat (apply Forall2_cons;
          [solve [eauto using static_checkCustomDomain_graded, static_checkHTTPS_graded,
                    static_checkEssentialPages_graded, static_checkNavigation_graded,
                    static_checkContentDepth_graded, static_checkMetaTags_graded,
                    static_check404Setup_graded, static_checkContactInfo_graded,
                    static_checkFooter_graded]|]).
  apply Forall2_nil.
Qed.

Lemma text_run_graded (text : string) :
  Forall2 graded text_ranges (fst (LowValueAnalyzer.run_checks text)).
Proof.
  unfold LowValueAnalyzer.run_checks. cbv zeta. simpl.
  unfold push, text_ranges; simpl.
  repeat (apply Forall2_cons;
          [solve [auto using text_checkWordCount_graded, text_checkSentenceVariety_graded,
                    text_checkParagraphs_graded, text_checkVocabulary_graded,
                    text_checkRepetition_graded, text_checkFillerWords_graded,
                    text_checkEngagement_graded, text_checkSpecificity_graded]|]).
  apply Forall2_nil.
Qed.

(** The four outcomes, by the runs. *)
Lemma seo_outcome (html url : string) (r : SeoChecker.Outcome) :
  SeoChecker.analyzeSEO parseFromString URL_hostname html url = Ok r ->
  SeoChecker.final_score r = sum_scores (SeoChecker.checks_of r)
  /\ Forall2 graded seo_ranges (SeoChecker.checks_of r).
Proof.
  rewrite seo_analyze_of_run.
  destruct (SeoChecker.run_checks parseFromString URL_hostname html url)
    as [[checks maxScore]|e] eqn:Hrun; intros Hr; inversion Hr; subst; clear Hr.
  destruct (seo_run _ _ _ _ _ _ Hrun) as [-> _].
  cbn [SeoChecker.final_score SeoChecker.checks_of].
  split; [apply round_of_hundredths|apply (seo_run_graded _ _ _ _ Hrun)].
Qed.

Lemma adsense_outcome (html url : string) (r : AdsenseChecker.Outcome) :
  AdsenseChecker.analyzeHTML parseFromString URL_hostname html url = Ok r ->
  AdsenseChecker.final_score r = sum_scores (AdsenseChecker.checks_of r)
  /\ Forall2 graded adsense_ranges (AdsenseChecker.checks_of r).
Proof.
  rewrite adsense_analyze_of_run.
  destruct (AdsenseChecker.run_checks parseFromString URL_hostname html url)
    as [[checks maxScore]|e] eqn:Hrun; intros Hr; inversion Hr; subst; clear Hr.
  destruct (adsense_run _ _ _ _ _ _ Hrun) as [-> _].
  cbn [AdsenseChecker.final_score AdsenseChecker.checks_of].
  split; [apply round_of_hundredths|apply (adsense_run_graded _ _ _ _ Hrun)].
Qed.

Lemma static_outcome (html url : string) (r : StaticChecker.Outcome) :
  StaticChecker.analyzeStaticSite parseFromString URL_hostname resolve html_anchor html url
  = Ok r ->
  StaticChecker.final_score r = sum_scores (StaticChecker.checks_of r)
  /\ Forall2 graded static_ranges (StaticChecker.checks_of r).
Proof.
  rewrite static_analyze_of_run.
  destruct (StaticChecker.run_checks parseFromString URL_hostname resolve html_anchor
              html url)
    as [[checks maxScore]|e] eqn:Hrun; intros Hr; inversion Hr; subst; clear Hr.
  destruct (static_run _ _ _ _ _ _ _ _ Hrun) as [-> _].
  cbn [StaticChecker.final_score StaticChecker.checks_of].
  split; [apply round_of_hundredths|apply (static_run_graded _ _ _ _ Hrun)].
Qed.

Lemma text_outcome (text : string) :
  let r := LowValueAnalyzer.analyzeContent text in
  LowValueAnalyzer.final_score r = sum_scores (LowValueAnalyzer.checks_of r)
  /\ Forall2 graded text_ranges (LowValueAnalyzer.checks_of r).
Proof.
  cbv zeta. rewrite text_analyze_of_run. cbv zeta.
  cbn [LowValueAnalyzer.final_score LowValueAnalyzer.checks_of].
  destruct (text_run text) as [-> _].
  split; [apply round_of_hundredths|apply text_run_graded].
Qed.

End GradedRuns.

(** ** The lowest scores *)

(** X2.  No battery scores a page or a text at 0: the lowest scores of the
    checks add up to 10 in the SEO battery, 4 in the ad-readiness
    battery, 21 in the static-site battery and 22 in the text battery,
    so that no result is below them, and each of these scores is the
    score of some input. *)
Theorem lowest_scores :
  (forall parseFromString URL_hostname html url r,
      SeoChecker.analyzeSEO parseFromString URL_hostname html url = Ok r ->
      10 <= SeoChecker.final_score r)
  /\ (forall parseFromString URL_hostname html url r,
      AdsenseChecker.analyzeHTML parseFromString URL_hostname html url = Ok r ->
      4 <= AdsenseChecker.final_score r)
  /\ (forall parseFromString URL_hostname resolve html_anchor html url r,
      StaticChecker.analyzeStaticSite parseFromString URL_hostname resolve html_anchor
        html url = Ok r ->
      21 <= StaticChecker.final_score r)
  /\ (forall text, 22 <= LowValueAnalyzer.final_score (LowValueAnalyzer.analyzeContent text))
  /\ (exists r,
      SeoChecker.analyzeSEO (parses_to image_page) sample_hostname
        "<img src=a.png>" "http://example.com" = Ok r
      /\ SeoChecker.final_score r = 10)
  /\ (exists r,
      AdsenseChecker.analyzeHTML (parses_to image_page) sample_hostname
        "<img src=a.png>" "http://example.com" = Ok r
      /\ AdsenseChecker.final_score r = 4)
  /\ (exists r,
      StaticChecker.analyzeStaticSite (parses_to empty_page) sample_hostname sample_resolve
        sample_html_anchor "" "http://myproject.netlify.app" = Ok r
      /\ StaticChecker.final_score r = 21)
  /\ LowValueAnalyzer.final_score (LowValueAnalyzer.analyzeContent poor_text) = 22.
Proof.
  split; [|split; [|split; [|split; [|split; [|split; [|split]]]]]].
  - intros parseFromString URL_hostname html url r Hr.
    destruct (seo_outcome _ _ _ _ _ Hr) as [-> Hgraded].
    apply graded_sum in Hgraded. destruct Hgraded as [[Hlow _] _].
    change (total (map fst seo_ranges)) with 10 in Hlow. exact Hlow.
  - intros parseFromString URL_hostname html url r Hr.
    destruct (adsense_outcome _ _ _ _ _ Hr) as [-> Hgraded].
    apply graded_sum in Hgraded. destruct Hgraded as [[Hlow _] _].
    change (total (map fst adsense_ranges)) with 4 in Hlow. exact Hlow.
  - intros parseFromString URL_hostname resolve html_anchor html url r Hr.
    destruct (static_outcome _ _ _ _ _ _ _ Hr) as [-> Hgraded].
    apply graded_sum in Hgraded. destruct Hgraded as [[Hlow _] _].
    change (total (map fst static_ranges)) with 21 in Hlow. exact Hlow.
  - intros text. destruct (text_outcome text) as [-> Hgraded].
    apply graded_sum in Hgraded. destruct Hgraded as [[Hlow _] _].
    change (total (map fst text_ranges)) with 22 in Hlow. exact Hlow.
  - eexists. split; [vm_compute; reflexivity|reflexivity].
  - eexists. split; [vm_compute; reflexivity|reflexivity].
  - eexists. split; [vm_compute; reflexivity|reflexivity].
  - vm_compute. reflexivity.
Qed.

Lemma lowest_scores_witness :
  exists r,
    SeoChecker.analyzeSEO (parses_to empty_page) sample_hostname
      "<html></html>" "http://example.com" = Ok r
    /\ 10 <= SeoChecker.final_score r.
Proof.
  destruct lowest_scores as [Hseo _].
  eexists. split; [vm_compute; reflexivity|].
  apply (Hseo (parses_to empty_page) sample_hostname "<html></html>" "http://example.com").
  vm_compute. reflexivity.
Defined.

(** ** The perfect score *)

(** X3.  A battery gives the score 100 exactly when every one of its checks
    passes: each check gives its full weight when it passes and less
    otherwise. *)
Theorem full_score_means_all_pass
    (parseFromString : string -> Document) (URL_hostname : string -> option string)
    (resolve : string -> string) (html_anchor : list node -> node -> bool)
    (html url text : string) :
  (forall r,
      SeoChecker.analyzeSEO parseFromString URL_hostname html url = Ok r ->
      (SeoChecker.final_score r = 100 <-> all_pass (SeoChecker.checks_of r)))
  /\ (forall r,
      AdsenseChecker.analyzeHTML parseFromString URL_hostname html url = Ok r ->
      (AdsenseChecker.final_score r = 100 <-> all_pass (AdsenseChecker.checks_of r)))
  /\ (forall r,
      StaticChecker.analyzeStaticSite parseFromString URL_hostname resolve html_anchor
        html url = Ok r ->
      (StaticChecker.final_score r = 100 <-> all_pass (StaticChecker.checks_of r)))
  /\ (let r := LowValueAnalyzer.analyzeContent text in
      LowValueAnalyzer.final_score r = 100 <-> all_pass (LowValueAnalyzer.checks_of r)).
Proof.
  split; [|split; [|split]].
  - intros r Hr. destruct (seo_outcome _ _ _ _ _ Hr) as [-> Hgraded].
    apply graded_sum in Hgraded. exact (proj2 Hgraded).
  - intros r Hr. destruct (adsense_outcome _ _ _ _ _ Hr) as [-> Hgraded].
    apply graded_sum in Hgraded. exact (proj2 Hgraded).
  - intros r Hr. destruct (static_outcome _ _ _ _ _ _ _ Hr) as [-> Hgraded].
    apply graded_sum in Hgraded. exact (proj2 Hgraded).
  - cbv zeta. destruct (text_outcome text) as [-> Hgraded].
    apply graded_sum in Hgraded. exact (proj2 Hgraded).
Qed.

Lemma full_score_means_all_pass_witness :
  exists r,
    SeoChecker.analyzeSEO (parses_to empty_page) sample_hostname
      "<html></html>" "http://example.com" = Ok r
    /\ (SeoChecker.final_score r = 100 <-> all_pass (SeoChecker.checks_of r)).
Proof.
  destruct (full_score_means_all_pass (parses_to empty_page) sample_hostname sample_resolve
              sample_html_anchor "<html></html>" "http://example.com" "") as [Hseo _].
  eexists. split; [vm_compute; reflexivity|].
  apply Hseo. vm_compute. reflexivity.
Defined.

(** ** The pages on which a battery raises *)

Lemma seo_checkMetaDescription_returns (doc : Document) :
  match SeoChecker.checkMetaDescription doc with
  | Ok _ => ~ bare_description doc
  | Throw e => e = "TypeError" /\ bare_description doc
  end.
Proof.
  unfold SeoChecker.checkMetaDescription, bare_description. cbv zeta.
  destruct (querySelector doc [tag_attr_is "meta" "name" "description"]) as [meta|].
  - destruct (getAttribute meta "content") as [content|] eqn:Hcontent; cbn [option_map].
    + assert (Hnot : ~ (exists meta0, Some meta = Some meta0
                                      /\ getAttribute meta0 "content" = None)).
      { intros [meta0 [Hmeta Hnone]]. inversion Hmeta; subst. congruence. }
      repeat match goal with
             | |- context [if ?b then _ else _] => destruct b
             end; exact Hnot.
    + split; [reflexivity|]. exists meta. auto.
  - assert (Hnot : ~ (exists meta0, @None node = Some meta0
                                    /\ getAttribute meta0 "content" = None)).
    { intros [meta0 [Hmeta _]]. discriminate. }
    repeat match goal with
           | |- context [if ?b then _ else _] => destruct b
           end; exact Hnot.
Qed.

Lemma adsense_checkMetaDescription_returns (doc : Document) :
  match AdsenseChecker.checkMetaDescription doc with
  | Ok _ => ~ bare_description doc
  | Throw e => e = "TypeError" /\ bare_description doc
  end.
Proof.
  unfold AdsenseChecker.checkMetaDescription, bare_description. cbv zeta.
  destruct (querySelector doc [tag_attr_is "meta" "name" "description"]) as [meta|].
  - destruct (getAttribute meta "content") as [content|] eqn:Hcontent; cbn [option_map].
    + assert (Hnot : ~ (exists meta0, Some meta = Some meta0
                                      /\ getAttribute meta0 "content" = None)).
      { intros [meta0 [Hmeta Hnone]]. inversion Hmeta; subst. congruence. }
      repeat match goal with
             | |- context [if ?b then _ else _] => destruct b
             end; exact Hnot.
    + split; [reflexivity|]. exists meta. auto.
  - assert (Hnot : ~ (exists meta0, @None node = Some meta0
                                    /\ getAttribute meta0 "content" = None)).
    { intros [meta0 [Hmeta _]]. discriminate. }
    repeat match goal with
           | |- context [if ?b then _ else _] => destruct b
           end; exact Hnot.
Qed.

(** X1.  [analyzeSEO] and [analyzeHTML] raise on the same pages, and on no
    others than those whose first description tag has no [content]
    attribute; what they raise is the [TypeError] of the meta description
    check.  On every other page they return a result. *)
Theorem batteries_raise_for_a_bare_description
    (parseFromString : string -> Document) (URL_hostname : string -> option string)
    (html url : string) :
  match SeoChecker.analyzeSEO parseFromString URL_hostname html url with
  | Ok _ => ~ bare_description (parseFromString html)
  | Throw e => e = "TypeError" /\ bare_description (parseFromString html)
  end
  /\ match AdsenseChecker.analyzeHTML parseFromString URL_hostname html url with
     | Ok _ => ~ bare_description (parseFromString html)
     | Throw e => e = "TypeError" /\ bare_description (parseFromString html)
     end.
Proof.
  split.
  - rewrite seo_analyze_of_run. unfold SeoChecker.run_checks. cbv zeta.
    pose proof (seo_checkMetaDescription_returns (parseFromString html)) as Hmeta.
    destruct (SeoChecker.checkMetaDescription (parseFromString html)); exact Hmeta.
  - rewrite adsense_analyze_of_run. unfold AdsenseChecker.run_checks. cbv zeta.
    pose proof (adsense_checkMetaDescription_returns (parseFromString html)) as Hmeta.
    destruct (AdsenseChecker.checkMetaDescription (parseFromString html)); exact Hmeta.
Qed.

(** The elements of [querySelectorAll_placed] are those of
    [querySelectorAll]. *)
Lemma select_placed_elements (sel : selector) :
  forall (n : node) (ancestors : list node),
    map snd (select_placed sel ancestors n) = select sel ancestors n.
Proof.
  fix IH 1. intros [data|t attrs children] ancestors; [reflexivity|].
  cbn [select_placed select]. rewrite map_app. f_equal.
  - destruct (matches sel ancestors (Element t attrs children)); reflexivity.
  - generalize (Element t attrs children :: ancestors). intros up.
    induction children as [|c children IHc]; [reflexivity|].
    cbn [flat_map]. rewrite map_app, IH, IHc. reflexivity.
Qed.

Lemma some_contact_returns (resolve : string -> string)
    (html_anchor : list node -> node -> bool) (links : list (list node * node)) :
  match StaticChecker.some_contact resolve html_anchor links with
  | Ok _ => ~ foreign_anchor_first resolve html_anchor links
  | Throw e => e = "TypeError" /\ foreign_anchor_first resolve html_anchor links
  end.
Proof.
  induction links as [|[ancestors a] links IH].
  - cbn [StaticChecker.some_contact]. intros [before [anc [b [after [Hlinks _]]]]].
    destruct before; discriminate.
  - cbn [StaticChecker.some_contact]. unfold StaticChecker.href_property.
    destruct (html_anchor ancestors a) eqn:Hhtml.
    + fold (contact_link resolve a).
      assert (Hhead : forall before anc b after,
                 (ancestors, a) :: links = (before ++ (anc, b) :: after)%list ->
                 html_anchor anc b = false ->
                 exists before', before = (ancestors, a) :: before'
                                 /\ links = (before' ++ (anc, b) :: after)%list).
      { intros [|place before] anc b after Hlinks Hforeign.
        - injection Hlinks as <- <- _. congruence.
        - injection Hlinks as <- ->. eauto. }
      destruct (contact_link resolve a) eqn:Hcontact.
      * intros [before [anc [b [after [Hlinks [Hforeign Hbefore]]]]]].
        destruct (Hhead _ _ _ _ Hlinks Hforeign) as [before' [-> _]].
        destruct (Hbefore (ancestors, a) (or_introl eq_refl)) as [_ Hnot].
        cbn [snd] in Hnot. congruence.
      * destruct (StaticChecker.some_contact resolve html_anchor links) as [found|e].
        -- intros [before [anc [b [after [Hlinks [Hforeign Hbefore]]]]]].
           destruct (Hhead _ _ _ _ Hlinks Hforeign) as [before' [-> Hrest]].
           apply IH. exists before', anc, b, after.
           split; [exact Hrest|]. split; [exact Hforeign|].
           intros place Hplace. apply Hbefore. right. exact Hplace.
        -- destruct IH as [-> [before [anc [b [after [Hlinks [Hforeign Hbefore]]]]]]].
           split; [reflexivity|].
           exists ((ancestors, a) :: before), anc, b, after.
           split; [rewrite Hlinks; reflexivity|]. split; [exact Hforeign|].
           intros place [<-|Hplace]; [auto|apply Hbefore; exact Hplace].
    + split; [reflexivity|]. exists [], ancestors, a, links.
      split; [reflexivity|]. split; [exact Hhtml|]. intros place [].
Qed.

(** X29.  [analyzeStaticSite] raises on the pages on which its contact
    check does, and on no others: a [TypeError], when among the elements
    that [querySelectorAll('a')] returns one that is not an HTML anchor,
    such as an [a] inside [svg], comes before every contact link.  On
    every other page it returns a result. *)
Theorem static_battery_raises_for_a_foreign_anchor
    (parseFromString : string -> Document) (URL_hostname : string -> option string)
    (resolve : string -> string) (html_anchor : list node -> node -> bool)
    (html url : string) :
  let links := querySelectorAll_placed (parseFromString html) [tag "a"] in
  map snd links = querySelectorAll (parseFromString html) [tag "a"]
  /\ match StaticChecker.analyzeStaticSite parseFromString URL_hostname resolve html_anchor
            html url with
     | Ok _ => ~ foreign_anchor_first resolve html_anchor links
     | Throw e => e = "TypeError" /\ foreign_anchor_first resolve html_anchor links
     end
  /\ StaticChecker.analyzeStaticSite (parses_to svg_link_page) sample_hostname
       sample_resolve sample_html_anchor "<svg><a href=/contact>Contact</a></svg>"
       "https://example.com"
     = Throw "TypeError".
Proof.
  cbv zeta. split; [apply select_placed_elements|]. split; [|reflexivity].
  rewrite static_analyze_of_run.
  unfold StaticChecker.run_checks, StaticChecker.checkContactInfo, bind. cbv zeta.
  pose proof (some_contact_returns resolve html_anchor
                (querySelectorAll_placed (parseFromString html) [tag "a"])) as Hsome.
  destruct (StaticChecker.some_contact resolve html_anchor
              (querySelectorAll_placed (parseFromString html) [tag "a"]));
    [|exact Hsome].
  repeat match goal with
         | |- context [if ?b then _ else _] => destruct b
         end; exact Hsome.
Qed.

(** ** The share of images with an alternative text *)

Lemma div_below (x d k : Z) : 0 < d -> (x / d <? k) = (x <? k * d).
Proof.
  intros Hd. pose proof (Z.div_mod x d) as Hdiv. pose proof (Z.mod_pos_bound x d Hd) as Hmod.
  destruct (x / d <? k) eqn:Hl; destruct (x <? k * d) eqn:Hr; try reflexivity.
  - apply Z.ltb_lt in Hl. apply Z.ltb_ge in Hr. nia.
  - apply Z.ltb_ge in Hl. apply Z.ltb_lt in Hr. nia.
Qed.

(** X6.  The image check rounds the share of images with a text that is not
    blank to a whole percentage before it compares: with images on the
    page, it passes from 89.5 percent on, and fails below 49.5 percent;
    without images it warns.  The SEO and the ad-readiness battery do the
    same. *)
Theorem image_alt_thresholds (doc : Document) :
  let images := querySelectorAll doc [tag "img"] in
  let total := JS.count images in
  let withAlt := JS.count (filter SeoChecker.has_alt images) in
  (status (SeoChecker.checkImageAlts doc) = pass
   <-> 0 < total /\ 179 * total <= 200 * withAlt)
  /\ (status (SeoChecker.checkImageAlts doc) = fail
      <-> 0 < total /\ 200 * withAlt < 99 * total)
  /\ status (AdsenseChecker.checkImageAlts doc) = status (SeoChecker.checkImageAlts doc).
Proof.
  cbv zeta. unfold SeoChecker.checkImageAlts, AdsenseChecker.checkImageAlts. cbv zeta.
  change AdsenseChecker.has_alt with SeoChecker.has_alt.
  set (images := querySelectorAll doc [tag "img"]).
  set (withAlt := JS.count (filter SeoChecker.has_alt images)).
  pose proof (count_nonnegative images) as Hn.
  destruct (JS.count images =? 0) eqn:Hzero.
  - apply Z.eqb_eq in Hzero. cbn [status].
    repeat split; try discriminate; intros [H _]; lia.
  - apply Z.eqb_neq in Hzero. rewrite round_percent by lia.
    rewrite !div_below by lia.
    destruct (200 * withAlt + JS.count images <? 50 * (2 * JS.count images)) eqn:Hfail;
      [|destruct (200 * withAlt + JS.count images <? 90 * (2 * JS.count images)) eqn:Hwarn];
      cbn [status];
      repeat match goal with
             | H : (_ <? _) = true |- _ => apply Z.ltb_lt in H
             | H : (_ <? _) = false |- _ => apply Z.ltb_ge in H
             end;
      repeat split; try discriminate; try reflexivity; try lia; intros [_ H]; lia.
Qed.

(** ** The checks that two batteries share *)

Ltac same_ladder :=
  cbv zeta;
  repeat match goal with
         | |- context [if ?b then _ else _] => destruct b
         | |- context [match ?x with _ => _ end] => destruct x
         end;
  try reflexivity.

(** X4.  The SEO and the ad-readiness battery give the same verdict on the
    title, on the meta description (or raise both), and on the H1
    heading of a page.  On the internal links they fail together, below
    three links, and the ad-readiness battery passes whenever the SEO
    battery does: it asks for eight links, the SEO battery for ten. *)
Theorem shared_checks_agree
    (URL_hostname : string -> option string) (doc : Document) (url : string) :
  status (SeoChecker.checkTitle doc) = status (AdsenseChecker.checkTitleTag doc)
  /\ match SeoChecker.checkMetaDescription doc, AdsenseChecker.checkMetaDescription doc with
     | Ok seo, Ok adsense => status seo = status adsense
     | Throw e, Throw e' => e = e'
     | _, _ => False
     end
  /\ status (SeoChecker.checkH1Tags doc) = status (AdsenseChecker.checkH1Tag doc)
  /\ (status (SeoChecker.checkInternalLinks URL_hostname doc url) = fail
      <-> status (AdsenseChecker.checkInternalLinks URL_hostname doc url) = fail)
  /\ (status (SeoChecker.checkInternalLinks URL_hostname doc url) = pass
      -> status (AdsenseChecker.checkInternalLinks URL_hostname doc url) = pass).
Proof.
  split; [|split; [|split; [|split]]].
  - unfold SeoChecker.checkTitle, AdsenseChecker.checkTitleTag. same_ladder.
  - unfold SeoChecker.checkMetaDescription, AdsenseChecker.checkMetaDescription. cbv zeta.
    destruct (querySelector doc [tag_attr_is "meta" "name" "description"]) as [meta|];
      [destruct (getAttribute meta "content") as [content|]|];
      cbn [option_map];
      repeat match goal with
             | |- context [if ?b then _ else _] => destruct b
             end;
      reflexivity.
  - unfold SeoChecker.checkH1Tags, AdsenseChecker.checkH1Tag. same_ladder.
  - unfold SeoChecker.checkInternalLinks, AdsenseChecker.checkInternalLinks. cbv zeta.
    change (AdsenseChecker.baseDomain_of URL_hostname url)
      with (SeoChecker.baseDomain_of URL_hostname url).
    change AdsenseChecker.is_internal with SeoChecker.is_internal.
    destruct (_ <? 3); cbn [status]; [intuition|].
    destruct (_ <? 10); destruct (_ <? 8); cbn [status]; intuition discriminate.
  - unfold SeoChecker.checkInternalLinks, AdsenseChecker.checkInternalLinks. cbv zeta.
    change (AdsenseChecker.baseDomain_of URL_hostname url)
      with (SeoChecker.baseDomain_of URL_hostname url).
    change AdsenseChecker.is_internal with SeoChecker.is_internal.
    set (internal := JS.count _).
    destruct (internal <? 3) eqn:H3; cbn [status]; [discriminate|].
    destruct (internal <? 10) eqn:H10; cbn [status]; [discriminate|].
    destruct (internal <? 8) eqn:H8; cbn [status]; [|reflexivity].
    apply Z.ltb_ge in H10. apply Z.ltb_lt in H8. lia.
Qed.

Lemma shared_checks_agree_witness :
  status (SeoChecker.checkInternalLinks sample_hostname empty_page "http://example.com") = fail
  /\ status (AdsenseChecker.checkInternalLinks sample_hostname empty_page "http://example.com")
     = fail.
Proof.
  destruct (shared_checks_agree sample_hostname empty_page "http://example.com")
    as [_ [_ [_ [Hfail _]]]].
  assert (Hseo : status (SeoChecker.checkInternalLinks sample_hostname empty_page
                           "http://example.com") = fail) by reflexivity.
  split; [exact Hseo|]. apply Hfail. exact Hseo.
Defined.

(** ** The HTTPS checks *)

Lemma startsWith_append (a b : string) : startsWith (a ++ b) a = true.
Proof.
  induction a as [|c a IH]; [apply startsWith_empty|].
  cbn [append startsWith]. rewrite Ascii.eqb_refl. exact IH.
Qed.

(** X5.  The three HTTPS checks look at the URL only, and ignore the case of
    its letters: a URL that begins with [https://] in any letter case
    passes all three.  The SEO and the ad-readiness check give the same
    verdict on every URL, and the static-site check gives it too unless
    the URL is empty: then it fails, where the other two warn. *)
Theorem https_checks_agree (url : string) :
  status (AdsenseChecker.checkHTTPS url) = status (SeoChecker.checkHTTPS url)
  /\ (url <> "" -> status (StaticChecker.checkHTTPS url) = status (SeoChecker.checkHTTPS url))
  /\ status (SeoChecker.checkHTTPS "") = warning
  /\ status (StaticChecker.checkHTTPS "") = fail
  /\ (forall scheme rest,
         toLowerCase scheme = "https://" -> url = scheme ++ rest ->
         status (SeoChecker.checkHTTPS url) = pass).
Proof.
  unfold SeoChecker.checkHTTPS, AdsenseChecker.checkHTTPS, StaticChecker.checkHTTPS.
  split; [|split; [|split; [|split]]]; try reflexivity.
  - destruct (negb (truthy url)); [reflexivity|].
    destruct (startsWith (toLowerCase url) "https://"); reflexivity.
  - intros Hne. destruct url as [|c url]; [congruence|]. cbn [truthy String.eqb negb].
    destruct (startsWith _ "https://"); reflexivity.
  - intros scheme rest Hscheme ->.
    assert (Hne : truthy (scheme ++ rest) = true).
    { destruct scheme; [discriminate|reflexivity]. }
    rewrite Hne, toLowerCase_append, Hscheme, startsWith_append. reflexivity.
Qed.

Lemma https_checks_agree_witness :
  status (SeoChecker.checkHTTPS "HTTPS://Example.com") = pass
  /\ status (StaticChecker.checkHTTPS "HTTPS://Example.com") = pass.
Proof.
  destruct (https_checks_agree "HTTPS://Example.com") as [_ [Hstatic [_ [_ Hpass]]]].
  assert (Hseo : status (SeoChecker.checkHTTPS "HTTPS://Example.com") = pass)
    by (apply (Hpass "HTTPS://" "Example.com"); reflexivity).
  split; [exact Hseo|]. rewrite Hstatic; [exact Hseo|discriminate].
Defined.

(** ** Internal and external links *)

Lemma startsWith_http (href prefix : string) (c : ascii) :
  startsWith href "http" = true -> Ascii.eqb c "h" = false ->
  startsWith href (String c prefix) = false.
Proof.
  destruct href as [|a href]; [discriminate|]. cbn [startsWith].
  intros Hhttp Hc. apply andb_true_iff in Hhttp. destruct Hhttp as [Ha _].
  apply Ascii.eqb_eq in Ha. subst a. rewrite Hc. reflexivity.
Qed.

Lemma internal_or_external (baseDomain : string) (link : node) :
  SeoChecker.is_internal baseDomain link && SeoChecker.is_external baseDomain link = false.
Proof.
  unfold SeoChecker.is_internal, SeoChecker.is_external.
  destruct (getAttribute link "href") as [href|]; [|reflexivity].
  destruct (truthy href); [|reflexivity]. cbn [andb].
  destruct (startsWith href "http") eqn:Hhttp; [|rewrite andb_false_r; reflexivity].
  rewrite (startsWith_http href "" "/" Hhttp eq_refl).
  rewrite (startsWith_http href "" "#" Hhttp eq_refl).
  rewrite (startsWith_http href "/" "." Hhttp eq_refl).
  cbn [negb orb andb].
  destruct (truthy baseDomain); [|reflexivity].
  destruct (includes href baseDomain); reflexivity.
Qed.

Lemma count_disjoint {A : Type} (f g : A -> bool) (xs : list A) :
  (forall x, f x && g x = false) ->
  JS.count (filter f xs) + JS.count (filter g xs) <= JS.count xs.
Proof.
  intros Hfg. induction xs as [|x xs IH]; [unfold JS.count; simpl; lia|].
  cbn [filter]. specialize (Hfg x).
  destruct (f x); destruct (g x); try discriminate; rewrite ?count_cons; lia.
Qed.

(** X7.  The SEO battery counts no link both as internal and as external, so
    the two counts together do not exceed the number of links of the
    page.  When the URL cannot be parsed, no link counts as external,
    and the external link check warns that it found none. *)
Theorem links_are_counted_once
    (URL_hostname : string -> option string) (doc : Document) (url : string) :
  let allLinks := querySelectorAll doc [[[Tag "a"; HasAttr "href"]]] in
  let baseDomain := SeoChecker.baseDomain_of URL_hostname url in
  (forall link,
      SeoChecker.is_internal baseDomain link && SeoChecker.is_external baseDomain link = false)
  /\ JS.count (filter (SeoChecker.is_internal baseDomain) allLinks)
     + JS.count (filter (SeoChecker.is_external baseDomain) allLinks)
     <= JS.count allLinks
  /\ (URL_hostname url = None ->
      SeoChecker.checkExternalLinks URL_hostname doc url
      = mkCheck "External Links" warning 4 "No external links found."
          (Some "Consider linking to authoritative external sources to build trust.")).
Proof.
  cbv zeta. split; [|split].
  - intros link. apply internal_or_external.
  - apply count_disjoint. intros link. apply internal_or_external.
  - intros Hnone. unfold SeoChecker.checkExternalLinks, SeoChecker.baseDomain_of. cbv zeta.
    rewrite Hnone.
    assert (Hnever : forall links, filter (SeoChecker.is_external "") links = []).
    { intros links. apply filter_none. apply forallb_forall. intros link _.
      unfold SeoChecker.is_external. destruct (getAttribute link "href"); [|reflexivity].
      cbn [truthy String.eqb negb]. rewrite !andb_false_r. reflexivity. }
    rewrite Hnever. reflexivity.
Qed.

Lemma links_are_counted_once_witness :
  SeoChecker.checkExternalLinks (fun _ => None) empty_page "not a url"
  = mkCheck "External Links" warning 4 "No external links found."
      (Some "Consider linking to authoritative external sources to build trust.").
Proof.
  destruct (links_are_counted_once (fun _ => None) empty_page "not a url") as [_ [_ Hnone]].
  apply Hnone. reflexivity.
Defined.

(** ** Links to a privacy policy *)

Lemma startsWith_prefix (s a b : string) :
  startsWith s (a ++ b) = true -> startsWith s a = true.
Proof.
  revert s. induction a as [|c a IH]; intros s; [intros _; apply startsWith_empty|].
  destruct s as [|d s]; cbn [append startsWith]; [discriminate|].
  intros H. apply andb_true_iff in H. destruct H as [Hc H]. rewrite Hc. apply IH. exact H.
Qed.

Lemma includes_prefix (s a b : string) :
  includes s (a ++ b) = true -> includes s a = true.
Proof.
  induction s as [|d s IH]; cbn [includes]; intros H;
    apply orb_true_iff in H; destruct H as [H|H];
    try (rewrite (startsWith_prefix _ a b H); reflexivity); try discriminate.
  rewrite (IH H). apply orb_true_r.
Qed.

(** X8.  The ad-readiness battery takes a link for a privacy policy link
    exactly when [privacy] is in its address or in its text, letter case
    apart: the other three terms of its list hold that word.  This is
    the test of the static-site battery for its privacy page. *)
Theorem privacy_link_test (link : node) :
  AdsenseChecker.links_privacy link = StaticChecker.mentions "privacy" link.
Proof.
  unfold AdsenseChecker.links_privacy, StaticChecker.mentions, StaticChecker.href_or_empty.
  cbv zeta.
  set (href := toLowerCase match getAttribute link "href" with Some h => h | None => "" end).
  set (text := toLowerCase (textContent link)).
  unfold AdsenseChecker.privacyTerms. cbn [existsb].
  destruct (includes text "privacy"); [rewrite !orb_true_r; reflexivity|].
  rewrite !orb_false_r.
  destruct (includes href "privacy") eqn:Hprivacy; [reflexivity|].
  assert (Hlonger : forall rest, includes href ("privacy" ++ rest) = false).
  { intros rest. destruct (includes href ("privacy" ++ rest)) eqn:H; [|reflexivity].
    rewrite (includes_prefix _ _ _ H) in Hprivacy. discriminate. }
  pose proof (Hlonger "-policy") as Hdash. pose proof (Hlonger "_policy") as Hunder.
  pose proof (Hlonger "policy") as Hjoined. cbn [append] in Hdash, Hunder, Hjoined.
  rewrite Hdash, Hunder, Hjoined. reflexivity.
Qed.

(** ** Texts without the code units that a pattern needs *)

Lemma rmatch_needs (q : ascii -> bool) (r : regex) :
  needs q r ->
  forall (k : cont) (prev : option ascii) (s rest : string),
    rmatch r k prev s = Some rest ->
    exists m s', s = m ++ s' /\ all_chars (fun c => negb (q c)) m = false
                 /\ k (last_of prev m) s' = Some rest.
Proof.
  induction r as [|p|r1 IH1 r2 IH2|r1 IH1 r2 IH2|r IH| | | | |p];
    intros Hneeds k prev s rest Hmatch; cbn [needs] in Hneeds; try contradiction.
  - cbn [rmatch] in Hmatch. destruct s as [|c s]; [discriminate|].
    destruct (p c) eqn:Hc; [|discriminate].
    exists (str c), s. cbn [str append all_chars last_of]. rewrite (Hneeds c Hc). auto.
  - rewrite rmatch_Seq in Hmatch. destruct Hneeds as [H1|H2].
    + destruct (IH1 H1 _ _ _ _ Hmatch) as [m1 [s1 [Hs1 [Hm1 Hk1]]]].
      destruct (rmatch_consumes _ r2 (only_anything r2) _ _ _ _ Hk1)
        as [m2 [s2 [Hs2 [_ Hk2]]]].
      exists (m1 ++ m2), s2. subst.
      rewrite append_assoc, all_chars_append, Hm1, last_of_append. auto.
    + destruct (rmatch_consumes _ r1 (only_anything r1) _ _ _ _ Hmatch)
        as [m1 [s1 [Hs1 [_ Hk1]]]].
      destruct (IH2 H2 _ _ _ _ Hk1) as [m2 [s2 [Hs2 [Hm2 Hk2]]]].
      exists (m1 ++ m2), s2. subst.
      rewrite append_assoc, all_chars_append, Hm2, last_of_append, andb_false_r. auto.
  - cbn [rmatch] in Hmatch. destruct Hneeds as [H1 H2].
    destruct (rmatch r1 k prev s) as [x|] eqn:Hfirst.
    + inversion Hmatch; subst. apply (IH1 H1 _ _ _ _ Hfirst).
    + apply (IH2 H2 _ _ _ _ Hmatch).
Qed.

(** A pattern does not match in a text that holds none of the code
    units it needs. *)
Lemma test_from_needs (q : ascii -> bool) (re : regex) :
  needs q re ->
  forall (s : string) (prev : option ascii),
    all_chars (fun c => negb (q c)) s = true -> test_from re prev s = false.
Proof.
  intros Hneeds.
  assert (Hexec : forall s prev,
             all_chars (fun c => negb (q c)) s = true -> exec re prev s = None).
  { intros s prev Hs. destruct (exec re prev s) as [rest|] eqn:Hexec; [|reflexivity].
    unfold exec in Hexec.
    destruct (rmatch_needs q re Hneeds _ _ _ _ Hexec) as [m [s' [Hms [Hm _]]]].
    rewrite Hms, all_chars_append, Hm in Hs. discriminate. }
  induction s as [|c s IH]; intros prev Hs; rewrite test_from_unfold, (Hexec _ prev Hs);
    [reflexivity|].
  cbn [all_chars] in Hs. apply andb_true_iff in Hs. apply IH. apply Hs.
Qed.

Lemma match_from_no_match (re : regex) :
  forall (s : string) (fuel : nat) (prev : option ascii),
    test_from re prev s = false -> match_from re fuel prev s = [].
Proof.
  induction s as [|c s IH]; intros fuel prev Htest;
    rewrite test_from_unfold in Htest;
    destruct (exec re prev _) eqn:Hexec; try discriminate;
    destruct fuel as [|fuel]; try reflexivity;
    cbn [match_from]; rewrite Hexec; [reflexivity|].
  apply IH. exact Htest.
Qed.

Lemma test_Char (a : ascii) (s : string) :
  forall prev, test_from (Char (str a)) prev s = includes s (str a).
Proof.
  induction s as [|c s IH]; intros prev; [reflexivity|].
  rewrite test_from_unfold. unfold exec. cbn [Char str rmatch includes startsWith].
  unfold char_eqb. rewrite startsWith_empty, andb_true_r.
  destruct (Ascii.eqb a c); [reflexivity|]. apply IH.
Qed.

(** ** Plain prose *)

Lemma plain_not (p : ascii -> bool) :
  (forall c, p c = true -> plain c = false) ->
  forall c, p c = true -> negb (plain c) = true.
Proof. intros H c Hc. rewrite (H c Hc). reflexivity. Qed.

Lemma char_not_plain (a : ascii) :
  plain a = false -> forall c, char_eqb a c = true -> negb (plain c) = true.
Proof.
  intros Ha c Hc. unfold char_eqb in Hc. apply Ascii.eqb_eq in Hc. subst. rewrite Ha. reflexivity.
Qed.

Lemma digit_not_plain (c : ascii) : is_digit c = true -> negb (plain c) = true.
Proof.
  intros Hc. apply negb_true_iff. unfold plain, one_of, is_lower, is_space, is_digit, in_range in *.
  apply andb_true_iff in Hc. destruct Hc as [Hlo Hhi].
  apply N.leb_le in Hlo, Hhi.
  assert (H1 : (97 <=? code c)%N = false) by (apply N.leb_gt; lia).
  assert (H2 : (code c <=? 13)%N = false) by (apply N.leb_gt; lia).
  assert (H3 : (code c =? 32)%N = false) by (apply N.eqb_neq; lia).
  assert (H4 : (code c =? 160)%N = false) by (apply N.eqb_neq; lia).
  rewrite H1, H2, H3, H4, andb_false_r. cbn [andb orb].
  cbn [includes startsWith str].
  destruct (Ascii.eqb_spec c ".") as [->|_];
    [change (code ".") with 46%N in Hlo, Hhi; lia|].
  destruct (Ascii.eqb_spec c ",") as [->|_];
    [change (code ",") with 44%N in Hlo, Hhi; lia|].
  reflexivity.
Qed.

Lemma upper_not_plain (c : ascii) : is_upper c = true -> negb (plain c) = true.
Proof.
  intros Hc. apply negb_true_iff. unfold plain, one_of, is_lower, is_space, is_upper, in_range in *.
  apply andb_true_iff in Hc. destruct Hc as [Hlo Hhi].
  apply N.leb_le in Hlo, Hhi.
  assert (H1 : (97 <=? code c)%N = false) by (apply N.leb_gt; lia).
  assert (H2 : (code c <=? 13)%N = false) by (apply N.leb_gt; lia).
  assert (H3 : (code c =? 32)%N = false) by (apply N.eqb_neq; lia).
  assert (H4 : (code c =? 160)%N = false) by (apply N.eqb_neq; lia).
  rewrite H1, H2, H3, H4, andb_false_r. cbn [andb orb].
  cbn [includes startsWith str].
  destruct (Ascii.eqb_spec c ".") as [->|_];
    [change (code ".") with 46%N in Hlo, Hhi; lia|].
  destruct (Ascii.eqb_spec c ",") as [->|_];
    [change (code ",") with 44%N in Hlo, Hhi; lia|].
  reflexivity.
Qed.

Lemma mark_not_plain (c : ascii) : one_of "-*" c = true -> negb (plain c) = true.
Proof.
  unfold one_of. cbn [includes startsWith str]. rewrite !andb_true_r, !orb_false_r.
  intros Hc. apply orb_true_iff in Hc.
  destruct Hc as [Hc|Hc]; apply Ascii.eqb_eq in Hc; subst; reflexivity.
Qed.

Lemma needs_engagement :
  needs (fun c => negb (plain c)) (Char "?")
  /\ needs (fun c => negb (plain c)) (Char "!")
  /\ needs (fun c => negb (plain c)) LowValueAnalyzer.quotes_pattern
  /\ needs (fun c => negb (plain c)) LowValueAnalyzer.number_pattern
  /\ needs (fun c => negb (plain c)) LowValueAnalyzer.list_pattern.
Proof.
  unfold LowValueAnalyzer.quotes_pattern, LowValueAnalyzer.quoted,
    LowValueAnalyzer.number_pattern, LowValueAnalyzer.list_pattern, Plus, dquote.
  cbn [needs Char str].
  repeat split.
  - apply char_not_plain. reflexivity.
  - apply char_not_plain. reflexivity.
  - left. apply char_not_plain. reflexivity.
  - left. apply char_not_plain. reflexivity.
  - right. left. left. exact digit_not_plain.
  - right. right. left. exact mark_not_plain.
  - left. left. exact digit_not_plain.
Qed.

Lemma needs_specificity :
  Forall (needs (fun c => negb (plain c))) LowValueAnalyzer.specificPatterns.
Proof.
  unfold LowValueAnalyzer.specificPatterns, LowValueAnalyzer.capitalized, Plus.
  apply Forall_cons; [|apply Forall_cons; [|apply Forall_cons;
    [|apply Forall_cons; [|apply Forall_nil]]]]; cbn [needs Char str Lit].
  - right. left. left. exact digit_not_plain.
  - right. left. split; left; apply char_not_plain; reflexivity.
  - left. apply char_not_plain. reflexivity.
  - right. left. left. exact upper_not_plain.
Qed.

Lemma specificity_of_no_match (text : string) (patterns : list regex) (start : Z) :
  (forall re, In re patterns -> match_all re text = []) ->
  fold_left
    (fun specificityScore pattern =>
       match match_all pattern text with
       | [] => specificityScore
       | matches => specificityScore + Math_min (JS.count matches) 3
       end)
    patterns start = start.
Proof.
  revert start. induction patterns as [|re patterns IH]; intros start Hnone; [reflexivity|].
  cbn [fold_left]. rewrite (Hnone re (or_introl eq_refl)). apply IH.
  intros re' Hin. apply Hnone. right. exact Hin.
Qed.

(** X14.  A text of lower-case letters, white space, full stops and commas
    only holds nothing that the engagement and the specificity check
    look for: the first fails with score 1, the second warns with score
    1.  A question mark or an exclamation mark anywhere in a text is a
    signal, and then the engagement check does not fail. *)
Theorem plain_prose_has_no_signals (text : string) :
  (all_chars plain text = true ->
   status (LowValueAnalyzer.checkEngagement text) = fail
   /\ score (LowValueAnalyzer.checkEngagement text) = 1
   /\ status (LowValueAnalyzer.checkSpecificity text) = warning
   /\ score (LowValueAnalyzer.checkSpecificity text) = 1)
  /\ (includes text "?" = true \/ includes text "!" = true ->
      status (LowValueAnalyzer.checkEngagement text) <> fail).
Proof.
  split.
  - intros Hplain.
    assert (Hnone : forall re, needs (fun c => negb (plain c)) re -> test re text = false).
    { intros re Hre. apply (test_from_needs _ re Hre).
      rewrite <- Hplain. clear. induction text as [|c text IH]; [reflexivity|].
      cbn [all_chars]. rewrite IH, negb_involutive. reflexivity. }
    destruct needs_engagement as [Hq [He [Hquotes [Hnumbers Hlists]]]].
    unfold LowValueAnalyzer.checkEngagement. cbv zeta.
    rewrite (Hnone _ Hq), (Hnone _ He), (Hnone _ Hquotes), (Hnone _ Hnumbers),
      (Hnone _ Hlists).
    split; [reflexivity|]. split; [reflexivity|].
    assert (Hmatches : forall re, needs (fun c => negb (plain c)) re -> match_all re text = []).
    { intros re Hre. apply match_from_no_match. apply (Hnone re Hre). }
    pose proof needs_specificity as Hspecific. rewrite Forall_forall in Hspecific.
    unfold LowValueAnalyzer.checkSpecificity. cbv zeta.
    rewrite specificity_of_no_match
      by (intros re Hin; apply Hmatches; apply Hspecific; exact Hin).
    split; reflexivity.
  - intros Hmark. unfold LowValueAnalyzer.checkEngagement. cbv zeta.
    unfold test. rewrite (test_Char "?"), (test_Char "!"). unfold str.
    destruct Hmark as [Hmark|Hmark]; rewrite Hmark;
      repeat match goal with
             | |- context [test_from ?re None text] => destruct (test_from re None text)
             | |- context [includes text ?mark] => destruct (includes text mark)
             end; cbn; discriminate.
Qed.

Lemma plain_prose_has_no_signals_witness :
  LowValueAnalyzer.checkEngagement "the cat sat on the mat, and purred."
  = mkCheck "Engagement Elements" fail 1
      "No engagement elements detected. Content may feel flat."
      (Some "Add questions, examples with numbers, quotes, or lists to engage readers.")
  /\ status (LowValueAnalyzer.checkEngagement "the cat sat on the mat, and purred.") = fail.
Proof.
  split; [reflexivity|].
  apply (plain_prose_has_no_signals "the cat sat on the mat, and purred."). reflexivity.
Defined.

(** ** Phrases between word boundaries, on tokens *)

Import Phrases.

Lemma eqc_space (ci : bool) (c : ascii) : eqc ci " " c = space c.
Proof.
  unfold eqc, space, char_eqb_ci, char_eqb. rewrite (Ascii.eqb_sym c).
  destruct ci; [|reflexivity].
  change (is_upper " ") with false. change (is_lower " ") with false.
  cbn [andb orb]. rewrite !orb_false_r. reflexivity.
Qed.

Lemma space_not_word (c : ascii) : space c = true -> is_word c = false.
Proof. unfold space. intros H. apply Ascii.eqb_eq in H. subst. reflexivity. Qed.

(** A word of the pattern against a word of the text, a space following
    in the pattern. *)
Lemma strip_head (ci : bool) (q r : string) :
  stops is_word r = true ->
  forall (p w : string) (prev : option ascii),
    all_chars is_word p = true ->
    all_chars is_word w = true ->
    strip ci (p ++ String " " q) prev (w ++ r)
    = if lit_eq ci p w then strip ci (String " " q) (last_of prev w) r else None.
Proof.
  intros Hr. induction p as [|a p IH]; intros w prev Hpre Hw.
  - destruct w as [|c w]; [reflexivity|].
    cbn [all_chars] in Hw. apply andb_true_iff in Hw. destruct Hw as [Hc _].
    cbn [append strip lit_eq]. rewrite eqc_space.
    destruct (space c) eqn:Hsp; [|reflexivity].
    rewrite (space_not_word c Hsp) in Hc. discriminate.
  - cbn [all_chars] in Hpre. apply andb_true_iff in Hpre. destruct Hpre as [Ha Hpre].
    destruct w as [|c w].
    + cbn [append strip lit_eq]. destruct r as [|d r]; [reflexivity|].
      cbn [stops] in Hr. apply negb_true_iff in Hr.
      rewrite (eqc_word_only ci a d Ha Hr). reflexivity.
    + cbn [all_chars] in Hw. apply andb_true_iff in Hw. destruct Hw as [Hc Hw].
      cbn [append strip lit_eq last_of].
      destruct (eqc ci a c); [|reflexivity].
      cbn [andb]. apply IH; assumption.
Qed.

Lemma is_a_word_parts (w : string) :
  is_a_word w = true -> nonempty w = true /\ all_chars is_word w = true.
Proof. unfold is_a_word. intros H. apply andb_true_iff in H. exact H. Qed.

Lemma lit_eq_empty (ci : bool) (q : string) :
  nonempty q = true -> lit_eq ci q "" = false.
Proof. destruct q; [discriminate|reflexivity]. Qed.

Section OnePhrase.
Variable p : phrase.
Hypothesis Hproper : proper p = true.

Lemma proper_parts :
  is_a_word (head_word p) = true
  /\ match next_word p with
     | Some b => is_a_word b = true
     | None => True
     end
  /\ is_a_word (first_out p) = true
  /\ forallb (fun more => negb (is_word (fst more)) && is_a_word (snd more))
       (more_out p) = true.
Proof.
  unfold proper in Hproper.
  apply andb_true_iff in Hproper. destruct Hproper as [H Hmore].
  apply andb_true_iff in H. destruct H as [H Hfirst].
  apply andb_true_iff in H. destruct H as [Hhead Hnext].
  repeat split; try assumption.
  destruct (next_word p); [exact Hnext|exact I].
Qed.

Lemma wording_starts_with_word : is_word_at (wording p) = true.
Proof.
  destruct proper_parts as [Hhead _].
  apply is_a_word_parts in Hhead. destruct Hhead as [Hne Hw].
  unfold wording. destruct (head_word p) as [|a h]; [discriminate|].
  cbn [all_chars] in Hw. apply andb_true_iff in Hw.
  destruct (next_word p); cbn; apply Hw.
Qed.

(** At a separator or at the end of the text the phrase does not match. *)
Lemma phrase_at_separator (prev : option ascii) (s : string) :
  is_word_at s = false -> exec (phrase_regex p) prev s = None.
Proof.
  intros Hs. unfold phrase_regex. rewrite exec_word_regex, Hs.
  destruct (xorb (is_word_before prev) false); [|reflexivity].
  unfold bounded_strip.
  pose proof wording_starts_with_word as Hwording.
  destruct (wording p) as [|a from]; [discriminate|]. cbn [is_word_at] in Hwording.
  cbn [strip]. destruct s as [|c s]; [reflexivity|]. cbn [is_word_at] in Hs.
  rewrite (eqc_word_only _ a c Hwording Hs). reflexivity.
Qed.

(** Inside a word it does not match. *)
Lemma phrase_inside_word (prev : option ascii) (s : string) :
  is_word_before prev = true -> exec (phrase_regex p) prev s = None.
Proof.
  intros Hprev. apply whole_word_not_after_word; [|exact Hprev].
  apply wording_starts_with_word.
Qed.

(** At the start of a word it matches when the phrase begins there. *)
Lemma phrase_at_word (w : string) (ts : list token) (prev : option ascii) :
  well_formed (Word w :: ts) = true ->
  is_word_before prev = false ->
  exec (phrase_regex p) prev (flatten (Word w :: ts))
  = if begins p w ts then Some (flatten (beyond p ts)) else None.
Proof.
  intros Hwf Hprev.
  destruct (well_formed_word w ts Hwf) as [Hne [Hw [Hsw Hts]]].
  destruct proper_parts as [Hhead [Hnext _]].
  apply is_a_word_parts in Hhead. destruct Hhead as [Hhead_ne Hhead].
  unfold phrase_regex. rewrite exec_word_regex, Hprev, (is_word_at_flatten _ Hwf).
  cbn [starts_with_word xorb flatten].
  unfold wording, begins, beyond.
  destruct (next_word p) as [b|].
  - apply is_a_word_parts in Hnext. destruct Hnext as [Hb_ne Hb].
    unfold bounded_strip.
    change (head_word p ++ " " ++ b) with (head_word p ++ String " " b).
    rewrite (strip_head _ _ _ (stops_flatten ts Hts Hsw) _ _ _ Hhead Hw).
    destruct (lit_eq (any_case p) (head_word p) w); [|reflexivity].
    cbn [andb].
    destruct ts as [|[b'|c] ts]; [reflexivity|discriminate|].
    destruct (well_formed_sep c ts Hts) as [Hc Hts'].
    cbn [flatten strip]. rewrite eqc_space.
    destruct (space c) eqn:Hsp.
    2:{ destruct (peek (Sep c :: ts)) as [[c' b']|] eqn:Hpeek; [|reflexivity].
        destruct ts as [|[b''|d] ts]; try discriminate.
        cbn [peek] in Hpeek. injection Hpeek as <- <-. rewrite Hsp. reflexivity. }
    assert (Hbounded := fun w' r Hr Hw' =>
              bounded_strip_post (any_case p) r Hr b w' (Some c) Hb Hw').
    unfold bounded_strip in Hbounded.
    assert (Hnot_empty : b = EmptyString -> is_word_before (Some c) = true).
    { intros Hempty. rewrite Hempty in Hb_ne. discriminate. }
    destruct ts as [|[b'|d] ts].
    + change (flatten []) with ("" ++ ""). cbn [peek skipn].
      rewrite (Hbounded EmptyString EmptyString eq_refl eq_refl Hnot_empty).
      rewrite (lit_eq_empty _ _ Hb_ne). reflexivity.
    + destruct (well_formed_word b' ts Hts') as [Hb'_ne [Hb' [Hsw' Hts'']]].
      cbn [flatten peek skipn]. rewrite Hsp. cbn [andb].
      rewrite (Hbounded b' (flatten ts) (stops_flatten ts Hts'' Hsw') Hb' Hnot_empty).
      reflexivity.
    + destruct (well_formed_sep d ts Hts') as [Hd _].
      change (flatten (Sep d :: ts)) with ("" ++ String d (flatten ts)).
      cbn [peek skipn].
      rewrite (Hbounded EmptyString (String d (flatten ts))).
      * rewrite (lit_eq_empty _ _ Hb_ne). reflexivity.
      * cbn [stops]. rewrite Hd. reflexivity.
      * reflexivity.
      * exact Hnot_empty.
  - rewrite andb_true_r.
    apply (bounded_strip_post (any_case p) (flatten ts) (stops_flatten ts Hts Hsw)
             (head_word p) w prev Hhead Hw).
    intros Hempty. rewrite Hempty in Hhead_ne. discriminate.
Qed.

End OnePhrase.

(** ** Replacing and testing a phrase along the tokens *)

Lemma rephrase_word (p : phrase) (a : string) (ts : list token) :
  rephrase p (Word a :: ts)
  = if begins p a ts then (replacement p ++ rephrase p (beyond p ts))%list
    else Word a :: rephrase p ts.
Proof.
  unfold beyond. cbn [rephrase]. unfold begins.
  destruct (next_word p) as [b|]; [|reflexivity].
  destruct ts as [|[w|c] [|[b'|d] ts]]; cbn [peek skipn];
    rewrite ?andb_false_r; reflexivity.
Qed.

(** What a phrase takes from the tokens, and what it leaves. *)
Lemma begins_split (p : phrase) (w : string) (ts : list token) :
  well_formed (Word w :: ts) = true ->
  begins p w ts = true ->
  exists m,
    flatten (Word w :: ts) = m ++ flatten (beyond p ts)
    /\ nonempty m = true
    /\ well_formed (beyond p ts) = true
    /\ starts_with_word (beyond p ts) = false
    /\ (List.length (beyond p ts) <= List.length ts)%nat.
Proof.
  intros Hwf Hbegins.
  destruct (well_formed_word w ts Hwf) as [Hne [Hw [Hsw Hts]]].
  unfold begins in Hbegins. unfold beyond.
  destruct (next_word p) as [b|].
  - apply andb_true_iff in Hbegins. destruct Hbegins as [_ Hnext].
    destruct ts as [|[b0|c] [|[b'|d] ts]]; try discriminate.
    destruct (well_formed_sep c _ Hts) as [_ Hb'].
    destruct (well_formed_word b' ts Hb') as [_ [_ [Hsw' Hts']]].
    exists (w ++ String c b'). cbn [skipn flatten List.length].
    repeat split.
    + rewrite append_assoc. reflexivity.
    + destruct w; [discriminate|reflexivity].
    + exact Hts'.
    + exact Hsw'.
    + lia.
  - exists w. cbn [flatten]. repeat split; try assumption. lia.
Qed.

Section InsideWords.
Variable re : regex.
Variable by_ : string.
Hypothesis inside :
  forall prev s, is_word_before prev = true -> exec re prev s = None.

(** Inside a word the text is copied. *)
Lemma replace_from_in_word (r : string) :
  forall (w : string) (prev : option ascii) (fuel : nat),
    all_chars is_word w = true ->
    is_word_before prev = true ->
    (String.length (w ++ r) < fuel)%nat ->
    exists fuel',
      (String.length r < fuel')%nat
      /\ replace_from re by_ fuel prev (w ++ r)
         = w ++ replace_from re by_ fuel' (last_of prev w) r.
Proof.
  induction w as [|a w IH]; intros prev fuel Hw Hprev Hfuel.
  - exists fuel. split; [exact Hfuel|reflexivity].
  - cbn [all_chars] in Hw. apply andb_true_iff in Hw. destruct Hw as [Ha Hw].
    destruct fuel as [|fuel]; [lia|].
    change (String a w ++ r) with (String a (w ++ r)) in *.
    rewrite replace_from_S.
    rewrite (inside prev _ Hprev).
    cbn [String.length] in Hfuel.
    destruct (IH (Some a) fuel Hw Ha) as [fuel' [Hfuel' Heq]]; [lia|].
    exists fuel'. split; [exact Hfuel'|]. rewrite Heq. reflexivity.
Qed.

Lemma test_from_in_word (r : string) :
  forall (w : string) (prev : option ascii),
    all_chars is_word w = true ->
    is_word_before prev = true ->
    test_from re prev (w ++ r) = test_from re (last_of prev w) r.
Proof.
  induction w as [|a w IH]; intros prev Hw Hprev; [reflexivity|].
  cbn [all_chars] in Hw. apply andb_true_iff in Hw. destruct Hw as [Ha Hw].
  change (String a w ++ r) with (String a (w ++ r)).
  rewrite test_from_unfold.
  rewrite (inside prev _ Hprev).
  apply IH; assumption.
Qed.

End InsideWords.

Section AlongPhrase.
Variable p : phrase.
Hypothesis Hproper : proper p = true.

Let re : regex := phrase_regex p.
Let by_ : string := flatten (replacement p).

(** The replacement goes along the tokens. *)
Lemma replace_from_phrase (n : nat) :
  forall (ts : list token) (prev : option ascii) (fuel : nat),
    (List.length ts <= n)%nat ->
    well_formed ts = true ->
    is_word_before prev = false \/ starts_with_word ts = false ->
    (String.length (flatten ts) < fuel)%nat ->
    replace_from re by_ fuel prev (flatten ts)
    = flatten (rephrase p ts).
Proof.
  induction n as [|n IH]; intros ts prev fuel Hn Hwf Hstart Hfuel.
  - destruct ts; [|simpl in Hn; lia].
    destruct fuel as [|fuel]; [lia|].
    cbn [flatten rephrase]. rewrite replace_from_S. unfold re.
    rewrite (phrase_at_separator p Hproper prev EmptyString eq_refl). reflexivity.
  - destruct fuel as [|fuel]; [lia|].
    destruct ts as [|[w|c] ts].
    + cbn [flatten rephrase]. rewrite replace_from_S. unfold re.
      rewrite (phrase_at_separator p Hproper prev EmptyString eq_refl). reflexivity.
    + destruct Hstart as [Hprev|Hstart]; [|discriminate].
      destruct (well_formed_word w ts Hwf) as [Hne [Hw [Hsw Hts]]].
      rewrite replace_from_S, rephrase_word. unfold re at 1.
      rewrite (phrase_at_word p Hproper w ts prev Hwf Hprev).
      destruct (begins p w ts) eqn:Hbegins.
      * destruct (begins_split p w ts Hwf Hbegins)
          as [m [Hm [Hm_ne [Hwf' [Hsw' Hlen]]]]].
        rewrite Hm in Hfuel |- *. rewrite matched_append.
        destruct m as [|a m]; [discriminate|].
        rewrite flatten_app. fold by_. f_equal.
        apply IH.
        -- cbn [List.length] in Hn. lia.
        -- exact Hwf'.
        -- right. exact Hsw'.
        -- rewrite length_append in Hfuel. cbn [String.length] in Hfuel. lia.
      * destruct w as [|a w]; [discriminate|].
        cbn [flatten]. change (String a w ++ flatten ts) with (String a (w ++ flatten ts)).
        cbn [all_chars] in Hw. apply andb_true_iff in Hw. destruct Hw as [Ha Hw].
        cbn [flatten String.length] in Hfuel.
        destruct (replace_from_in_word re by_ (phrase_inside_word p Hproper)
                    (flatten ts) w (Some a) fuel Hw Ha)
          as [fuel' [Hfuel' Heq]].
        { change (String a w ++ flatten ts) with (String a (w ++ flatten ts)) in Hfuel.
          cbn [String.length] in Hfuel. lia. }
        rewrite Heq. cbn [append]. f_equal. f_equal.
        apply IH.
        -- cbn [List.length] in Hn. lia.
        -- exact Hts.
        -- right. exact Hsw.
        -- exact Hfuel'.
    + destruct (well_formed_sep c ts Hwf) as [Hc Hts].
      cbn [flatten rephrase]. rewrite replace_from_S. unfold re at 1.
      rewrite (phrase_at_separator p Hproper prev (String c (flatten ts)) Hc).
      f_equal. apply IH.
      * cbn [List.length] in Hn. lia.
      * exact Hts.
      * left. exact Hc.
      * cbn [flatten String.length] in Hfuel. lia.
Qed.

(** The test goes along the tokens. *)
Lemma test_from_phrase :
  forall (ts : list token) (prev : option ascii),
    well_formed ts = true ->
    is_word_before prev = false \/ starts_with_word ts = false ->
    test_from re prev (flatten ts) = holds (begins p) ts.
Proof.
  induction ts as [|[w|c] ts IH]; intros prev Hwf Hstart.
  - cbn [flatten holds]. rewrite test_from_unfold. unfold re.
    rewrite (phrase_at_separator p Hproper prev EmptyString eq_refl). reflexivity.
  - destruct Hstart as [Hprev|Hstart]; [|discriminate].
    destruct (well_formed_word w ts Hwf) as [Hne [Hw [Hsw Hts]]].
    rewrite test_from_unfold. cbn [holds]. unfold re at 1.
    rewrite (phrase_at_word p Hproper w ts prev Hwf Hprev).
    destruct (begins p w ts); [reflexivity|].
    destruct w as [|a w]; [discriminate|].
    cbn [flatten]. change (String a w ++ flatten ts) with (String a (w ++ flatten ts)).
    cbn [all_chars] in Hw. apply andb_true_iff in Hw. destruct Hw as [Ha Hw].
    cbv iota.
    rewrite (test_from_in_word re (phrase_inside_word p Hproper) (flatten ts) w (Some a) Hw Ha).
    cbn [orb]. apply IH; [exact Hts|right; exact Hsw].
  - destruct (well_formed_sep c ts Hwf) as [Hc Hts].
    cbn [flatten holds]. rewrite test_from_unfold. unfold re at 1.
    rewrite (phrase_at_separator p Hproper prev (String c (flatten ts)) Hc).
    apply IH; [exact Hts|left; exact Hc].
Qed.

End AlongPhrase.

(** ** Chains of replacements *)

Lemma starts_with_word_rephrase (p : phrase) (ts : list token) :
  starts_with_word ts = false -> starts_with_word (rephrase p ts) = false.
Proof. destruct ts as [|[w|c] ts]; [reflexivity|discriminate|reflexivity]. Qed.

Lemma well_formed_tokens_after (more : list (ascii * string)) (ts : list token) :
  forallb (fun more => negb (is_word (fst more)) && is_a_word (snd more)) more = true ->
  well_formed ts = true -> starts_with_word ts = false ->
  well_formed (tokens_after more ++ ts)%list = true
  /\ starts_with_word (tokens_after more ++ ts)%list = false.
Proof.
  intros Hmore Hwf Hsw. induction more as [|[c x] more IH]; [auto|].
  cbn [forallb fst snd] in Hmore.
  apply andb_true_iff in Hmore. destruct Hmore as [Hhere Hmore].
  apply andb_true_iff in Hhere. destruct Hhere as [Hc Hx].
  destruct (IH Hmore) as [Hwf' Hsw'].
  unfold is_a_word in Hx.
  cbn [tokens_after app well_formed starts_with_word].
  rewrite Hc, Hx, Hsw', Hwf'. auto.
Qed.

Lemma well_formed_replacement (p : phrase) (ts : list token) :
  proper p = true ->
  well_formed ts = true -> starts_with_word ts = false ->
  well_formed (replacement p ++ ts)%list = true.
Proof.
  intros Hproper Hwf Hsw.
  destruct (proper_parts p Hproper) as [_ [_ [Hfirst Hmore]]].
  destruct (well_formed_tokens_after _ ts Hmore Hwf Hsw) as [Hwf' Hsw'].
  unfold replacement, is_a_word in *.
  cbn [app well_formed].
  rewrite Hfirst, Hsw', Hwf'. reflexivity.
Qed.

Lemma well_formed_rephrase (p : phrase) (n : nat) :
  proper p = true ->
  forall ts,
    (List.length ts <= n)%nat ->
    well_formed ts = true ->
    well_formed (rephrase p ts) = true.
Proof.
  intros Hproper. induction n as [|n IH]; intros ts Hn Hwf.
  - destruct ts; [reflexivity|simpl in Hn; lia].
  - destruct ts as [|[w|c] ts]; [reflexivity| |].
    + destruct (well_formed_word w ts Hwf) as [Hne [Hw [Hsw Hts]]].
      rewrite rephrase_word.
      destruct (begins p w ts) eqn:Hbegins.
      * destruct (begins_split p w ts Hwf Hbegins) as [m [_ [_ [Hwf' [Hsw' Hlen]]]]].
        apply well_formed_replacement; [exact Hproper| |].
        -- apply IH; [cbn [List.length] in Hn; lia|exact Hwf'].
        -- apply starts_with_word_rephrase. exact Hsw'.
      * cbn [well_formed]. rewrite Hne, Hw.
        rewrite (starts_with_word_rephrase _ ts Hsw).
        rewrite IH; [reflexivity|cbn [List.length] in Hn; lia|exact Hts].
    + destruct (well_formed_sep c ts Hwf) as [Hc Hts].
      cbn [rephrase well_formed]. rewrite Hc.
      rewrite IH; [reflexivity|cbn [List.length] in Hn; lia|exact Hts].
Qed.

Lemma well_formed_rephrase_all (ps : list phrase) :
  forallb proper ps = true ->
  forall ts, well_formed ts = true -> well_formed (rephrase_all ps ts) = true.
Proof.
  induction ps as [|p ps IH]; intros Hproper ts Hwf; [exact Hwf|].
  cbn [forallb] in Hproper. apply andb_true_iff in Hproper. destruct Hproper as [Hp Hps].
  cbn [rephrase_all fold_left]. apply (IH Hps).
  apply (well_formed_rephrase p (List.length ts) Hp ts (le_n _) Hwf).
Qed.

(** One [replace] step of a chain is a replacement on tokens. *)
Lemma replace_by_phrase (p : phrase) (s : string) :
  proper p = true ->
  replace (phrase_regex p) (flatten (replacement p)) s
  = flatten (rephrase p (tokenize s)).
Proof.
  intros Hproper. unfold replace.
  pose proof (replace_from_phrase p Hproper (List.length (tokenize s)) (tokenize s) None
                (S (String.length s)) (le_n _) (well_formed_tokenize s)
                (or_introl eq_refl)) as H.
  rewrite flatten_tokenize in H. apply H. lia.
Qed.

Lemma test_by_phrase (p : phrase) (ts : list token) :
  proper p = true -> well_formed ts = true ->
  test (phrase_regex p) (flatten ts) = holds (begins p) ts.
Proof.
  intros Hproper Hwf. unfold test.
  apply (test_from_phrase p Hproper ts None Hwf). left. reflexivity.
Qed.

Lemma rewrite_all_by_phrases (ps : list phrase) :
  forallb proper ps = true ->
  forall ts,
    well_formed ts = true ->
    ContentHumanizer.rewrite_all (map phrase_step ps) (flatten ts)
    = flatten (rephrase_all ps ts).
Proof.
  induction ps as [|p ps IH]; intros Hproper ts Hwf; [reflexivity|].
  cbn [forallb] in Hproper. apply andb_true_iff in Hproper. destruct Hproper as [Hp Hps].
  change (map phrase_step (p :: ps))
    with ((any_case p, wording p, flatten (replacement p)) :: map phrase_step ps).
  rewrite rewrite_all_cons. cbn [rephrase_all fold_left].
  change (ContentHumanizer.word_regex (any_case p) (wording p)) with (phrase_regex p).
  rewrite (replace_by_phrase p (flatten ts) Hp).
  rewrite (tokenize_flatten ts Hwf).
  apply (IH Hps).
  apply (well_formed_rephrase p (List.length ts) Hp ts (le_n _) Hwf).
Qed.

Lemma holds_tail (h : string -> list token -> bool) (t : token) (ts : list token) :
  holds h (t :: ts) = false -> holds h ts = false.
Proof.
  destruct t as [a|c]; cbn [holds]; intros H; [|exact H].
  apply orb_false_iff in H. apply H.
Qed.

Lemma holds_beyond (h : string -> list token -> bool) (p : phrase) (ts : list token) :
  holds h ts = false -> holds h (beyond p ts) = false.
Proof.
  unfold beyond. destruct (next_word p); [|auto].
  destruct ts as [|t [|u ts]]; try (intros; reflexivity).
  cbn [skipn]. intros H. apply (holds_tail h u), (holds_tail h t). exact H.
Qed.

Lemma holds_weaken (h h' : string -> list token -> bool) (ts : list token) :
  (forall a us, h' a us = true -> h a us = true) ->
  holds h ts = false -> holds h' ts = false.
Proof.
  intros Hle. induction ts as [|[a|c] ts IH]; [reflexivity| |exact IH].
  cbn [holds]. intros H. apply orb_false_iff in H. destruct H as [Hhere Hts].
  apply orb_false_iff. split; [|exact (IH Hts)].
  destruct (h' a ts) eqn:Hab; [|reflexivity].
  rewrite (Hle a ts Hab) in Hhere. discriminate.
Qed.

Lemma holds_never (h : string -> list token -> bool) (ts : list token) :
  (forall a us, h a us = false) -> holds h ts = false.
Proof.
  intros Hnever. induction ts as [|[a|c] ts IH]; [reflexivity| |exact IH].
  cbn [holds]. rewrite Hnever, IH. reflexivity.
Qed.

(** Where the phrase is not, nothing is replaced. *)
Lemma rephrase_none (p : phrase) (ts : list token) :
  holds (begins p) ts = false -> rephrase p ts = ts.
Proof.
  induction ts as [|[a|c] ts IH]; [reflexivity| |].
  - rewrite rephrase_word. cbn [holds]. intros H.
    apply orb_false_iff in H. destruct H as [Hhere Hts].
    rewrite Hhere, (IH Hts). reflexivity.
  - cbn [holds rephrase]. intros H. rewrite (IH H). reflexivity.
Qed.

Section Contracting.
Variables j k : phrase.
Hypothesis Hapart : apart j k = true.

Lemma rephrase_first (b : string) (ts : list token) :
  exists us,
    rephrase j (Word b :: ts) = Word b :: us
    \/ rephrase j (Word b :: ts) = Word (first_out j) :: us.
Proof.
  rewrite rephrase_word.
  destruct (begins j b ts); [|eexists; left; reflexivity].
  eexists. right. reflexivity.
Qed.

Lemma peek_rephrase (ts : list token) (c : ascii) (b' : string) :
  peek (rephrase j ts) = Some (c, b') ->
  exists b, peek ts = Some (c, b) /\ (b' = b \/ b' = first_out j).
Proof.
  destruct ts as [|[w|d] ts].
  - discriminate.
  - destruct (rephrase_first w ts) as [us [H|H]]; rewrite H; discriminate.
  - cbn [rephrase]. destruct ts as [|[b|e] ts].
    + discriminate.
    + destruct (rephrase_first b ts) as [us [H|H]]; rewrite H; cbn [peek];
        intros Hpeek; injection Hpeek as Hc Hb; exists b; rewrite Hc; auto.
    + discriminate.
Qed.

(** The phrase [k] begins at no word of the replacement of [j]. *)
Lemma holds_tokens_after (us : list token) :
  forall (more : list (ascii * string)) (a : string),
    brings k a more = false ->
    holds (begins k) (Word a :: tokens_after more ++ us) = holds (begins k) us.
Proof.
  induction more as [|[c x] more IH]; intros a Hbrings; cbn [brings] in Hbrings;
    apply orb_false_iff in Hbrings; destruct Hbrings as [Hreach Hrest];
    unfold reach in Hreach.
  - cbn [tokens_after app holds]. unfold begins.
    destruct (lit_eq (any_case k) (head_word k) a); [|reflexivity].
    destruct (next_word k); discriminate.
  - rewrite <- (IH x Hrest).
    change (holds (begins k) (Word a :: tokens_after ((c, x) :: more) ++ us))
      with (begins k a (Sep c :: Word x :: tokens_after more ++ us)
            || holds (begins k) (Word x :: tokens_after more ++ us)).
    assert (Hhere : begins k a (Sep c :: Word x :: tokens_after more ++ us) = false).
    { unfold begins. cbn [peek].
      destruct (lit_eq (any_case k) (head_word k) a); [|reflexivity].
      cbn [andb] in *. destruct (next_word k) as [b|]; [|discriminate].
      exact Hreach. }
    rewrite Hhere. reflexivity.
Qed.

Lemma holds_replacement (us : list token) :
  holds (begins k) (replacement j ++ us) = holds (begins k) us.
Proof.
  unfold apart in Hapart. apply andb_true_iff in Hapart. destruct Hapart as [H _].
  apply negb_true_iff in H. apply (holds_tokens_after us _ _ H).
Qed.

(** After the occurrences of [j] are replaced, the occurrences of [k]
    that are left were there, and were not occurrences of [j]. *)
Lemma holds_rephrase (n : nat) :
  forall ts,
    (List.length ts <= n)%nat ->
    holds (fun a us => begins k a us && negb (begins j a us)) ts = false ->
    holds (begins k) (rephrase j ts) = false.
Proof.
  induction n as [|n IH]; intros ts Hn Hclean.
  - destruct ts; [reflexivity|simpl in Hn; lia].
  - destruct ts as [|[a|c] ts]; [reflexivity| |].
    + rewrite rephrase_word.
      pose proof Hclean as Hall.
      cbn [holds] in Hclean. apply orb_false_iff in Hclean.
      destruct Hclean as [Hhere Hclean].
      destruct (begins j a ts) eqn:Hbegins.
      * rewrite holds_replacement.
        apply IH.
        -- assert (Hlen : (List.length (beyond j ts) <= List.length ts)%nat).
           { unfold beyond. destruct (next_word j); [|lia].
             rewrite length_skipn. lia. }
           cbn [List.length] in Hn. lia.
        -- apply holds_beyond. exact Hclean.
      * cbn [holds]. apply orb_false_iff. split.
        -- cbn [negb] in Hhere. rewrite andb_true_r in Hhere.
           pose proof Hapart as Hends. unfold apart in Hends.
           apply andb_true_iff in Hends. destruct Hends as [_ Hends].
           unfold begins in *.
           destruct (lit_eq (any_case k) (head_word k) a); [|reflexivity].
           cbn [andb] in *.
           destruct (next_word k) as [b|]; [|exact Hhere].
           destruct (peek (rephrase j ts)) as [[c b']|] eqn:Hpeek; [|reflexivity].
           destruct (peek_rephrase ts c b' Hpeek) as [b0 [Hts [->| ->]]].
           ++ rewrite Hts in Hhere. exact Hhere.
           ++ apply negb_true_iff in Hends. rewrite Hends. apply andb_false_r.
        -- apply IH; [simpl in Hn; lia|exact Hclean].
    + cbn [rephrase holds] in *. apply IH; [simpl in Hn; lia|exact Hclean].
Qed.

End Contracting.

(** After the chain no phrase of the chain is left. *)
Lemma rephrase_all_clean (ps : list phrase) :
  forall (done : list phrase) (ts : list token),
    (forall j k, In j ps -> In k (done ++ ps) -> apart j k = true) ->
    (forall k, In k done -> holds (begins k) ts = false) ->
    forall k, In k (done ++ ps) -> holds (begins k) (rephrase_all ps ts) = false.
Proof.
  induction ps as [|j ps IH]; intros done ts Hapart Hdone k Hk.
  - rewrite app_nil_r in Hk. apply Hdone. exact Hk.
  - cbn [rephrase_all fold_left].
    apply (IH (done ++ [j])%list).
    + intros j' k' Hj' Hk'. apply Hapart; [right; exact Hj'|].
      rewrite <- app_assoc in Hk'. exact Hk'.
    + intros k' Hk'. apply in_app_or in Hk'. destruct Hk' as [Hk'|[<-|[]]].
      * apply (holds_rephrase j k') with (n := List.length ts).
        -- apply Hapart; [left; reflexivity|]. apply in_or_app. left. exact Hk'.
        -- apply le_n.
        -- apply (holds_weaken (begins k')); [|apply Hdone; exact Hk'].
           intros a us Hab. apply andb_true_iff in Hab. apply Hab.
      * apply (holds_rephrase j j) with (n := List.length ts).
        -- apply Hapart; [left; reflexivity|]. apply in_or_app. right. left. reflexivity.
        -- apply le_n.
        -- apply holds_never. intros a us. destruct (begins j a us); reflexivity.
    + rewrite <- app_assoc. exact Hk.
Qed.

(** After a chain of replacements none of which brings a phrase of the
    chain, the text holds no phrase of the chain. *)
Lemma chain_leaves_none (ps : list phrase) (text : string) (k : phrase) :
  forallb proper ps = true ->
  all_apart ps = true ->
  In k ps ->
  test (phrase_regex k) (ContentHumanizer.rewrite_all (map phrase_step ps) text) = false.
Proof.
  intros Hproper Hapart Hk.
  rewrite <- (flatten_tokenize text) at 1.
  rewrite (rewrite_all_by_phrases _ Hproper _ (well_formed_tokenize text)).
  assert (Hk_proper : proper k = true).
  { pose proof Hproper as Hall. rewrite forallb_forall in Hall. auto. }
  rewrite (test_by_phrase k _ Hk_proper
             (well_formed_rephrase_all _ Hproper _ (well_formed_tokenize text))).
  apply (rephrase_all_clean ps []).
  - intros j k' Hj Hk'. unfold all_apart in Hapart.
    rewrite forallb_forall in Hapart. specialize (Hapart j Hj).
    rewrite forallb_forall in Hapart. apply Hapart. exact Hk'.
  - intros k' [].
  - exact Hk.
Qed.

(** ** The contractions of the casual and the story tone *)

Lemma contraction_parts_are_the_steps :
  map phrase_step contraction_parts = ContentHumanizer.contractions.
Proof. reflexivity. Qed.

(** The chain of contractions leaves no phrase of its list. *)
Lemma contractions_leave_none (text : string) (k : phrase) :
  In k contraction_parts ->
  test (phrase_regex k)
    (ContentHumanizer.rewrite_all ContentHumanizer.contractions text) = false.
Proof.
  intros Hk. rewrite <- contraction_parts_are_the_steps.
  apply chain_leaves_none; [vm_compute; reflexivity|vm_compute; reflexivity|exact Hk].
Qed.

(** A chain of steps that do not match leaves the text as it is. *)
Lemma rewrite_all_none (steps : list (bool * string * string)) (text : string) :
  (forall ci from to,
      In (ci, from, to) steps ->
      test (ContentHumanizer.word_regex ci from) text = false) ->
  ContentHumanizer.rewrite_all steps text = text.
Proof.
  induction steps as [|[[ci from] to] steps IH]; intros Hnone; [reflexivity|].
  rewrite rewrite_all_cons.
  rewrite (replace_no_match _ _ _ (Hnone ci from to (or_introl eq_refl))).
  apply IH. intros ci' from' to' Hin. apply (Hnone ci' from' to'). right. exact Hin.
Qed.

Lemma contractions_step (text : string) (ci : bool) (from to : string) :
  In (ci, from, to) ContentHumanizer.contractions ->
  test (ContentHumanizer.word_regex ci from)
    (ContentHumanizer.rewrite_all ContentHumanizer.contractions text) = false.
Proof.
  intros Hstep.
  rewrite <- contraction_parts_are_the_steps in Hstep.
  apply in_map_iff in Hstep. destruct Hstep as [k [Hk Hin]].
  unfold phrase_step in Hk. injection Hk as <- <- _.
  apply (contractions_leave_none text k Hin).
Qed.

Lemma expansions_step (text : string) (ci : bool) (from to : string) :
  In (ci, from, to) ContentHumanizer.expansions ->
  test (ContentHumanizer.word_regex ci from)
    (ContentHumanizer.rewrite_all ContentHumanizer.expansions text) = false.
Proof.
  intros Hstep.
  rewrite <- expansion_parts_are_the_steps in Hstep.
  apply in_map_iff in Hstep. destruct Hstep as [k [Hk Hin]].
  unfold step_of in Hk. injection Hk as <- <- _.
  apply (expansions_leave_none text k Hin).
Qed.

Lemma humanizeText_last_stage (random : nat -> Q) (text tone : string) :
  exists rest,
    ContentHumanizer.humanizeText random text tone
    = ContentHumanizer.addHumanTouches rest tone.
Proof.
  unfold ContentHumanizer.humanizeText, ContentHumanizer.humanize,
    ContentHumanizer.bind, ContentHumanizer.ret.
  cbv zeta.
  destruct (ContentHumanizer.varySentenceStructure random _ 0%nat) as [sentences n].
  destruct (ContentHumanizer.addNaturalTransitions random sentences tone n)
    as [sentences' n'].
  eexists. reflexivity.
Qed.

Lemma addHumanTouches_contracts (text tone : string) :
  tone = "casual" \/ tone = "story" ->
  ContentHumanizer.addHumanTouches text tone
  = ContentHumanizer.rewrite_all ContentHumanizer.contractions text.
Proof. intros [-> | ->]; reflexivity. Qed.

(** X22.  In the casual and the story tone the output of the rewriter holds no
    whole-word occurrence of a phrase of its contraction list, whatever
    the input text and the random choices: [do not], [cannot],
    [will not], [should not], [would not], [could not], [it is],
    [that is], [what is], [there is], [you are], [they are], [we are] in
    any letter case, and [I am] as written, each with one space.  The last
    stage replaces each by its contraction as the list writes it, so that
    a capital is lost, and leaves a text without these phrases as it
    is. *)
Theorem casual_and_story_contract_listed_phrases
    (random : nat -> Q) (text tone : string) :
  tone = "casual" \/ tone = "story" ->
  (forall ci from to,
      In (ci, from, to) ContentHumanizer.contractions ->
      test (ContentHumanizer.word_regex ci from)
        (ContentHumanizer.humanizeText random text tone) = false)
  /\ ((forall ci from to,
          In (ci, from, to) ContentHumanizer.contractions ->
          test (ContentHumanizer.word_regex ci from) text = false) ->
      ContentHumanizer.addHumanTouches text tone = text)
  /\ ContentHumanizer.addHumanTouches "It is late. I do not know what is up" tone
     = "it's late. I don't know what's up".
Proof.
  intros Htone. split; [|split].
  - intros ci from to Hstep.
    destruct (humanizeText_last_stage random text tone) as [rest ->].
    rewrite (addHumanTouches_contracts rest tone Htone).
    apply (contractions_step rest ci from to Hstep).
  - intros Hnone. rewrite (addHumanTouches_contracts text tone Htone).
    apply rewrite_all_none. exact Hnone.
  - destruct Htone as [-> | ->]; vm_compute; reflexivity.
Qed.

Lemma casual_and_story_contract_listed_phrases_witness :
  In (true, "do not", "don't") ContentHumanizer.contractions
  /\ test (ContentHumanizer.word_regex true "do not")
       (ContentHumanizer.humanizeText (fun _ => (9 # 10)%Q)
          "We do not know. It is fine. They cannot come; you are late. I am sure."
          "casual") = false.
Proof.
  assert (Hin : In (true, "do not", "don't") ContentHumanizer.contractions)
    by (left; reflexivity).
  split; [exact Hin|].
  apply (proj1 (casual_and_story_contract_listed_phrases (fun _ => (9 # 10)%Q)
                  "We do not know. It is fine. They cannot come; you are late. I am sure."
                  "casual" (or_introl eq_refl))
           true "do not" "don't" Hin).
Defined.

(** X23.  The last stage of the rewriter is idempotent in every tone: applied
    to its own result, it changes nothing. *)
Theorem addHumanTouches_idempotent (text tone : string) :
  ContentHumanizer.addHumanTouches (ContentHumanizer.addHumanTouches text tone) tone
  = ContentHumanizer.addHumanTouches text tone.
Proof.
  unfold ContentHumanizer.addHumanTouches. cbv zeta.
  destruct (String.eqb tone "casual" || String.eqb tone "story") eqn:Hcontracts;
    destruct (String.eqb_spec tone "professional") as [->|Hother].
  - discriminate Hcontracts.
  - apply rewrite_all_none. intros ci from to Hstep.
    apply (contractions_step text ci from to Hstep).
  - apply rewrite_all_none. intros ci from to Hstep.
    apply (expansions_step text ci from to Hstep).
  - reflexivity.
Qed.

(** ** The dictionaries of the story and the professional tone *)

(** The loop over a dictionary of whole words is a chain of steps. *)
Lemma substitute_whole_words (table : list (string * string)) (sentence : string) :
  ContentHumanizer.substitute ContentHumanizer.whole_word table sentence
  = ContentHumanizer.rewrite_all (map (fun entry => (true, fst entry, snd entry)) table)
      sentence.
Proof.
  unfold ContentHumanizer.substitute, ContentHumanizer.rewrite_all.
  revert sentence. induction table as [|[key value] table IH]; intros sentence;
    [reflexivity|].
  cbn [map fold_left fst snd]. apply IH.
Qed.

Lemma dictionary_leaves_no_key (ps : list phrase) (sentence key : string) :
  forallb proper ps = true ->
  all_apart ps = true ->
  forallb any_case ps = true ->
  In key (keys (map phrase_entry ps)) ->
  test (ContentHumanizer.whole_word key)
    (ContentHumanizer.substitute ContentHumanizer.whole_word (map phrase_entry ps)
       sentence) = false.
Proof.
  intros Hproper Hapart Hcase Hkey.
  unfold keys in Hkey. rewrite map_map in Hkey.
  apply in_map_iff in Hkey. destruct Hkey as [k [<- Hk]].
  rewrite substitute_whole_words, map_map.
  assert (Hsteps : map (fun p => (true, fst (phrase_entry p), snd (phrase_entry p))) ps
                   = map phrase_step ps).
  { apply map_ext_in. intros p Hp. rewrite forallb_forall in Hcase.
    unfold phrase_step, phrase_entry. cbn [fst snd]. rewrite (Hcase p Hp). reflexivity. }
  rewrite Hsteps.
  pose proof (chain_leaves_none ps sentence k Hproper Hapart Hk) as Hnone.
  unfold phrase_regex in Hnone. rewrite forallb_forall in Hcase.
  rewrite (Hcase k Hk) in Hnone. exact Hnone.
Qed.

Lemma story_parts_are_the_entries :
  map phrase_entry story_parts = ContentHumanizer.storyReplacements.
Proof. reflexivity. Qed.

Lemma professional_parts_are_the_entries :
  map phrase_entry professional_parts = ContentHumanizer.professionalReplacements.
Proof. reflexivity. Qed.

Lemma story_leaves_no_key (sentence key : string) :
  In key (keys ContentHumanizer.storyReplacements) ->
  test (ContentHumanizer.whole_word key)
    (ContentHumanizer.substitute ContentHumanizer.whole_word
       ContentHumanizer.storyReplacements sentence) = false.
Proof.
  rewrite <- story_parts_are_the_entries.
  apply dictionary_leaves_no_key; vm_compute; reflexivity.
Qed.

Lemma professional_leaves_no_key (sentence key : string) :
  In key (keys ContentHumanizer.professionalReplacements) ->
  test (ContentHumanizer.whole_word key)
    (ContentHumanizer.substitute ContentHumanizer.whole_word
       ContentHumanizer.professionalReplacements sentence) = false.
Proof.
  rewrite <- professional_parts_are_the_entries.
  apply dictionary_leaves_no_key; vm_compute; reflexivity.
Qed.

(** X24.  After the step of the story tone, and after the step of the
    professional tone, no sentence holds a key of the dictionary of the
    step as a whole word, in any letter case: no replacement brings a key
    back.  Both steps are therefore idempotent. *)
Theorem tone_steps_leave_no_key (sentences : list string) :
  (forall s key,
      In s (ContentHumanizer.applyStoryTone sentences) ->
      In key (keys ContentHumanizer.storyReplacements) ->
      test (ContentHumanizer.whole_word key) s = false)
  /\ (forall s key,
         In s (ContentHumanizer.applyProfessionalTone sentences) ->
         In key (keys ContentHumanizer.professionalReplacements) ->
         test (ContentHumanizer.whole_word key) s = false)
  /\ ContentHumanizer.applyStoryTone (ContentHumanizer.applyStoryTone sentences)
     = ContentHumanizer.applyStoryTone sentences
  /\ ContentHumanizer.applyProfessionalTone
       (ContentHumanizer.applyProfessionalTone sentences)
     = ContentHumanizer.applyProfessionalTone sentences.
Proof.
  assert (Hstory : forall s key,
             In s (ContentHumanizer.applyStoryTone sentences) ->
             In key (keys ContentHumanizer.storyReplacements) ->
             test (ContentHumanizer.whole_word key) s = false).
  { intros s key Hs Hkey. unfold ContentHumanizer.applyStoryTone in Hs.
    apply in_map_iff in Hs. destruct Hs as [s0 [<- _]].
    apply story_leaves_no_key. exact Hkey. }
  assert (Hprofessional : forall s key,
             In s (ContentHumanizer.applyProfessionalTone sentences) ->
             In key (keys ContentHumanizer.professionalReplacements) ->
             test (ContentHumanizer.whole_word key) s = false).
  { intros s key Hs Hkey. unfold ContentHumanizer.applyProfessionalTone in Hs.
    apply in_map_iff in Hs. destruct Hs as [s0 [<- _]].
    apply professional_leaves_no_key. exact Hkey. }
  split; [exact Hstory|]. split; [exact Hprofessional|]. split.
  - unfold ContentHumanizer.applyStoryTone at 1. apply map_unchanged.
    intros s Hs. apply substitute_no_match. intros key Hkey. apply Hstory; assumption.
  - unfold ContentHumanizer.applyProfessionalTone at 1. apply map_unchanged.
    intros s Hs. apply substitute_no_match. intros key Hkey.
    apply Hprofessional; assumption.
Qed.

Lemma tone_steps_leave_no_key_witness :
  In "We obtain numerous assist."
    (ContentHumanizer.applyProfessionalTone ["We get lots of help."])
  /\ In "get" (keys ContentHumanizer.professionalReplacements)
  /\ test (ContentHumanizer.whole_word "get") "We obtain numerous assist." = false.
Proof.
  assert (Hs : In "We obtain numerous assist."
                 (ContentHumanizer.applyProfessionalTone ["We get lots of help."]))
    by (left; vm_compute; reflexivity).
  assert (Hkey : In "get" (keys ContentHumanizer.professionalReplacements))
    by (vm_compute; tauto).
  split; [exact Hs|]. split; [exact Hkey|].
  apply (proj1 (proj2 (tone_steps_leave_no_key ["We get lots of help."]))
           "We obtain numerous assist." "get" Hs Hkey).
Defined.

(** ** The sentences of a text *)

Lemma exec_sentence_gap (prev : option ascii) (s rest : string) :
  exec ContentHumanizer.sentence_gap prev s = Some rest ->
  exists d, prev = Some d /\ one_of ".!?" d = true.
Proof.
  unfold exec, ContentHumanizer.sentence_gap. rewrite rmatch_Seq. cbn [rmatch].
  destruct prev as [d|]; [|discriminate].
  destruct (one_of ".!?" d) eqn:Hd; [|discriminate].
  intros _. exists d. auto.
Qed.

Lemma needs_sentence_gap : needs is_space ContentHumanizer.sentence_gap.
Proof.
  unfold ContentHumanizer.sentence_gap, whitespace, Plus. cbn [needs]. auto.
Qed.

(** The last code unit of a text that is not empty. *)
Lemma last_of_all (q : ascii -> bool) (m : string) (prev : option ascii) :
  m <> "" -> all_chars q m = true ->
  exists c, last_of prev m = Some c /\ q c = true.
Proof.
  revert prev. induction m as [|a m IH]; intros prev Hne Hall; [congruence|].
  cbn [all_chars] in Hall. apply andb_true_iff in Hall. destruct Hall as [Ha Hm].
  cbn [last_of]. destruct m as [|b m].
  - exists a. auto.
  - apply IH; [discriminate|exact Hm].
Qed.

Lemma space_ends_no_sentence (c : ascii) : is_space c = true -> one_of ".!?" c = false.
Proof.
  intros Hc. destruct (one_of ".!?" c) eqn:Hone; [|reflexivity].
  unfold one_of, str in Hone.
  destruct (Ascii.eqb_spec c ".") as [->|H1]; [discriminate|].
  destruct (Ascii.eqb_spec c "!") as [->|H2]; [discriminate|].
  destruct (Ascii.eqb_spec c "?") as [->|H3]; [discriminate|].
  exfalso. revert Hone. unfold includes. cbn.
  destruct c as [[] [] [] [] [] [] [] []]; cbn; try discriminate; congruence.
Qed.

Lemma removelast_cons {A : Type} (x : A) (l : list A) :
  l <> [] -> removelast (x :: l) = x :: removelast l.
Proof. destruct l; [congruence|reflexivity]. Qed.

(** A sentence gap follows the end of a sentence: the piece before it
    ends with a mark. *)
Lemma split_from_sentences :
  forall (fuel : nat) (seg : string) (prev : option ascii) (s : string),
    last_of None seg = prev
    \/ (seg = "" /\ forall c, prev = Some c -> one_of ".!?" c = false) ->
    forallb ends_sentence
      (removelast (split_from ContentHumanizer.sentence_gap fuel seg prev s)) = true.
Proof.
  induction fuel as [|fuel IH]; intros seg prev s Hinv; [reflexivity|].
  cbn [split_from]. destruct s as [|c s]; [reflexivity|].
  assert (Hadvance :
    forallb ends_sentence
      (removelast (split_from ContentHumanizer.sentence_gap fuel (seg ++ str c) (Some c) s))
    = true).
  { apply IH. left. rewrite last_of_append. reflexivity. }
  destruct (exec ContentHumanizer.sentence_gap prev (String c s)) as [rest|] eqn:Hexec;
    [|exact Hadvance].
  destruct (exec_sentence_gap _ _ _ Hexec) as [d [Hprev Hd]].
  unfold exec in Hexec.
  destruct (rmatch_needs is_space _ needs_sentence_gap _ _ _ _ Hexec)
    as [m [s' [Hs [Hm Hk]]]].
  injection Hk as ->.
  destruct (exec_consumes is_space _ prev (String c s) rest only_sentence_gap Hexec)
    as [m' [Hs' Hspaces]].
  assert (Hmatched : matched (String c s) rest = m').
  { rewrite Hs'. apply matched_append. }
  assert (Hne : m' <> "").
  { intros Hempty. rewrite Hs' in Hs. rewrite Hempty in Hs. cbn [append] in Hs.
    assert (Hlen : String.length rest = String.length (m ++ rest)) by (rewrite <- Hs; reflexivity).
    rewrite length_append in Hlen.
    destruct m as [|a m]; [discriminate|]. cbn [String.length] in Hlen. lia. }
  rewrite Hmatched.
  destruct Hinv as [Hlast|[_ Hnone]].
  2:{ rewrite (Hnone d Hprev) in Hd. discriminate. }
  destruct seg as [|a seg]; [rewrite Hprev in Hlast; discriminate|].
  rewrite removelast_cons by apply split_from_not_nil.
  cbn [forallb]. apply andb_true_iff. split.
  - unfold ends_sentence. rewrite Hlast, Hprev. exact Hd.
  - apply IH. right. split; [reflexivity|].
    destruct (last_of_all is_space m' prev Hne Hspaces) as [e [He Hspace]].
    intros e' He'. rewrite He in He'. injection He' as <-.
    apply space_ends_no_sentence. exact Hspace.
Qed.

Lemma removelast_filter {A : Type} (f g : A -> bool) (l : list A) :
  forallb g (removelast l) = true -> forallb g (removelast (filter f l)) = true.
Proof.
  induction l as [|x l IH]; [reflexivity|].
  destruct l as [|y l].
  - intros _. cbn [filter]. destruct (f x); reflexivity.
  - rewrite removelast_cons by discriminate. cbn [forallb]. intros H.
    apply andb_true_iff in H. destruct H as [Hx Hl].
    change (filter f (x :: y :: l)) with (if f x then x :: filter f (y :: l) else filter f (y :: l)).
    destruct (f x); [|exact (IH Hl)].
    destruct (filter f (y :: l)) as [|z zs] eqn:Hfilter; [reflexivity|].
    rewrite removelast_cons by discriminate. cbn [forallb].
    rewrite Hx. exact (IH Hl).
Qed.

Lemma keep_filter (l : list string) :
  keep (fun c => negb (is_space c))
    (String.concat "" (filter (fun s => 0 <? JS.length (trim s)) l))
  = keep (fun c => negb (is_space c)) (String.concat "" l).
Proof.
  induction l as [|x l IH]; [reflexivity|].
  cbn [filter]. rewrite (concat_cons x l), keep_append, <- IH.
  destruct (0 <? JS.length (trim x)) eqn:Hx.
  - rewrite concat_cons, keep_append. reflexivity.
  - assert (Hblank : blank x = true).
    { destruct (blank x) eqn:Hb; [reflexivity|].
      pose proof (trim_not_blank x Hb) as Hne.
      destruct (trim x); [congruence|discriminate]. }
    rewrite (keep_none is_space x Hblank). reflexivity.
Qed.

(** X27.  [splitIntoSentences] loses white space only: the other code units of
    the sentences, in order, are those of the text.  No sentence is
    blank, and every sentence but the last ends with a full stop, an
    exclamation mark or a question mark. *)
Theorem sentences_of_a_text (text : string) :
  let sentences := ContentHumanizer.splitIntoSentences text in
  keep (fun c => negb (is_space c)) (String.concat "" sentences)
  = keep (fun c => negb (is_space c)) text
  /\ forallb (fun s => negb (blank s)) sentences = true
  /\ forallb ends_sentence (removelast sentences) = true.
Proof.
  cbv zeta. split; [|split].
  - unfold ContentHumanizer.splitIntoSentences. cbv zeta.
    rewrite keep_filter. apply split_keeps. apply only_sentence_gap.
  - apply sentences_not_blank.
  - unfold ContentHumanizer.splitIntoSentences. cbv zeta.
    apply removelast_filter. unfold split. destruct text as [|c text].
    + destruct (exec ContentHumanizer.sentence_gap None ""); reflexivity.
    + apply split_from_sentences. right. split; [reflexivity|discriminate].
Qed.

(** ** The handler of the rewriter *)

(** X26.  [handleHumanize] shows an error exactly when the trimmed input has
    fewer than 50 code units; otherwise it shows the rewriting of the
    trimmed input, which is not blank, and the statistics of the two
    texts. *)
Theorem humanize_gate (random : nat -> Q) (value toneSelect : string) :
  match Handlers.handleHumanize random value toneSelect with
  | Handlers.displayed (humanizedText, stats) =>
      50 <= JS.length (trim value)
      /\ humanizedText = ContentHumanizer.humanizeText random (trim value) toneSelect
      /\ blank humanizedText = false
      /\ stats = Handlers.updateStats (trim value) humanizedText
  | Handlers.error _ => JS.length (trim value) < 50
  end.
Proof.
  unfold Handlers.handleHumanize. cbv zeta.
  destruct (truthy (trim value)) eqn:Htruthy; cbn [negb].
  - destruct (Z.ltb_spec (JS.length (trim value)) 50) as [Hshort|Hlong]; [exact Hshort|].
    repeat split; [exact Hlong|].
    apply humanizeText_not_blank.
    destruct (trim_shape value) as [Hempty|[c [r [Hshape Hc]]]].
    + rewrite Hempty in Htruthy. discriminate.
    + rewrite Hshape. unfold blank. cbn [all_chars]. rewrite Hc. reflexivity.
  - rewrite truthy_length in Htruthy. apply Z.ltb_ge in Htruthy. lia.
Qed.

(** ** The essential pages of a static site *)

(** X25.  [checkEssentialPages] passes exactly when links to the four kinds of
    page are found.  It never names the terms page as missing: a page
    that links to the other three kinds only gets the warning that ends
    with [Missing: .], and no other page does. *)
Theorem essential_pages_verdicts (doc : Document) :
  let allLinks := querySelectorAll doc [[[Tag "a"; HasAttr "href"]]] in
  let hasPrivacy := existsb (StaticChecker.mentions "privacy") allLinks in
  let hasAbout := existsb (StaticChecker.mentions "about") allLinks in
  let hasContact := existsb (StaticChecker.mentions "contact") allLinks in
  let hasTerms :=
    existsb (fun link => StaticChecker.mentions "terms" link
                         || includes (toLowerCase (StaticChecker.href_or_empty link)) "tos")
      allLinks in
  let check := StaticChecker.checkEssentialPages doc in
  (status check = pass
   <-> hasPrivacy = true /\ hasAbout = true /\ hasContact = true /\ hasTerms = true)
  /\ (message check = "Most essential pages found (3/4). Missing: ."
      <-> hasPrivacy = true /\ hasAbout = true /\ hasContact = true /\ hasTerms = false)
  /\ (hasPrivacy = true /\ hasAbout = true /\ hasContact = true /\ hasTerms = false ->
      status check = warning /\ score check = 10
      /\ suggestion check = Some "Consider adding the missing pages.").
Proof.
  cbv zeta. unfold StaticChecker.checkEssentialPages. cbv zeta.
  destruct (existsb (StaticChecker.mentions "privacy") _);
    destruct (existsb (StaticChecker.mentions "about") _);
    destruct (existsb (StaticChecker.mentions "contact") _);
    destruct (existsb (fun link => StaticChecker.mentions "terms" link || _) _);
    vm_compute;
    repeat split; intros; repeat match goal with
                  | H : _ /\ _ |- _ => destruct H
                  end; try discriminate; try reflexivity.
Qed.

Lemma essential_pages_verdicts_witness :
  message (StaticChecker.checkEssentialPages
             (page [] [Element "a" [("href", "/privacy")] [Text "Privacy"];
                       Element "a" [("href", "/about")] [Text "About"];
                       Element "a" [("href", "/contact")] [Text "Contact"]]))
  = "Most essential pages found (3/4). Missing: .".
Proof.
  apply (proj2 (proj1 (proj2
           (essential_pages_verdicts
              (page [] [Element "a" [("href", "/privacy")] [Text "Privacy"];
                        Element "a" [("href", "/about")] [Text "About"];
                        Element "a" [("href", "/contact")] [Text "Contact"]]))))).
  vm_compute. auto.
Defined.

(** ** Sentences of one length *)

Lemma sum_Q_from (xs : list Q) (acc : Q) :
  (fold_left Qplus xs acc == acc + fold_left Qplus xs 0)%Q.
Proof.
  revert acc. induction xs as [|x xs IH]; intros acc; cbn [fold_left].
  - ring.
  - rewrite (IH (acc + x)%Q), (IH (0 + x)%Q). ring.
Qed.

Lemma sum_Q_repeat (q : Q) (n : nat) :
  (LowValueAnalyzer.sum_Q (repeat q n) == inject_Z (Z.of_nat n) * q)%Q.
Proof.
  unfold LowValueAnalyzer.sum_Q. induction n as [|n IH].
  - cbn. ring.
  - cbn [repeat fold_left]. rewrite sum_Q_from, IH.
    rewrite Nat2Z.inj_succ. unfold Z.succ. rewrite inject_Z_plus. ring.
Qed.

Lemma map_constant {A B : Type} (f : A -> B) (b : B) (xs : list A) :
  (forall x, In x xs -> f x = b) -> map f xs = repeat b (List.length xs).
Proof.
  induction xs as [|x xs IH]; intros H; [reflexivity|].
  cbn [map List.length repeat]. rewrite (H x (or_introl eq_refl)), IH; [reflexivity|].
  intros y Hy. apply H. right. exact Hy.
Qed.

Lemma map_repeat {A B : Type} (f : A -> B) (a : A) (n : nat) :
  map f (repeat a n) = repeat (f a) n.
Proof. induction n as [|n IH]; [reflexivity|]. cbn [repeat map]. rewrite IH. reflexivity. Qed.

(** X28.  From five sentences on, a text whose sentences all have the same
    number of words is reported as uniform: the deviation of the lengths
    is 0, and their average, at least 1, is a divisor that is not 0. *)
Theorem sentences_of_one_length_fail (text : string) (n : Z) :
  let sentences :=
    filter (fun s => 0 <? JS.length (trim s)) (split LowValueAnalyzer.sentence_end text) in
  5 <= JS.count sentences ->
  (forall s, In s sentences -> JS.count (split whitespace (trim s)) = n) ->
  LowValueAnalyzer.checkSentenceVariety text
  = mkCheck "Sentence Variety" fail 4
      "Very uniform sentence lengths. Reads robotically."
      (Some "Mix short, punchy sentences with longer, complex ones. Vary your rhythm.").
Proof.
  cbv zeta. intros Hfive Hsame.
  unfold LowValueAnalyzer.checkSentenceVariety. cbv zeta.
  set (sentences := filter _ (split LowValueAnalyzer.sentence_end text)) in *.
  destruct (Z.ltb_spec (JS.count sentences) 5) as [Hfew|_]; [lia|].
  assert (Hn : 1 <= n).
  { destruct sentences as [|s rest]; [unfold JS.count in Hfive; simpl in Hfive; lia|].
    rewrite <- (Hsame s (or_introl eq_refl)). apply split_count_positive. }
  rewrite (map_constant _ (of_int n) sentences).
  2:{ intros s Hs. rewrite (Hsame s Hs). reflexivity. }
  set (k := List.length sentences).
  assert (Hk : (0 < inject_Z (Z.of_nat k))%Q).
  { unfold JS.count in Hfive. fold k in Hfive.
    change 0%Q with (inject_Z 0). rewrite <- Zlt_Qlt. lia. }
  assert (Hcount : JS.count (repeat (of_int n) k) = Z.of_nat k).
  { unfold JS.count. rewrite repeat_length. reflexivity. }
  rewrite Hcount.
  set (avgLength := (LowValueAnalyzer.sum_Q (repeat (of_int n) k) / of_int (Z.of_nat k))%Q).
  assert (Havg : (avgLength == inject_Z n)%Q).
  { unfold avgLength. rewrite sum_Q_repeat. unfold of_int. field.
    intros H. rewrite H in Hk. apply (Qlt_irrefl _ Hk). }
  assert (Hbelow : LowValueAnalyzer.cv_below
                     (LowValueAnalyzer.sum_Q
                        (map (fun len => ((len - avgLength) * (len - avgLength))%Q)
                           (repeat (of_int n) k))
                      / of_int (Z.of_nat k)) avgLength (2 # 10) = true).
  { unfold LowValueAnalyzer.cv_below, Qlt_bool. apply negb_true_iff.
    rewrite <- not_true_iff_false, Qle_bool_iff. apply Qlt_not_le.
    rewrite map_repeat, sum_Q_repeat, Havg. unfold of_int.
    assert (Hzero : (inject_Z (Z.of_nat k)
                     * ((inject_Z n - inject_Z n) * (inject_Z n - inject_Z n))
                     / inject_Z (Z.of_nat k) == 0)%Q).
    { field. intros H. rewrite H in Hk. apply (Qlt_irrefl _ Hk). }
    rewrite Hzero.
    assert (Hpos : (0 < (2 # 10) * inject_Z n)%Q).
    { apply Qmult_lt_0_compat; [reflexivity|].
      change 0%Q with (inject_Z 0). rewrite <- Zlt_Qlt. lia. }
    apply Qmult_lt_0_compat; exact Hpos. }
  rewrite Hbelow. reflexivity.
Qed.

Lemma sentences_of_one_length_fail_witness :
  status (LowValueAnalyzer.checkSentenceVariety poor_text) = fail.
Proof.
  rewrite (sentences_of_one_length_fail poor_text 42).
  - reflexivity.
  - vm_compute. discriminate.
  - intros s Hs. vm_compute in Hs.
    repeat (destruct Hs as [<-|Hs]; [vm_compute; reflexivity|]).
    destruct Hs.
Defined.
